(* ===== verification/_CoqProject ===== *)
-Q . S2P
Prelude.v
Text.v
Lossy.v
Numeric.v
CStr.v
CStrConv.v
ErrorLog.v
MapFile.v
Patch.v
Cpio.v
CpioOps.v
CpioBackup.v
Args.v
Derive.v
Help.v
CpioCli.v
Statement.v
Grammar.v
PolicyHelp.v
Policy.v
PolicyDb.v
Files.v
Compress.v
Dtb.v
BootCli.v
Apk.v
Db.v
SqlExec.v
Dir.v
FileTree.v
Attr.v
DirFd.v
Contexts.v
Package.v
Manager.v
Su.v
Access.v
Notify.v
Pts.v
Socket.v
FdPass.v
DeriveCodec.v
Daemon.v
Magisk.v
Logging.v
LogStart.v
Pool.v
Payload.v
Sign.v
Persist.v
ResetProp.v
PropMain.v
Zygisk.v
Companion.v
Preinit.v
PreinitDir.v
SwitchRoot.v
Init.v
InitLog.v
InitPolicy.v
Boot.v
Module.v
ZygiskLibs.v
Union.v
Inject.v
Mount.v
ModuleRun.v
Startup.v
AtomicArc.v
