(* ===== verification/Prelude.v ===== *)
(** Verification of the native part of Magisk (native/src, in Rust).

    * The program

    Magisk is a set of programs that share the library base.  [magiskboot] (boot) edits boot
    images: archives of the ramdisk, fstab flags, device trees, compression, signatures,
    binary patches, OTA payloads.  [magiskpolicy] (sepolicy) changes the SELinux policy by
    statements.  [magiskinit] (init) is the first process: it sets up the files of Magisk,
    gets its rules into the policy, and runs the original init.  The daemon (core) is
    started at boot, runs the boot stages, mounts the modules over the system partitions,
    answers requests for root, looks after the manager app, serves Zygisk and changes system
    properties.  The programs use base for strings, files, directories and command lines.

    * The files, in the order they depend on each other

    - Prelude: outcomes of Rust calls ([res]: [Ok], [Err], or [Panic], which aborts the
      process since every profile sets panic = "immediate-abort"), slices, bytes, the order
      of strings and of the keys of a BTreeMap; Text: searching, splitting, UTF-8, lines,
      words, paths; Lossy: the decoding that replaces what is no UTF-8; Numeric: integers of
      a width with wrap-around and with overflow checks ([oc], on in debug builds), decimal
      and hexadecimal texts, little and big endian.
    - CStr (base/cstr.rs, base/files.rs): C strings, growing and fixed buffers, behind the
      interface [Utf8CStrBuf]; CStrConv (base/cstr.rs): their views, conversions, capacity
      and order.  MapFile (base/files.rs): memory maps.  ErrorLog (base/logging.rs,
      base/result.rs, base/xwrap.rs, base/cxx_extern.rs): the logger, errors as messages,
      wrappers of system calls for C++. Args (base/argh.rs, base/derive/argh/mod.rs): the
      parser of command lines and the methods derived for a struct; Derive
      (base/derive/argh): the macro that derives them, its checks and its messages; Help
      (base/argh.rs): the list of commands.  Files (base/files.rs): readers and writers,
      property files, mountinfo.  Dir (base/dir.rs): directory trees; FileTree
      (base/files.rs, base/dir.rs): attributes, contexts and hard links, copying, linking,
      moving and removing trees; Attr (base/files.rs): attributes by path, through links and
      by descriptor, with errors; DirFd (base/dir.rs): the descriptors of these operations.
    - magiskboot: Patch (boot/patch.rs), Cpio, CpioOps, CpioBackup, CpioCli (boot/cpio.rs),
      Payload (boot/payload.rs), Compress (boot/format.rs, boot/compress.rs), Dtb
      (boot/dtb.rs), Sign (boot/sign.rs), BootCli (boot/cli.rs).
    - magiskpolicy: Statement, Grammar (sepolicy/statement.rs), PolicyHelp (its help texts),
      Policy (sepolicy/rules.rs, sepolicy/cli.rs), PolicyDb (the tables of
      sepolicy/sepolicy.cpp and sepolicy/api.cpp that the built-in rules change).
    - The daemon and its clients: Db (core/db.rs), behind the interface [Sqlite], and
      SqlExec (core/db.rs, core/sqlite.cpp) below it, behind [Engine]; Apk, Package, Manager
      (core/package.rs); Su, Access, Notify, Pts (core/su); Socket, FdPass (core/socket.rs),
      codecs with the law [CodecLaw] and file descriptors; DeriveCodec
      (base/derive/decodable.rs), the macro that derives codecs; Daemon, Startup
      (core/daemon.rs); Magisk (core/magisk.rs); Logging, LogStart (core/logging.rs); Pool
      (core/thread.rs) and AtomicArc (base/misc.rs), steps of several threads; Persist,
      ResetProp, PropMain (core/resetprop), behind the interface [PropArea]; Zygisk
      (core/zygisk/daemon.rs), Companion (the rest of core/zygisk, core/applets.cpp);
      Preinit, PreinitDir (core/mount.rs); Contexts (core/selinux.rs); Boot
      (core/bootstages.rs); Module, ZygiskLibs, Union, Inject, Mount, ModuleRun
      (core/module.rs, core/mount.rs).
    - magiskinit: SwitchRoot (init/mount.rs), Init (init/init.rs, init/twostage.rs,
      init/getinfo.rs), InitLog (init/logging.rs), InitPolicy (init/selinux.rs), and the
      overlay of init/rootdir.rs in Contexts.

    Each file is one Module named after it, [Module_] for Module.  A definition has the name
    of the function it models; the loops and closures of a function are definitions of their
    own.  State is passed explicitly: the archive, the directory tree, the database, the
    daemon's cells, the pool.  A component that calls another one uses its definitions, and
    its theorems the lemmas of the other: Daemon and Su use Package and Db, Zygisk uses
    ResetProp, Package and Su, Mount uses Module and Dir, CpioCli uses Args and CpioOps,
    Derive produces the fields of Args.

    * What is proved

    - Round trips: archives (Cpio), backup and restore (CpioBackup), batches of commands and
      the file they leave (CpioCli), printed statements (Grammar), mountinfo (Files),
      settings (Db), messages (Socket) and those of any derived codec (DeriveCodec), the
      descriptor a companion is started with (Companion), the native bridge (Zygisk), LZ4
      archives and the commands that compress and decompress (Compress), signing and
      verifying (Sign).
    - Equivalence with a reference: the in-place fstab patchers are a left-to-right removal
      (Patch); the command line parser accepts exactly its grammar (Args); the statement
      parser accepts that of its comments but for four differences, which are stated
      (Grammar); the quick root lookup agrees with the full decision
      (Access).
    - Refinement: the mounts show the overlay of the virtual tree, which is the union of the
      modules (Mount, Union); the persistent properties are a map (Persist); a statement
      with its arguments does what the interface of the database says (SqlExec).
    - Safety: who is granted root (Access), which app is the manager (Manager), which peer
      may cause which call of the daemon (Daemon), which process gets the module libraries
      (Zygisk), disabled modules stay out (Module), the boot counter (Boot), what the
      built-in rules allow other domains and the Magisk domain on any base policy
      (PolicyDb), which failures let the original init go on before the policy is loaded
      and that nothing else does (InitPolicy), in which arguments a request for root is
      reported (Notify), file
      descriptors are neither lost nor doubled (FdPass, ZygiskLibs), only the client of a
      companion is closed (Companion), a struct that the macro accepts has the tables its
      parser needs (Derive).
    - The path of a boot: the stage magiskinit chooses and the init that is run in each (Init),
      that the mounts survive the switch of the root (SwitchRoot), that the daemon undoes
      the overlay, installs the programs and is reached by its clients (Startup), which
      modules are run, removed and mounted (ModuleRun).
    - Commands: what each command line of magiskboot runs and what it returns (BootCli),
      what the command magisk asks of the daemon (Magisk), what resetprop does with its
      flags and arguments (PropMain), that the help of magiskpolicy is complete (PolicyHelp)
      and the list of commands is wrapped without loss (Help), what is patched in a device
      tree (Dtb), which partition is chosen for preinit (Preinit) and that setting it up
      replaces nothing else (PreinitDir), that a copy of a tree is the tree (FileTree).
    - Invariants of every interleaving or sequence: the thread pool (Pool), the counts of
      the shared cell and when they are safe (AtomicArc), the boot stages (Boot), the cached
      decision (Access), fixed buffers (CStr); the terminal of a shell loses no byte and
      keeps their order (Pts); so does the log (Logging, LogStart); a client is handed to the
      companion only with the libraries loaded, whatever fails, and undisturbed the two get
      through their first exchange (Companion).
    - Errors and bounds: what payload is accepted and what a failed extraction leaves
      (Payload), what archives are built from
      any bytes (Cpio), buffers (CStr), that an error is written once (ErrorLog), how many
      descriptors are open and that they are closed (DirFd); termination of the readers
      (Cpio, Apk) and of the loop over statements (SqlExec).

    Some theorems show where the code does not do what it says or seems to mean; they are
    plain theorems next to the code they are about, with a concrete input where one is
    needed.

    * Fuel

    Loops whose recursion is not structural take fuel.  It is the length of the data where
    every round consumes some (words, command lines, SQL, writes of zeros), and
    the lemmas show that more fuel changes nothing; running out is [Panic] and is excluded
    by the theorems, or a value of its own where the theorem is that the loop ends (the
    reader of archives, which takes one round for each header and two more).  The loop over the pairs of a signing block can run for ever; Apk shows
    when it ends and that it does not always.

    * What is not modelled

    - Code that is not in the repository or not in Rust is a parameter, with what is relied
      on as hypotheses or laws of a class: SQLite ([Sqlite], [Engine]), the property area
      ([PropArea]), the generated protobuf code, xz and the other decompressors, the
      denylist (core/deny), the policy database where statements are loaded (of its tables
      PolicyDb models types, attributes, allow and deny rules and the permissive types, not
      extended permissions, auditing or transitions).  Every class has an instance.
    - System calls, except where a component is about their effect: directories, mounts and
      files are then trees and maps.  Output to the user and to the log is left out.
    - boot/bootimg.cpp and the rest of the C++ code, the functions apart that Companion,
      PolicyDb and SqlExec name; external, which is third-party code and bindings; the Android app and
      the scripts.
    - The declarations of the bridges to C++ (lib.rs of each program), dynamic subcommands,
      which no command line has, and usage texts that are only printed; how the crate syn
      parses tokens, of which Derive gets the result. *)

From Stdlib Require Export ZArith Ascii String Lia List Sorting.Sorted.
From stdpp Require Export base tactics gmap sorting strings list fin_maps.

#[export] Set Default Goal Selector "!".

(** * Bytes and literals

    A Rust [u8] is an [ascii] (eight bits); [&[u8]], [Vec<u8>], [&str] and
    [String] are all byte lists, the textual ones being UTF-8. *)

Abbreviation byte := ascii (only parsing).
Abbreviation bytes := (list ascii).

Definition bval (c : byte) : Z := Z.of_N (N_of_ascii c).
Definition bof (z : Z) : byte := ascii_of_N (Z.to_N (z mod 256)).
Definition lit (s : string) : bytes := list_ascii_of_string s.

Declare Scope bytes_scope.
Delimit Scope bytes_scope with bytes.
Notation "# s" := (lit s%string) (at level 2, s at level 1, format "# s") : bytes_scope.
#[global] Open Scope Z_scope.
#[global] Open Scope bytes_scope.

Arguments bval : simpl never.
Arguments bof : simpl never.
Arguments lit : simpl never.

(** The length of a slice as an integer, the way [len()] returns it. *)
Abbreviation zlen l := (Z.of_nat (length l)).

Lemma zlen_cons {A} (x : A) l : zlen (x :: l) = Z.succ (zlen l).
Proof. simpl. lia. Qed.

Lemma zlen_app {A} (l k : list A) : zlen (l ++ k) = zlen l + zlen k.
Proof. rewrite length_app. lia. Qed.

Lemma filter_all {A} (P : A -> Prop) `{!forall x, Decision (P x)} (l : list A) :
  (forall x, x ∈ l -> P x) -> filter P l = l.
Proof.
  induction l as [|x l IH]; intros Hl; [done |].
  rewrite filter_cons_True by (apply Hl; set_solver). f_equal. apply IH. set_solver.
Qed.

Lemma filter_ext_in {A} (P Q : A -> Prop) `{!forall x, Decision (P x), !forall x, Decision (Q x)}
    (l : list A) :
  (forall x, x ∈ l -> (P x <-> Q x)) -> filter P l = filter Q l.
Proof.
  induction l as [|x l IH]; intros Hl; [done |]. rewrite !filter_cons.
  rewrite IH by set_solver. specialize (Hl x ltac:(set_solver)).
  repeat case_decide; naive_solver.
Qed.

(** * Tactics *)

(** Split every conjunction and existential of the context, solve by [lia]. *)
Ltac zlia := simpl in *; repeat (rewrite ?length_app, ?length_take, ?length_drop,
  ?length_replicate, ?length_cons, ?length_nil in * ); lia.

(** Case analysis on every [match]/[if] of hypotheses, keeping equations. *)
Ltac inv_matches :=
  repeat match goal with
  | H : Some _ = Some _ |- _ => injection H as H; subst
  | H : context [match ?x with _ => _ end] |- _ =>
      let E := fresh "E" in destruct x eqn:E; try discriminate
  end.

Create HintDb magisk discriminated.

(** * Outcomes

    A Rust call returns [Ok], returns [Err], or aborts the process: every
    profile of the workspace sets [panic = "immediate-abort"]. *)

Inductive res (E A : Type) : Type :=
| Ok (a : A)
| Err (e : E)
| Panic.
Arguments Ok {E A} _.
Arguments Err {E A} _.
Arguments Panic {E A}.

(** [LoggedResult]: the error has been logged, it carries no data. *)
Abbreviation logged := (res unit).

#[export] Instance res_ret {E} : MRet (res E) := fun A a => Ok a.
#[export] Instance res_bind {E} : MBind (res E) := fun A B f m =>
  match m with Ok a => f a | Err e => Err e | Panic => Panic end.
#[export] Instance res_fmap {E} : FMap (res E) := fun A B f m =>
  match m with Ok a => Ok (f a) | Err e => Err e | Panic => Panic end.

#[export] Instance res_eq_dec {E A} `{EqDecision E, EqDecision A} : EqDecision (res E A).
Proof. solve_decision. Defined.

Lemma res_bind_Ok {E A B} (m : res E A) (f : A -> res E B) b :
  m ≫= f = Ok b <-> exists a, m = Ok a /\ f a = Ok b.
Proof. destruct m; simpl; split; naive_solver. Qed.

Lemma res_bind_assoc {E A B C} (m : res E A) (f : A -> res E B) (g : B -> res E C) :
  (m ≫= f) ≫= g = m ≫= (fun a => f a ≫= g).
Proof. by destruct m. Qed.

(** [Result::ok()] and the [?] operator on an [Option] whose [None] is logged. *)
Definition res_ok {E A} (m : res E A) : option A :=
  match m with Ok a => Some a | _ => None end.
Definition of_option {E A} (e : E) (o : option A) : res E A :=
  match o with Some a => Ok a | None => Err e end.

Ltac res_simpl := rewrite ?res_bind_Ok in *; simpl in *.

(** Follow the first call or test of a monadic program, on the left of an equation. *)
Ltac bind_head t :=
  lazymatch t with
  | mbind _ ?m => destruct m eqn:?; cbn [mbind res_bind]; try done
  | (if ?b then _ else _) => destruct b eqn:?; try done
  end.
Ltac bind_cases :=
  repeat lazymatch goal with
  | |- ?t = _ => bind_head t
  | |- ?t = _ -> _ => bind_head t
  end.

(** * Slices

    [&data[i..j]] aborts unless [i <= j <= len]. *)

Definition slice {E A} (l : list A) (i j : Z) : res E (list A) :=
  if (0 <=? i) && (i <=? j) && (j <=? zlen l)
  then Ok (take (Z.to_nat (j - i)) (drop (Z.to_nat i) l))
  else Panic.

(** [&data[i..]] *)
Definition slice_from {E A} (l : list A) (i : Z) : res E (list A) := slice l i (zlen l).

Lemma slice_Ok {E A} (l : list A) i j r :
  slice (E:=E) l i j = Ok r <->
  0 <= i <= j /\ j <= zlen l /\ r = take (Z.to_nat (j - i)) (drop (Z.to_nat i) l).
Proof.
  unfold slice. destruct (_ && _) eqn:H.
  - rewrite !andb_true_iff, !Z.leb_le in H. split.
    + intros [= <-]. split; [lia | split; [lia | done]].
    + by intros (_ & _ & ->).
  - split; [done |]. intros (? & ? & _). exfalso.
    rewrite !andb_false_iff, !Z.leb_gt in H. lia.
Qed.

Lemma slice_app {E A} (l1 l2 l3 : list A) i j :
  i = zlen l1 -> j = zlen l1 + zlen l2 ->
  slice (E:=E) (l1 ++ l2 ++ l3) i j = Ok l2.
Proof.
  intros -> ->. apply slice_Ok. rewrite !length_app.
  split_and!; [lia.. |].
  rewrite Nat2Z.id, drop_app_length.
  replace (Z.to_nat _) with (length l2) by lia. by rewrite take_app_length.
Qed.

Lemma slice_from_app {E A} (l1 l2 : list A) i :
  i = zlen l1 -> slice_from (E:=E) (l1 ++ l2) i = Ok l2.
Proof.
  intros ->. unfold slice_from. rewrite <- (app_nil_r l2) at 1.
  apply slice_app; [done | rewrite length_app; lia].
Qed.

Lemma slice_length {E A} (l r : list A) i j :
  slice (E:=E) l i j = Ok r -> zlen r = j - i.
Proof.
  intros (? & ? & ->)%slice_Ok. rewrite length_take, length_drop. lia.
Qed.

(** * Byte values *)

Lemma bval_range c : 0 <= bval c < 256.
Proof. unfold bval. pose proof (N_ascii_bounded c). lia. Qed.

Lemma bof_bval c : bof (bval c) = c.
Proof.
  pose proof (bval_range c). unfold bof.
  rewrite Z.mod_small by done. unfold bval. rewrite N2Z.id. apply ascii_N_embedding.
Qed.

Lemma bval_bof z : bval (bof z) = z mod 256.
Proof.
  unfold bval, bof. pose proof (Z.mod_pos_bound z 256 ltac:(lia)).
  rewrite N_ascii_embedding by lia. lia.
Qed.

Lemma bval_inj c d : bval c = bval d -> c = d.
Proof. intros H. by rewrite <- (bof_bval c), <- (bof_bval d), H. Qed.

#[export] Hint Resolve bval_range : magisk.

(** * Lexicographic byte order

    The [Ord] of [str] and of [[u8]]: the order in which a [BTreeMap] keyed by
    strings iterates. *)

Fixpoint bcmp (x y : bytes) : comparison :=
  match x, y with
  | [], [] => Eq
  | [], _ :: _ => Lt
  | _ :: _, [] => Gt
  | a :: x', b :: y' =>
      match Z.compare (bval a) (bval b) with Eq => bcmp x' y' | c => c end
  end.

Definition blt (x y : bytes) : Prop := bcmp x y = Lt.
Definition ble (x y : bytes) : Prop := bcmp x y <> Gt.

Lemma bcmp_Eq x y : bcmp x y = Eq <-> x = y.
Proof.
  revert y. induction x as [|a x IH]; intros [|b y]; simpl; try done.
  destruct (Z.compare_spec (bval a) (bval b)) as [H|H|H].
  - apply bval_inj in H as ->. rewrite IH. naive_solver.
  - split; [done |]. intros [= -> ->]. lia.
  - split; [done |]. intros [= -> ->]. lia.
Qed.

Lemma bcmp_antisym x y : bcmp y x = CompOpp (bcmp x y).
Proof.
  revert y. induction x as [|a x IH]; intros [|b y]; simpl; try done.
  rewrite (Z.compare_antisym (bval a) (bval b)).
  destruct (bval a ?= bval b); simpl; auto.
Qed.

Lemma bcmp_Gt x y : bcmp x y = Gt <-> bcmp y x = Lt.
Proof. rewrite (bcmp_antisym x y). destruct (bcmp x y); naive_solver. Qed.

Lemma blt_trans x y z : blt x y -> blt y z -> blt x z.
Proof.
  unfold blt. revert y z. induction x as [|a x IH]; intros [|b y] [|c z]; simpl; try done.
  destruct (Z.compare_spec (bval a) (bval b)) as [H1|H1|H1], (Z.compare_spec (bval b) (bval c)) as [H2|H2|H2];
    intros G1 G2; try done;
    destruct (Z.compare_spec (bval a) (bval c)) as [H3|H3|H3]; try lia; eauto.
Qed.

Lemma blt_irrefl x : ~ blt x x.
Proof. unfold blt. assert (bcmp x x = Eq) as -> by by apply bcmp_Eq. done. Qed.

Lemma ble_lt_eq x y : ble x y <-> blt x y \/ x = y.
Proof. unfold ble, blt. rewrite <- bcmp_Eq. destruct (bcmp x y); naive_solver. Qed.

#[export] Instance blt_transitive : Transitive blt.
Proof. intros x y z. apply blt_trans. Qed.
#[export] Instance blt_dec : RelDecision blt := fun x y => decide (bcmp x y = Lt).
#[export] Instance ble_dec : RelDecision ble := fun x y => decide (bcmp x y <> Gt).

#[export] Instance ble_transitive : Transitive ble.
Proof.
  intros x y z. rewrite !ble_lt_eq. intros [?| ->] [?| ->]; eauto using blt_trans.
Qed.

#[export] Instance ble_total : Total ble.
Proof.
  intros x y. unfold ble. rewrite (bcmp_antisym x y). destruct (bcmp x y); simpl; naive_solver.
Qed.

#[export] Instance ble_antisymm : AntiSymm (=) ble.
Proof.
  intros x y. rewrite !ble_lt_eq. intros [H1|?] [H2|?]; subst; try done.
  exfalso. eapply blt_irrefl, blt_trans; eauto.
Qed.

(** * Ordered maps

    [BTreeMap<String, V>] is a finite map together with its in-order listing. *)

Section Btree.
Context {A : Type}.
Implicit Types m : gmap bytes A.

Definition key_le (p q : bytes * A) : Prop := ble p.1 q.1.
Definition key_lt (p q : bytes * A) : Prop := blt p.1 q.1.

#[export] Instance key_le_dec : RelDecision key_le := fun p q => decide (ble p.1 q.1).
#[export] Instance key_le_total : Total key_le.
Proof. intros p q. apply (total ble). Qed.
#[export] Instance key_le_trans : Transitive key_le.
Proof. intros p q r. apply (transitivity (R:=ble)). Qed.
#[export] Instance key_lt_trans : Transitive key_lt.
Proof. intros p q r. apply (transitivity (R:=blt)). Qed.

(** The in-order iteration [for (k, v) in &map]. *)
Definition btree_iter m : list (bytes * A) := merge_sort key_le (map_to_list m).

Lemma btree_iter_Permutation m : btree_iter m ≡ₚ map_to_list m.
Proof. apply merge_sort_Permutation. Qed.

Lemma elem_of_btree_iter m k v : (k, v) ∈ btree_iter m <-> m !! k = Some v.
Proof. by rewrite btree_iter_Permutation, elem_of_map_to_list. Qed.

Lemma btree_iter_NoDup m : NoDup (btree_iter m).*1.
Proof. rewrite btree_iter_Permutation. apply NoDup_fst_map_to_list. Qed.

Lemma btree_iter_to_map m : list_to_map (btree_iter m) = m.
Proof.
  apply map_eq. intros k. apply option_eq. intros v.
  rewrite <- elem_of_list_to_map by apply btree_iter_NoDup.
  apply elem_of_btree_iter.
Qed.

Lemma key_lt_of_le (l : list (bytes * A)) :
  NoDup l.*1 -> StronglySorted key_le l -> StronglySorted key_lt l.
Proof.
  intros Hn Hs. induction Hs as [|p l Hs IH Hf]; [constructor |].
  apply NoDup_cons in Hn as [Hp Hn]. constructor; [by apply IH |].
  rewrite Forall_forall in *. intros q Hq. specialize (Hf q Hq).
  unfold key_le in Hf. apply ble_lt_eq in Hf as [?|Heq]; [done |].
  exfalso. apply Hp. rewrite Heq. by apply list_elem_of_fmap_2.
Qed.

Lemma btree_iter_sorted m : StronglySorted key_lt (btree_iter m).
Proof.
  apply key_lt_of_le; [apply btree_iter_NoDup |].
  apply (StronglySorted_merge_sort key_le).
Qed.

Lemma btree_iter_empty : btree_iter ∅ = [].
Proof. unfold btree_iter. by rewrite map_to_list_empty. Qed.

Lemma btree_iter_nil m : btree_iter m = [] -> m = ∅.
Proof. intros H. by rewrite <- (btree_iter_to_map m), H. Qed.
End Btree.
