(* ===== verification/Text.v ===== *)
(** The parts of Rust's [str], [char] and integer parsing that Magisk uses,
    on byte lists: prefixes, substring search, splitting, trimming, UTF-8
    validation, and the reading and printing of numerals. *)

From S2P Require Import Prelude.

(** * Prefixes, suffixes and search *)

(** [str::starts_with] / [<[u8]>::starts_with] *)
Fixpoint starts_with (s p : bytes) {struct p} : bool :=
  match p, s with
  | [], _ => true
  | _ :: _, [] => false
  | b :: p', a :: s' => bool_decide (a = b) && starts_with s' p'
  end.

(** [str::strip_prefix] *)
Definition strip_prefix (s p : bytes) : option bytes :=
  if starts_with s p then Some (drop (length p) s) else None.

(** [str::ends_with] *)
Definition ends_with (s p : bytes) : bool := starts_with (rev s) (rev p).

(** [memmem], and [str::find] with a string pattern: the first offset at which
    the needle occurs. *)
Fixpoint find (s needle : bytes) : option Z :=
  if starts_with s needle then Some 0
  else match s with
       | [] => None
       | _ :: s' => Z.succ <$> find s' needle
       end.

Definition contains (s needle : bytes) : bool :=
  match find s needle with Some _ => true | None => false end.

(** [str::split(c)] for a one-byte separator: never the empty list. *)
Fixpoint split_on (c : byte) (s : bytes) : list bytes :=
  match s with
  | [] => [[]]
  | a :: s' =>
      if decide (a = c) then [] :: split_on c s'
      else match split_on c s' with
           | [] => [[a]]
           | w :: ws => (a :: w) :: ws
           end
  end.

(** [str::split_once(c)] *)
Fixpoint split_once (c : byte) (s : bytes) : option (bytes * bytes) :=
  match s with
  | [] => None
  | a :: s' =>
      if decide (a = c) then Some ([], s')
      else (fun p => (a :: p.1, p.2)) <$> split_once c s'
  end.

(** [.intersperse(sep).collect::<String>()], [slice::join] *)
Fixpoint join (sep : bytes) (ws : list bytes) : bytes :=
  match ws with
  | [] => []
  | [w] => w
  | w :: ws' => w ++ sep ++ join sep ws'
  end.

(** [s.matches(c).count()] *)
Definition count_byte (c : byte) (s : bytes) : Z := zlen (filter (fun a => a = c) s).

(** The components of a path, as [Path] iterates over them; a "." at the start is
    left out too. *)
Definition comps (p : bytes) : list bytes := filter (fun c => c <> [] /\ c <> #".") (split_on "/"%char p).

Definition is_empty {A} (l : list A) : bool := match l with [] => true | _ => false end.

Lemma starts_with_spec s p : starts_with s p = true <-> exists t, s = p ++ t.
Proof.
  revert s. induction p as [|b p IH]; intros s; simpl.
  { split; [intros _; by exists s | done]. }
  destruct s as [|a s]; simpl; [split; [done | by intros [t ?]] |].
  rewrite andb_true_iff, bool_decide_eq_true, IH.
  split; [intros [-> [t ->]]; eauto | intros [t [= -> ->]]; eauto].
Qed.

Lemma starts_with_app p t : starts_with (p ++ t) p = true.
Proof. apply starts_with_spec. eauto. Qed.

Lemma starts_with_refl p : starts_with p p = true.
Proof. apply starts_with_spec. exists []. by rewrite app_nil_r. Qed.

Lemma starts_with_length s p : starts_with s p = true -> (length p <= length s)%nat.
Proof. intros [t ->]%starts_with_spec. rewrite length_app. lia. Qed.

Lemma ends_with_spec s p : ends_with s p = true <-> exists t, s = t ++ p.
Proof.
  unfold ends_with. rewrite starts_with_spec. split; intros [t Ht].
  - exists (rev t). by rewrite <- (rev_involutive s), Ht, rev_app_distr, rev_involutive.
  - exists (rev t). by rewrite Ht, rev_app_distr.
Qed.

Lemma ends_with_app_r a b c : b <> [] -> ends_with (a ++ b) [c] = ends_with b [c].
Proof.
  intros Hb. unfold ends_with. rewrite rev_app_distr.
  destruct (rev b) as [|x r] eqn:E; [| done]. apply (f_equal (@rev _)) in E. by rewrite rev_involutive in E.
Qed.

Lemma strip_prefix_Some s p r : strip_prefix s p = Some r <-> s = p ++ r.
Proof.
  unfold strip_prefix. destruct (starts_with s p) eqn:E.
  - apply starts_with_spec in E as [t ->]. rewrite drop_app_length.
    split; [by intros [= ->] | by intros ->%app_inv_head].
  - split; [done |]. intros ->. by rewrite starts_with_app in E.
Qed.

(** The offset [find] returns is the least one at which the needle occurs. *)
Lemma find_Some s n i :
  find s n = Some i ->
  0 <= i /\ i + zlen n <= zlen s /\ starts_with (drop (Z.to_nat i) s) n = true /\
  forall j, 0 <= j < i -> starts_with (drop (Z.to_nat j) s) n = false.
Proof.
  revert i. induction s as [|a s IH]; intros i; simpl.
  - destruct (starts_with [] n) eqn:E; [| done]. intros [= <-].
    pose proof (starts_with_length _ _ E). simpl in *.
    split_and!; [lia | lia | done | lia].
  - destruct (starts_with (a :: s) n) eqn:E.
    + intros [= <-]. pose proof (starts_with_length _ _ E). simpl in *.
      split_and!; [lia | lia | done | lia].
    + intros (k & Hk & ->)%fmap_Some. apply IH in Hk as (? & ? & Hs & Hmin).
      split_and!; [lia | lia | |].
      * by rewrite Z2Nat.inj_succ by lia.
      * intros j Hj. destruct (decide (j = 0)) as [-> |]; [done |].
        replace (Z.to_nat j) with (S (Z.to_nat (Z.pred j))) by lia. simpl. apply Hmin. lia.
Qed.

Lemma find_None s n : find s n = None <-> forall i, starts_with (drop i s) n = false.
Proof.
  split.
  - induction s as [|a s IH]; simpl; destruct (starts_with _ n) eqn:E; try done.
    + intros _ i. by rewrite drop_nil.
    + intros H%fmap_None [|i]; simpl; eauto.
  - intros H. destruct (find s n) as [i|] eqn:E; [| done].
    apply find_Some in E as (_ & _ & E & _). by rewrite H in E.
Qed.

(** * Splitting and joining *)

Lemma split_on_nonempty c s : split_on c s <> [].
Proof. destruct s as [|a s]; simpl; [done |]. case_decide; [done |]. by destruct (split_on c s). Qed.

Lemma join_cons sep w ws : ws <> [] -> join sep (w :: ws) = w ++ sep ++ join sep ws.
Proof. by destruct ws. Qed.

Lemma join_split_on c s : join [c] (split_on c s) = s.
Proof.
  induction s as [|a s IH]; [done |]. simpl. case_decide as E.
  - rewrite join_cons by apply split_on_nonempty. subst. simpl. by rewrite IH.
  - destruct (split_on c s) as [|w ws] eqn:Es; [by destruct (split_on_nonempty c s) |].
    destruct ws; simpl in *; by rewrite IH.
Qed.

Lemma split_on_no_sep c s : Forall (fun w => c ∉ w) (split_on c s).
Proof.
  induction s as [|a s IH]; simpl; [constructor; [set_solver | done] |].
  case_decide.
  - constructor; [set_solver | done].
  - destruct (split_on c s) as [|w ws]; [constructor; [set_solver | done] |].
    inversion_clear IH. constructor; [set_solver | done].
Qed.

Lemma split_on_word c w : c ∉ w -> split_on c w = [w].
Proof.
  induction w as [|a w IH]; simpl; [done |]. intros H.
  rewrite decide_False by set_solver. rewrite IH by set_solver. done.
Qed.

Lemma split_on_app c w s : c ∉ w -> split_on c (w ++ c :: s) = w :: split_on c s.
Proof.
  induction w as [|a w IH]; intros H; simpl; [by rewrite decide_True |].
  rewrite decide_False by set_solver. by rewrite IH by set_solver.
Qed.

Lemma split_on_join c ws :
  ws <> [] -> Forall (fun w => c ∉ w) ws -> split_on c (join [c] ws) = ws.
Proof.
  intros Hne. induction 1 as [|w ws Hw Hws IH]; [done |].
  destruct ws as [|w' ws].
  - simpl. by apply split_on_word.
  - rewrite join_cons by done. cbn [app]. rewrite split_on_app by done.
    by rewrite IH.
Qed.

Lemma split_once_Some c s a b : split_once c s = Some (a, b) <-> (c ∉ a) /\ s = a ++ c :: b.
Proof.
  revert a b. induction s as [|x s IH]; intros a b; simpl.
  { split; [done |]. by intros [_ ?%(f_equal length)%symmetry]; destruct a. }
  case_decide as Hx.
  - subst x. split; [intros [= <- <-]; set_solver |].
    intros [Ha Hs]. destruct a as [|y a]; simpl in Hs; [by injection Hs as -> |].
    injection Hs as -> _. set_solver.
  - rewrite fmap_Some. split.
    + intros ([a' b'] & (Ha & ->)%IH & [= -> ->]). simpl. split; [set_solver | done].
    + intros [Ha Hs]. destruct a as [|y a]; simpl in Hs; [by injection Hs as -> |].
      injection Hs as -> ->. exists (a, b). split; [apply IH; set_solver | done].
Qed.

(** * UTF-8

    [str::from_utf8] accepts exactly the well-formed sequences of table 3-7 of
    the Unicode standard. *)

Definition in_rng (lo hi : Z) (c : byte) : bool := (lo <=? bval c) && (bval c <=? hi).
Definition cont (c : byte) : bool := in_rng 128 191 c.

Fixpoint utf8_valid (s : bytes) : bool :=
  match s with
  | [] => true
  | a :: t1 =>
      if in_rng 0 127 a then utf8_valid t1 else
      match t1 with
      | [] => false
      | b :: t2 =>
          if in_rng 194 223 a then cont b && utf8_valid t2 else
          match t2 with
          | [] => false
          | c :: t3 =>
              if in_rng 224 239 a then
                (if in_rng 224 224 a then in_rng 160 191 b
                 else if in_rng 237 237 a then in_rng 128 159 b else cont b)
                && cont c && utf8_valid t3
              else
              match t3 with
              | [] => false
              | d :: t4 =>
                  in_rng 240 244 a &&
                  (if in_rng 240 240 a then in_rng 144 191 b
                   else if in_rng 244 244 a then in_rng 128 143 b else cont b)
                  && cont c && cont d && utf8_valid t4
              end
          end
      end
  end.

(** [str::from_utf8] *)
Definition from_utf8 (s : bytes) : option bytes := if utf8_valid s then Some s else None.

Lemma utf8_valid_ascii s : Forall (fun c => in_rng 0 127 c = true) s -> utf8_valid s = true.
Proof. induction 1 as [|c s Hc _ IH]; simpl; [done |]. by rewrite Hc. Qed.

(** Concatenating valid strings is valid. *)
Lemma utf8_valid_app a b : utf8_valid a = true -> utf8_valid (a ++ b) = utf8_valid b.
Proof.
  remember (length a) as n eqn:Hn. assert (length a <= n)%nat as Hle by lia. clear Hn.
  revert a Hle. induction n as [|n IH]; intros a Hle; [by destruct a; [| simpl in Hle; lia] |].
  destruct a as [|x a]; [done |]. cbn [utf8_valid app]. simpl in Hle.
  destruct (in_rng 0 127 x); [intros; apply IH; [lia | done] |].
  destruct a as [|y a]; [done |]. cbn [app]. simpl in Hle.
  destruct (in_rng 194 223 x).
  { intros [-> H]%andb_true_iff. rewrite andb_true_l. apply IH; [lia | done]. }
  destruct a as [|z a]; [done |]. cbn [app]. simpl in Hle.
  destruct (in_rng 224 239 x).
  { intros [-> H]%andb_true_iff. rewrite andb_true_l. apply IH; [lia | done]. }
  destruct a as [|w a]; [done |]. cbn [app]. simpl in Hle.
  intros [-> H]%andb_true_iff. rewrite andb_true_l. apply IH; [lia | done].
Qed.

(** * White space

    [char::is_whitespace] on the UTF-8 encoding: the number of bytes of the
    white-space character at the head of the string, if there is one. *)

Definition ws_len (s : bytes) : option nat :=
  match s with
  | [] => None
  | a :: t =>
      if in_rng 9 13 a || in_rng 32 32 a then Some 1%nat else
      match t with
      | [] => None
      | b :: t2 =>
          if in_rng 194 194 a && (in_rng 133 133 b || in_rng 160 160 b) then Some 2%nat else
          match t2 with
          | [] => None
          | c :: _ =>
              if (in_rng 225 225 a && in_rng 154 154 b && in_rng 128 128 c)
                 || (in_rng 226 226 a && in_rng 128 128 b
                     && (in_rng 128 138 c || in_rng 168 169 c || in_rng 175 175 c))
                 || (in_rng 226 226 a && in_rng 129 129 b && in_rng 159 159 c)
                 || (in_rng 227 227 a && in_rng 128 128 b && in_rng 128 128 c)
              then Some 3%nat else None
          end
      end
  end.

(** The white-space character that ends the string, seen from the reversed
    string. *)
Definition ws_len_rev (r : bytes) : option nat :=
  match ws_len (rev (take 1 r)), ws_len (rev (take 2 r)), ws_len (rev (take 3 r)) with
  | Some 1%nat, _, _ => Some 1%nat
  | _, Some 2%nat, _ => Some 2%nat
  | _, _, Some 3%nat => Some 3%nat
  | _, _, _ => None
  end.

(** Drop matches at the front as long as there are some; the fuel is the length
    of the string and each round removes at least one byte. *)
Fixpoint drop_ws (ws : bytes -> option nat) (fuel : nat) (s : bytes) : bytes :=
  match fuel, ws s with
  | S fuel', Some n => drop_ws ws fuel' (drop n s)
  | _, _ => s
  end.

Definition trim_start (s : bytes) : bytes := drop_ws ws_len (length s) s.
Definition trim_end (s : bytes) : bytes := rev (drop_ws ws_len_rev (length s) (rev s)).
(** [str::trim] *)
Definition trim (s : bytes) : bytes := trim_end (trim_start s).

(** [str::split_whitespace]: the maximal runs without white space.  [acc] is the
    current word, reversed; the fuel is the length of the string. *)
Fixpoint split_ws_go (fuel : nat) (acc s : bytes) : list bytes :=
  let flush := if is_empty acc then [] else [rev acc] in
  match fuel with
  | O => flush
  | S fuel' =>
      match s with
      | [] => flush
      | a :: t =>
          match ws_len s with
          | Some n => flush ++ split_ws_go fuel' [] (drop n s)
          | None => split_ws_go fuel' (a :: acc) t
          end
      end
  end.

Definition split_whitespace (s : bytes) : list bytes := split_ws_go (S (length s)) [] s.

(** * Lines

    [BufRead::read_line] returns the bytes up to and including the next ['\n'];
    [BufReadExt::for_each_line] (base/files.rs) calls its closure on each of
    them and stops at the first line that is not UTF-8. *)

Definition newline : byte := bof 10.

Fixpoint read_lines_go (acc s : bytes) : list bytes :=
  match s with
  | [] => if is_empty acc then [] else [rev acc]
  | a :: t =>
      if decide (a = newline) then rev (a :: acc) :: read_lines_go [] t
      else read_lines_go (a :: acc) t
  end.

Definition read_lines (s : bytes) : list bytes := read_lines_go [] s.

Fixpoint utf8_lines (ls : list bytes) : list bytes :=
  match ls with
  | [] => []
  | l :: ls' => if utf8_valid l then l :: utf8_lines ls' else []
  end.

Lemma read_lines_go_concat acc s : concat (read_lines_go acc s) = rev acc ++ s.
Proof.
  revert acc. induction s as [|a s IH]; intros acc; simpl.
  - destruct acc; simpl; by rewrite ?app_nil_r.
  - case_decide; simpl; rewrite IH; simpl; by rewrite <- ?app_assoc.
Qed.

(** Reading lines loses nothing. *)
Lemma read_lines_concat s : concat (read_lines s) = s.
Proof. apply read_lines_go_concat. Qed.

Lemma read_lines_go_line acc l s :
  newline ∉ l -> read_lines_go acc (l ++ newline :: s) = (rev acc ++ l ++ [newline]) :: read_lines_go [] s.
Proof.
  revert acc. induction l as [|a l IH]; intros acc Hl; cbn [read_lines_go app].
  - by rewrite decide_True.
  - rewrite decide_False by set_solver. rewrite IH by set_solver. simpl. by rewrite <- app_assoc.
Qed.

(** The lines of a text are its lines, each with its newline. *)
Lemma read_lines_lines ls s :
  Forall (fun l => newline ∉ l) ls ->
  read_lines (concat (map (fun l => l ++ [newline]) ls) ++ s) =
  map (fun l => l ++ [newline]) ls ++ read_lines s.
Proof.
  unfold read_lines. induction 1 as [|l ls Hl Hls IH]; [done |]. simpl.
  rewrite <- !app_assoc. simpl. rewrite read_lines_go_line by done. simpl. by rewrite IH.
Qed.

Lemma utf8_lines_app ls ls' :
  Forall (fun l => utf8_valid l = true) ls -> utf8_lines (ls ++ ls') = ls ++ utf8_lines ls'.
Proof. induction 1 as [|l ls Hl _ IH]; simpl; [done |]. by rewrite Hl, IH. Qed.

Lemma utf8_lines_all ls : Forall (fun l => utf8_valid l = true) ls -> utf8_lines ls = ls.
Proof. induction 1 as [|l ls Hl _ IH]; simpl; [done |]. by rewrite Hl, IH. Qed.

(** ** Words of printable ASCII *)

(** A printable ASCII character other than the space. *)
Definition graphic (c : byte) : bool := in_rng 33 126 c.
Definition word (w : bytes) : Prop := w <> [] /\ Forall (fun c => graphic c = true) w.

Lemma word_bool w : negb (is_empty w) && forallb graphic w = true -> word w.
Proof.
  intros [H1 H2]%andb_true_iff. split; [by destruct w |].
  apply Forall_forall. intros c Hc. rewrite forallb_forall in H2. apply H2. by apply list_elem_of_In.
Qed.

#[export] Instance word_dec w : Decision (word w).
Proof. unfold word. apply _. Defined.

Lemma graphic_ws_len c s : graphic c = true -> ws_len (c :: s) = None.
Proof.
  unfold graphic, in_rng. intros H. unfold ws_len, in_rng.
  repeat case_match; try done; lia.
Qed.

Lemma space_ws_len s : ws_len (bof 32 :: s) = Some 1%nat.
Proof. done. Qed.

Lemma split_ws_go_word fuel acc w s :
  Forall (fun c => graphic c = true) w -> (length (w ++ s) <= fuel)%nat ->
  split_ws_go fuel acc (w ++ s) = split_ws_go (fuel - length w) (rev w ++ acc) s.
Proof.
  intros Hw. revert fuel acc. induction Hw as [|c w Hc _ IH]; intros fuel acc Hf.
  - by rewrite Nat.sub_0_r.
  - destruct fuel as [|fuel]; [simpl in Hf; lia |]. cbn [split_ws_go app].
    rewrite graphic_ws_len by done. rewrite IH by (simpl in Hf; lia). simpl. by rewrite <- app_assoc.
Qed.

(** The end of a line: nothing, or the newline. *)
Definition line_end (tl : bytes) : Prop := tl = [] \/ tl = [newline].

Lemma split_ws_go_end fuel acc tl :
  line_end tl -> split_ws_go fuel acc tl = if is_empty acc then [] else [rev acc].
Proof.
  intros [-> | ->]; destruct fuel as [|fuel]; try done. cbn [split_ws_go].
  change (ws_len [newline]) with (Some 1%nat). cbn [drop]. destruct fuel; by rewrite app_nil_r.
Qed.

Lemma split_ws_go_words fuel ws tl :
  line_end tl -> Forall word ws -> (length (join [bof 32] ws ++ tl) < fuel)%nat ->
  split_ws_go fuel [] (join [bof 32] ws ++ tl) = ws.
Proof.
  intros Htl Hw. revert fuel. induction Hw as [|w ws [Hne Hw] _ IH]; intros fuel Hf.
  { by rewrite app_nil_l, split_ws_go_end. }
  assert (is_empty (rev w) = false) as Hemp.
  { destruct w as [|c w]; [done |]. simpl. by destruct (rev w). }
  destruct ws as [|w' ws].
  - cbn [join] in *. rewrite split_ws_go_word by (done || lia).
    by rewrite split_ws_go_end, app_nil_r, Hemp, rev_involutive.
  - rewrite join_cons in * by done. rewrite <- !app_assoc in *. rewrite !length_app in Hf. cbn [length] in Hf.
    rewrite split_ws_go_word by (try done; rewrite !length_app; cbn [length]; lia).
    destruct (fuel - length w)%nat as [|k] eqn:Ek; [lia |].
    cbn [split_ws_go app]. rewrite space_ws_len, app_nil_r, Hemp, rev_involutive. cbn [drop app].
    f_equal. rewrite drop_0. apply IH. rewrite length_app. lia.
Qed.

(** Splitting words joined by single spaces gives the words back. *)
Lemma split_whitespace_line ws tl :
  line_end tl -> Forall word ws -> split_whitespace (join [bof 32] ws ++ tl) = ws.
Proof. intros. apply split_ws_go_words; [done | done | lia]. Qed.

Lemma split_whitespace_join ws : Forall word ws -> split_whitespace (join [bof 32] ws) = ws.
Proof. intros. rewrite <- (app_nil_r (join _ _)). by apply split_whitespace_line; [left |]. Qed.

Lemma trim_start_graphic c s : graphic c = true -> trim_start (c :: s) = c :: s.
Proof. intros. unfold trim_start. cbn [length drop_ws]. by rewrite graphic_ws_len. Qed.

Lemma ws_len_rev_graphic c s : graphic c = true -> ws_len_rev (c :: s) = None.
Proof.
  intros H. unfold ws_len_rev. pose proof (graphic_ws_len c [] H) as H1.
  assert (forall a, ws_len [a; c] = None \/ ws_len [a; c] = Some 1%nat) as H2.
  { intros a. unfold ws_len, graphic, in_rng in *. repeat case_match; auto; lia. }
  assert (forall a b, ws_len [a; b; c] <> Some 3%nat) as H3.
  { intros a b. unfold ws_len, graphic, in_rng in *. repeat case_match; try done; lia. }
  destruct s as [|a s]; cbn [take rev app]; rewrite ?H1; [done |].
  destruct s as [|b s]; cbn [take rev app]; rewrite ?take_0; cbn [rev app].
  - by destruct (H2 a) as [-> | ->].
  - specialize (H3 b a). destruct (H2 a) as [-> | ->];
      destruct (ws_len [b; a; c]) as [[|[|[|[|?]]]]|]; done.
Qed.

Lemma newline_ws_len_rev s : ws_len_rev (newline :: s) = Some 1%nat.
Proof. done. Qed.

(** A line that begins and ends with a graphic character only loses its newline. *)
Lemma trim_line l a s b s' :
  l = a :: s -> l = s' ++ [b] -> graphic a = true -> graphic b = true ->
  trim (l ++ [newline]) = l.
Proof.
  intros Ha Hb Hga Hgb. unfold trim. rewrite Ha at 1. cbn [app].
  rewrite trim_start_graphic, app_comm_cons, <- Ha by done. unfold trim_end.
  rewrite length_app. simpl length. rewrite Nat.add_comm. cbn [Nat.add drop_ws].
  rewrite rev_app_distr. cbn [rev app]. rewrite newline_ws_len_rev. cbn [drop].
  rewrite drop_0, Hb, rev_app_distr. cbn [rev app].
  destruct (length (s' ++ [b])); cbn [drop_ws]; rewrite ?ws_len_rev_graphic by done;
    simpl; by rewrite rev_involutive.
Qed.

Lemma join_words_head ws :
  ws <> [] -> Forall word ws -> exists a s, join [bof 32] ws = a :: s /\ graphic a = true.
Proof.
  destruct 2 as [|w ws [Hne Hw] _]; [done |]. destruct Hw as [|a w Ha Hw]; [done |].
  destruct ws; simpl; eauto.
Qed.

Lemma join_words_last ws :
  ws <> [] -> Forall word ws -> exists s b, join [bof 32] ws = s ++ [b] /\ graphic b = true.
Proof.
  intros Hne Hw. induction Hw as [|w ws [Hwne Hw] Hws IH]; [done |]. clear Hne.
  destruct ws as [|w' ws].
  - simpl. destruct (exists_last Hwne) as (w' & c & ->). apply Forall_app in Hw as [_ Hc].
    exists w', c. split; [reflexivity | by inversion Hc].
  - destruct (IH ltac:(done)) as (s & b & Hs & Hb); clear IH.
    rewrite join_cons, Hs by done. exists (w ++ [bof 32] ++ s), b. by rewrite <- !app_assoc.
Qed.

Lemma word_line ws :
  Forall word ws ->
  (newline ∉ join [bof 32] ws) /\ utf8_valid (join [bof 32] ws ++ [newline]) = true.
Proof.
  intros Hw. assert (Forall (fun c => in_rng 32 126 c = true) (join [bof 32] ws)) as H.
  { assert (forall w, word w -> Forall (fun c => in_rng 32 126 c = true) w) as Hg.
    { intros w [_ Hg]. eapply Forall_impl; [done |]. unfold graphic, in_rng. intros c ?. lia. }
    induction Hw as [|w ws Hw Hws IH]; [constructor |]. destruct ws as [|w' ws]; [by apply Hg |].
    rewrite join_cons by done. apply Forall_app. split; [by apply Hg | by constructor]. }
  split.
  - intros Hin. rewrite Forall_forall in H. by specialize (H _ Hin).
  - apply utf8_valid_ascii, Forall_app. split; [| by constructor].
    eapply Forall_impl; [done |]. unfold in_rng. intros c ?. lia.
Qed.
