(* ===== verification/Lossy.v ===== *)
(** [String::from_utf8_lossy]: bytes that are no UTF-8 become replacement characters, one for
    each longest beginning of a character. *)

From S2P Require Import Prelude Text.

Module Lossy.

(** U+FFFD *)
Definition REPLACEMENT : bytes := map bof [239; 191; 189].

(** What the second byte of three or four may be. *)
Definition second_of_three (a b : byte) : bool :=
  if in_rng 224 224 a then in_rng 160 191 b else if in_rng 237 237 a then in_rng 128 159 b else cont b.
Definition second_of_four (a b : byte) : bool :=
  if in_rng 240 240 a then in_rng 144 191 b else if in_rng 244 244 a then in_rng 128 143 b else cont b.

(** The next chunk: the bytes looked at, and whether they are a character. *)
Definition chunk (s : bytes) : nat * bool :=
  match s with
  | [] => (0%nat, true)
  | a :: t =>
      let get i := nth i t (bof 0) in
      if in_rng 0 127 a then (1%nat, true)
      else if in_rng 194 223 a then if cont (get 0%nat) then (2%nat, true) else (1%nat, false)
      else if in_rng 224 239 a then
        if second_of_three a (get 0%nat) then if cont (get 1%nat) then (3%nat, true) else (2%nat, false) else (1%nat, false)
      else if in_rng 240 244 a then
        if second_of_four a (get 0%nat) then
          if cont (get 1%nat) then if cont (get 2%nat) then (4%nat, true) else (3%nat, false) else (2%nat, false)
        else (1%nat, false)
      else (1%nat, false)
  end.

(** Every chunk takes at least one byte. *)
Fixpoint lossy_go (fuel : nat) (s : bytes) : bytes :=
  match fuel, s with
  | S fuel, _ :: _ => let '(n, ok) := chunk s in (if ok then take n s else REPLACEMENT) ++ lossy_go fuel (drop n s)
  | _, _ => []
  end.
Definition from_utf8_lossy (s : bytes) : bytes := lossy_go (length s) s.

Lemma cont_0 : cont (bof 0) = false.
Proof. done. Qed.
Lemma second_3_0 a : second_of_three a (bof 0) = false.
Proof. unfold second_of_three. by destruct (in_rng 224 224 a), (in_rng 237 237 a). Qed.
Lemma second_4_0 a : second_of_four a (bof 0) = false.
Proof. unfold second_of_four. by destruct (in_rng 240 240 a), (in_rng 244 244 a). Qed.

(** A chunk that is a character can be read off in front of anything. *)
Lemma chunk_valid s n t : s <> [] -> chunk s = (n, true) -> (0 < n <= length s)%nat /\ utf8_valid (take n s ++ t) = utf8_valid t.
Proof.
  destruct s as [|a s]; [done |]. intros _. cbn [chunk].
  destruct (in_rng 0 127 a) eqn:E1; [intros [= <-]; cbn [firstn app utf8_valid length]; rewrite E1; split; [lia | done] |].
  destruct (in_rng 194 223 a) eqn:E2.
  { destruct s as [|b s]; cbn [nth]; [by rewrite cont_0 |]. destruct (cont b) eqn:Eb; [| done]. intros [= <-].
    cbn [firstn app utf8_valid length]. rewrite E1, E2, Eb. split; [lia | done]. }
  destruct (in_rng 224 239 a) eqn:E3.
  { destruct s as [|b [|c s]]; cbn [nth]; [by rewrite second_3_0 | by destruct (second_of_three a b); rewrite ?cont_0 |].
    destruct (second_of_three a b) eqn:Eb; [| done]. destruct (cont c) eqn:Ec; [| done]. intros [= <-].
    cbn [firstn app utf8_valid length]. unfold second_of_three in Eb. rewrite E1, E2, E3, Eb, Ec. split; [lia | done]. }
  destruct (in_rng 240 244 a) eqn:E4; [| done].
  destruct s as [|b [|c [|d s]]]; cbn [nth];
    [by rewrite second_4_0 | by destruct (second_of_four a b); rewrite ?cont_0 | by destruct (second_of_four a b), (cont c); rewrite ?cont_0 |].
  destruct (second_of_four a b) eqn:Eb; [| done]. destruct (cont c) eqn:Ec; [| done]. destruct (cont d) eqn:Ed; [| done]. intros [= <-].
  cbn [firstn app utf8_valid length]. unfold second_of_four in Eb. rewrite E1, E2, E3, E4, Eb, Ec, Ed. split; [lia | done].
Qed.

Lemma chunk_pos s : s <> [] -> (0 < (chunk s).1)%nat.
Proof. destruct s as [|a s]; [done |]. intros _. cbn [chunk]. repeat (case_match; cbn; try lia). Qed.

(** UTF-8 begins with a character. *)
Lemma valid_chunk s : s <> [] -> utf8_valid s = true -> (chunk s).2 = true.
Proof.
  destruct s as [|a s]; [done |]. intros _. cbn [chunk utf8_valid]. destruct (in_rng 0 127 a) eqn:E1; [done |].
  destruct s as [|b s]; [done |]. cbn [nth]. destruct (in_rng 194 223 a); [by destruct (cont b) |].
  destruct s as [|c s]; [done |]. cbn [nth]. destruct (in_rng 224 239 a).
  { fold (second_of_three a b). by destruct (second_of_three a b), (cont c). }
  destruct s as [|d s]; [done |]. cbn [nth]. fold (second_of_four a b).
  by destruct (in_rng 240 244 a), (second_of_four a b), (cont c), (cont d).
Qed.

Lemma replacement_valid t : utf8_valid (REPLACEMENT ++ t) = utf8_valid t.
Proof. reflexivity. Qed.

Lemma lossy_go_spec fuel s : (length s <= fuel)%nat -> utf8_valid (lossy_go fuel s) = true /\ (utf8_valid s = true -> lossy_go fuel s = s).
Proof.
  revert s. induction fuel as [|fuel IH]; intros s Hf; [destruct s; [done | cbn in Hf; lia] |].
  destruct s as [|a s]; [done |]. cbn [lossy_go]. pose proof (chunk_pos (a :: s) ltac:(done)) as Hp.
  destruct (chunk (a :: s)) as [n ok] eqn:E. cbn [fst] in Hp. destruct (IH (drop n (a :: s))) as [Hv He]; [rewrite length_drop; cbn in *; lia |].
  destruct ok.
  - destruct (chunk_valid (a :: s) n (lossy_go fuel (drop n (a :: s))) ltac:(done) E) as [_ H1]. split; [by rewrite H1 |].
    intros Hs. destruct (chunk_valid (a :: s) n (drop n (a :: s)) ltac:(done) E) as [_ H2]. rewrite take_drop, Hs in H2. rewrite He by done. by rewrite take_drop.
  - split; [by rewrite replacement_valid |]. intros Hs. pose proof (valid_chunk (a :: s) ltac:(done) Hs) as H. by rewrite E in H.
Qed.

(** The result is always UTF-8, and UTF-8 is not changed. *)
Theorem from_utf8_lossy_spec s : utf8_valid (from_utf8_lossy s) = true /\ (utf8_valid s = true -> from_utf8_lossy s = s).
Proof. by apply lossy_go_spec. Qed.

(** One replacement for each beginning of a character. *)
Example lossy_examples :
  from_utf8_lossy (map bof [97; 226; 130; 98; 240; 159; 152; 255]) = [bof 97] ++ REPLACEMENT ++ [bof 98] ++ REPLACEMENT ++ REPLACEMENT.
Proof. reflexivity. Qed.

End Lossy.
