(* ===== verification/Numeric.v ===== *)
(** Integers: machine-width arithmetic with and without overflow checks, the
    numerals Rust reads and prints ([from_str_radix], [FromStr], [{:x}], [{}]),
    and little/big endian byte codecs. *)

From S2P Require Import Prelude Text.

(** * Machine-width arithmetic

    The [dev] profile keeps Rust's overflow checks (an overflow aborts), the
    [release] profile wraps: [oc] says which build is meant. *)

Definition uwrap (w : Z) (z : Z) : Z := z mod 2 ^ w.
Definition swrap (w : Z) (z : Z) : Z := (z + 2 ^ (w - 1)) mod 2 ^ w - 2 ^ (w - 1).

Definition u_arith {E} (oc : bool) (w : Z) (z : Z) : res E Z :=
  if (0 <=? z) && (z <? 2 ^ w) then Ok z else if oc then Panic else Ok (uwrap w z).
Definition s_arith {E} (oc : bool) (w : Z) (z : Z) : res E Z :=
  if (- 2 ^ (w - 1) <=? z) && (z <? 2 ^ (w - 1)) then Ok z
  else if oc then Panic else Ok (swrap w z).

Lemma uwrap_small w z : 0 <= z < 2 ^ w -> uwrap w z = z.
Proof. apply Z.mod_small. Qed.

Lemma uwrap_range w z : 0 <= w -> 0 <= uwrap w z < 2 ^ w.
Proof. intros. apply Z.mod_pos_bound. lia. Qed.

Lemma u_arith_small {E} oc w z : 0 <= z < 2 ^ w -> u_arith (E:=E) oc w z = Ok z.
Proof.
  intros [? ?]. unfold u_arith.
  rewrite (proj2 (Z.leb_le _ _)), (proj2 (Z.ltb_lt _ _)) by done. done.
Qed.

Lemma s_arith_small {E} oc w z : - 2 ^ (w - 1) <= z < 2 ^ (w - 1) -> s_arith (E:=E) oc w z = Ok z.
Proof. intros [? ?]. unfold s_arith. by rewrite (proj2 (Z.leb_le _ _)), (proj2 (Z.ltb_lt _ _)) by done. Qed.

Lemma swrap_small w z : 0 < w -> - 2 ^ (w - 1) <= z < 2 ^ (w - 1) -> swrap w z = z.
Proof.
  intros Hw Hz. unfold swrap. rewrite Z.mod_small; [lia |].
  replace (2 ^ w) with (2 * 2 ^ (w - 1)); [lia |]. rewrite <- Z.pow_succ_r by lia. f_equal. lia.
Qed.

(** * Digits *)

(** [char::to_digit] on a byte; the multi-byte characters have no digit value,
    and neither has any of their bytes. *)
Definition to_digit (radix : Z) (c : byte) : option Z :=
  let v := bval c in
  let d := if in_rng 48 57 c then v - 48
           else if in_rng 97 122 c then v - 87
           else if in_rng 65 90 c then v - 55
           else radix in
  if d <? radix then Some d else None.

(** The digit that [{:x}], [{:o}] and [{}] print. *)
Definition digit_char (d : Z) : byte := bof (if d <? 10 then 48 + d else 87 + d).

Fixpoint parse_digits (radix acc : Z) (s : bytes) : option Z :=
  match s with
  | [] => Some acc
  | c :: t =>
      match to_digit radix c with
      | Some d => parse_digits radix (acc * radix + d) t
      | None => None
      end
  end.

(** [uN::from_str_radix]: an optional ['+'], at least one digit, no overflow. *)
Definition parse_uint (w radix : Z) (s : bytes) : option Z :=
  let ds := match s with c :: t => if decide (c = bof 43) then t else s | [] => s end in
  if is_empty ds then None else
  match parse_digits radix 0 ds with
  | Some v => if v <? 2 ^ w then Some v else None
  | None => None
  end.

(** [iN::from_str_radix]: an optional sign. *)
Definition parse_sint (w radix : Z) (s : bytes) : option Z :=
  let '(neg, ds) :=
    match s with
    | c :: t => if decide (c = bof 45) then (true, t)
                else if decide (c = bof 43) then (false, t) else (false, s)
    | [] => (false, s)
    end in
  if is_empty ds then None else
  match parse_digits radix 0 ds with
  | Some v =>
      let z := if (neg : bool) then - v else v in
      if (- 2 ^ (w - 1) <=? z) && (z <? 2 ^ (w - 1)) then Some z else None
  | None => None
  end.

Fixpoint print_go (fuel : nat) (radix n : Z) (acc : bytes) : bytes :=
  match fuel with
  | O => acc
  | S fuel' =>
      if n <? radix then digit_char n :: acc
      else print_go fuel' radix (n / radix) (digit_char (n mod radix) :: acc)
  end.

(** [{}], [{:x}] and [{:o}] of an unsigned integer.  Each round at least halves
    the number, so one round per binary digit is enough. *)
Definition print_radix (radix n : Z) : bytes :=
  print_go (S (Z.to_nat (Z.log2 n))) radix n [].

(** [{:0wX}]: padded with zeros to a minimal width. *)
Definition zero_pad (width : nat) (s : bytes) : bytes :=
  replicate (width - length s) (bof 48) ++ s.

Definition fmt_dec (n : Z) : bytes :=
  if n <? 0 then bof 45 :: print_radix 10 (- n) else print_radix 10 n.
Definition fmt_08x (n : Z) : bytes := zero_pad 8 (print_radix 16 n).

(** ** Reading back what was printed *)

Lemma to_digit_char radix d : 0 <= d < radix -> radix <= 36 -> to_digit radix (digit_char d) = Some d.
Proof.
  intros Hd Hr. unfold to_digit, digit_char, in_rng.
  rewrite bval_bof. destruct (d <? 10) eqn:E.
  - apply Z.ltb_lt in E. rewrite Z.mod_small by lia.
    replace ((48 <=? 48 + d) && (48 + d <=? 57)) with true by lia.
    replace (48 + d - 48) with d by lia. by replace (d <? radix) with true by lia.
  - apply Z.ltb_ge in E. rewrite Z.mod_small by lia.
    replace ((48 <=? 87 + d) && (87 + d <=? 57)) with false by lia.
    replace ((97 <=? 87 + d) && (87 + d <=? 122)) with true by lia.
    replace (87 + d - 87) with d by lia. by replace (d <? radix) with true by lia.
Qed.

Lemma to_digit_range radix c d : 0 < radix -> to_digit radix c = Some d -> 0 <= d < radix.
Proof.
  intros Hr. unfold to_digit, in_rng. pose proof (bval_range c).
  destruct (_ <? radix) eqn:E; [| done]. intros [= <-]. apply Z.ltb_lt in E.
  split; [| done]. clear E. repeat case_match; lia.
Qed.

Lemma parse_print_go fuel radix n acc :
  2 <= radix <= 36 -> 0 <= n < 2 ^ Z.of_nat fuel ->
  parse_digits radix 0 (print_go fuel radix n acc) = parse_digits radix n acc.
Proof.
  intros Hr. revert n acc. induction fuel as [|fuel IH]; intros n acc Hn.
  { replace (2 ^ Z.of_nat 0) with 1 in Hn by done. by replace n with 0 by lia. }
  simpl. destruct (n <? radix) eqn:E.
  - apply Z.ltb_lt in E. simpl. rewrite to_digit_char by lia. f_equal.
  - apply Z.ltb_ge in E. pose proof (Z.div_mod n radix ltac:(lia)) as Hdm.
    pose proof (Z.mod_pos_bound n radix ltac:(lia)).
    rewrite IH.
    + simpl. rewrite to_digit_char by lia. f_equal. lia.
    + rewrite Nat2Z.inj_succ, Z.pow_succ_r in Hn by lia.
      split; [apply Z.div_pos; lia |]. apply Z.div_lt_upper_bound; nia.
Qed.

Lemma print_radix_fuel n : 0 <= n -> n < 2 ^ Z.of_nat (S (Z.to_nat (Z.log2 n))).
Proof.
  intros Hn. pose proof (Z.log2_nonneg n). rewrite Nat2Z.inj_succ, Z2Nat.id by done.
  destruct (decide (n = 0)) as [-> |]; [done |]. apply Z.log2_spec. lia.
Qed.

(** A printed number is read back as itself. *)
Lemma parse_print radix n :
  2 <= radix <= 36 -> 0 <= n -> parse_digits radix 0 (print_radix radix n) = Some n.
Proof.
  intros. unfold print_radix.
  rewrite parse_print_go; [done | done |]. split; [done | by apply print_radix_fuel].
Qed.

Lemma parse_zero_pad radix w s :
  2 <= radix <= 36 -> parse_digits radix 0 (zero_pad w s) = parse_digits radix 0 s.
Proof.
  intros Hr. unfold zero_pad. induction (w - length s)%nat as [|k IH]; [done |].
  simpl. change (bof 48) with (digit_char 0). by rewrite to_digit_char by lia.
Qed.

Lemma print_go_length fuel radix n acc k :
  2 <= radix -> 0 <= n < radix ^ Z.of_nat k -> (0 < k)%nat ->
  (length (print_go fuel radix n acc) <= k + length acc)%nat.
Proof.
  intros Hr. revert n acc k. induction fuel as [|fuel IH]; intros n acc k Hn Hk; simpl; [lia |].
  destruct (n <? radix) eqn:E; [simpl; lia |]. apply Z.ltb_ge in E.
  destruct k as [|[|k]]; [lia | |].
  - change (Z.of_nat 1) with 1 in Hn. rewrite Z.pow_1_r in Hn. lia.
  - etrans; [apply (IH _ _ (S k)) |]; simpl; [| lia | lia].
    rewrite (Nat2Z.inj_succ (S k)), Z.pow_succ_r in Hn by lia.
    split; [apply Z.div_pos; lia |]. apply Z.div_lt_upper_bound; lia.
Qed.

(** Eight hexadecimal digits are enough for 32 bits. *)
Lemma fmt_08x_length n : 0 <= n < 2 ^ 32 -> length (fmt_08x n) = 8%nat.
Proof.
  intros Hn. unfold fmt_08x, zero_pad, print_radix. rewrite length_app, length_replicate.
  pose proof (print_go_length (S (Z.to_nat (Z.log2 n))) 16 n [] 8 ltac:(lia) Hn ltac:(lia)).
  simpl in *. lia.
Qed.

Lemma parse_fmt_08x n : 0 <= n -> parse_digits 16 0 (fmt_08x n) = Some n.
Proof. intros. unfold fmt_08x. rewrite parse_zero_pad, parse_print by lia. done. Qed.

(** Eight hexadecimal digits never exceed 32 bits. *)
Lemma parse_digits_bound radix acc s v :
  0 < radix -> 0 <= acc -> parse_digits radix acc s = Some v ->
  0 <= v < (acc + 1) * radix ^ zlen s.
Proof.
  intros Hr. revert acc. induction s as [|c s IH]; intros acc Ha; cbn [parse_digits].
  - intros [= <-]. change (zlen (@nil byte)) with 0. rewrite Z.pow_0_r. lia.
  - destruct (to_digit radix c) as [d|] eqn:Ed; [| done].
    apply to_digit_range in Ed; [| done]. intros H%IH; [| lia].
    rewrite zlen_cons, Z.pow_succ_r by lia.
    assert (0 < radix ^ zlen s) by (apply Z.pow_pos_nonneg; lia). nia.
Qed.

(** ** Printed numbers as words *)

Definition is_digit (c : byte) : bool := in_rng 48 57 c.

Lemma digit_char_is_digit d : 0 <= d < 10 -> is_digit (digit_char d) = true.
Proof.
  intros. unfold is_digit, digit_char, in_rng.
  rewrite (proj2 (Z.ltb_lt _ _)), bval_bof, Z.mod_small by lia. lia.
Qed.

Lemma print_go_digits fuel n acc :
  0 <= n -> Forall (fun c => is_digit c = true) acc ->
  Forall (fun c => is_digit c = true) (print_go fuel 10 n acc).
Proof.
  revert n acc. induction fuel as [|fuel IH]; intros n acc Hn Ha; [done |]. cbn [print_go].
  destruct (Z.ltb_spec n 10).
  - constructor; [by apply digit_char_is_digit | done].
  - apply IH; [by apply Z.div_pos; lia |].
    constructor; [apply digit_char_is_digit, Z.mod_pos_bound; lia | done].
Qed.

Lemma print_dec_digits n : 0 <= n -> Forall (fun c => is_digit c = true) (print_radix 10 n).
Proof. intros. by apply print_go_digits. Qed.

Lemma print_go_nonempty fuel radix n acc : (0 < fuel)%nat -> print_go fuel radix n acc <> [].
Proof.
  intros Hf. destruct fuel as [|fuel]; [lia |]. clear Hf. revert n acc.
  induction fuel as [|fuel IH]; intros n acc; cbn [print_go]; destruct (n <? radix); try done. apply IH.
Qed.

Lemma is_digit_not c d : is_digit c = true -> is_digit d = false -> c <> d.
Proof. congruence. Qed.

Lemma print_dec_word n : 0 <= n -> word (print_radix 10 n).
Proof.
  intros Hn. split; [apply print_go_nonempty; lia |].
  eapply Forall_impl; [by apply print_dec_digits |]. unfold is_digit, graphic, in_rng. intros c ?. lia.
Qed.

(** [FromStr] reads back what [Display] prints. *)
Lemma parse_uint_print w n : 0 <= n < 2 ^ w -> parse_uint w 10 (print_radix 10 n) = Some n.
Proof.
  intros Hn. pose proof (print_dec_digits n ltac:(lia)) as Hd.
  pose proof (parse_print 10 n ltac:(lia) ltac:(lia)) as Hp.
  unfold parse_uint. destruct (print_radix 10 n) as [|c s] eqn:E.
  { by apply print_go_nonempty in E; [| lia]. }
  inversion Hd; subst. rewrite decide_False by by apply is_digit_not.
  cbn [is_empty]. rewrite Hp. by rewrite (proj2 (Z.ltb_lt _ _)) by lia.
Qed.

(** * Endian codecs: [uN::from_le_bytes], [read_u64::<BigEndian>] and friends *)

Fixpoint of_le (s : bytes) : Z :=
  match s with [] => 0 | c :: t => bval c + 256 * of_le t end.
Definition of_be (s : bytes) : Z := of_le (rev s).

Fixpoint to_le (n : nat) (z : Z) : bytes :=
  match n with O => [] | S n' => bof z :: to_le n' (z / 256) end.
Definition to_be (n : nat) (z : Z) : bytes := rev (to_le n z).

Lemma of_le_range s : 0 <= of_le s < 256 ^ zlen s.
Proof.
  induction s as [|c s IH]; cbn [of_le]; [done |].
  rewrite zlen_cons, Z.pow_succ_r by lia. pose proof (bval_range c). lia.
Qed.

Lemma to_le_length n z : length (to_le n z) = n.
Proof. revert z. induction n; simpl; auto. Qed.

Lemma of_to_le n z : of_le (to_le n z) = z mod 256 ^ Z.of_nat n.
Proof.
  revert z. induction n as [|n IH]; intros z; cbn [of_le to_le]; [by rewrite Z.mod_1_r |].
  rewrite IH, bval_bof, Nat2Z.inj_succ, Z.pow_succ_r by lia.
  rewrite (Z.rem_mul_r z 256) by lia. done.
Qed.

Lemma to_of_le s : to_le (length s) (of_le s) = s.
Proof.
  induction s as [|c s IH]; [done |]. simpl. pose proof (bval_range c).
  rewrite (Z.mul_comm 256), Z.div_add, Z.div_small, Z.add_0_l, IH by lia. f_equal.
  apply bval_inj. rewrite bval_bof, Z.mod_add by lia. by apply Z.mod_small.
Qed.

Lemma of_to_be n z : of_be (to_be n z) = z mod 256 ^ Z.of_nat n.
Proof. unfold of_be, to_be. rewrite rev_involutive. apply of_to_le. Qed.

Lemma to_be_length n z : length (to_be n z) = n.
Proof. unfold to_be. by rewrite length_rev, to_le_length. Qed.
