(* ===== verification/CStr.v ===== *)
(** base/cstr.rs and the path builder of base/files.rs: NUL-terminated UTF-8
    strings, the growable and the fixed-size string buffers behind the trait
    [Utf8CStrBuf], and [append_path] on top of the trait. *)

From S2P Require Import Prelude Text.

Module CStr.

Definition NUL : byte := bof 0.
Definition slash : byte := bof 47.

(** * Validation *)

(** [StrErr] *)
Inductive StrErr : Type :=
| Utf8Error
| CStrWithNullError
| CStrUntilNullError
| NullPointerError.

(** [CStr::from_bytes_with_nul]: exactly one NUL, at the end. *)
Definition cstr_from_bytes_with_nul (s : bytes) : res StrErr bytes :=
  match split_once NUL s with
  | Some (body, []) => Ok body
  | _ => Err CStrWithNullError
  end.

(** [CStr::from_bytes_until_nul]: up to the first NUL. *)
Definition cstr_from_bytes_until_nul (s : bytes) : res StrErr bytes :=
  match split_once NUL s with
  | Some (body, _) => Ok body
  | None => Err CStrUntilNullError
  end.

(** The contents of a [Utf8CStr], without its terminator. *)
Definition from_cstr (s : bytes) : res StrErr bytes :=
  if utf8_valid s then Ok s else Err Utf8Error.

Definition from_bytes (s : bytes) : res StrErr bytes :=
  cstr_from_bytes_with_nul s ≫= from_cstr.
Definition from_bytes_until_nul (s : bytes) : res StrErr bytes :=
  cstr_from_bytes_until_nul s ≫= from_cstr.

(** A pointer that is null or leads to memory with a NUL in it. *)
Definition from_ptr (p : option bytes) : res StrErr bytes :=
  match p with
  | None => Err NullPointerError
  | Some mem => from_bytes_until_nul mem
  end.

(** [from_bytes] accepts exactly a NUL-free UTF-8 body and its terminator. *)
Lemma from_bytes_Ok s r :
  from_bytes s = Ok r <-> s = r ++ [NUL] /\ (NUL ∉ r) /\ utf8_valid r = true.
Proof.
  unfold from_bytes, cstr_from_bytes_with_nul, from_cstr.
  destruct (split_once NUL s) as [[a [|x b]]|] eqn:E; simpl.
  - apply split_once_Some in E as [Ha ->]. split.
    + destruct (utf8_valid a) eqn:Hu; [| done]. by intros [= <-].
    + intros (H & _ & Hu). apply app_inj_tail in H as [-> _]. by rewrite Hu.
  - split; [done |]. intros (-> & Hr & _). exfalso.
    assert (split_once NUL (r ++ [NUL]) = Some (r, [])) by (by apply split_once_Some). congruence.
  - split; [done |]. intros (-> & Hr & _). exfalso.
    assert (split_once NUL (r ++ [NUL]) = Some (r, [])) by (by apply split_once_Some). congruence.
Qed.

(** * The trait [Utf8CStrBuf] *)

Class Utf8CStrBuf (B : Type) := {
  as_str : B -> bytes;                        (** [Deref<Target = Utf8CStr>] *)
  push_str : bytes -> B -> B * Z;             (** bytes copied *)
  clear : B -> B;
  truncate : nat -> B -> res unit B;
  rebuild : B -> B * res StrErr unit
}.

Definition buf_len {B} `{Utf8CStrBuf B} (b : B) : Z := zlen (as_str b).
Definition buf_is_empty {B} `{Utf8CStrBuf B} (b : B) : bool := buf_len b =? 0.

(** What a buffer promises: a push appends a prefix of its argument and returns
    its length, clearing empties, truncating to a former length cuts there. *)
Class BufLaws (B : Type) `{Utf8CStrBuf B} (wf : B -> Prop) := {
  push_wf b s : wf b -> wf (push_str s b).1;
  push_prefix b s : wf b ->
    exists n, as_str (push_str s b).1 = as_str b ++ take n s /\
              (push_str s b).2 = zlen (take n s);
  clear_wf b : wf b -> wf (clear b);
  clear_str b : wf b -> as_str (clear b) = [];
  truncate_str b n : wf b -> utf8_valid (take n (as_str b)) = true ->
    utf8_valid (drop n (as_str b)) = true ->
    exists b', truncate n b = Ok b' /\ wf b' /\ as_str b' = take n (as_str b)
}.

(** ** [Utf8CString]: a [String] that keeps a NUL after its last byte *)

Record Utf8CString := mkUtf8CString {
  inner : bytes;        (** the [String] *)
  spare : bytes         (** the rest of the allocation, the terminator first *)
}.

Definition nul_terminate (s : bytes) : Utf8CString := mkUtf8CString s [NUL].

(** [str::is_char_boundary] *)
Definition is_char_boundary (s : bytes) (n : nat) : bool :=
  match n with
  | O => true
  | _ => match s !! n with
         | Some c => negb (cont c)
         | None => (n =? length s)%nat
         end
  end.

Definition Utf8CString_truncate (new_len : nat) (b : Utf8CString) : res unit Utf8CString :=
  if (length (inner b) <? new_len)%nat then Ok (nul_terminate (inner b))
  else if is_char_boundary (inner b) new_len then Ok (nul_terminate (take new_len (inner b)))
  else Panic.

Definition Utf8CString_rebuild (b : Utf8CString) : Utf8CString * res StrErr unit :=
  let alloc := inner b ++ spare b in
  match from_bytes_until_nul alloc with
  | Ok s => (mkUtf8CString s (drop (length s) alloc), Ok tt)
  | Err e => (nul_terminate [], Err e)
  | Panic => (b, Panic)
  end.

#[export] Instance Utf8CString_buf : Utf8CStrBuf Utf8CString := {
  as_str b := inner b;
  push_str s b := (nul_terminate (inner b ++ s), zlen s);
  clear _ := nul_terminate [];
  truncate := Utf8CString_truncate;
  rebuild := Utf8CString_rebuild
}.

(** ** [Utf8CStrBufRef] and [Utf8CStrBufArr<N>]: [used] bytes of a fixed buffer *)

Record FixedBuf := mkFixedBuf { used : nat; buf : bytes }.

Definition FixedBuf_new (N : nat) : FixedBuf := mkFixedBuf 0 (replicate N NUL).
(** [Utf8CStrBufRef::from]: [buf[0] = b'\0'] aborts on an empty slice. *)
Definition FixedBuf_wrap (b : bytes) : res unit FixedBuf :=
  match b with [] => Panic | _ => Ok (mkFixedBuf 0 (<[0%nat := NUL]> b)) end.

(** [copy_cstr_truncate(dest, src)]: the new [dest] and the bytes copied. *)
Definition copy_cstr_truncate (dest src : bytes) : bytes * nat :=
  if (length dest <=? 1)%nat then (dest, 0%nat) else
  let len := Nat.min (length src) (length dest - 1) in
  (<[len := NUL]> (take len src ++ drop len dest), len).

Definition FixedBuf_push_str (s : bytes) (b : FixedBuf) : FixedBuf * Z :=
  let '(dest, len) := copy_cstr_truncate (drop (used b) (buf b)) s in
  (mkFixedBuf (used b + len) (take (used b) (buf b) ++ dest), Z.of_nat len).

Definition FixedBuf_truncate (new_len : nat) (b : FixedBuf) : FixedBuf :=
  if (used b <=? new_len)%nat then b else mkFixedBuf new_len (<[new_len := NUL]> (buf b)).

Definition FixedBuf_rebuild (b : FixedBuf) : FixedBuf * res StrErr unit :=
  match from_bytes_until_nul (buf b) with
  | Ok s => (mkFixedBuf (length s) (buf b), Ok tt)
  | Err e => (mkFixedBuf 0 (<[0%nat := NUL]> (buf b)), Err e)
  | Panic => (b, Panic)
  end.

#[export] Instance FixedBuf_buf : Utf8CStrBuf FixedBuf := {
  as_str b := take (used b) (buf b);
  push_str := FixedBuf_push_str;
  clear b := mkFixedBuf 0 (<[0%nat := NUL]> (buf b));
  truncate n b := Ok (FixedBuf_truncate n b);
  rebuild := FixedBuf_rebuild
}.

(** [self.used <= SIZE - 1], and the byte after the string is a NUL. *)
Definition FixedBuf_wf (b : FixedBuf) : Prop := buf b !! used b = Some NUL.

Lemma FixedBuf_wf_lt b : FixedBuf_wf b -> (used b < length (buf b))%nat.
Proof. apply lookup_lt_Some. Qed.

Lemma FixedBuf_as_str_length b : FixedBuf_wf b -> length (as_str b) = used b.
Proof. intros H%FixedBuf_wf_lt. simpl. rewrite length_take. lia. Qed.

Lemma copy_cstr_truncate_spec dest src d n :
  copy_cstr_truncate dest src = (d, n) -> dest !! 0%nat = Some NUL ->
  n = Nat.min (length src) (length dest - 1) /\ length d = length dest /\
  take n d = take n src /\ d !! n = Some NUL.
Proof.
  unfold copy_cstr_truncate. destruct (Nat.leb_spec (length dest) 1) as [H|H]; intros [= <- <-] H0.
  - pose proof (lookup_lt_Some _ _ _ H0). split_and!; [lia | done | done | done].
  - set (len := Nat.min _ _).
    assert (length (take len src ++ drop len dest) = length dest) as Hl
      by (rewrite length_app, length_take, length_drop; lia).
    split_and!; [done | by rewrite length_insert | | apply list_lookup_insert_eq; lia].
    rewrite take_insert_ge by done. rewrite take_app_le by (rewrite length_take; lia).
    rewrite take_take. f_equal. lia.
Qed.

Lemma FixedBuf_push_spec b s :
  FixedBuf_wf b ->
  let b' := (FixedBuf_push_str s b).1 in
  let n := (length (buf b) - 1 - used b)%nat in
  FixedBuf_wf b' /\ length (buf b') = length (buf b) /\
  as_str b' = as_str b ++ take n s /\ (FixedBuf_push_str s b).2 = zlen (take n s).
Proof.
  intros Hwf. pose proof (FixedBuf_wf_lt _ Hwf). unfold FixedBuf_push_str.
  destruct (copy_cstr_truncate (drop (used b) (buf b)) s) as [d n] eqn:E. cbn.
  apply copy_cstr_truncate_spec in E as (-> & Hl & Ht & Hn).
  2:{ by rewrite lookup_drop, Nat.add_0_r. }
  rewrite length_drop in *. set (n := Nat.min _ _) in *.
  assert (length (take (used b) (buf b)) = used b) as Hu by (rewrite length_take; lia).
  unfold FixedBuf_wf. simpl. rewrite length_app, Hl, Hu.
  rewrite lookup_app_r by lia. rewrite Hu, Nat.add_comm, Nat.add_sub.
  split_and!; [done | lia | | rewrite length_take; lia].
  rewrite (Nat.add_comm n), take_app_ge, Hu by lia. f_equal.
  replace (used b + n - used b)%nat with n by lia. rewrite Ht. subst n.
  destruct (decide (length s <= length (buf b) - 1 - used b)%nat).
  - rewrite !take_ge by lia. done.
  - f_equal. lia.
Qed.

(** A push that fits is complete. *)
Lemma FixedBuf_push_fits b s :
  FixedBuf_wf b -> (length (as_str b) + length s < length (buf b))%nat ->
  FixedBuf_wf (push_str s b).1 /\ length (buf (push_str s b).1) = length (buf b) /\
  as_str (push_str s b).1 = as_str b ++ s.
Proof.
  intros Hwf Hlen. destruct (FixedBuf_push_spec b s Hwf) as (? & ? & Ha & _).
  rewrite FixedBuf_as_str_length in Hlen by done.
  split_and!; [done | done |]. cbn [push_str FixedBuf_buf]. rewrite Ha. f_equal. apply take_ge. lia.
Qed.

#[export] Instance FixedBuf_laws : BufLaws FixedBuf FixedBuf_wf.
Proof.
  split.
  - intros b s H. by destruct (FixedBuf_push_spec b s H).
  - intros b s H. eexists. by destruct (FixedBuf_push_spec b s H) as (_ & _ & ? & ?).
  - intros b H%FixedBuf_wf_lt. unfold FixedBuf_wf. simpl. apply list_lookup_insert_eq. lia.
  - done.
  - intros b n H _ _. exists (FixedBuf_truncate n b). split; [done |].
    pose proof (FixedBuf_wf_lt _ H). unfold FixedBuf_truncate.
    destruct (Nat.leb_spec (used b) n); simpl.
    + split; [done |]. rewrite take_take. f_equal. lia.
    + split; [apply list_lookup_insert_eq; lia |]. rewrite take_insert_ge, take_take by done.
      f_equal. lia.
Qed.

Lemma cont_not_valid c s : cont c = true -> utf8_valid (c :: s) = false.
Proof.
  unfold cont, in_rng. intros H. cbn [utf8_valid]. unfold cont, in_rng.
  repeat case_match; try done; lia.
Qed.

#[export] Instance Utf8CString_laws : BufLaws Utf8CString (fun b => head (spare b) = Some NUL).
Proof.
  split; try done.
  - intros b s _. exists (length s). simpl. by rewrite firstn_all.
  - intros b n _ Ht Hd. simpl in *. unfold Utf8CString_truncate.
    destruct (Nat.ltb_spec (length (inner b)) n).
    + eexists. split; [done |]. split; [done |]. simpl. by rewrite take_ge by lia.
    + assert (is_char_boundary (inner b) n = true) as ->; [| by eexists].
      unfold is_char_boundary. destruct n as [|n]; [done |].
      destruct (inner b !! S n) as [c|] eqn:E.
      * destruct (cont c) eqn:Ec; [| done]. rewrite (drop_S _ c) in Hd by done.
        by rewrite cont_not_valid in Hd.
      * apply lookup_ge_None in E. apply Nat.eqb_eq. lia.
Qed.

(** * Paths: [append_path_impl] and [append_path_fmt] *)

Section Path.
Context {B : Type} `{Utf8CStrBuf B} {wf : B -> Prop} {L : BufLaws B wf}.

Definition append_path (path : bytes) (b : B) : B :=
  let b := if starts_with path [slash] then clear b else b in
  let b := if negb (buf_is_empty b) && negb (ends_with (as_str b) [slash])
           then (push_str [slash] b).1 else b in
  (push_str path b).1.

(** [append_path_fmt] always writes a slash first. *)
Definition append_path_fmt (name : bytes) (b : B) : B :=
  (push_str name (push_str [slash] b).1).1.

Lemma append_path_wf path b : wf b -> wf (append_path path b).
Proof using L.
  intros Hb. unfold append_path. set (b1 := if starts_with _ _ then _ else _).
  assert (wf b1) by (subst b1; destruct (starts_with _ _); [by apply (clear_wf (wf:=wf)) | done]).
  apply (push_wf (wf:=wf)). destruct (_ && _); [by apply (push_wf (wf:=wf)) | done].
Qed.

(** Appending a relative path only extends the string. *)
Lemma append_path_extends path b :
  wf b -> starts_with path [slash] = false ->
  exists t, as_str (append_path path b) = as_str b ++ t.
Proof using L.
  intros Hb Hp. unfold append_path. rewrite Hp.
  set (b1 := if _ && _ then _ else _).
  assert (wf b1 /\ exists t, as_str b1 = as_str b ++ t) as [Hb1 [t Ht]].
  { subst b1. destruct (_ && _); [| split; [done | exists []; by rewrite app_nil_r]].
    split; [by apply (push_wf (wf:=wf)) |]. destruct (push_prefix b [slash] Hb) as (n & -> & _). eauto. }
  destruct (push_prefix b1 path Hb1) as (n & -> & _). rewrite Ht, <- app_assoc. eauto.
Qed.
End Path.


(** * Sequences of operations *)

Inductive BufOp := OPush (s : bytes) | OPath (path : bytes) | OPathFmt (name : bytes) | OClear | OTruncate (n : nat) | ORebuild.

Definition buf_op {B} `{Utf8CStrBuf B} (b : B) (op : BufOp) : B :=
  match op with
  | OPush s => (push_str s b).1
  | OPath p => append_path p b
  | OPathFmt n => append_path_fmt n b
  | OClear => clear b
  | OTruncate n => match truncate n b with Ok b => b | _ => b end
  | ORebuild => (rebuild b).1
  end.

Definition sized (N : nat) (b : FixedBuf) : Prop := FixedBuf_wf b /\ length (buf b) = N.

Lemma push_sized N s b : sized N b -> sized N (push_str s b).1.
Proof. intros [Hw <-]. destruct (FixedBuf_push_spec b s Hw) as (? & ? & _). by split. Qed.

Lemma clear_sized N b : sized N b -> sized N (clear b).
Proof.
  intros [Hw <-]. apply FixedBuf_wf_lt in Hw. split; cbn; [apply list_lookup_insert_eq; lia | by rewrite length_insert].
Qed.

Lemma append_path_sized N p b : sized N b -> sized N (append_path p b).
Proof.
  intros Hb. unfold append_path. set (b1 := if starts_with _ _ then _ else _).
  assert (sized N b1) by (subst b1; destruct (starts_with _ _); [by apply clear_sized | done]).
  apply push_sized. destruct (_ && _); [by apply push_sized | done].
Qed.

Lemma buf_op_sized N b op : sized N b -> sized N (buf_op b op).
Proof.
  intros Hb. destruct op as [s|p|n| |n|]; cbn [buf_op].
  - by apply push_sized.
  - by apply append_path_sized.
  - unfold append_path_fmt. by apply push_sized, push_sized.
  - by apply clear_sized.
  - destruct Hb as [Hw <-]. pose proof (FixedBuf_wf_lt _ Hw). cbn. unfold FixedBuf_truncate. destruct (Nat.leb_spec (used b) n); [done |].
    split; cbn; [apply list_lookup_insert_eq; lia | by rewrite length_insert].
  - destruct Hb as [Hw <-]. pose proof (FixedBuf_wf_lt _ Hw). cbn. unfold FixedBuf_rebuild, from_bytes_until_nul, cstr_from_bytes_until_nul.
    destruct (split_once NUL (buf b)) as [[a c]|] eqn:E; cbn.
    + apply split_once_Some in E as [_ E]. unfold from_cstr. destruct (utf8_valid a); cbn.
      * split; [| done]. unfold FixedBuf_wf. cbn. rewrite E. by rewrite lookup_app_r, Nat.sub_diag by lia.
      * split; cbn; [apply list_lookup_insert_eq; lia | by rewrite length_insert].
    + split; cbn; [apply list_lookup_insert_eq; lia | by rewrite length_insert].
Qed.

(** The operations a buffer of any size supports without aborting. *)
Definition appends (op : BufOp) : bool := match op with OTruncate _ | ORebuild => false | _ => true end.

Lemma append_path_inner p (d : Utf8CString) :
  exists pre, inner (append_path p d) = pre ++ p /\ pre = (if starts_with p [slash] then [] else
    if negb (buf_is_empty d) && negb (ends_with (inner d) [slash]) then inner d ++ [slash] else inner d).
Proof. unfold append_path. destruct (starts_with p [slash]); cbn; [by eexists |]. destruct (_ && _); by eexists. Qed.

Lemma buf_op_agrees N b d op :
  sized N b -> as_str b = inner d -> appends op = true -> (length (inner (buf_op d op)) < N)%nat -> as_str (buf_op b op) = inner (buf_op d op).
Proof.
  intros [Hw <-] Hs Ha Hl.
  assert (forall b s, FixedBuf_wf b -> (length (as_str b ++ s) < length (buf b))%nat ->
    as_str (push_str s b).1 = as_str b ++ s /\ FixedBuf_wf (push_str s b).1 /\ length (buf (push_str s b).1) = length (buf b)) as Hpush.
  { intros b0 s0 Hw0 Hl0. rewrite length_app in Hl0. destruct (FixedBuf_push_fits b0 s0 Hw0 Hl0) as (? & ? & ?). done. }
  destruct op as [s|p|n| |n|]; try done.
  - cbn [buf_op] in *. destruct (Hpush b s Hw) as [-> _]; [by rewrite Hs |]. by rewrite Hs.
  - cbn [buf_op] in *. destruct (append_path_inner p d) as (pre & Heq & Hpre). rewrite Heq in *. unfold append_path.
    destruct (starts_with p [slash]).
    + subst pre. assert (sized (length (buf b)) (clear b)) as [Hw' Hl'] by by apply clear_sized.
      cbn [buf_is_empty]. change (as_str (clear b)) with (@nil byte). cbn. destruct (Hpush (clear b) p Hw') as [Hp _]; [by rewrite Hl' | exact Hp].
    + assert (buf_is_empty b = buf_is_empty d) as -> by (unfold buf_is_empty, buf_len; by rewrite Hs).
      rewrite Hs. destruct (negb (buf_is_empty d) && negb (ends_with (inner d) [slash])).
      * subst pre. destruct (Hpush b [slash] Hw) as (H1 & H2 & H3); [rewrite Hs; rewrite length_app in Hl; lia |].
        destruct (Hpush (push_str [slash] b).1 p H2) as [-> _]; [by rewrite H1, Hs, H3 |]. by rewrite H1, Hs.
      * subst pre. destruct (Hpush b p Hw) as [-> _]; [by rewrite Hs |]. by rewrite Hs.
  - cbn [buf_op] in *. unfold append_path_fmt in *. cbn [push_str Utf8CString_buf inner nul_terminate fst] in Hl |- *.
    destruct (Hpush b [slash] Hw) as (H1 & H2 & H3); [rewrite Hs; rewrite length_app in Hl; lia |].
    destruct (Hpush (push_str [slash] b).1 n H2) as [-> _]; [by rewrite H1, Hs, H3 |]. by rewrite H1, Hs.
Qed.

Fixpoint fits_within (N : nat) (d : Utf8CString) (ops : list BufOp) : Prop :=
  match ops with [] => True | op :: ops => appends op = true /\ (length (inner (buf_op d op)) < N)%nat /\ fits_within N (buf_op d op) ops end.

(** C40: A fixed string buffer of [N] bytes is never overrun: whatever strings and paths
    are pushed, cut or rebuilt in it, the array keeps its size, the string stays shorter
    than it and is followed by a NUL. As long as the result fits, the buffer holds the
    same string as a growing one would; what does not fit is cut off. *)
Theorem fixed_buf_bounds N ops :
  (0 < N)%nat ->
  let b := foldl buf_op (FixedBuf_new N) ops in
  length (buf b) = N /\ (used b < N)%nat /\ buf b !! used b = Some NUL /\ length (as_str b) = used b /\
  (fits_within N (nul_terminate []) ops -> as_str b = inner (foldl buf_op (nul_terminate []) ops)).
Proof.
  intros HN. assert (sized N (FixedBuf_new N)) as H0.
  { split; [unfold FixedBuf_wf; cbn; by apply lookup_replicate_2 | apply length_replicate]. }
  assert (forall b d, sized N b -> sized N (foldl buf_op b ops) /\
    (as_str b = inner d -> fits_within N d ops -> as_str (foldl buf_op b ops) = inner (foldl buf_op d ops))) as Hgen.
  { clear H0. induction ops as [|op ops IH]; intros b d Hb; cbn [foldl fits_within]; [done |].
    pose proof (buf_op_sized N b op Hb) as Hb'. split; [apply (IH _ d), Hb' |]. intros Hs (Ha & Hl & Hf).
    apply IH; [done | by apply (buf_op_agrees N) | done]. }
  intros b. destruct (Hgen (FixedBuf_new N) (nul_terminate []) H0) as [[Hw Hl] Hag]. fold b in Hw, Hl, Hag.
  pose proof (FixedBuf_wf_lt _ Hw). split_and!; [done | lia | done | by apply FixedBuf_as_str_length | by apply Hag].
Qed.

Lemma fixed_buf_bounds_witness :
  let b := foldl buf_op (FixedBuf_new 8) [OPath #"/data"; OPath #"adb/modules"; OTruncate 6; ORebuild] in
  as_str b = #"/data/" /\ length (buf b) = 8%nat.
Proof.
  intros b. destruct (fixed_buf_bounds 8 [OPath #"/data"; OPath #"adb/modules"; OTruncate 6; ORebuild] ltac:(lia)) as (H & _).
  split; [vm_compute; reflexivity | exact H].
Defined.

(** Cutting at the end of the buffer can split a character. *)
Theorem push_splits_character :
  let b := (push_str [bof 0xC3; bof 0xA9] (FixedBuf_new 2)).1 in
  utf8_valid [bof 0xC3; bof 0xA9] = true /\ as_str b = [bof 0xC3] /\ utf8_valid (as_str b) = false.
Proof. vm_compute. done. Qed.
End CStr.
