(* ===== verification/CStrConv.v ===== *)
(** base/cstr.rs: the views of a [Utf8CStr] as a slice with its terminator, a [str], a [CStr]
    and a C pointer, the conversions between owned and borrowed strings, their capacity, and
    their equality and order. *)

From S2P Require Import Prelude Text CStr.

Module CStrConv.
Import CStr.

(** * Views *)

(** [Utf8CStr([u8])]: the bytes and the terminator. *)
Definition Utf8CStr : Type := bytes.

Definition as_bytes_with_nul (s : Utf8CStr) : bytes := s.
(** [..self.0.len() - 1] *)
Definition as_str (s : Utf8CStr) : bytes := take (length s - 1) s.
(** [CStr] has the length of the slice. *)
Definition as_cstr (s : Utf8CStr) : bytes := take (length s - 1) s.
(** [as_ptr]: what C reads there. *)
Definition as_ptr (s : Utf8CStr) : option bytes := fst <$> split_once NUL s.

(** [NixPath] *)
Definition nix_is_empty (s : Utf8CStr) : bool := is_empty (as_str s).
Definition nix_len (s : Utf8CStr) : nat := length (as_str s).

(** * Constructions *)

(** [from_string], and the macro [cstr!]: a NUL is added. *)
Definition from_string (s : bytes) : Utf8CStr := s ++ [NUL].
Definition cstr (s : bytes) : Utf8CStr := s ++ [NUL].
(** [from_ptr_unchecked]: up to and with the first NUL. *)
Definition from_ptr_unchecked (mem : bytes) : option Utf8CStr := (fun p => p.1 ++ [NUL]) <$> split_once NUL mem.
Definition from_raw_parts (mem : bytes) (len : nat) : Utf8CStr := take len mem.

(** ** [Utf8CString] *)

Section Alloc.
(** What [reserve] finds in memory it gets, at least as much as it asks for. *)
Context (fresh : nat -> bytes).

Definition capacity (b : Utf8CString) : nat := length (inner b) + length (spare b).
Definition reserve (additional : nat) (b : Utf8CString) : Utf8CString :=
  if (additional <=? length (spare b))%nat then b else mkUtf8CString (inner b) (spare b ++ fresh (additional - length (spare b))).
(** [String::nul_terminate], and the same for [PathBuf]: one byte after the string. *)
Definition terminate (b : Utf8CString) : Utf8CString :=
  let b := reserve 1 b in mkUtf8CString (inner b) (<[0%nat := NUL]> (spare b)).

(** [String::with_capacity] *)
Definition String_with_capacity (n : nat) : Utf8CString := reserve n (mkUtf8CString [] []).
Definition From_String (value : Utf8CString) : Utf8CString := terminate value.
(** [String::push_str]: into the spare memory. *)
Definition String_push_str (s : bytes) (b : Utf8CString) : Utf8CString :=
  let b := reserve (length s) b in mkUtf8CString (inner b ++ s) (drop (length s) (spare b)).
Definition From_str (value : bytes) : Utf8CString := terminate (String_push_str value (String_with_capacity (length value + 1))).
(** [FromStr] never fails. *)
Definition from_str (s : bytes) : res bytes Utf8CString := Ok (From_str s).
Definition with_capacity (n : nat) : Utf8CString := From_String (String_with_capacity n).
Definition Utf8CString_default : Utf8CString := with_capacity 256.
Definition ensure_capacity (n : nat) (b : Utf8CString) : Utf8CString :=
  if (n <=? capacity b)%nat then b else reserve (n - length (inner b)) b.
(** [AsRef<Utf8CStr>], [Borrow] and [Deref]: one byte more than the string. *)
Definition as_ref (b : Utf8CString) : Utf8CStr := take (length (inner b) + 1) (inner b ++ spare b).
(** [ToOwned] *)
Definition to_owned (s : Utf8CStr) : Utf8CString := terminate (String_push_str (as_str s) (with_capacity (nix_len s + 1))).

(** * Equality and order *)

Definition eq_str (s : Utf8CStr) (o : bytes) : bool := bool_decide (as_str s = o).
Definition eq_cstr (s : Utf8CStr) (o : bytes) : bool := bool_decide (as_cstr s = o).
Definition eq_utf8 (s o : Utf8CStr) : bool := bool_decide (as_bytes_with_nul s = as_bytes_with_nul o).
Definition cmp (s o : Utf8CStr) : comparison := bcmp (as_str s) (as_str o).
Definition partial_cmp (s o : Utf8CStr) : option comparison := Some (cmp s o).

(** * Theorems *)

(** What the constructors keep: a terminator, and UTF-8 before it. *)
Definition wf (s : Utf8CStr) : Prop := exists body, s = body ++ [NUL] /\ utf8_valid body = true.
Definition owned_wf (b : Utf8CString) : Prop := utf8_valid (inner b) = true /\ spare b !! 0%nat = Some NUL.

Lemma as_str_snoc body : as_str (body ++ [NUL]) = body.
Proof. unfold as_str. rewrite length_app. cbn. by rewrite Nat.add_sub, take_app_length. Qed.

Lemma wf_eta s : wf s -> s = as_str s ++ [NUL] /\ utf8_valid (as_str s) = true.
Proof. intros (body & -> & H). by rewrite as_str_snoc. Qed.

Context (Hfresh : forall n, (n <= length (fresh n))%nat).

Lemma reserve_spec n b : inner (reserve n b) = inner b /\ (n <= length (spare (reserve n b)))%nat /\ (length (spare b) <= length (spare (reserve n b)))%nat /\
  (spare b !! 0%nat = Some NUL -> spare (reserve n b) !! 0%nat = Some NUL).
Proof.
  unfold reserve. destruct (Nat.leb_spec n (length (spare b))) as [H|H]; [by split_and! |]. cbn [inner spare]. rewrite length_app. specialize (Hfresh (n - length (spare b))).
  split_and!; [done | lia | lia |]. intros H0. rewrite lookup_app_l; [done |]. by eapply lookup_lt_Some.
Qed.

Lemma terminate_spec b : inner (terminate b) = inner b /\ spare (terminate b) !! 0%nat = Some NUL /\ (capacity b <= capacity (terminate b))%nat.
Proof.
  unfold terminate, capacity. cbn [inner spare]. destruct (reserve_spec 1 b) as (-> & H1 & H2 & _). rewrite length_insert. split_and!; [done | | lia].
  apply list_lookup_insert_eq. lia.
Qed.

Lemma push_inner s b : inner (String_push_str s b) = inner b ++ s.
Proof. unfold String_push_str. cbn [inner]. by destruct (reserve_spec (length s) b) as (-> & _). Qed.

Lemma as_ref_terminated b : spare b !! 0%nat = Some NUL -> as_ref b = inner b ++ [NUL].
Proof.
  intros H. unfold as_ref. destruct (spare b) as [|c sp]; [done |]. cbn in H. injection H as ->. rewrite take_app_add'; [done | done].
Qed.

(** Every way to make an owned string keeps its text, byte for byte, and leaves a terminator
    after it that the borrowed string ends with; owning a borrowed string and borrowing it
    again is the identity. *)
Theorem owned_roundtrip s sp r :
  utf8_valid s = true -> wf r ->
  Forall (fun o => owned_wf o /\ as_ref o = s ++ [NUL] /\ as_str (as_ref o) = s) [From_str s; From_String (mkUtf8CString s sp); to_owned (from_string s)] /\
  as_ref (to_owned r) = r /\ from_str s = Ok (From_str s).
Proof.
  intros Hs Hr.
  assert (forall o a, inner o = a -> utf8_valid a = true -> owned_wf (terminate o) /\ as_ref (terminate o) = a ++ [NUL] /\ as_str (as_ref (terminate o)) = a) as H.
  { intros o a <- Ho. destruct (terminate_spec o) as (Hi & Hn & _). rewrite (as_ref_terminated (terminate o)), Hi, as_str_snoc by done. unfold owned_wf. by rewrite Hi. }
  assert (forall n, inner (String_with_capacity n) = []) as Hw by (intros n; unfold String_with_capacity; by destruct (reserve_spec n (mkUtf8CString [] [])) as (-> & _)).
  assert (forall n, inner (with_capacity n) = []) as Hc by (intros n; unfold with_capacity, From_String; destruct (terminate_spec (String_with_capacity n)) as (-> & _); apply Hw).
  split_and!; [| | done].
  - repeat apply Forall_cons_2; [| | | by apply Forall_nil].
    + apply H; [by rewrite push_inner, Hw | done].
    + by apply H.
    + unfold to_owned. apply H; [| done]. rewrite push_inner, Hc. apply as_str_snoc.
  - destruct (wf_eta r Hr) as [Hr1 Hr2]. unfold to_owned. rewrite Hr1 at 3. apply H; [by rewrite push_inner, Hc | done].
Qed.

(** The capacity asked for is there, and neither the text nor the terminator is touched. *)
Theorem ensure_capacity_spec n b :
  owned_wf b -> let b' := ensure_capacity n b in
  (n <= capacity b')%nat /\ (capacity b <= capacity b')%nat /\ owned_wf b' /\ as_ref b' = as_ref b.
Proof.
  intros [Hu Hn] b'. subst b'. unfold ensure_capacity. destruct (Nat.leb_spec n (capacity b)) as [H|H]; [by split_and! |].
  destruct (reserve_spec (n - length (inner b)) b) as (Hi & H1 & H2 & H3). specialize (H3 Hn). unfold capacity, owned_wf in *. rewrite Hi.
  split_and!; [lia | lia | done | done |]. rewrite !as_ref_terminated by done. by rewrite Hi.
Qed.

(** Equality is that of the texts, in all the variants, and the order is total and agrees
    with it, as maps with borrowed keys need. *)
Theorem eq_cmp_agree s o t :
  wf s -> wf o -> wf t ->
  (eq_utf8 s o = true <-> as_str s = as_str o) /\ eq_str s (as_str o) = eq_utf8 s o /\ eq_cstr s (as_cstr o) = eq_utf8 s o /\
  (cmp s o = Eq <-> eq_utf8 s o = true) /\ cmp o s = CompOpp (cmp s o) /\ (cmp s o = Lt -> cmp o t = Lt -> cmp s t = Lt) /\
  partial_cmp s o = Some (cmp s o).
Proof.
  intros Hs Ho Ht. assert (s = o <-> as_str s = as_str o) as Heq.
  { split; [by intros -> |]. intros H. destruct (wf_eta s Hs) as [-> _], (wf_eta o Ho) as [-> _]. by rewrite H. }
  unfold eq_utf8, eq_str, eq_cstr, as_bytes_with_nul, as_cstr. fold (as_str s) (as_str o).
  split_and!; [rewrite bool_decide_eq_true; exact Heq | by apply bool_decide_ext; rewrite Heq | by apply bool_decide_ext; rewrite Heq | | apply bcmp_antisym | apply blt_trans | done].
  unfold cmp. rewrite bcmp_Eq, bool_decide_eq_true. by rewrite Heq.
Qed.

(** A checked string comes back from its own bytes; C reads the text of a string exactly
    if it has no NUL in it, and the checked constructor refuses exactly those that have. *)
Theorem c_view s :
  wf s ->
  (as_ptr s = Some (as_str s) <-> NUL ∉ as_str s) /\
  (from_bytes (as_bytes_with_nul s) = Ok (as_str s) <-> NUL ∉ as_str s) /\
  (NUL ∉ as_str s -> from_ptr_unchecked s = Some s) /\ (forall rest, from_raw_parts (s ++ rest) (length s) = s).
Proof.
  intros Hs. destruct (wf_eta s Hs) as [He Hu]. set (a := as_str s) in *. clearbody a. subst s. unfold as_ptr, from_ptr_unchecked, as_bytes_with_nul, from_raw_parts.
  split_and!.
  - split.
    + intros H. destruct (split_once NUL (a ++ [NUL])) as [[x y]|] eqn:E; [| done]. cbn in H. injection H as ->. by apply split_once_Some in E as [? _].
    + intros H. assert (split_once NUL (a ++ [NUL]) = Some (a, [])) as -> by (by apply split_once_Some). done.
  - rewrite from_bytes_Ok. naive_solver.
  - intros H. assert (split_once NUL (a ++ [NUL]) = Some (a, [])) as -> by (by apply split_once_Some). done.
  - intros rest. by rewrite take_app_length.
Qed.

End Alloc.

Lemma owned_roundtrip_witness : as_ref (to_owned (fun n => replicate n NUL) (cstr #"/data")) = cstr #"/data".
Proof.
  apply (owned_roundtrip (fun n => replicate n NUL) ltac:(intros n; cbn beta; rewrite length_replicate; apply Nat.le_refl) #"/data" [] (cstr #"/data") eq_refl).
  exists #"/data". split; reflexivity.
Defined.

Lemma ensure_capacity_spec_witness : (100 <= capacity (ensure_capacity (fun n => replicate n NUL) 100 (nul_terminate #"ab")))%nat.
Proof. apply (ensure_capacity_spec (fun n => replicate n NUL) ltac:(intros n; cbn beta; rewrite length_replicate; apply Nat.le_refl) 100 (nul_terminate #"ab")). split; reflexivity. Defined.

Lemma eq_cmp_agree_witness : eq_utf8 (cstr #"a") (cstr #"b") = true <-> as_str (cstr #"a") = as_str (cstr #"b").
Proof. apply (eq_cmp_agree (cstr #"a") (cstr #"b") (cstr #"c")); eexists; (split; [reflexivity | reflexivity]). Defined.

Lemma c_view_witness : from_bytes (as_bytes_with_nul (cstr #"ab")) = Ok #"ab".
Proof. apply (c_view (cstr #"ab")); [exists #"ab"; split; reflexivity | apply (bool_decide_unpack _); vm_compute; exact I]. Defined.

(** Two paths that are different in Rust and the same file to the kernel. *)
Theorem interior_nul_collides :
  let a := from_string (#"/data" ++ NUL :: #"/x") in let b := from_string (#"/data" ++ NUL :: #"/y") in
  eq_utf8 a b = false /\ as_ptr a = Some #"/data" /\ as_ptr b = Some #"/data".
Proof. by vm_compute. Qed.

End CStrConv.
