(* ===== verification/ErrorLog.v ===== *)
(** base/logging.rs and base/result.rs: the logger, and how errors become messages; the
    functions of base/xwrap.rs and base/cxx_extern.rs, which give errors to C++ as values.

    The logger is a global; a call that logs passes it along, with what is written, and
    returns nothing when it exits.  An error is known by its text. *)

From S2P Require Import Prelude Text Numeric CStr.

Module ErrorLog.
Import CStr.

(** * The logger *)

Inductive LogLevel := Error | Warn | Info | Debug.
#[export] Instance LogLevel_eq_dec : EqDecision LogLevel.
Proof. solve_decision. Defined.

(** [LogFlag] *)
Definition DISABLE_ERROR : Z := Z.shiftl 1 0.
Definition DISABLE_WARN : Z := Z.shiftl 1 1.
Definition DISABLE_INFO : Z := Z.shiftl 1 2.
Definition DISABLE_DEBUG : Z := Z.shiftl 1 3.
Definition EXIT_ON_ERROR : Z := Z.shiftl 1 4.

Definition flags_set (flag : Z) (b : bool) (flags : Z) : Z := if b then Z.lor flags flag else Z.ldiff flags flag.
Definition flags_contains (flags flag : Z) : bool := Z.land flags flag =? flag.

(** The function that writes: none, the one for commands, or that of a program. *)
Inductive LogWriter := NoWriter | CmdlineWriter | OtherWriter.
Record Logger := mkLogger { write : LogWriter; flags : Z }.
Definition LOGGER : Logger := mkLogger NoWriter 0.

Inductive Event := EStdout (msg : bytes) | EStderr (msg : bytes) | EWrite (level : LogLevel) (msg : bytes).

(** [None]: the process exits. *)
Definition M (A : Type) : Type := Logger -> list Event * Logger * option A.
#[export] Instance M_ret : MRet M := fun A a lg => ([], lg, Some a).
#[export] Instance M_bind : MBind M := fun A B f m lg =>
  match m lg with
  | (e1, lg, Some a) => let '(e2, lg, b) := f a lg in (e1 ++ e2, lg, b)
  | (e1, lg, None) => (e1, lg, None)
  end.

Definition update_logger (f : Logger -> Logger) : M unit := fun lg => ([], f lg, Some tt).
Definition exit_on_error (b : bool) : M unit := update_logger (fun lg => mkLogger (write lg) (flags_set EXIT_ON_ERROR b (flags lg))).

Definition as_disable_flag (level : LogLevel) : Z :=
  match level with Error => DISABLE_ERROR | Warn => DISABLE_WARN | Info => DISABLE_INFO | Debug => DISABLE_DEBUG end.

Definition set_log_level_state (level : LogLevel) (enabled : bool) : M unit :=
  update_logger (fun lg => mkLogger (write lg) (flags_set (as_disable_flag level) enabled (flags lg))).

(** [cmdline_logging] *)
Definition cmdline_write (level : LogLevel) (msg : bytes) : list Event :=
  if bool_decide (level = Info) then [EStdout msg] else [EStderr msg].
Definition cmdline_logging : M unit := update_logger (fun lg => mkLogger CmdlineWriter (flags lg)).

Definition run_writer (w : LogWriter) (level : LogLevel) (msg : bytes) : list Event :=
  match w with NoWriter => [] | CmdlineWriter => cmdline_write level msg | OtherWriter => [EWrite level msg] end.

Definition log_with_writer (level : LogLevel) (msg : bytes) : M unit := fun lg =>
  if flags_contains (flags lg) (as_disable_flag level) then ([], lg, Some tt) else
  (run_writer (write lg) level msg, lg,
   if bool_decide (level = Error) && flags_contains (flags lg) EXIT_ON_ERROR then None else Some tt).

(** The level of C++ is a number. *)
Definition level_from_i32 (repr : Z) : option LogLevel :=
  if repr =? 0 then Some Error else if repr =? 1 then Some Warn else if repr =? 2 then Some Info else if repr =? 3 then Some Debug else None.
Definition log_from_cxx (level : Z) (msg : bytes) : M unit :=
  match level_from_i32 level with Some level => log_with_writer level msg | None => mret tt end.

(** [f] is the pieces it writes to the buffer, which cuts off what does not fit. *)
Definition formatted (pieces : list bytes) : bytes := as_str (foldl (fun b s => (push_str s b).1) (FixedBuf_new 4096) pieces).
Definition log_with_formatter (level : LogLevel) (pieces : list bytes) : M unit := log_with_writer level (formatted pieces).

(** [log_with_args!] and the macros of the levels; [debug!] is empty in release builds. *)
Definition log_with_args (level : LogLevel) (args : list bytes) : M unit := log_with_formatter level (args ++ [[newline]]).
Definition error_ := log_with_args Error.
Definition warn_ := log_with_args Warn.
Definition info_ := log_with_args Info.
Definition debug_ (debug_assertions : bool) (args : list bytes) : M unit := if debug_assertions then log_with_args Debug args else mret tt.

(** * Results *)

(** [LoggedResult]: the error says nothing. *)
Definition LoggedResult (A : Type) := option A.

(** [Location], in debug builds. *)
Record Location := mkLocation { file : bytes; line : Z }.
Definition location (caller : option Location) : list bytes :=
  match caller with Some c => [ #"["; file c; #":"; fmt_dec (line c); #"] "] | None => [] end.

(** [Loggable] for what can be printed. *)
Definition do_log (e : bytes) (level : LogLevel) (caller : option Location) : M unit := log_with_args level (location caller ++ [e]).
Definition Loggable_do_log_msg (e : bytes) (level : LogLevel) (caller : option Location) (f : list bytes) : M unit :=
  log_with_formatter level (location caller ++ f ++ [ #": "; e; [newline]]).
Definition do_log_msg (level : LogLevel) (caller : option Location) (f : list bytes) : M unit :=
  log_with_formatter level (location caller ++ f ++ [[newline]]).

Definition log_err {A} (args : option (list bytes)) : M (LoggedResult A) :=
  _ ← match args with Some args => error_ args | None => mret tt end; mret None.

Section Results.
Context {A : Type} (caller : option Location).

(** [Result::log] and the others, with the text of the error on the left. *)
Definition log (r : bytes + A) : M (LoggedResult A) :=
  match r with inl e => _ ← do_log e Error caller; mret None | inr a => mret (Some a) end.
Definition log_with_msg (r : bytes + A) (f : list bytes) : M (LoggedResult A) :=
  match r with inl e => _ ← Loggable_do_log_msg e Error caller f; mret None | inr a => mret (Some a) end.
Definition log_ok (r : bytes + A) : M unit := _ ← log r; mret tt.

(** The same on a [LoggedResult]. *)
Definition logged_log (r : LoggedResult A) : M (LoggedResult A) := mret r.
Definition logged_log_with_msg (r : LoggedResult A) (f : list bytes) : M (LoggedResult A) :=
  _ ← match r with None => do_log_msg Error caller f | Some _ => mret tt end; mret r.
Definition logged_log_ok (r : LoggedResult A) : M unit := mret tt.

Definition ok_or_log (o : option A) : M (LoggedResult A) := mret o.
Definition ok_or_log_msg (o : option A) (f : list bytes) : M (LoggedResult A) :=
  _ ← match o with None => do_log_msg Error caller f | Some _ => mret tt end; mret o.

Definition silent (r : bytes + A) : LoggedResult A := match r with inl _ => None | inr a => Some a end.
Definition option_silent (o : option A) : LoggedResult A := o.

(** [?] in a function that returns a [LoggedResult]: on a result, by [From], and on a
    [LoggedResult]. *)
Definition try_ {B} (r : bytes + A) (k : A -> M (LoggedResult B)) : M (LoggedResult B) :=
  x ← log r; match x with Some a => k a | None => mret None end.
Definition logged_try {B} (r : LoggedResult A) (k : A -> M (LoggedResult B)) : M (LoggedResult B) :=
  match r with Some a => k a | None => mret None end.
End Results.

(** * System calls *)

Record OsError := mkOsError { errno : Z; name : bytes; arg1 : option bytes; arg2 : option bytes }.
Definition set_args (a1 a2 : option bytes) (e : OsError) : OsError := mkOsError (errno e) (name e) a1 a2.

(** The traits [LibcReturn] of an integer, of a pointer, and of a result; [errno] is the
    error number after the call. *)
Definition check_err (r errno : Z) : Z + Z := if r <? 0 then inl errno else inr r.
Definition check_ptr {P} (p : option P) (errno : Z) : Z + P := match p with None => inl errno | Some p => inr p end.

Definition into_os_result {A} (r : Z + A) (name : bytes) (arg1 arg2 : option bytes) : OsError + A :=
  match r with inl e => inl (mkOsError e name arg1 arg2) | inr a => inr a end.
Definition check_os_err {A} (r : Z + A) (name : bytes) (arg1 arg2 : option bytes) : OsError + unit :=
  match r with inl e => inl (mkOsError e name arg1 arg2) | inr _ => inr tt end.

Section System.
(** The text of an error number. *)
Context (strerror : Z -> bytes) (caller : option Location).

Definition quote (s : bytes) : bytes := #" '" ++ s ++ #"'".
Definition OsError_fmt (e : OsError) : bytes :=
  if is_empty (name e) then strerror (errno e) else
  name e ++ match arg1 e, arg2 e with
            | Some a1, Some a2 => quote a1 ++ quote a2
            | Some a1, None => quote a1
            | _, _ => []
            end ++ #": " ++ strerror (errno e).

Definition os_result {A} (r : OsError + A) : bytes + A := match r with inl e => inl (OsError_fmt e) | inr a => inr a end.

(** ** Wrappers for C++

    The result of the call is an argument. *)

Definition ptr_to_str (p : option bytes) : option bytes := s ← p; from_utf8 s.

(** [.into_os_result(..).log().unwrap_or(-1)] *)
Definition xint (name : bytes) (a1 a2 : option bytes) (r errno : Z) : M Z :=
  x ← log caller (os_result (into_os_result (check_err r errno) name a1 a2)); mret (default (-1) x).
(** [.into_os_result(..).log().map_or(ptr::null_mut(), NonNull::as_ptr)] *)
Definition xptr {P} (name : bytes) (a1 : option bytes) (p : option P) (errno : Z) : M (option P) :=
  log caller (os_result (into_os_result (check_ptr p errno) name a1 None)).

Definition xreadlinkat (path : option bytes) := xint #"readlinkat" (ptr_to_str path) None.
Definition xfopen {P} (path : option bytes) := @xptr P #"fopen" (ptr_to_str path).
Definition xfdopen {P} := @xptr P #"fdopen" None.
Definition xopen (path : option bytes) := xint #"open" (ptr_to_str path) None.
Definition xopenat (path : option bytes) := xint #"openat" (ptr_to_str path) None.
Definition xread := xint #"read" None None.
Definition xpipe2 := xint #"pipe2" None None.
Definition xsetns := xint #"setns" None None.
Definition xunshare := xint #"unshare" None None.
Definition xopendir {P} (path : option bytes) := @xptr P #"opendir" (ptr_to_str path).
Definition xfdopendir {P} := @xptr P #"fdopendir" None.
Definition xsetsid := xint #"setsid" None None.
Definition xfstat := xint #"fstat" None None.
Definition xdup2 := xint #"dup2" None None.
Definition xsymlink (target linkpath : option bytes) := xint #"symlink" (ptr_to_str target) (ptr_to_str linkpath).
Definition xmount (src target : option bytes) := xint #"mount" (ptr_to_str src) (ptr_to_str target).
Definition xumount2 (target : option bytes) := xint #"umount2" (ptr_to_str target) None.
Definition xrename (oldname newname : option bytes) := xint #"rename" (ptr_to_str oldname) (ptr_to_str newname).
Definition xsendfile := xint #"sendfile" None None.
Definition xfork := xint #"fork" None None.
Definition xmknod (pathname : option bytes) := xint #"mknod" (ptr_to_str pathname) None.

(** [write_all], [read_exact] and the directory: the text of the error. *)
Definition xwrite (r : bytes + unit) (data : bytes) : M Z := x ← log caller r; mret (match x with Some _ => zlen data | None => -1 end).
Definition xxread (r : bytes + unit) (bufsz : Z) : M Z := x ← log caller r; mret (match x with Some _ => bufsz | None => -1 end).
Definition xreaddir {P} (r : bytes + option P) : M (option P) := x ← log caller r; mret (mjoin x).

(** The functions on a path in memory, with what the Rust function returns for it. *)
Definition xmkdir (path : option bytes) (mkdir : bytes -> bytes + unit) : M Z :=
  match from_ptr path with Ok path => x ← log caller (mkdir path); mret (match x with Some _ => 0 | None => -1 end) | _ => mret (-1) end.
Definition xmkdirs := xmkdir.
Definition xrealpath (path : option bytes) (realpath : bytes -> bytes + bytes) : M Z :=
  match from_ptr path with Ok path => x ← log caller (realpath path); mret (match x with Some buf => zlen buf | None => -1 end) | _ => mret (-1) end.
Definition canonical_path := xrealpath.

(** Those that do not log. *)
Definition mkdirs_for_cxx (path : option bytes) (mkdirs : bytes -> bytes + unit) : Z :=
  match from_ptr path with Ok path => match mkdirs path with inr _ => 0 | inl _ => -1 end | _ => -1 end.
Definition rm_rf_for_cxx (path : option bytes) (remove_all : bytes -> bytes + unit) : bool :=
  match from_ptr path with Ok path => bool_decide (is_Some (silent (remove_all path))) | _ => false end.
Definition on_two_paths (src dest : option bytes) (f : bytes -> bytes -> bytes + unit) : bool :=
  match from_ptr src, from_ptr dest with Ok src, Ok dest => bool_decide (is_Some (silent (f src dest))) | _, _ => false end.
Definition cp_afc_for_cxx := on_two_paths.
Definition mv_path_for_cxx := on_two_paths.
Definition link_path_for_cxx := on_two_paths.
Definition clone_attr_for_cxx (src dest : option bytes) (clone_attr : bytes -> bytes -> bytes + unit) : M bool :=
  match from_ptr src, from_ptr dest with
  | Ok src, Ok dest => x ← log caller (clone_attr src dest); mret (bool_decide (is_Some x))
  | _, _ => mret false
  end.
Definition fclone_attr_for_cxx (r : bytes + unit) : M bool := x ← log caller r; mret (bool_decide (is_Some x)).
(** An empty map for an error. *)
Definition map_file_for_cxx (r : bytes + bytes) : M bytes := x ← log caller r; mret (default [] x).
Definition str_new (s : bytes) : bytes := match from_bytes s with Ok s => s | _ => [] end.

End System.

(** ** Links

    The kernel writes the target, cut to the size it is given, over the buffer [mem] and
    returns a length, or an error below zero; on some x86 systems the length is wrong. *)

Definition kernel_readlink (target mem : bytes) (n : nat) : bytes := take n target ++ drop (length (take n target)) mem.
Definition strlen (mem : bytes) : nat := match split_once NUL mem with Some (s, _) => length s | None => length mem end.

(** [cxx_extern::readlinkat] with [r] the result of the call; the result and the buffer. *)
Definition readlinkat_x86 (r : Z) (target mem : bytes) : Z * bytes :=
  let zero := replicate (length mem) NUL in
  let mem := if 0 <=? r then kernel_readlink target zero (length mem - 1) else zero in
  (if 0 <? r then Z.of_nat (strlen mem) else r, mem).
Definition readlinkat_other (r : Z) (target mem : bytes) : Z * bytes :=
  (r, if 0 <=? r then <[Z.to_nat r := NUL]> (kernel_readlink target mem (length mem - 1)) else mem).

(** [Utf8CStr::realpath]: the results of opening, of [fstat], of reading the link of the
    descriptor, and of [stat] of what was read.  Files are known by device and inode. *)
Definition realpath (self : bytes) (opened : OsError + unit) (st1 : option (Z * Z)) (fd_path : OsError + bytes) (st2 : bytes -> Z + (Z * Z)) (ENOENT : Z) : OsError + bytes :=
  match opened with
  | inl e => inl e
  | inr _ =>
      match fd_path with
      | inl e => inl e
      | inr buf =>
          match into_os_result (st2 buf) #"stat" (Some self) None with
          | inl e => inl e
          | inr st2 =>
              if match st1 with Some st1 => bool_decide (st1 <> st2) | None => false end then inl (mkOsError ENOENT #"realpath" (Some self) None)
              else inr buf
          end
      end
  end.

(** * Flags *)

Definition bit (level : LogLevel) : Z := match level with Error => 0 | Warn => 1 | Info => 2 | Debug => 3 end.

Lemma flag_contains_bit f i : 0 <= i -> flags_contains f (Z.shiftl 1 i) = Z.testbit f i.
Proof.
  intros Hi. unfold flags_contains. rewrite Z.shiftl_1_l. destruct (Z.testbit f i) eqn:E.
  - apply Z.eqb_eq. apply Z.bits_inj'. intros n Hn. rewrite Z.land_spec, Z.pow2_bits_eqb by done. destruct (Z.eqb_spec i n) as [->|]; [by rewrite E | apply andb_false_r].
  - apply Z.eqb_neq. intros H. assert (Z.testbit (Z.land f (2 ^ i)) i = Z.testbit (2 ^ i) i) as H' by (by rewrite H).
    rewrite Z.land_spec, E, Z.pow2_bits_true in H' by done. done.
Qed.

Lemma set_bit f i j b : 0 <= i -> 0 <= j -> Z.testbit (flags_set (Z.shiftl 1 i) b f) j = if i =? j then b else Z.testbit f j.
Proof.
  intros Hi Hj. rewrite Z.shiftl_1_l. unfold flags_set.
  destruct b; rewrite ?Z.lor_spec, ?Z.ldiff_spec, Z.pow2_bits_eqb by done; destruct (i =? j); cbn; rewrite ?orb_true_r, ?orb_false_r, ?andb_false_r, ?andb_true_r; done.
Qed.

Lemma disable_bit level : as_disable_flag level = Z.shiftl 1 (bit level).
Proof. by destruct level. Qed.

(** Whether messages of a level are dropped. *)
Definition disabled (lg : Logger) (level : LogLevel) : bool := flags_contains (flags lg) (as_disable_flag level).
Definition exits (lg : Logger) : bool := flags_contains (flags lg) EXIT_ON_ERROR.

Lemma set_log_level_disabled lg l b l' :
  let '(_, lg', _) := set_log_level_state l b lg in disabled lg' l' = (if bool_decide (l = l') then b else disabled lg l') /\ exits lg' = exits lg.
Proof.
  cbn. unfold disabled, exits, EXIT_ON_ERROR. cbn [flags]. rewrite !disable_bit, !flag_contains_bit, !set_bit by (try destruct l; try destruct l'; done).
  split; [by destruct l, l' | by destruct l].
Qed.

Lemma exit_on_error_flags lg b l :
  let '(_, lg', _) := exit_on_error b lg in disabled lg' l = disabled lg l /\ exits lg' = b.
Proof.
  cbn. unfold disabled, exits, EXIT_ON_ERROR. cbn [flags]. rewrite !disable_bit, !flag_contains_bit, !set_bit by (try destruct l; done).
  split; [by destruct l | done].
Qed.

Lemma log_with_writer_eq level msg lg :
  log_with_writer level msg lg =
  (if disabled lg level then [] else run_writer (write lg) level msg, lg,
   if negb (disabled lg level) && bool_decide (level = Error) && exits lg then None else Some tt).
Proof. unfold log_with_writer, disabled, exits. by destruct (flags_contains _ (as_disable_flag level)). Qed.

(** * Theorems *)

(** [set_log_level_state] does the opposite of its name: a level that is enabled is dropped
    from then on, one that is not is written; the other levels stay as they are. *)
Theorem set_log_level_state_inverted level b lg l msg :
  let '(_, lg', _) := set_log_level_state level b lg in
  (log_with_writer l msg lg').1.1 = if bool_decide (level = l) then (if b then [] else run_writer (write lg) l msg) else (log_with_writer l msg lg).1.1.
Proof.
  pose proof (set_log_level_disabled lg level b l) as H. destruct (set_log_level_state level b lg) as [[e lg'] u] eqn:E. destruct H as [H _].
  rewrite !log_with_writer_eq, H. cbn. assert (write lg' = write lg) as -> by (by injection E as _ <- _). case_bool_decide; by destruct b.
Qed.

(** So the built-in rules, which suppress warnings while they are applied, leave them
    suppressed, and "resetprop -v" drops the messages it is to show. *)
Theorem warnings_stay_off lg msg :
  let lg1 := (set_log_level_state Warn false lg).1.2 in let lg2 := (set_log_level_state Warn true lg1).1.2 in
  (log_with_writer Warn msg lg1).1.1 = run_writer (write lg) Warn msg /\ (log_with_writer Warn msg lg2).1.1 = [].
Proof.
  intros lg1 lg2. split; [exact (set_log_level_state_inverted Warn false lg Warn msg) | exact (set_log_level_state_inverted Warn true lg1 Warn msg)].
Qed.

(** An error ends the process exactly when that is set and errors are written. *)
Theorem exit_on_error_spec b level msg lg :
  let '(_, lg', _) := exit_on_error b lg in
  (log_with_writer level msg lg').2 = (if b && bool_decide (level = Error) && negb (disabled lg Error) then None else Some tt) /\
  (log_with_writer level msg lg').1.1 = (log_with_writer level msg lg).1.1.
Proof.
  pose proof (exit_on_error_flags lg b level) as H. pose proof (exit_on_error_flags lg b Error) as H'. destruct (exit_on_error b lg) as [[e lg'] u] eqn:E.
  destruct H as [Hd He], H' as [Hd' _]. rewrite !log_with_writer_eq, He, Hd. assert (write lg' = write lg) as -> by (by injection E as _ <- _). cbn.
  split; [| done]. case_bool_decide as Hl; [subst level | by rewrite !andb_false_r]. by destruct b, (disabled lg Error).
Qed.

(** The message of a formatter is its text up to 4095 bytes; one that is longer loses the
    end, with the newline. *)
Lemma pushes_prefix (l : list bytes) b :
  FixedBuf_wf b ->
  let b' := foldl (fun b s => (push_str s b).1) b l in
  FixedBuf_wf b' /\ length (buf b') = length (buf b) /\ as_str b' = take (length (buf b) - 1) (as_str b ++ concat l).
Proof.
  cbn zeta. revert b. induction l as [|s l IH]; intros b Hb; cbn [foldl concat].
  - split_and!; [done | done |]. rewrite app_nil_r. symmetry. apply take_ge. rewrite FixedBuf_as_str_length by done. apply FixedBuf_wf_lt in Hb. lia.
  - destruct (FixedBuf_push_spec b s Hb) as (Hw & Hl & Ha & _). destruct (IH _ Hw) as (H1 & H2 & H3).
    split_and!; [exact H1 | exact (eq_trans H2 Hl) |]. etrans; [exact H3 |]. rewrite Hl, Ha.
    set (n := (length (buf b) - 1)%nat). pose proof (FixedBuf_wf_lt _ Hb) as Hu. pose proof (FixedBuf_as_str_length _ Hb) as Hlen.
    destruct (decide (length s <= n - used b)%nat) as [Hs|Hs]; [rewrite (take_ge s) by (subst n; lia); by rewrite <- app_assoc |].
    rewrite !take_app, take_take, !length_app, Hlen, length_take. replace (n - (used b + Nat.min (n - used b) (length s)))%nat with 0%nat by lia.
    replace (n - used b - length s)%nat with 0%nat by lia. rewrite !take_0, app_nil_r, Nat.min_id. by rewrite app_nil_r.
Qed.

Theorem formatted_truncates pieces : formatted pieces = take 4095 (concat pieces).
Proof.
  unfold formatted. destruct (pushes_prefix pieces (FixedBuf_new 4096)) as (_ & _ & H); [reflexivity |]. etrans; [exact H |].
  by f_equal.
Qed.

(** ** Errors *)

(** Ways an error goes on after it has become a [LoggedResult]. *)
Inductive Step := SLog | STry | SSilent.
Definition step {A} (s : Step) (r : LoggedResult A) : M (LoggedResult A) :=
  match s with SLog => logged_log r | STry => logged_try r (fun a => mret (Some a)) | SSilent => mret (option_silent r) end.
Fixpoint steps {A} (l : list Step) (r : LoggedResult A) : M (LoggedResult A) :=
  match l with [] => mret r | s :: l => r ← step s r; steps l r end.

Lemma step_ret {A} s (r : LoggedResult A) lg : step s r lg = ([], lg, Some r).
Proof. destruct s; [done | by destruct r | done]. Qed.

Lemma steps_ret {A} l (r : LoggedResult A) lg : steps l r lg = ([], lg, Some r).
Proof. revert lg. induction l as [|s l IH]; intros lg; [done |]. cbn [steps]. unfold mbind, M_bind. by rewrite step_ret, IH. Qed.

Lemma log_eq {A} caller (r : bytes + A) lg :
  log caller r lg =
  match r with
  | inr a => ([], lg, Some (Some a))
  | inl e => (if disabled lg Error then [] else run_writer (write lg) Error (take 4095 (concat (location caller) ++ e ++ [newline])), lg,
              if negb (disabled lg Error) && exits lg then None else Some None)
  end.
Proof.
  destruct r as [e|a]; [| done]. unfold log, do_log, log_with_args, log_with_formatter, mbind, M_bind. rewrite log_with_writer_eq, formatted_truncates.
  rewrite !concat_app. cbn [concat]. rewrite !app_nil_r, bool_decide_eq_true_2, andb_true_r by done.
  rewrite <- app_assoc. destruct (disabled lg Error), (exits lg); cbn; by rewrite ?app_nil_r.
Qed.

(** An error that is logged and handed up through any number of calls is written exactly
    once, where it was logged, with its text; a result without an error is not written. *)
Theorem error_logged_once {A} caller (r : bytes + A) l lg :
  exits lg = false -> disabled lg Error = false ->
  (x ← log caller r; steps l x) lg =
  (match r with inl e => run_writer (write lg) Error (take 4095 (concat (location caller) ++ e ++ [newline])) | inr _ => [] end, lg, Some (silent r)).
Proof.
  intros He Hd. unfold mbind, M_bind. rewrite log_eq, He, Hd. destruct r as [e|a]; cbn [negb andb]; rewrite steps_ret; cbn [silent]; by rewrite ?app_nil_r.
Qed.

Lemma error_logged_once_witness :
  (x ← log (A := Z) None (inl #"open '/a': ENOENT"); steps [STry; SLog; STry] x) (mkLogger CmdlineWriter 0) =
  ([EStderr (#"open '/a': ENOENT" ++ [newline])], mkLogger CmdlineWriter 0, Some None).
Proof. exact (error_logged_once None (inl #"open '/a': ENOENT") [STry; SLog; STry] (mkLogger CmdlineWriter 0) eq_refl eq_refl). Defined.

(** A wrapper returns what the system call returns; an error is -1, and is written once
    with the name of the call and its paths. *)
Theorem xint_spec strerror caller name a1 a2 r errno lg :
  xint strerror caller name a1 a2 r errno lg =
  if r <? 0 then
    (if disabled lg Error then []
     else run_writer (write lg) Error (take 4095 (concat (location caller) ++ OsError_fmt strerror (mkOsError errno name a1 a2) ++ [newline])), lg,
     if negb (disabled lg Error) && exits lg then None else Some (-1))
  else ([], lg, Some r).
Proof.
  unfold xint, mbind, M_bind. rewrite log_eq. unfold into_os_result, check_err. destruct (r <? 0); cbn [os_result]; [| done].
  destruct (negb _ && _); cbn; by rewrite ?app_nil_r.
Qed.

Theorem xptr_spec {P} strerror caller name a1 (p : option P) errno lg :
  xptr strerror caller name a1 p errno lg =
  match p with
  | Some p => ([], lg, Some (Some p))
  | None =>
      (if disabled lg Error then []
       else run_writer (write lg) Error (take 4095 (concat (location caller) ++ OsError_fmt strerror (mkOsError errno name a1 None) ++ [newline])), lg,
       if negb (disabled lg Error) && exits lg then None else Some None)
  end.
Proof. unfold xptr. rewrite log_eq. by destruct p. Qed.

(** An error without an argument before the second is written without the second. *)
Theorem second_argument_alone strerror e a2 :
  name e <> [] -> OsError_fmt strerror (set_args None (Some a2) e) = OsError_fmt strerror (set_args None None e).
Proof. unfold OsError_fmt, set_args. cbn. by destruct (name e). Qed.

Lemma second_argument_alone_witness :
  OsError_fmt (fun _ => #"EINVAL") (set_args None (Some #"/b") (mkOsError 22 #"mount" None None)) = #"mount: EINVAL".
Proof. rewrite (second_argument_alone _ (mkOsError 22 #"mount" None None) #"/b"); [reflexivity | discriminate]. Defined.

(** ** Links *)

Lemma strlen_spec s rest : NUL ∉ s -> strlen (s ++ NUL :: rest) = length s.
Proof.
  intros Hs. unfold strlen. destruct (split_once NUL (s ++ NUL :: rest)) as [[a b]|] eqn:E.
  - assert (split_once NUL (s ++ NUL :: rest) = Some (s, rest)) as H by (by apply split_once_Some). rewrite H in E. by injection E as <- <-.
  - assert (split_once NUL (s ++ NUL :: rest) = Some (s, rest)) as H by (by apply split_once_Some). congruence.
Qed.

(** Both versions return the length of the target, as far as it fits, and leave it in the
    buffer with a NUL after it; the version for x86 also when the length that the kernel
    returns is wrong. *)
Theorem readlinkat_spec (target mem : bytes) r :
  NUL ∉ target -> target <> [] -> (2 <= length mem)%nat -> 0 < r ->
  let t := take (length mem - 1) target in
  ((readlinkat_x86 r target mem).1 = zlen t /\ exists rest, (readlinkat_x86 r target mem).2 = t ++ NUL :: rest) /\
  (r = zlen t -> (readlinkat_other r target mem).1 = zlen t /\ exists rest, (readlinkat_other r target mem).2 = t ++ NUL :: rest).
Proof.
  intros Hn Ht Hm Hr t. assert (length t < length mem)%nat as Hl by (subst t; rewrite length_take; lia).
  assert (NUL ∉ t) as Hnt. { intros H. apply Hn. subst t. rewrite <- (take_drop (length mem - 1) target), elem_of_app. by left. }
  split.
  - unfold readlinkat_x86, kernel_readlink. fold t. destruct (Z.ltb_spec 0 r), (Z.leb_spec 0 r); [| lia ..]. cbn [fst snd].
    rewrite drop_replicate. destruct (length mem - length t)%nat as [|k] eqn:Ek; [lia |]. cbn [replicate].
    rewrite strlen_spec by done. split; [done | by eexists].
  - intros ->. unfold readlinkat_other, kernel_readlink. fold t. destruct (Z.leb_spec 0 (zlen t)); [| lia]. cbn [fst snd]. split; [done |].
    rewrite Nat2Z.id. destruct (drop (length t) mem) as [|x rest] eqn:Ed; [apply (f_equal length) in Ed; rewrite length_drop in Ed; cbn in Ed; lia |].
    exists rest. rewrite <- (Nat.add_0_r (length t)) at 1. by rewrite insert_app_r.
Qed.

Lemma readlinkat_spec_witness : (readlinkat_x86 77 #"/data" (replicate 4 "x"%char)).1 = 3.
Proof.
  destruct (readlinkat_spec #"/data" (replicate 4 "x"%char) 77) as [[H _] _];
    [by apply (bool_decide_unpack _); vm_compute | discriminate | vm_compute; lia | lia | rewrite H; reflexivity].
Defined.

(** The path is that of the file that was opened, unless [fstat] failed. *)
Theorem realpath_same_file self opened st fd_path st2 ENOENT buf :
  realpath self opened (Some st) fd_path st2 ENOENT = inr buf -> fd_path = inr buf /\ st2 buf = inr st.
Proof.
  unfold realpath, into_os_result. destruct opened; [done |]. destruct fd_path as [|b]; [done |]. destruct (st2 b) as [e|s] eqn:E; [done |].
  case_bool_decide as Hs; [done |]. intros [= <-]. by subst.
Qed.

Lemma realpath_same_file_witness : (inr #"/x" : OsError + bytes) = inr #"/x" /\ (inr (1, 2) : Z + (Z * Z)) = inr (1, 2).
Proof. exact (realpath_same_file #"/y" (inr tt) (1, 2) (inr #"/x") (fun _ => inr (1, 2)) 2 #"/x" eq_refl). Defined.

End ErrorLog.
