(* ===== verification/MapFile.v ===== *)
(** base/files.rs: [MappedFile] and the functions that map a file into memory. *)

From S2P Require Import Prelude Text Numeric CStr ErrorLog.

Module MapFile.
Import ErrorLog.

(** A file or block device: its contents, and whether its size is asked for by an ioctl. *)
Record Node := mkNode { data : bytes; block : bool }.

(** A shared map is the file; a private one is a copy of it. *)
Record Map := mkMap { node : Node; mem : bytes; shared : bool }.

Section Map.
(** The width of [usize], and what the kernel refuses. *)
Context (w : Z) (mmap_ok : Z -> bool).
Context (open_ : bool -> bytes -> Z + Node) (ioctl_ok : bool) (ENOTTY ENOMEM EINVAL : Z).

(** [map_fd]: a length of zero is refused by the kernel. *)
Definition map_fd (n : Node) (sz : Z) (rw : bool) : OsError + Map :=
  if (sz =? 0) || negb (mmap_ok sz) then inl (mkOsError (if sz =? 0 then EINVAL else ENOMEM) #"mmap" None None)
  else inr (mkMap n (take (Z.to_nat sz) (data n)) rw).

(** [map_file_at]: [sz as usize] *)
Definition map_file_at (path : bytes) (rw : bool) : OsError + Map :=
  match into_os_result (open_ rw path) #"openat" (Some path) None with
  | inl e => inl e
  | inr n =>
      if block n && negb ioctl_ok then inl (mkOsError ENOTTY #"ioctl" (Some path) None) else
      match map_fd n (uwrap w (zlen (data n))) rw with
      | inl e => inl (set_args (Some path) None e)
      | inr m => inr m
      end
  end.
Definition map_file (path : bytes) (rw : bool) : OsError + Map := map_file_at path rw.
Definition MappedFile_open (path : bytes) : OsError + Map := map_file path false.
Definition MappedFile_open_rw (path : bytes) : OsError + Map := map_file path true.
Definition MappedFile_create (n : Node) (sz : Z) (rw : bool) : OsError + Map := map_fd n sz rw.

(** Writing a byte through [AsMut]; what is in the file then. *)
Definition put (m : Map) (ib : nat * byte) : Map := mkMap (node m) (<[ib.1 := ib.2]> (mem m)) (shared m).
Definition file_of (m : Map) : bytes := if shared m then mem m ++ drop (length (mem m)) (data (node m)) else data (node m).

(** * Theorems *)

Lemma puts_shape l m : length (mem (foldl put m l)) = length (mem m) /\ node (foldl put m l) = node m /\ shared (foldl put m l) = shared m.
Proof. revert m. induction l as [|x l IH]; intros m; [done |]. destruct (IH (put m x)) as (H1 & H2 & H3). cbn [foldl]. rewrite H1, H2, H3. cbn. by rewrite length_insert. Qed.

(** A file of less than [2 ^ w] bytes is mapped as it is; writing to a map that is not for
    writing does not change the file, and what is written to one that is, is in the file,
    with nothing else changed. *)
Theorem map_file_spec path rw m l :
  map_file path rw = inr m -> zlen (data (node m)) < 2 ^ w ->
  mem m = data (node m) /\ open_ rw path = inr (node m) /\ data (node m) <> [] /\
  file_of (foldl put m l) = if rw then mem (foldl put m l) else data (node m).
Proof.
  intros H Hw. unfold map_file, map_file_at, into_os_result in H. destruct (open_ rw path) as [e|n] eqn:Eo; [done |].
  destruct (block n && negb ioctl_ok); [done |]. destruct (map_fd n _ rw) as [e|m'] eqn:Em; [done |]. injection H as <-. unfold map_fd in Em.
  destruct (_ || _) eqn:Eb; [done |]. injection Em as <-. cbn [mem node shared] in *. apply orb_false_iff in Eb as [Ez _].
  assert (uwrap w (zlen (data n)) = zlen (data n)) as Hu by (unfold uwrap; apply Z.mod_small; lia). rewrite Hu in *. rewrite Nat2Z.id, firstn_all in *.
  split_and!; [done | done | intros H0; rewrite H0 in Ez; done |].
  destruct (puts_shape l (mkMap n (data n) rw)) as (Hl & Hn & Hs). cbn [mem node shared] in *. unfold file_of. rewrite Hs, Hn, Hl. destruct rw; [| done].
  by rewrite drop_all, app_nil_r.
Qed.

(** An empty file cannot be mapped, and the error names it. *)
Theorem empty_not_mapped path rw n :
  open_ rw path = inr n -> block n = false -> data n = [] -> map_file path rw = inl (mkOsError EINVAL #"mmap" (Some path) None).
Proof. intros Ho Hb Hd. unfold map_file, map_file_at, into_os_result. rewrite Ho, Hb, Hd. done. Qed.

End Map.

Lemma map_file_spec_witness :
  let m := mkMap (mkNode #"abc" false) #"abc" true in
  mem m = #"abc" /\ file_of (foldl put m [(1%nat, "x"%char)]) = #"axc".
Proof.
  intros m. destruct (map_file_spec 64 (fun _ => true) (fun _ _ => inr (mkNode #"abc" false)) true 25 12 22 #"f" true m [(1%nat, "x"%char)] eq_refl ltac:(done)) as (H1 & _ & _ & H2).
  split; [exact H1 | exact H2].
Defined.

Lemma empty_not_mapped_witness : map_file 64 (fun _ => true) (fun _ _ => inr (mkNode [] false)) true 25 12 22 #"f" false = inl (mkOsError 22 #"mmap" (Some #"f") None).
Proof. exact (empty_not_mapped 64 (fun _ => true) (fun _ _ => inr (mkNode [] false)) true 25 12 22 #"f" false (mkNode [] false) eq_refl eq_refl eq_refl). Defined.

(** Where a [usize] has 32 bits, the size of a block device is cut off: of 4 GiB and [k]
    bytes only [k] are mapped. *)
Theorem size_truncated (n : Node) k path rw :
  zlen (data n) = 2 ^ 32 + k -> 0 < k < 2 ^ 32 ->
  exists m, map_file 32 (fun _ => true) (fun _ _ => inr n) true 25 12 22 path rw = inr m /\ zlen (mem m) = k.
Proof.
  intros Hn Hk. unfold map_file, map_file_at, into_os_result, map_fd. rewrite andb_false_r. unfold uwrap. rewrite Hn.
  replace ((2 ^ 32 + k) mod 2 ^ 32) with k by (rewrite <- Z.add_mod_idemp_l, Z.mod_same, Z.add_0_l by lia; symmetry; apply Z.mod_small; lia).
  destruct (Z.eqb_spec k 0); [lia |]. cbn [orb negb]. eexists. split; [done |]. cbn [mem]. rewrite length_take. lia.
Qed.

End MapFile.
