(* ===== verification/Patch.v ===== *)
(** boot/patch.rs: the in-place removal of fstab flags and the hex patcher,
    with [byte_data::patch] of base/base.cpp on which [hexpatch] relies. *)

From S2P Require Import Prelude Text Numeric.

Module Patch.

(** * Matching a flag

    [match_patterns!]: an optional comma, one of the patterns tried in order,
    and the [=value] that follows up to a blank, a newline or a NUL.  The buffer
    is never empty ([remove_pattern] calls it with [read < buf.len()]). *)

Definition comma : byte := bof 44.
Definition equals : byte := bof 61.

Definition value_end (c : byte) : bool :=
  bool_decide (c = bof 32) || bool_decide (c = bof 10) || bool_decide (c = bof 0).

(** [for c in b.iter() { if b" \n\0".contains(c) { break; } len += 1; }] *)
Fixpoint value_len (b : bytes) : nat :=
  match b with
  | [] => O
  | c :: b' => if value_end c then O else S (value_len b')
  end.

Fixpoint first_pattern (pats : list bytes) (b : bytes) : option nat :=
  match pats with
  | [] => None
  | p :: pats' => if starts_with b p then Some (length p) else first_pattern pats' b
  end.

Definition match_patterns (pats : list bytes) (buf : bytes) : option nat :=
  match buf with
  | [] => None
  | c0 :: _ =>
      let len := if decide (c0 = comma) then 1%nat else 0%nat in
      let b := drop len buf in
      if is_empty b then None else
      match first_pattern pats b with
      | None => None
      | Some plen =>
          let len := (len + plen)%nat in
          let b := drop len buf in
          match b with
          | c :: _ => if decide (c = equals) then Some (len + value_len b)%nat else Some len
          | [] => Some len
          end
      end
  end.

(** * In-place removal

    The loop of [remove_pattern]: [read] scans, [write <= read] is where the next
    kept byte goes; both index the same buffer. *)

Fixpoint remove_loop (m : bytes -> option nat) (fuel : nat)
    (buf : bytes) (write read sz : nat) : bytes * nat * nat :=
  match fuel with
  | O => (buf, write, sz)
  | S fuel' =>
      if (read <? length buf)%nat then
        match m (drop read buf) with
        | Some len => remove_loop m fuel' buf write (read + len) (sz - len)
        | None =>
            match buf !! read with
            | Some c => remove_loop m fuel' (<[write := c]> buf) (S write) (S read) sz
            | None => (buf, write, sz)
            end
        end
      else (buf, write, sz)
  end.

(** Returns the buffer, its tail filled with zeros, and the new size. *)
Definition remove_pattern (buf : bytes) (m : bytes -> option nat) : bytes * Z :=
  let '(buf', write, sz) := remove_loop m (length buf) buf 0 0 (length buf) in
  (take write buf' ++ replicate (length buf' - write) (bof 0), Z.of_nat sz).

Definition verity_patterns : list bytes :=
  [ #"verifyatboot"; #"verify"; #"avb_keys"; #"avb"; #"support_scfs"; #"fsverity"].
Definition encryption_patterns : list bytes :=
  [ #"forceencrypt"; #"forcefdeorfbe"; #"fileencryption"].

Definition patch_verity (buf : bytes) : bytes * Z :=
  remove_pattern buf (match_patterns verity_patterns).
Definition patch_encryption (buf : bytes) : bytes * Z :=
  remove_pattern buf (match_patterns encryption_patterns).

(** ** Reference: what is kept, as a function of the input alone *)

Fixpoint strip_go (m : bytes -> option nat) (fuel : nat) (s : bytes) : bytes :=
  match fuel, s with
  | S fuel', c :: t =>
      match m s with
      | Some len => strip_go m fuel' (drop len s)
      | None => c :: strip_go m fuel' t
      end
  | _, _ => []
  end.
Definition strip (m : bytes -> option nat) (s : bytes) : bytes := strip_go m (length s) s.

(** A matcher removes at least one byte and never more than there are. *)
Definition matcher_ok (m : bytes -> option nat) : Prop :=
  forall s n, m s = Some n -> (0 < n <= length s)%nat.

Lemma strip_go_fuel m f1 f2 s :
  matcher_ok m -> (length s <= f1)%nat -> (length s <= f2)%nat ->
  strip_go m f1 s = strip_go m f2 s.
Proof.
  intros Hm. revert f2 s. induction f1 as [|f1 IH]; intros f2 s H1 H2.
  { destruct s; [by destruct f2 | simpl in H1; lia]. }
  destruct s as [|c t]; [by destruct f2 |]. destruct f2 as [|f2]; [simpl in H2; lia |].
  cbn [strip_go]. simpl in H1, H2. destruct (m (c :: t)) as [len|] eqn:E.
  - apply Hm in E. apply IH; rewrite length_drop; simpl in *; lia.
  - f_equal. apply IH; lia.
Qed.

Lemma strip_match m s n :
  matcher_ok m -> m s = Some n -> strip m s = strip m (drop n s).
Proof.
  intros Hm E. pose proof (Hm _ _ E). unfold strip.
  destruct s as [|c t]; [simpl in *; lia |]. cbn [length strip_go]. rewrite E.
  apply strip_go_fuel; [done | rewrite length_drop; simpl in *; lia | done].
Qed.

Lemma strip_keep m c t : m (c :: t) = None -> strip m (c :: t) = c :: strip m t.
Proof. intros E. unfold strip. cbn [length strip_go]. by rewrite E. Qed.

Lemma strip_length m s : (length (strip m s) <= length s)%nat.
Proof.
  unfold strip. generalize (length s) at 1. intros fuel. revert s.
  induction fuel as [|fuel IH]; intros [|c t]; cbn [strip_go]; simpl; try lia.
  destruct (m (c :: t)) as [len|].
  - etrans; [apply IH |]. rewrite length_drop. simpl. lia.
  - simpl. specialize (IH t). lia.
Qed.

(** The loop invariant: the bytes before [write] are final, those from [read] on
    are still the input. *)
Lemma remove_loop_spec m fuel buf write read sz :
  matcher_ok m -> (write <= read <= length buf)%nat -> (length buf - read <= fuel)%nat ->
  (length buf - read <= sz)%nat ->
  let kept := strip m (drop read buf) in
  exists buf', remove_loop m fuel buf write read sz =
      (buf', (write + length kept)%nat, (sz - (length buf - read) + length kept)%nat) /\
    length buf' = length buf /\ take (write + length kept) buf' = take write buf ++ kept.
Proof.
  intros Hm. revert buf write read sz. induction fuel as [|fuel IH]; intros buf write read sz Hw Hf Hsz kept.
  { assert (kept = []) as -> by (subst kept; by rewrite drop_ge by lia).
    exists buf. simpl. rewrite !Nat.add_0_r, app_nil_r. split; [f_equal; lia | done]. }
  simpl. destruct (Nat.ltb_spec read (length buf)) as [Hlt|Hge].
  2:{ assert (kept = []) as -> by (subst kept; by rewrite drop_ge by lia).
    exists buf. simpl. rewrite !Nat.add_0_r, app_nil_r. split; [f_equal; lia | done]. }
  destruct (m (drop read buf)) as [len|] eqn:E.
  - pose proof (Hm _ _ E) as Hlen. rewrite length_drop in Hlen.
    destruct (IH buf write (read + len)%nat (sz - len)%nat) as (buf' & Hr & Hl & Ht); [lia | lia | lia |].
    assert (kept = strip m (drop (read + len) buf)) as Hk
      by (subst kept; rewrite (strip_match m _ len) by done; by rewrite drop_drop).
    rewrite <- Hk in *. exists buf'. rewrite Hr. split; [f_equal; lia | done].
  - destruct (lookup_lt_is_Some_2 buf read Hlt) as [c Hc]. rewrite Hc.
    destruct (IH (<[write:=c]> buf) (S write) (S read) sz) as (buf' & Hr & Hl & Ht);
      rewrite ?length_insert in *; [lia | lia | lia |].
    rewrite drop_insert_lt in * by lia.
    assert (kept = c :: strip m (drop (S read) buf)) as ->
      by (subst kept; rewrite (drop_S _ c) in * by done; by apply strip_keep).
    exists buf'. rewrite Hr. simpl.
    split; [f_equal; [f_equal; lia | lia] | split; [done |]].
    rewrite <- Nat.add_succ_comm, Ht, (take_S_r _ _ c) by (by apply list_lookup_insert_eq; lia).
    rewrite take_insert_ge by lia. by rewrite <- app_assoc.
Qed.

(** [remove_pattern] leaves the kept bytes, pads with zeros, and returns their
    number. *)
Lemma remove_pattern_eq buf m :
  matcher_ok m ->
  remove_pattern buf m =
    (strip m buf ++ replicate (length buf - length (strip m buf)) (bof 0), zlen (strip m buf)).
Proof.
  intros Hm. unfold remove_pattern.
  destruct (remove_loop_spec m (length buf) buf 0 0 (length buf)) as (buf' & -> & Hl & Ht); [done | lia.. |].
  rewrite drop_0 in *. simpl in *. rewrite Ht, Hl. do 2 f_equal. lia.
Qed.

(** * The two matchers *)

Lemma value_len_le b : (value_len b <= length b)%nat.
Proof. induction b as [|c b IH]; simpl; [lia |]. destruct (value_end c); simpl; lia. Qed.

Lemma first_pattern_le pats b n :
  first_pattern pats b = Some n -> (n <= length b)%nat /\ exists p, p ∈ pats /\ n = length p.
Proof.
  induction pats as [|p pats IH]; simpl; [done |]. destruct (starts_with b p) eqn:E.
  - intros [= <-]. split; [by apply starts_with_length |]. exists p. set_solver.
  - intros (? & q & ? & ?)%IH. split; [done |]. exists q. set_solver.
Qed.

Lemma match_patterns_ok pats : Forall (fun p => p <> []) pats -> matcher_ok (match_patterns pats).
Proof.
  intros Hne s n. unfold match_patterns. destruct s as [|c0 s]; [done |].
  set (len := if decide (c0 = comma) then 1%nat else 0%nat).
  assert (len <= 1)%nat by (subst len; case_decide; lia).
  destruct (is_empty (drop len (c0 :: s))); [done |].
  destruct (first_pattern pats _) as [plen|] eqn:E; [| done].
  apply first_pattern_le in E as (Hle & p & Hp & ->).
  rewrite Forall_forall in Hne. specialize (Hne p Hp).
  assert (0 < length p)%nat by (destruct p; simpl; [done | lia]).
  rewrite length_drop in Hle.
  pose proof (value_len_le (drop (len + length p) (c0 :: s))) as Hv. rewrite length_drop in Hv.
  change (length (c0 :: s)) with (S (length s)) in *.
  destruct (drop (len + length p) (c0 :: s)); [| case_decide]; intros [= <-]; simpl in *; lia.
Qed.

Lemma verity_matcher_ok : matcher_ok (match_patterns verity_patterns).
Proof. apply match_patterns_ok. by repeat constructor. Qed.
Lemma encryption_matcher_ok : matcher_ok (match_patterns encryption_patterns).
Proof. apply match_patterns_ok. by repeat constructor. Qed.

#[export] Hint Resolve verity_matcher_ok encryption_matcher_ok : magisk.

(** * hex2byte

    Arithmetic on [u8]: [c - b'0'] underflows on a byte below ['0']. *)

Definition to_ascii_uppercase (c : byte) : byte :=
  if in_rng 97 122 c then bof (bval c - 32) else c.

Definition nibble {E} (oc : bool) (c : byte) : res E Z :=
  d ← u_arith oc 8 (bval (to_ascii_uppercase c) - 48);
  if 9 <? d then u_arith oc 8 (d - 7) else Ok d.

(** [hex.chunks(2)]: an odd last chunk ends the loop. *)
Fixpoint hex2byte {E} (oc : bool) (hex : bytes) : res E bytes :=
  match hex with
  | c1 :: c2 :: rest =>
      h ← nibble oc c1;
      l ← nibble oc c2;
      v ← hex2byte oc rest;
      Ok (bof (Z.lor (uwrap 8 (Z.shiftl h 4)) l) :: v)
  | _ => Ok []
  end.

(** The hexadecimal notation of a byte string ([{:02X}]). *)
Definition hex_upper (d : Z) : byte := to_ascii_uppercase (digit_char d).
Definition byte2hex (v : bytes) : bytes :=
  concat (map (fun c => [hex_upper (bval c / 16); hex_upper (bval c mod 16)]) v).

Lemma nibble_hex {E} oc d : 0 <= d < 16 -> nibble (E:=E) oc (hex_upper d) = Ok d.
Proof.
  intros H. assert (d = 0 \/ d = 1 \/ d = 2 \/ d = 3 \/ d = 4 \/ d = 5 \/ d = 6 \/ d = 7 \/
    d = 8 \/ d = 9 \/ d = 10 \/ d = 11 \/ d = 12 \/ d = 13 \/ d = 14 \/ d = 15) as Hd by lia.
  by repeat destruct Hd as [-> | Hd]; subst; vm_compute.
Qed.

Lemma join_nibbles c :
  bof (Z.lor (uwrap 8 (Z.shiftl (bval c / 16) 4)) (bval c mod 16)) = c.
Proof. by destruct c as [[] [] [] [] [] [] [] []]; vm_compute. Qed.

Lemma hex2byte_byte2hex {E} oc v : hex2byte (E:=E) oc (byte2hex v) = Ok v.
Proof.
  induction v as [|c v IH]; [done |]. unfold byte2hex in *. cbn [map concat app hex2byte].
  pose proof (bval_range c).
  rewrite (nibble_hex oc (bval c / 16)) by (split; [apply Z.div_pos; lia | apply Z.div_lt_upper_bound; lia]).
  rewrite (nibble_hex oc (bval c mod 16)) by (apply Z.mod_pos_bound; lia).
  cbn. rewrite IH. cbn. by rewrite join_nibbles.
Qed.

(** * byte_data::patch

    The scan of base/base.cpp.  [None] stands for the executions in which the
    C++ is undefined (the [memcpy] of a replacement that runs past the end of
    the buffer) or does not end (an empty pattern: [fuel] runs out). *)

Fixpoint patch_loop (fuel : nat) (from to done todo : bytes) (v : list Z)
    : option (bytes * list Z) :=
  match fuel with
  | O => None
  | S fuel' =>
      if is_empty todo then Some (done, v) else
      match find todo from with
      | None => Some (done ++ todo, v)
      | Some off =>
          let i := Z.to_nat off in
          (* memset(p, 0, from.size()); memcpy(p, to.data(), to.size()) *)
          if (length todo <? i + length to)%nat then None else
          let todo := take i todo ++ replicate (length from) (bof 0) ++ drop (i + length from) todo in
          let todo := take i todo ++ to ++ drop (i + length to) todo in
          let p := (i + length from)%nat in
          patch_loop fuel' from to (done ++ take p todo) (drop p todo) (v ++ [zlen done + off])
      end
  end.

(** The patched buffer and the offsets; [done ++ todo] is the buffer and [todo]
    starts at [p]. *)
Definition mut_u8_patch (buf from to : bytes) : option (bytes * list Z) :=
  patch_loop (S (length buf)) from to [] buf [].

(** [hexpatch] on the mapped file: the new contents and whether something was
    patched; [None] for a file that cannot be opened, and the contents of an
    undefined patch are not specified. *)
Definition hexpatch (oc : bool) (file : option bytes) (from to : bytes)
    : res unit (option (option bytes * bool)) :=
  match file with
  | None => Ok (Some (None, false))
  | Some map =>
      pattern ← hex2byte oc from;
      patch ← hex2byte oc to;
      Ok ((fun p => (Some p.1, negb (is_empty p.2))) <$> mut_u8_patch map pattern patch)
  end.

(** ** Reference: replace the leftmost occurrences, left to right *)

Fixpoint replace_go (fuel : nat) (from to s : bytes) : bytes :=
  match fuel, s with
  | S fuel', c :: t =>
      if starts_with s from
      then to ++ replicate (length from - length to) (bof 0)
             ++ replace_go fuel' from to (drop (length from) s)
      else c :: replace_go fuel' from to t
  | _, _ => []
  end.
Definition replace_all (from to s : bytes) : bytes := replace_go (length s) from to s.

Lemma replace_go_fuel from to f1 f2 s :
  from <> [] -> (length s <= f1)%nat -> (length s <= f2)%nat ->
  replace_go f1 from to s = replace_go f2 from to s.
Proof.
  intros Hne. revert f2 s. induction f1 as [|f1 IH]; intros f2 s H1 H2.
  { destruct s; [by destruct f2 | simpl in H1; lia]. }
  destruct s as [|c t]; [by destruct f2 |]. destruct f2 as [|f2]; [simpl in H2; lia |].
  cbn [replace_go]. simpl in H1, H2. assert (0 < length from)%nat by (destruct from; [done | simpl; lia]).
  destruct (starts_with _ _); [do 2 f_equal; apply IH; rewrite length_drop; simpl; lia |].
  f_equal. apply IH; lia.
Qed.

Lemma replace_match from to s :
  from <> [] -> starts_with s from = true ->
  replace_all from to s =
    to ++ replicate (length from - length to) (bof 0) ++ replace_all from to (drop (length from) s).
Proof.
  intros Hne Hs. assert (0 < length from)%nat by (destruct from; [done | simpl; lia]).
  pose proof (starts_with_length _ _ Hs). unfold replace_all.
  destruct s as [|c t]; [simpl in *; lia |]. cbn [length replace_go]. rewrite Hs.
  do 2 f_equal. apply replace_go_fuel; [done | rewrite length_drop; simpl in *; lia | done].
Qed.

Lemma replace_find from to s i :
  from <> [] -> find s from = Some i ->
  replace_all from to s =
    take (Z.to_nat i) s ++ to ++ replicate (length from - length to) (bof 0)
      ++ replace_all from to (drop (Z.to_nat i + length from) s).
Proof.
  intros Hne Hf. revert i Hf. induction s as [|c s IH]; intros i Hf.
  { simpl in Hf. destruct from; [done | by simpl in Hf]. }
  cbn [find] in Hf. destruct (starts_with (c :: s) from) eqn:E.
  - injection Hf as <-. rewrite replace_match by done. done.
  - apply fmap_Some in Hf as (k & Hk & ->). pose proof (find_Some _ _ _ Hk) as (? & _).
    unfold replace_all. cbn [length replace_go]. rewrite E.
    replace (Z.to_nat (Z.succ k)) with (S (Z.to_nat k)) by lia. simpl. f_equal. by apply IH.
Qed.

Lemma replace_none from to s : find s from = None -> replace_all from to s = s.
Proof.
  unfold replace_all. induction s as [|c s IH]; [done |]. cbn [find length replace_go].
  destruct (starts_with _ _); [done |]. intros H%fmap_None. f_equal. auto.
Qed.

(** The C++ loop computes [replace_all], in the buffer. *)
Lemma patch_loop_spec fuel from to done todo v :
  from <> [] -> (length to <= length from)%nat -> (length todo < fuel)%nat ->
  exists v', patch_loop fuel from to done todo v = Some (done ++ replace_all from to todo, v ++ v')
    /\ (v' = [] <-> find todo from = None).
Proof.
  intros Hne Hto. assert (0 < length from)%nat by (destruct from; [done | simpl; lia]).
  revert done todo v. induction fuel as [|fuel IH]; intros done todo v Hf; [lia |].
  cbn [patch_loop]. destruct (is_empty todo) eqn:Ee.
  { destruct todo; [| done]. exists []. rewrite !app_nil_r. split; [done |].
    simpl. by destruct from. }
  destruct (find todo from) as [off|] eqn:Eo.
  2:{ exists []. rewrite app_nil_r, replace_none by done. done. }
  pose proof (find_Some _ _ _ Eo) as (? & Hle & _). set (i := Z.to_nat off) in *.
  destruct (Nat.ltb_spec (length todo) (i + length to)); [lia |].
  set (rest := drop (i + length from) todo).
  assert (length (take i todo) = i) as Hi by (rewrite length_take; lia).
  set (todo1 := take i todo ++ to ++ replicate (length from - length to) (bof 0)).
  assert (take i (take i todo ++ replicate (length from) (bof 0) ++ rest) ++ to ++
    drop (i + length to) (take i todo ++ replicate (length from) (bof 0) ++ rest) = todo1 ++ rest) as ->.
  { subst todo1. rewrite (take_app_length' _ _ i) by done. rewrite <- !app_assoc. do 2 f_equal.
    rewrite <- drop_drop, (drop_app_length' _ _ i) by done.
    rewrite drop_app_le by (rewrite length_replicate; lia). by rewrite drop_replicate. }
  assert (length todo1 = i + length from)%nat as Hl
    by (subst todo1; rewrite !length_app, length_replicate; lia).
  rewrite (take_app_length' _ _ (i + length from)), (drop_app_length' _ _ (i + length from)) by done.
  destruct (IH (done ++ todo1) rest (v ++ [zlen done + off])) as (v' & -> & _).
  { subst rest. rewrite length_drop. lia. }
  exists ((zlen done + off) :: v'). split; [| split; naive_solver].
  f_equal. f_equal; [| by rewrite <- app_assoc].
  rewrite (replace_find from to todo off) by done. subst todo1 rest i. by rewrite <- !app_assoc.
Qed.

Lemma replace_all_length from to s :
  from <> [] -> (length to <= length from)%nat -> length (replace_all from to s) = length s.
Proof.
  intros Hne Hto. assert (0 < length from)%nat by (destruct from; [done | simpl; lia]).
  unfold replace_all. assert (length s <= length s)%nat as Hs by done. revert Hs.
  generalize (length s) at 2 3 as fuel. intros fuel. revert s. induction fuel as [|fuel IH]; intros [|c t] Hs; simpl in *; try lia.
  destruct (starts_with _ _) eqn:E.
  - pose proof (starts_with_length _ _ E). rewrite !length_app, length_replicate, IH; rewrite length_drop; simpl in *; lia.
  - simpl. rewrite IH; lia.
Qed.

Lemma value_len_app v rest :
  Forall (fun c => value_end c = false) v -> (forall c, head rest = Some c -> value_end c = true) ->
  value_len (v ++ rest) = length v.
Proof.
  intros Hv Hr. induction Hv as [|c v Hc _ IH]; simpl; [| by rewrite Hc, IH].
  destruct rest as [|c rest]; [done |]. simpl. by rewrite (Hr c).
Qed.

(** * Properties *)

(** C15: Both fstab patchers, which move bytes inside one buffer, compute a function
    of the original contents: scanning left to right, every maximal match of a
    flag is dropped and every other byte is kept.  The kept bytes come first, the
    rest of the buffer is zeroed, and the returned size is their number. *)
Theorem fstab_patchers_correct buf :
  let v := strip (match_patterns verity_patterns) buf in
  let e := strip (match_patterns encryption_patterns) buf in
  patch_verity buf = (v ++ replicate (length buf - length v) (bof 0), zlen v) /\
  patch_encryption buf = (e ++ replicate (length buf - length e) (bof 0), zlen e) /\
  (length v <= length buf)%nat /\ (length e <= length buf)%nat.
Proof.
  split_and!; [| | apply strip_length | apply strip_length]; apply remove_pattern_eq; auto with magisk.
Qed.

(** The value of a flag extends to the next blank, newline, NUL or the end of
    the data: a comma does not end it, so the flags that follow [avb=...] in a
    comma-separated list are removed with it. *)
Theorem flag_value_swallows_list v rest :
  Forall (fun c => value_end c = false) v ->
  (forall c, head rest = Some c -> value_end c = true) ->
  strip (match_patterns verity_patterns) (#",avb=" ++ v ++ rest)
  = strip (match_patterns verity_patterns) rest.
Proof.
  intros Hv Hr. rewrite (strip_match _ _ (5 + length v)); [| auto with magisk |].
  - f_equal. change (#",avb=" ++ v ++ rest) with ((#",avb=" ++ v) ++ rest).
    by rewrite drop_app_length' by (rewrite length_app; done).
  - change (match_patterns verity_patterns (#",avb=" ++ v ++ rest))
      with (Some (4 + value_len ((equals :: v) ++ rest))%nat).
    by rewrite value_len_app by (done || by constructor).
Qed.

Lemma flag_value_swallows_list_witness :
  strip (match_patterns verity_patterns) (#",avb=" ++ #"vbmeta,logical,first_stage_mount" ++ #" /system")
  = strip (match_patterns verity_patterns) #" /system".
Proof.
  apply flag_value_swallows_list.
  - apply (bool_decide_unpack _). vm_compute. exact I.
  - intros c [= <-]. vm_compute. reflexivity.
Defined.

(** [hexpatch] with a non-empty hexadecimal pattern and a replacement that is
    not longer replaces every occurrence, leftmost first and without overlaps,
    pads the replacement with zeros to the length of the pattern, keeps the size
    of the file, and reports whether the pattern occurred. *)
Theorem hexpatch_replaces oc map p t :
  p <> [] -> (length t <= length p)%nat ->
  hexpatch oc (Some map) (byte2hex p) (byte2hex t)
    = Ok (Some (Some (replace_all p t map), contains map p)) /\
  length (replace_all p t map) = length map.
Proof.
  intros Hp Ht. split; [| by apply replace_all_length]. unfold hexpatch.
  rewrite !hex2byte_byte2hex. cbn [mbind res_bind]. unfold mut_u8_patch.
  destruct (patch_loop_spec (S (length map)) p t [] map []) as (v & -> & Hv); [done | done | lia |].
  cbn. unfold contains. destruct (find map p), v; naive_solver.
Qed.

Lemma hexpatch_replaces_witness :
  hexpatch true (Some #"skip_initramfs") (byte2hex #"skip_initramfs") (byte2hex #"want_initramfs")
    = Ok (Some (Some (replace_all #"skip_initramfs" #"want_initramfs" #"skip_initramfs"), true))
  /\ length (replace_all #"skip_initramfs" #"want_initramfs" #"skip_initramfs") = 14%nat.
Proof.
  apply (hexpatch_replaces true #"skip_initramfs" #"skip_initramfs" #"want_initramfs");
    [discriminate | vm_compute; lia].
Defined.

End Patch.
