(* ===== verification/Cpio.v ===== *)
(** boot/cpio.rs, the archive: the newc header, reading ([load_from_data]),
    writing ([dump]) and the operations on entries.

    The target is a 64-bit one: [mode_t], [uid_t] and [gid_t] are 32 bits wide,
    [dev_t] 64.  [usize] additions that would overflow make the slice expression
    they are part of abort, as an out-of-range slice does, so [Panic] covers both. *)

From S2P Require Import Prelude Text Numeric CStr Patch.

Module Cpio.

(** * Data *)

Record CpioEntry := mkEntry {
  mode : Z;
  uid : Z;
  gid : Z;
  rdevmajor : Z;
  rdevminor : Z;
  data : bytes
}.

#[export] Instance CpioEntry_eq_dec : EqDecision CpioEntry.
Proof. solve_decision. Defined.

(** [struct Cpio { entries: BTreeMap<String, Box<CpioEntry>> }] *)
Abbreviation Cpio := (gmap bytes CpioEntry).

Definition new : Cpio := ∅.

(** The packed header: 14 ASCII fields, 110 bytes. *)
Record CpioHeader := mkHeader {
  h_magic : bytes;
  h_ino : bytes;
  h_mode : bytes;
  h_uid : bytes;
  h_gid : bytes;
  h_nlink : bytes;
  h_mtime : bytes;
  h_filesize : bytes;
  h_devmajor : bytes;
  h_devminor : bytes;
  h_rdevmajor : bytes;
  h_rdevminor : bytes;
  h_namesize : bytes;
  h_check : bytes
}.

Definition hdr_sz : Z := 110.

(** [from_bytes::<CpioHeader>] on a slice of [hdr_sz] bytes. *)
Definition from_bytes (s : bytes) : CpioHeader :=
  let fld i := take 8 (drop (6 + 8 * i) s) in
  mkHeader (take 6 s) (fld 0%nat) (fld 1%nat) (fld 2%nat) (fld 3%nat) (fld 4%nat) (fld 5%nat)
    (fld 6%nat) (fld 7%nat) (fld 8%nat) (fld 9%nat) (fld 10%nat) (fld 11%nat) (fld 12%nat).

(** * Helpers *)

(** [x8u]: eight hexadecimal digits.  A field that is not UTF-8 has a byte that is
    no digit, so both errors of the source are this one. *)
Fixpoint x8u_go (ret : Z) (s : bytes) : logged Z :=
  match s with
  | [] => Ok ret
  | c :: s' =>
      match to_digit 16 c with
      | Some d => x8u_go (ret * 16 + d) s'
      | None => Err tt
      end
  end.
Definition x8u (x : bytes) : logged Z := x8u_go 0 x.

(** [(x + 3) & !3] *)
Definition align_4 (x : Z) : Z := Z.land (x + 3) (Z.lnot 3).

Definition norm_path (path : bytes) : bytes :=
  join [CStr.slash] (filter (fun w => w <> []) (split_on CStr.slash path)).

Definition parse_mode (s : bytes) : option Z := parse_uint 32 8 s.

Definition S_IFMT : Z := 0xF000.
Definition S_IFDIR : Z := 0x4000.
Definition S_IFREG : Z := 0x8000.
Definition S_IFLNK : Z := 0xA000.
Definition S_IFBLK : Z := 0x6000.
Definition S_IFCHR : Z := 0x2000.

Definition file_type (e : CpioEntry) : Z := Z.land (mode e) S_IFMT.

Definition MAGIC : bytes := #"070701".
Definition TRAILER : bytes := #"TRAILER!!!".

(** * Reading *)

Definition parse_name (raw : bytes) : logged bytes :=
  match CStr.from_bytes raw with Ok n => Ok n | Err _ => Err tt | Panic => Panic end.

(** One round of the [while pos < data.len()] loop: the archive when the loop ends, or the
    next position and the entries so far. *)
Definition load_round (d : bytes) (pos : Z) (entries : Cpio) : logged (Cpio + Z * Cpio) :=
  if pos <? zlen d then
    raw ← slice d pos (pos + hdr_sz);
    let hdr := from_bytes raw in
    if negb (bool_decide (h_magic hdr = MAGIC)) then Err tt else
    let pos := pos + hdr_sz in
    name_sz ← x8u (h_namesize hdr);
    raw_name ← slice d pos (pos + name_sz);
    name ← parse_name raw_name;
    let pos := align_4 (pos + name_sz) in
    if bool_decide (name = #".") || bool_decide (name = #"..") then
      Ok (inr (pos, entries))
    else if bool_decide (name = TRAILER) then
      rest ← slice_from d pos;
      match find rest MAGIC with
      | Some x => Ok (inr (pos + x, entries))
      | None => Ok (inl entries)
      end
    else
      file_sz ← x8u (h_filesize hdr);
      e_mode ← x8u (h_mode hdr);
      e_uid ← x8u (h_uid hdr);
      e_gid ← x8u (h_gid hdr);
      e_rmaj ← x8u (h_rdevmajor hdr);
      e_rmin ← x8u (h_rdevminor hdr);
      content ← slice d pos (pos + file_sz);
      let entry := mkEntry e_mode e_uid e_gid e_rmaj e_rmin content in
      Ok (inr (align_4 (pos + file_sz), <[name := entry]> entries))
  else Ok (inl entries).

(** The loop; [None] is running out of fuel, which is none of its results. *)
Fixpoint load_loop (fuel : nat) (d : bytes) (pos : Z) (entries : Cpio) : option (logged Cpio) :=
  match fuel with
  | O => None
  | S fuel' =>
      match load_round d pos entries with
      | Ok (inl c) => Some (Ok c)
      | Ok (inr (pos, entries)) => load_loop fuel' d pos entries
      | Err e => Some (Err e)
      | Panic => Some Panic
      end
  end.

(** The rounds that are enough: each but the last moves past a header. *)
Definition rounds (d : bytes) : nat := Z.to_nat (zlen d / hdr_sz + 2).

Definition load_from_data (d : bytes) : logged Cpio := default Panic (load_loop (rounds d) d 0 new).

(** [MappedFile::open] fails on a file that is not there. *)
Definition load_from_file (file : option bytes) : logged Cpio :=
  match file with Some d => load_from_data d | None => Err tt end.

(** * Writing *)

Definition write_header (inode mode uid gid filesize rdevmajor rdevminor namesize : Z) : bytes :=
  MAGIC ++ fmt_08x inode ++ fmt_08x mode ++ fmt_08x uid ++ fmt_08x gid ++ fmt_08x 1 ++ fmt_08x 0
  ++ fmt_08x filesize ++ fmt_08x 0 ++ fmt_08x 0 ++ fmt_08x rdevmajor ++ fmt_08x rdevminor
  ++ fmt_08x namesize ++ fmt_08x 0.

(** [file.write_zeros(align_4(pos) - pos)] *)
Definition pad_4 (pos : Z) : bytes := replicate (Z.to_nat (align_4 pos - pos)) CStr.NUL.

Fixpoint dump_loop (es : list (bytes * CpioEntry)) (pos inode : Z) : bytes :=
  match es with
  | [] =>
      let hdr := write_header inode 0x1ED 0 0 0 0 0 11 ++ TRAILER ++ [CStr.NUL] in
      hdr ++ pad_4 (pos + zlen hdr)
  | (name, e) :: es' =>
      let hdr := write_header inode (mode e) (uid e) (gid e) (zlen (data e))
                   (rdevmajor e) (rdevminor e) (zlen name + 1) ++ name ++ [CStr.NUL] in
      let pos1 := align_4 (pos + zlen hdr) in
      let pos2 := align_4 (pos1 + zlen (data e)) in
      hdr ++ pad_4 (pos + zlen hdr) ++ data e ++ pad_4 (pos1 + zlen (data e))
      ++ dump_loop es' pos2 (inode + 1)
  end.

(** The file [dump] writes, each [file.write] writing all it is given. *)
Definition dump (c : Cpio) : bytes := dump_loop (btree_iter c) 0 300000.

(** * Reading back what was written *)

Lemma x8u_parse acc s : x8u_go acc s = of_option tt (parse_digits 16 acc s).
Proof. revert acc. induction s as [|c s IH]; intros acc; simpl; [done |]. by destruct (to_digit 16 c). Qed.

Lemma x8u_fmt n : 0 <= n -> x8u (fmt_08x n) = Ok n.
Proof. intros. unfold x8u. by rewrite x8u_parse, parse_fmt_08x. Qed.

(** Eight digits fit [u32]: the accumulator of [x8u] never overflows. *)
Lemma x8u_range s v : (length s <= 8)%nat -> x8u s = Ok v -> 0 <= v < 2 ^ 32.
Proof.
  intros Hl. unfold x8u. rewrite x8u_parse. destruct (parse_digits 16 0 s) as [z|] eqn:E; [| done].
  intros [= <-]. apply parse_digits_bound in E; [| lia..].
  assert (16 ^ zlen s <= 16 ^ 8) by (apply Z.pow_le_mono_r; lia). lia.
Qed.

Lemma align_4_eq x : align_4 x = (x + 3) / 4 * 4.
Proof.
  unfold align_4. rewrite <- Z.ldiff_land. change 3 with (Z.ones 2) at 2.
  rewrite Z.ldiff_ones_r by lia. rewrite Z.shiftl_mul_pow2, Z.shiftr_div_pow2 by lia. done.
Qed.

Lemma align_4_bounds x : x <= align_4 x < x + 4.
Proof.
  rewrite align_4_eq. pose proof (Z.div_mod (x + 3) 4 ltac:(lia)).
  pose proof (Z.mod_pos_bound (x + 3) 4 ltac:(lia)). lia.
Qed.

Lemma pad_4_length pos : zlen (pad_4 pos) = align_4 pos - pos.
Proof. unfold pad_4. rewrite length_replicate. pose proof (align_4_bounds pos). lia. Qed.

(** The [i]-th of a row of eight-byte fields. *)
Lemma field_concat (ps : list bytes) i p :
  Forall (fun q => length q = 8%nat) ps -> ps !! i = Some p -> take 8 (drop (8 * i) (concat ps)) = p.
Proof.
  intros Hps. revert i. induction Hps as [|q ps Hq Hps IH]; intros i Hi; [done |].
  destruct i as [|i]; simpl in Hi.
  - injection Hi as ->. rewrite Nat.mul_0_r, drop_0. simpl. rewrite take_app_le by lia. by rewrite take_ge by lia.
  - simpl concat. replace (8 * S i)%nat with (length q + 8 * i)%nat by lia.
    rewrite <- drop_drop, drop_app_length. by apply IH.
Qed.

Lemma from_bytes_fields m ps :
  length m = 6%nat -> Forall (fun q => length q = 8%nat) ps -> length ps = 13%nat ->
  let h := from_bytes (m ++ concat ps) in
  let fld i p := forall q, ps !! i = Some q -> p h = q in
  h_magic h = m /\ fld 1%nat h_mode /\ fld 2%nat h_uid /\ fld 3%nat h_gid /\ fld 6%nat h_filesize /\
  fld 9%nat h_rdevmajor /\ fld 10%nat h_rdevminor /\ fld 11%nat h_namesize.
Proof.
  intros Hm Hps Hl h fld.
  assert (forall i q, ps !! i = Some q -> take 8 (drop (6 + 8 * i) (m ++ concat ps)) = q) as Hf.
  { intros i q Hq. rewrite <- (drop_drop _ (8 * i) 6), (drop_app_length' m _ 6) by done.
    by apply field_concat. }
  split_and!; [| intros q Hq; by apply (Hf _ _ Hq)..]. by apply (take_app_length' m _ 6).
Qed.

(** Names and entries that the format can carry: the archive stores 32-bit
    numbers, and the reader gives the names [.], [..] and [TRAILER!!!] a meaning
    of their own. *)
Definition wf_name (n : bytes) : Prop :=
  (CStr.NUL ∉ n) /\ utf8_valid n = true /\ zlen n + 1 < 2 ^ 32 /\
  n <> #"." /\ n <> #".." /\ n <> TRAILER.
Definition u32 (z : Z) : Prop := 0 <= z < 2 ^ 32.
Definition wf_entry (e : CpioEntry) : Prop :=
  u32 (mode e) /\ u32 (uid e) /\ u32 (gid e) /\ u32 (rdevmajor e) /\ u32 (rdevminor e) /\
  zlen (data e) < 2 ^ 32.
Definition wf_pair (p : bytes * CpioEntry) : Prop := wf_name p.1 /\ wf_entry p.2.
Definition wf_cpio (c : Cpio) : Prop := map_Forall (fun n e => wf_name n /\ wf_entry e) c.

#[export] Instance u32_dec z : Decision (u32 z).
Proof. apply _. Defined.
#[export] Instance wf_name_dec n : Decision (wf_name n).
Proof. apply _. Defined.
#[export] Instance wf_entry_dec e : Decision (wf_entry e).
Proof. apply _. Defined.
#[export] Instance wf_cpio_dec c : Decision (wf_cpio c).
Proof. apply _. Defined.

(** The header of a well-formed entry is read back field by field. *)
Lemma header_roundtrip inode m u g fs maj mn ns :
  u32 inode -> u32 m -> u32 u -> u32 g -> u32 fs -> u32 maj -> u32 mn -> u32 ns ->
  let raw := write_header inode m u g fs maj mn ns in
  let h := from_bytes raw in
  zlen raw = hdr_sz /\ h_magic h = MAGIC /\
  x8u (h_mode h) = Ok m /\ x8u (h_uid h) = Ok u /\ x8u (h_gid h) = Ok g /\
  x8u (h_filesize h) = Ok fs /\ x8u (h_rdevmajor h) = Ok maj /\ x8u (h_rdevminor h) = Ok mn /\
  x8u (h_namesize h) = Ok ns.
Proof.
  intros Hi Hm Hu Hg Hfs Hmaj Hmn Hns raw h. subst h.
  set (ps := [fmt_08x inode; fmt_08x m; fmt_08x u; fmt_08x g; fmt_08x 1; fmt_08x 0; fmt_08x fs;
              fmt_08x 0; fmt_08x 0; fmt_08x maj; fmt_08x mn; fmt_08x ns; fmt_08x 0]).
  assert (raw = MAGIC ++ concat ps) as -> by (subst raw ps; cbn [concat]; by rewrite app_nil_r).
  assert (Forall (fun q => length q = 8%nat) ps) as Hps
    by (repeat constructor; apply fmt_08x_length; unfold u32 in *; lia).
  destruct (from_bytes_fields MAGIC ps) as (H1 & H2 & H3 & H4 & H5 & H6 & H7 & H8); [done.. |].
  rewrite H1, (H2 _ eq_refl), (H3 _ eq_refl), (H4 _ eq_refl), (H5 _ eq_refl), (H6 _ eq_refl),
    (H7 _ eq_refl), (H8 _ eq_refl), !x8u_fmt by (unfold u32 in *; lia).
  split_and!; try done. subst ps. cbn [concat].
  rewrite !length_app, !fmt_08x_length by (unfold u32 in *; lia). done.
Qed.

Lemma parse_name_Ok raw n :
  parse_name raw = Ok n <-> raw = n ++ [CStr.NUL] /\ (CStr.NUL ∉ n) /\ utf8_valid n = true.
Proof.
  unfold parse_name. rewrite <- CStr.from_bytes_Ok. destruct (CStr.from_bytes raw); naive_solver.
Qed.

(** One round of the reader over one entry of the writer. *)
Lemma load_entry pre name e inode rest acc :
  wf_name name -> wf_entry e -> u32 inode ->
  let hdr := write_header inode (mode e) (uid e) (gid e) (zlen (data e))
               (rdevmajor e) (rdevminor e) (zlen name + 1) ++ name ++ [CStr.NUL] in
  let pos1 := align_4 (zlen pre + zlen hdr) in
  let body := hdr ++ pad_4 (zlen pre + zlen hdr) ++ data e ++ pad_4 (pos1 + zlen (data e)) in
  load_round (pre ++ body ++ rest) (zlen pre) acc = Ok (inr (zlen (pre ++ body), <[name := e]> acc)).
Proof.
  intros (Hnul & Hutf & Hnlen & Hdot & Hdotdot & Htr) (Hm & Hu & Hg & Hmaj & Hmn & Hlen) Hi.
  set (raw := write_header _ _ _ _ _ _ _ _). intros hdr pos1 body.
  destruct (header_roundtrip inode (mode e) (uid e) (gid e) (zlen (data e)) (rdevmajor e)
    (rdevminor e) (zlen name + 1)) as (Hraw & Hmag & Hxm & Hxu & Hxg & Hxf & Hxmaj & Hxmn & Hxns);
    try done; try (unfold u32; lia).
  fold raw in Hraw, Hmag, Hxm, Hxu, Hxg, Hxf, Hxmaj, Hxmn, Hxns.
  set (p1 := pad_4 (zlen pre + zlen hdr)) in *. set (p2 := pad_4 (pos1 + zlen (data e))) in *.
  assert (zlen hdr = hdr_sz + (zlen name + 1)) as Hhdr by (subst hdr; rewrite !zlen_app, Hraw; simpl; lia).
  assert (zlen p1 = pos1 - (zlen pre + zlen hdr)) as Hp1 by apply pad_4_length.
  assert (zlen p2 = align_4 (pos1 + zlen (data e)) - (pos1 + zlen (data e))) as Hp2 by apply pad_4_length.
  clearbody raw p1 p2.
  pose proof (align_4_bounds (pos1 + zlen (data e))).
  pose proof (align_4_bounds (zlen pre + zlen hdr)) as Hal. fold pos1 in Hal.
  set (d := pre ++ body ++ rest).
  assert (d = pre ++ raw ++ (name ++ [CStr.NUL]) ++ p1 ++ data e ++ p2 ++ rest) as Hd1
    by (subst d body hdr; by rewrite <- !app_assoc).
  assert (d = (pre ++ raw) ++ (name ++ [CStr.NUL]) ++ p1 ++ data e ++ p2 ++ rest) as Hd2
    by (rewrite Hd1; by rewrite <- !app_assoc).
  assert (d = (pre ++ hdr ++ p1) ++ data e ++ p2 ++ rest) as Hd3
    by (rewrite Hd1; subst hdr; by rewrite <- !app_assoc).
  unfold load_round.
  replace (zlen pre <? zlen d) with true
    by (symmetry; apply Z.ltb_lt; rewrite Hd1, !zlen_app, Hraw; unfold hdr_sz; lia).
  assert (slice (E:=unit) d (zlen pre) (zlen pre + hdr_sz) = Ok raw) as ->
    by (rewrite Hd1; apply slice_app; [done | lia]).
  cbn [mbind res_bind]. rewrite Hmag, bool_decide_eq_true_2 by done. cbn [negb].
  rewrite Hxns. cbn [mbind res_bind].
  assert (slice (E:=unit) d (zlen pre + hdr_sz) (zlen pre + hdr_sz + (zlen name + 1)) = Ok (name ++ [CStr.NUL])) as ->
    by (rewrite Hd2; apply slice_app; rewrite !zlen_app; simpl; lia).
  cbn [mbind res_bind]. rewrite (proj2 (parse_name_Ok (name ++ [CStr.NUL]) name)) by done.
  cbn [mbind res_bind]. rewrite !bool_decide_eq_false_2 by done. cbn [orb].
  rewrite Hxf, Hxm, Hxu, Hxg, Hxmaj, Hxmn. cbn [mbind res_bind].
  replace (align_4 (zlen pre + hdr_sz + (zlen name + 1))) with pos1 by (subst pos1; f_equal; lia).
  assert (slice (E:=unit) d pos1 (pos1 + zlen (data e)) = Ok (data e)) as ->
    by (rewrite Hd3; apply slice_app; rewrite !zlen_app; lia).
  cbn [mbind res_bind]. do 3 f_equal; [subst body; rewrite !zlen_app; lia |]. by destruct e.
Qed.

(** The trailer ends the archive. *)
Lemma load_trailer pre inode acc :
  u32 inode ->
  load_round (pre ++ dump_loop [] (zlen pre) inode) (zlen pre) acc = Ok (inl acc).
Proof.
  intros Hi. cbn [dump_loop]. set (raw := write_header _ _ _ _ _ _ _ _).
  destruct (header_roundtrip inode 0x1ED 0 0 0 0 0 11) as (Hraw & Hmag & _ & _ & _ & _ & _ & _ & Hxns);
    try done; try (unfold u32; lia).
  fold raw in Hraw, Hmag, Hxns. clearbody raw.
  remember (TRAILER ++ [CStr.NUL]) as tl eqn:Etl. assert (zlen tl = 11) as Htl by by rewrite Etl.
  set (p1 := pad_4 _). assert (zlen p1 = align_4 (zlen pre + zlen (raw ++ tl)) - (zlen pre + zlen (raw ++ tl))) as Hp1
    by apply pad_4_length. clearbody p1.
  set (d := pre ++ _). assert (d = pre ++ raw ++ tl ++ p1) as Hd1 by (subst d; by rewrite <- !app_assoc).
  assert (d = (pre ++ raw) ++ tl ++ p1) as Hd2 by (rewrite Hd1; by rewrite <- !app_assoc).
  assert (d = (pre ++ raw ++ tl ++ p1) ++ []) as Hd3 by (rewrite app_nil_r; done).
  pose proof (align_4_bounds (zlen pre + zlen (raw ++ tl))) as Hal.
  rewrite zlen_app, Hraw, Htl in Hp1, Hal.
  unfold load_round.
  replace (zlen pre <? zlen d) with true
    by (symmetry; apply Z.ltb_lt; rewrite Hd1, !zlen_app, Hraw; unfold hdr_sz; lia).
  assert (slice (E:=unit) d (zlen pre) (zlen pre + hdr_sz) = Ok raw) as ->
    by (rewrite Hd1; apply slice_app; [done | lia]).
  cbn [mbind res_bind]. rewrite Hmag, bool_decide_eq_true_2 by done. cbn [negb].
  rewrite Hxns. cbn [mbind res_bind].
  assert (slice (E:=unit) d (zlen pre + hdr_sz) (zlen pre + hdr_sz + 11) = Ok tl) as ->
    by (rewrite Hd2; apply slice_app; rewrite zlen_app, Hraw, ?Htl; lia).
  cbn [mbind res_bind]. rewrite (proj2 (parse_name_Ok tl TRAILER)) by (split_and!; [done | set_solver | done]).
  cbn [mbind res_bind].
  replace (bool_decide (TRAILER = #".")) with false by done.
  replace (bool_decide (TRAILER = #"..")) with false by done.
  rewrite bool_decide_eq_true_2 by done. cbn [orb].
  assert (slice_from (E:=unit) d (align_4 (zlen pre + hdr_sz + 11)) = Ok []) as ->.
  { replace (zlen pre + hdr_sz + 11) with (zlen pre + (hdr_sz + 11)) by lia.
    rewrite Hd3. apply slice_from_app. rewrite !zlen_app, Hraw, Htl, Hp1. lia. }
  done.
Qed.

Definition insert_pair (m : Cpio) (p : bytes * CpioEntry) : Cpio := <[p.1 := p.2]> m.

Lemma load_dump_loop es fuel pre inode acc :
  Forall wf_pair es -> 0 <= inode -> inode + zlen es < 2 ^ 32 -> (length es < fuel)%nat ->
  load_loop fuel (pre ++ dump_loop es (zlen pre) inode) (zlen pre) acc = Some (Ok (foldl insert_pair acc es)).
Proof.
  intros Hes. revert fuel pre inode acc.
  induction Hes as [|[name e] es [Hn He] Hes IH]; intros fuel pre inode acc Hi Hsz Hf;
    (destruct fuel as [|fuel]; [simpl in Hf; lia |]).
  - cbn [load_loop]. rewrite load_trailer by (unfold u32; simpl in Hsz; lia). done.
  - cbn [dump_loop foldl]. simpl in Hn, He.
    set (hdr := write_header _ _ _ _ _ _ _ _ ++ name ++ [CStr.NUL]).
    set (pos1 := align_4 (zlen pre + zlen hdr)).
    set (body := hdr ++ pad_4 (zlen pre + zlen hdr) ++ data e ++ pad_4 (pos1 + zlen (data e))).
    rewrite zlen_cons in Hsz.
    assert (align_4 (pos1 + zlen (data e)) = zlen (pre ++ body)) as ->.
    { subst body. rewrite !zlen_app, !pad_4_length. fold pos1. lia. }
    replace (hdr ++ _) with (body ++ dump_loop es (zlen (pre ++ body)) (inode + 1))
      by (subst body; by rewrite <- !app_assoc).
    cbn [load_loop]. rewrite (load_entry pre name e inode) by (done || (unfold u32; lia)).
    rewrite app_assoc. apply IH; [lia | lia |]. simpl in Hf. lia.
Qed.

Lemma foldl_insert_list_to_map es acc :
  NoDup es.*1 -> foldl insert_pair acc es = list_to_map es ∪ acc.
Proof.
  revert acc. induction es as [|[n e] es IH]; intros acc Hnd; simpl; [by rewrite (left_id_L ∅ (∪)) |].
  apply NoDup_cons in Hnd as [Hn Hnd]. rewrite IH by done. unfold insert_pair. simpl.
  rewrite <- insert_union_l, insert_union_r; [done |]. by apply not_elem_of_list_to_map_1.
Qed.

Lemma dump_loop_length es pos inode : Forall wf_pair es -> 0 <= inode -> inode + zlen es < 2 ^ 32 -> hdr_sz * zlen es <= zlen (dump_loop es pos inode).
Proof.
  intros Hes. revert pos inode. induction Hes as [|[n e] es [Hn (Hm & Hu & Hg & Hmaj & Hmn & Hlen)] _ IH]; intros pos inode Hi Hsz; [simpl; lia |].
  cbn [dump_loop]. cbn [fst snd] in *. set (pos2 := align_4 (align_4 _ + _)). rewrite zlen_cons in *. specialize (IH pos2 (inode + 1) ltac:(lia) ltac:(lia)).
  destruct Hn as (_ & _ & Hnl & _). destruct (header_roundtrip inode (mode e) (uid e) (gid e) (zlen (data e)) (rdevmajor e) (rdevminor e) (zlen n + 1)) as (Hraw & _); try done; try (unfold u32; lia).
  rewrite !zlen_app, Hraw. lia.
Qed.

Lemma wf_cpio_iter c : wf_cpio c -> Forall wf_pair (btree_iter c).
Proof.
  intros Hwf. apply Forall_forall. intros [n e] Hin%elem_of_btree_iter. by apply (Hwf n e).
Qed.

(** * The reader on arbitrary input *)
Lemma x8u_nonneg s v : x8u s = Ok v -> 0 <= v.
Proof.
  unfold x8u. rewrite x8u_parse. destruct (parse_digits 16 0 s) as [z|] eqn:E; [| done].
  intros [= <-]. apply parse_digits_bound in E; lia.
Qed.

Lemma slice_next {E} (d r : bytes) i n : slice (E:=E) d i (i + n) = Ok r -> 0 <= i /\ i + n <= zlen d.
Proof. intros (? & ? & _)%slice_Ok. lia. Qed.

(** A round that goes on moved past a header, inside the data. *)
Lemma load_round_advances d pos acc pos' acc' :
  load_round d pos acc = Ok (inr (pos', acc')) -> pos + hdr_sz <= zlen d /\ pos + hdr_sz <= pos'.
Proof.
  unfold load_round. destruct (pos <? zlen d); [| done].
  bind_cases.
  all: repeat match goal with
       | H : slice _ _ _ = Ok _ |- _ => apply slice_next in H
       | H : x8u _ = Ok _ |- _ => apply x8u_nonneg in H
       end.
  all: match goal with |- context [align_4 (?p + hdr_sz + ?n)] => pose proof (align_4_bounds (p + hdr_sz + n)) end; unfold hdr_sz in *.
  - intros [= <- _]. lia.
  - destruct (find _ _) as [x|] eqn:Ef; [| done]. apply find_Some in Ef as [? _]. intros [= <- _]. lia.
  - match goal with |- Ok (inr (align_4 ?p, _)) = _ -> _ => pose proof (align_4_bounds p) end. intros [= <- _]. lia.
Qed.

(** With a round for each header that fits, and one more, the loop gets to its end, and more
    fuel changes nothing. *)
Lemma load_loop_ends f1 f2 d pos acc :
  zlen d - pos < hdr_sz * (Z.of_nat f1 - 1) -> (f1 <= f2)%nat -> (0 < f1)%nat ->
  exists r, load_loop f1 d pos acc = Some r /\ load_loop f2 d pos acc = Some r.
Proof.
  revert f2 pos acc. induction f1 as [|f1 IH]; intros f2 pos acc Hf H12 H1; [lia |].
  destruct f2 as [|f2]; [lia |]. cbn [load_loop].
  destruct (load_round d pos acc) as [[c|[pos' acc']]| |] eqn:E; [by eexists | | by eexists | by eexists].
  apply load_round_advances in E as [Hd Hp]. unfold hdr_sz in *. apply IH; lia.
Qed.

Lemma load_round_wf d pos acc r :
  wf_cpio acc -> load_round d pos acc = Ok r -> wf_cpio match r with inl c => c | inr (_, c) => c end.
Proof.
  unfold load_round. intros Hacc. destruct (pos <? zlen d); [| by intros [= <-]].
  bind_cases.
  all: repeat match goal with H : slice _ _ _ = Ok _ |- _ => pose proof (slice_next _ _ _ _ H);
         pose proof (slice_length _ _ _ _ H); clear H end.
  all: repeat match goal with H : x8u _ = Ok _ |- _ => apply x8u_range in H;
         [| cbn; rewrite length_take; lia] end.
  - by intros [= <-].
  - destruct (find _ _) as [x|]; by intros [= <-].
  - intros [= <-]. apply map_Forall_insert_2; [| done].
    match goal with H : parse_name _ = Ok _ |- _ => apply parse_name_Ok in H as (-> & ? & ?) end.
    rewrite zlen_app in *. simpl (zlen [_]) in *. rewrite !orb_false_iff, !bool_decide_eq_false in *.
    destruct_and!. unfold wf_name, wf_entry, u32. simpl. split_and!; try done; lia.
Qed.

Lemma load_loop_wf fuel d pos acc c : wf_cpio acc -> load_loop fuel d pos acc = Some (Ok c) -> wf_cpio c.
Proof.
  revert pos acc. induction fuel as [|fuel IH]; intros pos acc Hacc; cbn [load_loop]; [done |].
  destruct (load_round d pos acc) as [[c'|[pos' acc']]| |] eqn:E; try done; apply load_round_wf in E; try done; [by intros [= <-] | by apply IH].
Qed.

Lemma load_wf d c : load_from_data d = Ok c -> wf_cpio c.
Proof.
  unfold load_from_data. destruct (load_loop _ _ _ _) as [r|] eqn:E; [| done]. cbn. intros ->. apply load_loop_wf in E; [done | apply map_Forall_empty].
Qed.

Lemma load_dumped c :
  wf_cpio c -> 300000 + Z.of_nat (size c) < 2 ^ 32 -> load_from_data (dump c) = Ok c.
Proof.
  intros Hwf Hsz. unfold load_from_data, dump.
  assert (length (btree_iter c) = size c) as Hlen
    by (rewrite btree_iter_Permutation; apply length_map_to_list).
  rewrite (load_dump_loop (btree_iter c) _ [] 300000 new).
  - cbn [default]. rewrite foldl_insert_list_to_map by apply btree_iter_NoDup.
    rewrite btree_iter_to_map. unfold new. by rewrite (right_id_L ∅ (∪)).
  - by apply wf_cpio_iter.
  - lia.
  - rewrite Hlen. lia.
  - pose proof (dump_loop_length (btree_iter c) 0 300000 (wf_cpio_iter c Hwf) ltac:(lia) ltac:(rewrite Hlen; lia)) as Hd. unfold rounds, hdr_sz in *.
    assert (zlen (btree_iter c) <= zlen (dump_loop (btree_iter c) 0 300000) / 110) by (apply Z.div_le_lower_bound; lia). cbn [app]. lia.
Qed.

(** * Properties *)

(** C8: Writing an archive and reading it back is the identity: for every archive
    whose names are NUL-free UTF-8 (and not [.], [..] or [TRAILER!!!]) and whose
    numbers fit 32 bits, [load_from_data (dump c)] succeeds with the same map. *)
Theorem load_dump c :
  wf_cpio c -> 300000 + Z.of_nat (size c) < 2 ^ 32 -> load_from_data (dump c) = Ok c.
Proof. apply load_dumped. Qed.

Lemma load_dump_witness :
  load_from_data (dump (<[ #"init" := mkEntry 0x81E8 0 2000 0 0 #"#!init" ]> ∅))
  = Ok (<[ #"init" := mkEntry 0x81E8 0 2000 0 0 #"#!init" ]> ∅).
Proof.
  apply load_dump; [apply (bool_decide_unpack _); vm_compute; exact I | vm_compute; reflexivity].
Defined.

(** C38: Whatever bytes it is given, the reader only builds archives that can be
    written again: every name is NUL-free UTF-8 other than [.], [..] and the
    trailer's, and every number fits the header. *)
Theorem load_from_data_wf d c : load_from_data d = Ok c -> wf_cpio c.
Proof. apply load_wf. Qed.

Lemma load_from_data_wf_witness : wf_cpio (<[ #"a" := mkEntry 0x41ED 0 0 0 0 [] ]> ∅).
Proof.
  apply (load_from_data_wf (dump (<[ #"a" := mkEntry 0x41ED 0 0 0 0 [] ]> ∅))). vm_compute. reflexivity.
Defined.

(** C39: The reader ends on every input, and after few rounds: every round that goes on
    moves the position past a header of 110 bytes that lies inside the data, so that the
    loop ends within one round for each such header and two more, whatever the bytes are,
    with the archive, an error or an abort of [load_from_data]. Running out of rounds is
    a value of its own here and never happens. *)
Theorem load_from_data_terminates d fuel :
  (Z.to_nat (zlen d / hdr_sz + 2) <= fuel)%nat ->
  load_loop fuel d 0 new = Some (load_from_data d) /\
  (forall pos acc pos' acc', load_round d pos acc = Ok (inr (pos', acc')) -> pos + hdr_sz <= zlen d /\ pos + hdr_sz <= pos').
Proof.
  intros Hf. split; [| intros *; apply load_round_advances]. unfold load_from_data.
  destruct (load_loop_ends (rounds d) fuel d 0 new) as (r & Hr1 & Hr2); [| done | |].
  1: unfold rounds, hdr_sz; pose proof (Z.div_mod (zlen d) 110 ltac:(lia)); pose proof (Z.mod_pos_bound (zlen d) 110 ltac:(lia)); assert (0 <= zlen d / 110) by (apply Z.div_pos; lia); lia.
  1: unfold rounds, hdr_sz; assert (0 <= zlen d / 110) by (apply Z.div_pos; lia); lia.
  by rewrite Hr2, Hr1.
Qed.

Lemma load_from_data_terminates_witness :
  let d := dump (<[ #"a" := mkEntry 0x41ED 0 0 0 0 [] ]> ∅) in
  load_loop 4 d 0 new = Some (load_from_data d) /\ load_from_data d = Ok (<[ #"a" := mkEntry 0x41ED 0 0 0 0 [] ]> ∅) /\ load_loop 1 d 0 new = None.
Proof.
  cbv zeta. split; [apply load_from_data_terminates; apply Nat.leb_le; vm_compute; reflexivity | split; vm_compute; reflexivity].
Defined.

(** * The calls of [dump]

    [dump] above is what is written when every call of [write] writes all it is given, as it
    does on a file unless the disk is full.  Here the kernel decides: the [n]-th call writes
    at most [short n] bytes, or fails; the number of bytes is added to the position and
    otherwise ignored. *)

Record Out := mkOut { out_file : bytes; out_pos : Z; out_calls : nat }.

Section Calls.
Context (short : nat -> option nat).

(** [pos += file.write(..)?]; [inr] is the error, with the file as it was left. *)
Definition write (s : bytes) (o : Out) : Out + Out :=
  match short (out_calls o) with
  | Some n => inl (mkOut (out_file o ++ take n s) (out_pos o + zlen (take n s)) (S (out_calls o)))
  | None => inr o
  end.
Definition write_pad (o : Out) : Out := mkOut (out_file o ++ pad_4 (out_pos o)) (align_4 (out_pos o)) (out_calls o).
Definition and_then (r : Out + Out) (f : Out -> Out + Out) : Out + Out := match r with inl o => f o | inr o => inr o end.

Fixpoint dump_calls (es : list (bytes * CpioEntry)) (inode : Z) (o : Out) : Out + Out :=
  match es with
  | [] =>
      and_then (write (write_header inode 0x1ED 0 0 0 0 0 11) o) (fun o =>
      and_then (write (TRAILER ++ [CStr.NUL]) o) (fun o => inl (write_pad o)))
  | (name, e) :: es' =>
      and_then (write (write_header inode (mode e) (uid e) (gid e) (zlen (data e)) (rdevmajor e) (rdevminor e) (zlen name + 1)) o) (fun o =>
      and_then (write name o) (fun o =>
      and_then (write [CStr.NUL] o) (fun o =>
      and_then (write (data e) (write_pad o)) (fun o => dump_calls es' (inode + 1) (write_pad o)))))
  end.

Definition dump_file (c : Cpio) : Out + Out := dump_calls (btree_iter c) 300000 (mkOut [] 0 0).
End Calls.

Lemma write_full short s o :
  (forall n, exists k, short n = Some k /\ (length s <= k)%nat) ->
  write short s o = inl (mkOut (out_file o ++ s) (out_pos o + zlen s) (S (out_calls o))).
Proof. intros H. unfold write. destruct (H (out_calls o)) as (k & -> & Hk). by rewrite take_ge by done. Qed.

(** With calls that write all they are given, the file is [dump]. *)
Theorem dump_file_full short c :
  (forall n, exists k, short n = Some k /\ (Z.to_nat (zlen (dump c)) <= k)%nat) ->
  exists o, dump_file short c = inl o /\ out_file o = dump c.
Proof.
  unfold dump_file, dump. rewrite Nat2Z.id. generalize (btree_iter c), 300000. intros es.
  assert (forall inode o, (forall n, exists k, short n = Some k /\ (length (dump_loop es (out_pos o) inode) <= k)%nat) ->
    exists o', dump_calls short es inode o = inl o' /\ out_file o' = out_file o ++ dump_loop es (out_pos o) inode) as H.
  { induction es as [|[name e] es IH]; intros inode o Hs; cbn [dump_calls dump_loop] in *.
    - rewrite write_full by (intros n; destruct (Hs n) as (k & Hk & Hl); exists k; split; [done | rewrite !length_app in Hl; lia]). cbn [and_then].
      rewrite write_full by (intros n; destruct (Hs n) as (k & Hk & Hl); exists k; split; [done | rewrite !length_app in *; lia]). cbn [and_then].
      eexists. split; [reflexivity |]. cbn [out_file write_pad out_pos]. rewrite (length_app (write_header _ _ _ _ _ _ _ _)), Nat2Z.inj_add, Z.add_assoc. by rewrite <- !app_assoc.
    - set (h := write_header _ _ _ _ _ _ _ _) in *. set (hdr := h ++ name ++ [CStr.NUL]) in *.
      assert (zlen hdr = zlen h + zlen name + 1) as Hh by (unfold hdr; rewrite !length_app; cbn [length]; lia).
      assert (length hdr = length h + length name + 1)%nat as Hh' by lia. rewrite !length_app in Hs.
      rewrite write_full by (intros n; destruct (Hs n) as (k & Hk & Hl); exists k; split; [done | lia]). cbn [and_then].
      rewrite write_full by (intros n; destruct (Hs n) as (k & Hk & Hl); exists k; split; [done | lia]). cbn [and_then].
      rewrite write_full by (intros n; destruct (Hs n) as (k & Hk & Hl); exists k; split; [done | cbn [length]; lia]). cbn [and_then].
      rewrite write_full by (intros n; destruct (Hs n) as (k & Hk & Hl); exists k; split; [done | lia]). cbn [and_then].
      cbn [write_pad out_file out_pos out_calls]. change (zlen [CStr.NUL]) with 1. replace (out_pos o + zlen h + zlen name + 1) with (out_pos o + zlen hdr) by lia.
      match goal with |- context [dump_calls short es _ ?x] => destruct (IH (inode + 1) x) as (o' & E & F) end.
      { intros n. destruct (Hs n) as (k & Hk & Hl). exists k. split; [done |]. unfold write_pad. cbn [out_pos]. lia. }
      exists o'. split; [exact E |]. rewrite F. unfold write_pad. cbn [out_file out_pos out_calls]. unfold hdr. by rewrite <- !app_assoc. }
  intros inode Hs. apply (H inode (mkOut [] 0 0) Hs).
Qed.

Lemma dump_file_full_witness : exists o, dump_file (fun _ => Some 1000%nat) new = inl o /\ out_file o = dump new.
Proof. apply dump_file_full. intros n. exists 1000%nat. split; [done | apply Nat.leb_le; vm_compute; reflexivity]. Defined.

(** A call that writes less than it is given is taken for a success: the archive is cut. *)
Theorem short_write_accepted :
  exists o, dump_file (fun n => if Nat.eqb n 1 then Some 4%nat else Some 1000%nat) new = inl o /\ out_file o <> dump new.
Proof. eexists. split; [vm_compute; reflexivity |]. apply (bool_decide_unpack _). vm_compute. exact I. Qed.
End Cpio.
