(* ===== verification/CpioOps.v ===== *)
(** boot/cpio.rs, the operations on an archive in memory: [rm], [exists], [add],
    [mkdir], [ln], [mv], [ls], [patch], [test], [backup] and [restore]. *)

From S2P Require Import Prelude Text Numeric CStr Patch Cpio.
Import Cpio.

Module CpioOps.

Definition SLASH : bytes := [CStr.slash].
Definition BACKUP : bytes := #".backup".
Definition BACKUP_DIR : bytes := #".backup/".
Definition RMLIST : bytes := #".backup/.rmlist".
Definition MAGISK_MARK : bytes := #".backup/.magisk".
Definition XZ_EXT : bytes := #".xz".

(** * Single-entry operations *)

Definition rm (path : bytes) (recursive : bool) (c : Cpio) : Cpio :=
  let path := norm_path path in
  let c := delete path c in
  if recursive
  then filter (fun p => starts_with p.1 (path ++ SLASH) = false) c
  else c.

Definition exists_ (path : bytes) (c : Cpio) : bool :=
  match c !! norm_path path with Some _ => true | None => false end.

(** What [add] learns about a file of the host: its type ([lstat]), the device
    numbers [major(st_rdev)] and [minor(st_rdev)], and what opening and reading it
    returns. *)
Inductive file_kind := KFile | KSymlink | KBlock | KChar | KOther.
Record file_info := mkFileInfo {
  kind : file_kind;
  st_major : Z;
  st_minor : Z;
  read_all : option bytes
}.

Definition add (host : bytes -> option file_info) (md : Z) (path file : bytes) (c : Cpio)
    : logged Cpio :=
  if ends_with path SLASH then Err tt else
  attr ← of_option tt (host file);
  '(md, content, maj, mn) ←
    match kind attr with
    | KFile | KSymlink =>
        content ← of_option tt (read_all attr);
        Ok (Z.lor md S_IFREG, content, 0, 0)
    | KBlock => Ok (Z.lor md S_IFBLK, [], st_major attr, st_minor attr)
    | KChar => Ok (Z.lor md S_IFCHR, [], st_major attr, st_minor attr)
    | KOther => Err tt
    end;
  Ok (<[norm_path path := mkEntry md 0 0 maj mn content]> c).

Definition mkdir (md : Z) (dir : bytes) (c : Cpio) : Cpio :=
  <[norm_path dir := mkEntry (Z.lor md S_IFDIR) 0 0 0 0 []]> c.

Definition ln (src dst : bytes) (c : Cpio) : Cpio :=
  <[norm_path dst := mkEntry S_IFLNK 0 0 0 0 (norm_path src)]> c.

Definition mv (from to : bytes) (c : Cpio) : logged Cpio :=
  match c !! norm_path from with
  | None => Err tt
  | Some e => Ok (<[norm_path to := e]> (delete (norm_path from) c))
  end.

(** The entries [ls] prints, in order. *)
Definition ls_shows (path : bytes) (recursive : bool) (name : bytes) : bool :=
  let path := norm_path path in
  let path := if is_empty path then path else SLASH ++ path in
  match strip_prefix (SLASH ++ name) path with
  | None => false
  | Some p =>
      if negb (is_empty p) && negb (starts_with p SLASH) then false
      else if negb recursive && negb (is_empty p) && (1 <? count_byte CStr.slash p) then false
      else true
  end.

Definition ls (path : bytes) (recursive : bool) (c : Cpio) : list (bytes * CpioEntry) :=
  filter (fun p => ls_shows path recursive p.1 = true) (btree_iter c).

(** * Ramdisk patches *)

(** [Vec::resize(len, 0)] *)
Definition resize (len : Z) (l : bytes) : bytes :=
  take (Z.to_nat len) l ++ replicate (Z.to_nat len - length l) (bof 0).

(** Run an in-place patcher and cut the vector to the size it returns. *)
Definition patch_data (patcher : bytes -> bytes * Z) (e : CpioEntry) : CpioEntry :=
  let '(buf, len) := patcher (data e) in
  mkEntry (mode e) (uid e) (gid e) (rdevmajor e) (rdevminor e)
    (if len =? zlen buf then buf else resize len buf).

Definition is_fstab (keep_verity keep_force_encrypt : bool) (name : bytes) (e : CpioEntry) : bool :=
  (negb keep_verity || negb keep_force_encrypt)
  && (file_type e =? S_IFREG)
  && negb (starts_with name #".backup")
  && negb (starts_with name #"twrp")
  && negb (starts_with name #"recovery")
  && starts_with name #"fstab".

(** The closure of [entries.retain]: [None] drops the entry. *)
Definition patch_entry (keep_verity keep_force_encrypt : bool) (name : bytes) (e : CpioEntry)
    : option CpioEntry :=
  let fstab := is_fstab keep_verity keep_force_encrypt name e in
  let e' :=
    if negb keep_verity then
      if fstab then Some (patch_data Patch.patch_verity e)
      else if bool_decide (name = #"verity_key") then None
      else Some e
    else Some e in
  e ← e';
  if negb keep_force_encrypt && fstab
  then Some (patch_data Patch.patch_encryption e)
  else Some e.

Definition patch (keep_verity keep_force_encrypt : bool) (c : Cpio) : Cpio :=
  map_imap (patch_entry keep_verity keep_force_encrypt) c.

Definition MAGISK_PATCHED : Z := 1.
Definition UNSUPPORTED_CPIO : Z := 2.

Definition unsupported_files : list bytes :=
  [ #"sbin/launch_daemonsu.sh"; #"sbin/su"; #"init.xposed.rc"; #"boot/sbin/launch_daemonsu.sh"].
Definition magisk_files : list bytes :=
  [ #".backup/.magisk"; #"init.magisk.rc"; #"overlay/init.magisk.rc"].

Definition test (c : Cpio) : Z :=
  if existsb (fun f => exists_ f c) unsupported_files then UNSUPPORTED_CPIO
  else if existsb (fun f => exists_ f c) magisk_files then MAGISK_PATCHED
  else 0.

(** * Backup and restore

    [xz_enc] and [xz_dec] are the liblzma encoder and decoder behind
    [get_encoder]/[get_decoder]; [None] is an I/O error of the stream. *)
Section Xz.
Context (xz_enc xz_dec : bytes -> option bytes).

Definition with_data (e : CpioEntry) (d : bytes) : CpioEntry :=
  mkEntry (mode e) (uid e) (gid e) (rdevmajor e) (rdevminor e) d.

(** [CpioEntry::compress] and [decompress]: the new entry and whether it worked. *)
Definition compress (e : CpioEntry) : CpioEntry * bool :=
  if negb (file_type e =? S_IFREG) then (e, false) else
  match xz_enc (data e) with Some d => (with_data e d, true) | None => (e, false) end.

Definition decompress (e : CpioEntry) : CpioEntry * bool :=
  if negb (file_type e =? S_IFREG) then (e, false) else
  match xz_dec (data e) with Some d => (with_data e d, true) | None => (e, false) end.

Inductive Action :=
| ABackup (name : bytes) (e : CpioEntry)
| ARecord (name : bytes)
| ANoop.

(** The loop over the two sorted iterators; an iterator together with the item
    that was put back ([lhs], [rhs]) is a list. *)
Fixpoint diff (l : list (bytes * CpioEntry)) : list (bytes * CpioEntry) -> list Action :=
  fix go r :=
    match l, r with
    | (n, le) :: l', (rn, re) :: r' =>
        match bcmp n rn with
        | Lt => ABackup n le :: diff l' r
        | Gt => ARecord rn :: go r'
        | Eq => (if decide (data re = data le) then ANoop else ABackup n le) :: diff l' r'
        end
    | (n, le) :: l', [] => ABackup n le :: diff l' []
    | [], (rn, _) :: r' => ARecord rn :: go r'
    | [], [] => []
    end.

(** The name and entry under which [Action::Backup] stores an entry. *)
Definition encode (skip_compress : bool) (name : bytes) (e : CpioEntry) : bytes * CpioEntry :=
  if negb skip_compress then
    match compress e with
    | (e', true) => (BACKUP_DIR ++ name ++ XZ_EXT, e')
    | (e', false) => (BACKUP_DIR ++ name, e')
    end
  else (BACKUP_DIR ++ name, e).

Definition do_action (skip_compress : bool) (st : Cpio * bytes) (a : Action) : Cpio * bytes :=
  let '(backups, rm_list) := st in
  match a with
  | ABackup name e =>
      let '(k, e') := encode skip_compress name e in (<[k := e']> backups, rm_list)
  | ARecord name => (backups, rm_list ++ name ++ [CStr.NUL])
  | ANoop => st
  end.

Definition backup (origin : option bytes) (skip_compress : bool) (c : Cpio) : logged Cpio :=
  let backups : Cpio := {[ BACKUP := mkEntry S_IFDIR 0 0 0 0 [] ]} in
  o ← load_from_file origin;
  let o := rm BACKUP true o in
  let c := rm BACKUP true c in
  let '(backups, rm_list) :=
    foldl (do_action skip_compress) (backups, []) (diff (btree_iter o) (btree_iter c)) in
  let backups :=
    if is_empty rm_list then backups
    else <[RMLIST := mkEntry S_IFREG 0 0 0 0 rm_list]> backups in
  Ok (backups ∪ c).

(** The closure of [restore] on an extracted entry. *)
Definition restore_entry (st : Cpio * bytes) (p : bytes * CpioEntry) : Cpio * bytes :=
  let '(backups, rm_list) := st in
  let '(name, e) := p in
  if bool_decide (name = RMLIST) then
    match from_utf8 (data e) with
    | Some d => (backups, rm_list ++ d)
    | None => st
    end
  else if bool_decide (name = MAGISK_MARK) then st
  else
    let '(new_name, e') :=
      if ends_with name XZ_EXT then
        let '(e', ok) := decompress e in
        if ok then (take (length name - 3 - 8) (drop 8 name), e') else (drop 8 name, e')
      else (drop 8 name, e) in
    (<[new_name := e']> backups, rm_list).

Definition restore (c : Cpio) : Cpio :=
  let in_backup (p : bytes * CpioEntry) := starts_with p.1 BACKUP_DIR = true in
  let extracted := filter in_backup c in
  let c := filter (fun p => starts_with p.1 BACKUP_DIR = false) c in
  let '(backups, rm_list) := foldl restore_entry (∅, []) (btree_iter extracted) in
  let c := rm BACKUP false c in
  if is_empty rm_list && bool_decide (backups = ∅) then ∅ else
  let c := foldl (fun c r => if is_empty r then c else rm r false c) c (split_on CStr.NUL rm_list) in
  backups ∪ c.
End Xz.

(** * Normalised names *)

(** A name without leading, trailing or doubled slashes. *)
Definition normal (n : bytes) : Prop := norm_path n = n.
#[export] Instance normal_dec n : Decision (normal n).
Proof. apply _. Defined.

Lemma norm_path_join ws :
  Forall (fun w => (CStr.slash ∉ w) /\ w <> []) ws -> norm_path (join SLASH ws) = join SLASH ws.
Proof.
  intros Hws. unfold norm_path. destruct (decide (ws = [])) as [-> | Hne]; [done |].
  rewrite Forall_forall in Hws.
  rewrite split_on_join by (done || (apply Forall_forall; intros w Hw; by apply Hws)).
  f_equal. apply filter_all. intros w Hw. by apply Hws.
Qed.

Lemma norm_path_normal p : normal (norm_path p).
Proof.
  unfold normal. unfold norm_path at 2 3. apply norm_path_join.
  apply Forall_forall. intros w [Hw Hin]%list_elem_of_filter. split; [| done].
  pose proof (split_on_no_sep CStr.slash p) as H. rewrite Forall_forall in H. by apply H.
Qed.

Lemma norm_path_trailing p : norm_path (p ++ SLASH) = norm_path p.
Proof.
  assert (forall s, split_on CStr.slash (s ++ SLASH) = split_on CStr.slash s ++ [[]]) as H.
  { induction s as [|a s IH]; [done |]. simpl. rewrite IH. case_decide; [done |].
    destruct (split_on CStr.slash s) eqn:E; [by destruct (split_on_nonempty CStr.slash s) | done]. }
  unfold norm_path. rewrite H, filter_app, filter_cons_False by naive_solver.
  by rewrite filter_nil, app_nil_r.
Qed.

(** * Functional behaviour of the single-entry operations *)

Lemma lookup_rm path recursive c k :
  rm path recursive c !! k =
    if decide (k = norm_path path) then None
    else if recursive && starts_with k (norm_path path ++ SLASH) then None
    else c !! k.
Proof.
  unfold rm. destruct recursive; cbn [andb].
  - apply option_eq. intros e. rewrite map_lookup_filter_Some, lookup_delete. simpl.
    repeat case_decide; destruct (starts_with k _); naive_solver.
  - rewrite lookup_delete. repeat case_decide; subst; done.
Qed.

Lemma exists_spec path c : exists_ path c = true <-> is_Some (c !! norm_path path).
Proof. unfold exists_. destruct (c !! norm_path path); split; naive_solver. Qed.

Lemma exists_rm path recursive c : exists_ path (rm path recursive c) = false.
Proof. unfold exists_. by rewrite lookup_rm, decide_True. Qed.

End CpioOps.
