(* ===== verification/CpioBackup.v ===== *)
(** boot/cpio.rs: [backup] followed by [restore] gives the original ramdisk back. *)

From S2P Require Import Prelude Text Numeric CStr Patch Cpio CpioOps.
Import Cpio CpioOps.

Module CpioBackup.

(** * What the merge of the two sorted listings finds *)

Definition backups_of (acts : list Action) : list (bytes * CpioEntry) :=
  omap (fun a => match a with ABackup n e => Some (n, e) | _ => None end) acts.
Definition records_of (acts : list Action) : list bytes :=
  omap (fun a => match a with ARecord n => Some n | _ => None end) acts.

(** An entry needs a backup unless the other archive has the same data under its
    name. *)
Definition changed (r : list (bytes * CpioEntry)) (p : bytes * CpioEntry) : Prop :=
  forall re, (p.1, re) ∈ r -> data re <> data p.2.

Lemma diff_nil_l r : diff [] r = map (fun p => ARecord p.1) r.
Proof. induction r as [|[n e] r IH]; simpl; [done |]. by rewrite <- IH. Qed.

Lemma sorted_cons_inv (p : bytes * CpioEntry) l :
  StronglySorted key_lt (p :: l) ->
  StronglySorted key_lt l /\ forall q, q ∈ l -> blt p.1 q.1.
Proof. intros [Hs Hf]%StronglySorted_inv. split; [done |]. by rewrite Forall_forall in Hf. Qed.

Lemma blt_ne x y : blt x y -> x <> y.
Proof. intros H ->. by apply blt_irrefl in H. Qed.

(** No entry of a sorted list has a key below that of its head, and its tail does
    not have the key of the head. *)
Lemma sorted_absent n (p : bytes * CpioEntry) l x :
  StronglySorted key_lt (p :: l) -> blt n p.1 -> (n, x) ∉ p :: l.
Proof.
  intros [_ H]%sorted_cons_inv Hn [Heq | Hq]%elem_of_cons.
  - subst p. by apply blt_irrefl in Hn.
  - apply H in Hq. simpl in Hq. by apply (blt_irrefl n), (blt_trans n p.1 n).
Qed.

Lemma sorted_head_fresh n e (l : list (bytes * CpioEntry)) x :
  StronglySorted key_lt ((n, e) :: l) -> (n, x) ∉ l.
Proof. intros [_ H]%sorted_cons_inv Hq%H. by apply blt_irrefl in Hq. Qed.

Definition backup_spec (l r : list (bytes * CpioEntry)) (acts : list Action) : Prop :=
  (forall n e, ABackup n e ∈ acts <-> (n, e) ∈ l /\ changed r (n, e)) /\
  (forall n, ARecord n ∈ acts <-> (exists e, (n, e) ∈ r) /\ forall e, (n, e) ∉ l).

Lemma backup_spec_nil r : backup_spec [] r (diff [] r).
Proof.
  rewrite diff_nil_l. split; [intros n e | intros n]; split.
  - by intros ([] & ? & ?)%list_elem_of_fmap.
  - by intros [?%elem_of_nil _].
  - intros ([m e] & [= ->] & H)%list_elem_of_fmap. split; [eauto |]. by intros x ?%elem_of_nil.
  - intros [[e He] _]. apply list_elem_of_fmap. by exists (n, e).
Qed.

Lemma backup_spec_lt n le l r acts :
  (forall x, (n, x) ∉ l) -> (forall x, (n, x) ∉ r) ->
  backup_spec l r acts -> backup_spec ((n, le) :: l) r (ABackup n le :: acts).
Proof.
  intros Hl Hr [HB HR]. split.
  - intros m e. rewrite !elem_of_cons, HB. unfold changed in *. simpl in *. naive_solver.
  - intros m. rewrite elem_of_cons, HR. setoid_rewrite elem_of_cons. naive_solver.
Qed.

Lemma backup_spec_gt rn re l r acts :
  (forall x, (rn, x) ∉ l) -> (forall x, (rn, x) ∉ r) ->
  backup_spec l r acts -> backup_spec l ((rn, re) :: r) (ARecord rn :: acts).
Proof.
  intros Hl Hr [HB HR]. split.
  - intros m e. rewrite elem_of_cons, HB. unfold changed. setoid_rewrite elem_of_cons. simpl. naive_solver.
  - intros m. rewrite elem_of_cons, HR. setoid_rewrite elem_of_cons. naive_solver.
Qed.

Lemma backup_spec_eq n le re l r acts :
  (forall x, (n, x) ∉ l) -> (forall x, (n, x) ∉ r) -> backup_spec l r acts ->
  backup_spec ((n, le) :: l) ((n, re) :: r)
    ((if decide (data re = data le) then ANoop else ABackup n le) :: acts).
Proof.
  intros Hl Hr [HB HR]. split.
  - intros m e. rewrite !elem_of_cons, HB. unfold changed. setoid_rewrite elem_of_cons. simpl.
    case_decide; naive_solver.
  - intros m. rewrite elem_of_cons, HR. setoid_rewrite elem_of_cons. case_decide; naive_solver.
Qed.

Lemma diff_spec l r :
  StronglySorted key_lt l -> StronglySorted key_lt r -> backup_spec l r (diff l r).
Proof.
  intros Hl. revert r. induction l as [|[n le] l IHl]; intros r Hr.
  { apply backup_spec_nil. }
  pose proof (sorted_cons_inv _ _ Hl) as [Hl' _]. specialize (IHl Hl').
  pose proof (fun x => sorted_head_fresh n le l x Hl) as Hn.
  induction r as [|[rn re] r IHr].
  { cbn [diff]. apply backup_spec_lt; [done | set_solver | by apply IHl]. }
  pose proof (sorted_cons_inv _ _ Hr) as [Hr' _]. specialize (IHr Hr').
  pose proof (fun x => sorted_head_fresh rn re r x Hr) as Hrn.
  cbn [diff]. destruct (bcmp n rn) eqn:E.
  - apply bcmp_Eq in E as <-. apply backup_spec_eq; auto.
  - apply backup_spec_lt; [done | | by apply IHl]. intros x. by apply sorted_absent.
  - apply bcmp_Gt in E. apply backup_spec_gt; [| done | done]. intros x. by apply sorted_absent.
Qed.

Lemma backups_of_sublist l r : sublist (backups_of (diff l r)) l.
Proof.
  revert r. induction l as [|[n le] l IHl]; intros r.
  { rewrite diff_nil_l. induction r as [|[m e] r IHr]; [constructor | done]. }
  induction r as [|[rn re] r IHr]; cbn [diff]; [apply sublist_skip, IHl |].
  destruct (bcmp n rn).
  - case_decide; [apply sublist_cons, IHl | apply sublist_skip, IHl].
  - apply sublist_skip, IHl.
  - exact IHr.
Qed.

Lemma elem_of_backups_of acts n e : (n, e) ∈ backups_of acts <-> ABackup n e ∈ acts.
Proof.
  unfold backups_of. rewrite list_elem_of_omap. split; [| intros H; by eexists].
  intros ([] & Hin & Heq); naive_solver.
Qed.

Lemma elem_of_records_of acts n : n ∈ records_of acts <-> ARecord n ∈ acts.
Proof.
  unfold records_of. rewrite list_elem_of_omap. split; [| intros H; by eexists].
  intros ([] & Hin & Heq); naive_solver.
Qed.

(** * The removal list *)

Definition rm_list_of (rs : list bytes) : bytes := concat (map (fun n => n ++ [CStr.NUL]) rs).

Lemma rm_list_nil rs : rm_list_of rs = [] -> rs = [].
Proof. destruct rs as [|r rs]; [done |]. cbn. intros [[_ ?]%app_eq_nil _]%app_eq_nil. done. Qed.

Lemma split_rm_list rs :
  Forall (fun r => CStr.NUL ∉ r) rs -> split_on CStr.NUL (rm_list_of rs) = rs ++ [[]].
Proof.
  induction 1 as [|r rs Hr _ IH]; [done |]. unfold rm_list_of in *. cbn [map concat].
  rewrite <- app_assoc. cbn [app]. rewrite split_on_app by done. by rewrite IH.
Qed.

Lemma rm_list_utf8 rs : Forall (fun r => utf8_valid r = true) rs -> utf8_valid (rm_list_of rs) = true.
Proof.
  induction 1 as [|r rs Hr _ IH]; [done |]. unfold rm_list_of in *. cbn [map concat].
  rewrite <- app_assoc, utf8_valid_app by done. exact IH.
Qed.

(** Removing the listed names removes exactly them, when they are normalised. *)
Lemma rm_listed rs c k :
  Forall (fun r => r <> [] /\ normal r) rs ->
  foldl (fun c r => if is_empty r then c else rm r false c) c (rs ++ [[]]) !! k =
    if decide (k ∈ rs) then None else (c : Cpio) !! k.
Proof.
  intros Hrs. rewrite foldl_app. cbn [foldl is_empty]. revert c.
  induction Hrs as [|r rs [Hne Hnorm] _ IH]; intros c.
  { by rewrite decide_False by set_solver. }
  cbn [foldl]. destruct (is_empty r) eqn:E; [by destruct r |]. rewrite IH, lookup_rm.
  rewrite Hnorm. cbn [andb]. destruct (decide (k = r)) as [-> |].
  - rewrite (decide_True (P := r ∈ r :: rs)) by set_solver. by case_decide.
  - destruct (decide (k ∈ rs)); [by rewrite decide_True by set_solver |].
    by rewrite decide_False by set_solver.
Qed.

(** * Stored names *)

(** Original names that the encoding [name -> .backup/name[.xz]] does not confuse. *)
Definition plain (n : bytes) : Prop :=
  ends_with n XZ_EXT = false /\ n <> #".rmlist" /\ n <> #".magisk".
#[export] Instance plain_dec n : Decision (plain n).
Proof. apply _. Defined.

Lemma ends_with_backup n : ends_with (BACKUP_DIR ++ n) XZ_EXT = true -> ends_with n XZ_EXT = true.
Proof.
  rewrite !ends_with_spec. intros [t Ht].
  destruct (decide (3 <= length n)%nat) as [Hl|Hl].
  - assert (length t = 8 + (length n - 3))%nat
      by (apply (f_equal length) in Ht; rewrite !length_app in Ht; change (length BACKUP_DIR) with 8%nat in Ht;
          change (length XZ_EXT) with 3%nat in Ht; lia).
    exists (drop 8 t). apply (f_equal (drop 8)) in Ht.
    rewrite (drop_app_length' BACKUP_DIR _ 8), drop_app_le in Ht by (done || lia). done.
  - exfalso. apply (f_equal (@rev _)) in Ht. rewrite !rev_app_distr in Ht.
    destruct n as [|a [|b [|? ?]]]; vm_compute in Ht; [done.. | simpl in Hl; lia].
Qed.

Lemma dir_ne n k : n <> k -> BACKUP_DIR ++ n <> BACKUP_DIR ++ k.
Proof. intros H ?%app_inv_head. done. Qed.

Section Roundtrip.
Context (xz_enc xz_dec : bytes -> option bytes).
(** The decoder inverts the encoder. *)
Hypothesis xz_roundtrip : forall d z, xz_enc d = Some z -> xz_dec z = Some d.

(** The entry [restore] makes of a stored one, and the removal list it reads. *)
Definition decode (p : bytes * CpioEntry) : option (bytes * CpioEntry) :=
  let '(name, e) := p in
  if bool_decide (name = RMLIST) || bool_decide (name = MAGISK_MARK) then None else
  Some (if ends_with name XZ_EXT then
          let '(e', ok) := decompress xz_dec e in
          if ok then (take (length name - 3 - 8) (drop 8 name), e') else (drop 8 name, e')
        else (drop 8 name, e)).
Definition decode_rm (p : bytes * CpioEntry) : option bytes :=
  if bool_decide (p.1 = RMLIST) then from_utf8 (data p.2) else None.

Lemma restore_fold ps b r :
  foldl (restore_entry xz_dec) (b, r) ps =
    (foldl insert_pair b (omap decode ps), r ++ concat (omap decode_rm ps)).
Proof using.
  revert b r. induction ps as [|[n e] ps IH]; intros b r; [by rewrite app_nil_r |].
  cbn [foldl restore_entry omap list_omap decode]. unfold decode_rm at 1. cbn [fst snd].
  destruct (bool_decide (n = RMLIST)); cbn [orb].
  - destruct (from_utf8 (data e)); rewrite IH; [cbn; by rewrite <- app_assoc | done].
  - destruct (bool_decide (n = MAGISK_MARK)); [by rewrite IH |].
    destruct (if ends_with n XZ_EXT then _ else _) as [k e']. rewrite IH. done.
Qed.

Lemma backup_fold sk acts b r :
  foldl (do_action xz_enc sk) (b, r) acts =
    (foldl insert_pair b (map (fun p => encode xz_enc sk p.1 p.2) (backups_of acts)),
     r ++ rm_list_of (records_of acts)).
Proof using.
  revert b r. induction acts as [|a acts IH]; intros b r; [by rewrite app_nil_r |].
  cbn [foldl]. destruct a as [n e|n|]; cbn [do_action].
  - destruct (encode xz_enc sk n e) as [k e'] eqn:E. rewrite IH. cbn. by rewrite E.
  - rewrite IH. f_equal. unfold rm_list_of. cbn. by rewrite <- !app_assoc.
  - apply IH.
Qed.

Lemma encode_cases sk n e k e' :
  encode xz_enc sk n e = (k, e') ->
  (k = BACKUP_DIR ++ n /\ e' = e) \/
  (k = BACKUP_DIR ++ n ++ XZ_EXT /\ decompress xz_dec e' = (e, true)).
Proof using xz_roundtrip.
  unfold encode, compress, decompress. destruct sk; cbn [negb]; [intros [= <- <-]; by left |].
  destruct (file_type e =? S_IFREG) eqn:Ht; cbn [negb]; [| intros [= <- <-]; by left].
  destruct (xz_enc (data e)) as [z|] eqn:Ez; intros [= <- <-]; [right | by left].
  split; [done |]. unfold file_type in *. cbn. rewrite Ht. cbn.
  rewrite (xz_roundtrip _ _ Ez). by destruct e.
Qed.

Lemma decode_encode sk n e : plain n -> decode (encode xz_enc sk n e) = Some (n, e).
Proof using xz_roundtrip.
  intros (Hx & Hr & Hm). destruct (encode xz_enc sk n e) as [k e'] eqn:E.
  apply encode_cases in E as [[-> ->] | [-> Hd]]; unfold decode.
  - rewrite !bool_decide_eq_false_2 by (by apply dir_ne). cbn [orb].
    destruct (ends_with (BACKUP_DIR ++ n) XZ_EXT) eqn:Ee;
      [apply ends_with_backup in Ee; congruence | done].
  - assert (forall k, ends_with k XZ_EXT = false -> n ++ XZ_EXT <> k) as Hne
      by (intros k0 Hk0 <-; assert (ends_with (n ++ XZ_EXT) XZ_EXT = true) by (apply ends_with_spec; eauto);
          congruence).
    rewrite !bool_decide_eq_false_2 by (apply dir_ne, Hne; done). cbn [orb].
    rewrite (proj2 (ends_with_spec _ _)) by (exists (BACKUP_DIR ++ n); by rewrite <- app_assoc).
    rewrite Hd. do 2 f_equal. change (drop 8 (BACKUP_DIR ++ n ++ XZ_EXT)) with (n ++ XZ_EXT).
    rewrite !length_app. change (length BACKUP_DIR) with 8%nat. change (length XZ_EXT) with 3%nat.
    by apply take_app_length'; lia.
Qed.

Lemma encode_key_dir sk n e : starts_with (encode xz_enc sk n e).1 BACKUP_DIR = true.
Proof using xz_roundtrip.
  destruct (encode xz_enc sk n e) as [k e'] eqn:E.
  apply encode_cases in E as [[-> _] | [-> _]]; apply starts_with_app.
Qed.

(** The stored keys of distinct plain names are distinct, and none is [.rmlist]. *)
Lemma encode_key_inj sk n e m f :
  plain n -> plain m -> (encode xz_enc sk n e).1 = (encode xz_enc sk m f).1 -> n = m.
Proof using xz_roundtrip.
  intros (Hn & _) (Hm & _).
  assert (forall k, ends_with (k ++ XZ_EXT) XZ_EXT = true) as Hx by (intros k; apply ends_with_spec; eauto).
  destruct (encode xz_enc sk n e) as [k1 e1] eqn:E1, (encode xz_enc sk m f) as [k2 e2] eqn:E2. cbn.
  apply encode_cases in E1 as [[-> _] | [-> _]]; apply encode_cases in E2 as [[-> _] | [-> _]];
    intros H%app_inv_head; subst; try done; try (rewrite Hx in *; congruence).
  by apply app_inv_tail in H.
Qed.

Lemma encode_key_rmlist sk n e : plain n -> (encode xz_enc sk n e).1 <> RMLIST.
Proof using xz_roundtrip.
  intros Hp Hk. pose proof (decode_encode sk n e Hp) as Hd.
  destruct (encode xz_enc sk n e) as [k e']. cbn in *. subst k. by rewrite bool_decide_eq_true_2 in Hd.
Qed.

Definition all_plain (bs : list (bytes * CpioEntry)) : Prop := forall p, p ∈ bs -> plain p.1.

(** The entries under [.backup/]: the stored ones and the removal list. *)
Definition stored (sk : bool) (bs : list (bytes * CpioEntry)) (rl : bytes) : Cpio :=
  let m := list_to_map (map (fun p => encode xz_enc sk p.1 p.2) bs) in
  if is_empty rl then m else <[RMLIST := mkEntry S_IFREG 0 0 0 0 rl]> m.

Lemma encoded_NoDup sk bs :
  all_plain bs -> NoDup bs.*1 -> NoDup (map (fun p => encode xz_enc sk p.1 p.2) bs).*1.
Proof using xz_roundtrip.
  intros Hp. induction bs as [|[n e] bs IH]; [constructor |]. intros [Hn Hnd]%NoDup_cons.
  cbn. constructor; [| apply IH; [intros p ?; apply Hp; by right | done]].
  intros (p' & Heq & ([m f] & -> & Hin)%list_elem_of_fmap)%list_elem_of_fmap. apply Hn. cbn in *.
  apply encode_key_inj in Heq; [| by apply (Hp (n, e)); left | by apply (Hp (m, f)); right].
  subst m. by apply (list_elem_of_fmap_2 fst _ (n, f)).
Qed.

Lemma encoded_no_rmlist sk bs :
  all_plain bs -> RMLIST ∉ (map (fun p => encode xz_enc sk p.1 p.2) bs).*1.
Proof using xz_roundtrip.
  intros Hp (p' & Heq & ([m f] & -> & Hin)%list_elem_of_fmap)%list_elem_of_fmap.
  by apply (encode_key_rmlist sk m f), eq_sym; [apply (Hp (m, f)) |].
Qed.

Lemma stored_iter sk bs rl :
  all_plain bs -> NoDup bs.*1 ->
  btree_iter (stored sk bs rl) ≡ₚ
    (if is_empty rl then [] else [(RMLIST, mkEntry S_IFREG 0 0 0 0 rl)])
    ++ map (fun p => encode xz_enc sk p.1 p.2) bs.
Proof using xz_roundtrip.
  intros Hp Hnd. rewrite btree_iter_Permutation. unfold stored.
  pose proof (encoded_NoDup sk bs Hp Hnd). pose proof (encoded_no_rmlist sk bs Hp).
  destruct (is_empty rl); cbn [app]; [by apply map_to_list_to_map |].
  rewrite map_to_list_insert by (by apply not_elem_of_list_to_map_1).
  by rewrite map_to_list_to_map.
Qed.

Lemma omap_decode_encode sk bs :
  all_plain bs -> omap decode (map (fun p => encode xz_enc sk p.1 p.2) bs) = bs.
Proof using xz_roundtrip.
  induction bs as [|[n e] bs IH]; intros Hp; [done |]. cbn [map omap list_omap fst snd].
  rewrite decode_encode by (by apply (Hp (n, e)); left). f_equal. apply IH. intros p ?. apply Hp. by right.
Qed.

Lemma omap_decode_rm_encode sk bs :
  all_plain bs -> omap decode_rm (map (fun p => encode xz_enc sk p.1 p.2) bs) = [].
Proof using xz_roundtrip.
  induction bs as [|[n e] bs IH]; intros Hp; [done |]. cbn [map omap list_omap fst snd].
  unfold decode_rm at 1. rewrite bool_decide_eq_false_2
    by (apply encode_key_rmlist, (Hp (n, e)); by left).
  apply IH. intros p ?. apply Hp. by right.
Qed.

(** Reading the stored part recovers the entries and the removal list. *)
Lemma restore_stored sk bs rl :
  all_plain bs -> NoDup bs.*1 -> utf8_valid rl = true ->
  foldl (restore_entry xz_dec) (∅, []) (btree_iter (stored sk bs rl)) = (list_to_map bs, rl).
Proof using xz_roundtrip.
  intros Hp Hnd Hu. rewrite restore_fold. pose proof (stored_iter sk bs rl Hp Hnd) as Hperm.
  f_equal.
  - assert (omap decode (btree_iter (stored sk bs rl)) ≡ₚ bs) as Hd.
    { rewrite Hperm, omap_app, omap_decode_encode by done. by destruct (is_empty rl). }
    rewrite foldl_insert_list_to_map by (by rewrite Hd). rewrite (right_id_L ∅ (∪)).
    apply list_to_map_proper; [by rewrite Hd | done].
  - assert (omap decode_rm (btree_iter (stored sk bs rl)) ≡ₚ if is_empty rl then [] else [rl]) as Hd.
    { rewrite Hperm, omap_app, omap_decode_rm_encode, app_nil_r by done.
      destruct (is_empty rl); [done |]. cbn. unfold decode_rm, from_utf8. cbn. by rewrite Hu. }
    destruct rl as [|x rl]; cbn [is_empty] in Hd.
    + symmetry in Hd. by apply Permutation_nil in Hd as ->.
    + symmetry in Hd. apply Permutation_length_1_inv in Hd as ->. cbn. by rewrite app_nil_r.
Qed.

(** Taking the [.backup/] entries out of the backed-up archive. *)
Lemma split_backup (E c : Cpio) d :
  (forall k, is_Some (E !! k) -> starts_with k BACKUP_DIR = true) ->
  (forall k, is_Some (c !! k) -> starts_with k BACKUP_DIR = false /\ k <> BACKUP) ->
  let b := (E ∪ {[BACKUP := d]}) ∪ c in
  filter (fun p => starts_with p.1 BACKUP_DIR = true) b = E /\
  rm BACKUP false (filter (fun p => starts_with p.1 BACKUP_DIR = false) b) = c.
Proof using.
  intros HE Hc b. split; apply map_eq; intros k; apply option_eq; intros e.
  - rewrite map_lookup_filter_Some. subst b. cbn [fst].
    rewrite !lookup_union_Some_raw, !lookup_union_None, lookup_singleton_Some. split.
    + intros [[[H | [_ [<- _]]] | [_ H]] Hk]; [done | by vm_compute in Hk |].
      destruct (Hc k) as [? _]; [by eexists | congruence].
    + intros H. split; [by left; left | apply HE; by eexists].
  - rewrite lookup_rm. change (norm_path BACKUP) with BACKUP. cbn [andb].
    case_decide as Hk.
    + split; [done |]. intros H. destruct (Hc k) as [_ ?]; [by eexists | done].
    + rewrite map_lookup_filter_Some. subst b. cbn [fst].
      rewrite !lookup_union_Some_raw, !lookup_union_None, lookup_singleton_Some, lookup_singleton_None. split.
      * intros [[[H | [_ [<- _]]] | [_ H]] Hs]; [| done | done].
        rewrite (HE k) in Hs by (by eexists). done.
      * intros H. destruct (Hc k) as [Hs _]; [by eexists |]. split; [| done]. right.
        split; [split; [| done] | done]. destruct (E !! k) eqn:Ek; [| done].
        rewrite (HE k) in Hs by (by eexists). done.
Qed.

Lemma stored_keys sk bs rl k :
  is_Some (stored sk bs rl !! k) -> starts_with k BACKUP_DIR = true.
Proof using xz_roundtrip.
  intros [e He]. unfold stored in He.
  assert (forall e, list_to_map (M:=Cpio) (map (fun p => encode xz_enc sk p.1 p.2) bs) !! k = Some e ->
    starts_with k BACKUP_DIR = true) as Hm.
  { intros f Hf%elem_of_list_to_map_2. apply list_elem_of_fmap in Hf as ([m g] & Heq & _).
    pose proof (encode_key_dir sk m g) as H. cbn in Heq. by rewrite <- Heq in H. }
  destruct (is_empty rl); [by eapply Hm |].
  apply lookup_insert_Some in He as [[<- _] | [_ He]]; [done | by eapply Hm].
Qed.

Lemma rm_backup_keys c k :
  is_Some (rm BACKUP true c !! k) -> starts_with k BACKUP_DIR = false /\ k <> BACKUP.
Proof using.
  rewrite lookup_rm. change (norm_path BACKUP) with BACKUP.
  change (BACKUP ++ SLASH) with BACKUP_DIR. cbn [andb].
  case_decide; [by intros [] |]. destruct (starts_with k BACKUP_DIR); [by intros [] | done].
Qed.

(** [backup] stores the entries and the removal list next to the archive. *)
Lemma backup_eq origin sk c o :
  load_from_file origin = Ok o ->
  let o' := rm BACKUP true o in let c' := rm BACKUP true c in
  let acts := diff (btree_iter o') (btree_iter c') in
  all_plain (backups_of acts) ->
  backup xz_enc origin sk c =
    Ok ((stored sk (backups_of acts) (rm_list_of (records_of acts))
         ∪ {[BACKUP := mkEntry S_IFDIR 0 0 0 0 []]}) ∪ c').
Proof using xz_roundtrip.
  intros Ho o' c' acts Hp. unfold backup. rewrite Ho. cbn [mbind res_bind]. fold o' c' acts.
  assert (NoDup (backups_of acts).*1) as Hnd.
  { eapply sublist_NoDup; [apply (btree_iter_NoDup o') |]. apply fmap_sublist, backups_of_sublist. }
  rewrite backup_fold. cbn [app]. f_equal. f_equal. unfold stored.
  rewrite foldl_insert_list_to_map by (by apply encoded_NoDup).
  destruct (is_empty _); [done |]. by rewrite insert_union_l.
Qed.

(** [restore] after [backup], in terms of the stored entries and the removal list. *)
Lemma restore_eq origin sk c o :
  load_from_file origin = Ok o ->
  let o' := rm BACKUP true o in let c' := rm BACKUP true c in
  let acts := diff (btree_iter o') (btree_iter c') in
  let bs := backups_of acts in let rs := records_of acts in
  all_plain bs -> utf8_valid (rm_list_of rs) = true -> Forall (fun r => CStr.NUL ∉ r) rs ->
  exists b, backup xz_enc origin sk c = Ok b /\
    restore xz_dec b =
      if is_empty (rm_list_of rs) && bool_decide (list_to_map (M:=Cpio) bs = ∅) then ∅
      else list_to_map bs ∪
        foldl (fun c r => if is_empty r then c else rm r false c) c' (rs ++ [[]]).
Proof using xz_roundtrip.
  intros Ho o' c' acts bs rs Hp Hu Hnul. rewrite (backup_eq origin sk c o Ho Hp).
  eexists. split; [done |]. unfold restore. fold o' c' acts bs rs.
  assert (NoDup bs.*1) as Hnd.
  { eapply sublist_NoDup; [apply (btree_iter_NoDup o') |]. apply fmap_sublist, backups_of_sublist. }
  destruct (split_backup (stored sk bs (rm_list_of rs)) c' (mkEntry S_IFDIR 0 0 0 0 [])) as [-> ->].
  - apply stored_keys.
  - apply rm_backup_keys.
  - rewrite restore_stored by done. rewrite split_rm_list by done. done.
Qed.

(** What [restore] makes of [backup]'s result, name by name: nothing for a name
    the original lacks, the present entry where the data did not change, the
    original entry otherwise. *)
Definition restored (o c : Cpio) (k : bytes) : option CpioEntry :=
  match o !! k, c !! k with
  | None, _ => None
  | Some e, Some e' => if decide (data e' = data e) then Some e' else Some e
  | Some e, None => Some e
  end.

Definition recordable (n : bytes) : Prop :=
  n <> [] /\ normal n /\ (CStr.NUL ∉ n) /\ utf8_valid n = true.

Lemma lookup_backups o c k :
  let acts := diff (btree_iter o) (btree_iter c) in
  (list_to_map (backups_of acts) ∪
     foldl (fun c r => if is_empty r then c else rm r false c) c (records_of acts ++ [[]])) !! k
  = restored o c k \/ ~ Forall recordable (records_of acts).
Proof using.
  intros acts. destruct (diff_spec (btree_iter o) (btree_iter c)) as [HB HR];
    [apply btree_iter_sorted.. |]. fold acts in HB, HR.
  destruct (decide (Forall (fun r => r <> [] /\ normal r) (records_of acts))) as [Hf|Hf].
  2:{ right. intros H. apply Hf. eapply Forall_impl; [done |]. by intros x (? & ? & _). }
  left. unfold restored. assert (NoDup (backups_of acts).*1) as Hnd.
  { eapply sublist_NoDup; [apply (btree_iter_NoDup o) |]. apply fmap_sublist, backups_of_sublist. }
  assert (forall e, list_to_map (M:=Cpio) (backups_of acts) !! k = Some e <->
    o !! k = Some e /\ forall e', c !! k = Some e' -> data e' <> data e) as HM.
  { intros e. rewrite <- elem_of_list_to_map, elem_of_backups_of, HB by done.
    unfold changed. cbn. setoid_rewrite elem_of_btree_iter. done. }
  assert (k ∈ records_of acts <-> is_Some (c !! k) /\ o !! k = None) as HK.
  { rewrite elem_of_records_of, HR. setoid_rewrite elem_of_btree_iter. unfold is_Some.
    rewrite eq_None_not_Some. unfold is_Some. naive_solver. }
  rewrite lookup_union, rm_listed by done.
  destruct (list_to_map (backups_of acts) !! k) as [e|] eqn:Em.
  - destruct (proj1 (HM e) eq_refl) as [-> Hc]. rewrite union_Some_l.
    destruct (c !! k) as [e'|]; [| done]. rewrite decide_False; [done | by apply Hc].
  - rewrite (left_id_L None (∪)). destruct (o !! k) as [e|] eqn:Eo.
    + rewrite decide_False by (rewrite HK; naive_solver). specialize (HM e).
      destruct (c !! k) as [e'|]; [case_decide; [done |] |]; exfalso; naive_solver.
    + case_decide as Hin; [done |]. destruct (c !! k); [| done]. exfalso. apply Hin, HK. by split.
Qed.
End Roundtrip.

(** ** Nothing changed *)

Definition same_data (o c : Cpio) : Prop := forall n, data <$> o !! n = data <$> c !! n.

Lemma diff_same o c :
  same_data o c ->
  backups_of (diff (btree_iter o) (btree_iter c)) = [] /\
  records_of (diff (btree_iter o) (btree_iter c)) = [].
Proof.
  intros Hs. destruct (diff_spec (btree_iter o) (btree_iter c)) as [HB HR]; [apply btree_iter_sorted.. |].
  split.
  - apply elem_of_nil_inv. intros [n e] (Hin & Hc)%elem_of_backups_of%HB.
    apply elem_of_btree_iter in Hin. specialize (Hs n). rewrite Hin in Hs. symmetry in Hs.
    apply fmap_Some in Hs as (e' & He' & Heq). apply (Hc e'); [by apply elem_of_btree_iter | done].
  - apply elem_of_nil_inv. intros n ((e & Hin) & Hno)%elem_of_records_of%HR.
    apply elem_of_btree_iter in Hin. specialize (Hs n). rewrite Hin in Hs.
    apply fmap_Some in Hs as (e' & He' & Heq). by apply (Hno e'), elem_of_btree_iter.
Qed.

Lemma diff_differ o c :
  ~ same_data o c ->
  backups_of (diff (btree_iter o) (btree_iter c)) = [] ->
  records_of (diff (btree_iter o) (btree_iter c)) = [] -> False.
Proof.
  intros Hs HBn HRn. apply Hs. intros n.
  destruct (diff_spec (btree_iter o) (btree_iter c)) as [HB HR]; [apply btree_iter_sorted.. |].
  destruct (o !! n) as [e|] eqn:Eo, (c !! n) as [e'|] eqn:Ec; cbn; try done.
  - destruct (decide (data e' = data e)) as [-> | Hne]; [done |]. exfalso.
    assert ((n, e) ∈ []) as []%not_elem_of_nil. rewrite <- HBn. apply elem_of_backups_of, HB.
    split; [by apply elem_of_btree_iter |]. intros f Hf%elem_of_btree_iter. cbn in *. congruence.
  - exfalso. assert ((n, e) ∈ []) as []%not_elem_of_nil. rewrite <- HBn. apply elem_of_backups_of, HB.
    split; [by apply elem_of_btree_iter |]. intros f Hf%elem_of_btree_iter. cbn in *. congruence.
  - exfalso. assert (n ∈ []) as []%not_elem_of_nil. rewrite <- HRn. apply elem_of_records_of, HR.
    split; [exists e'; by apply elem_of_btree_iter |]. intros f Hf%elem_of_btree_iter. congruence.
Qed.

(** * Properties *)

(** The data of [restored] are those of the original. *)
Lemma restored_data o c k : data <$> restored o c k = data <$> o !! k.
Proof. unfold restored. destruct (o !! k) as [e|], (c !! k) as [e'|]; [destruct (decide _) as [E|] |..]; cbn; by rewrite ?E. Qed.

(** C4: What restoring the backup of a ramdisk gives, [.backup] aside. If the data of any
    name differ from the original, then for every name the data are those of the
    original, a name the original lacks is gone, and the entry is the original one
    where the data had changed; where they had not changed the entry keeps its present
    attributes, which are not backed up. If no data differ, the restored ramdisk is empty. The
    hypotheses: the xz decoder inverts the encoder, the original's names are not
    ambiguous in [.backup/] (no [.xz] suffix, not [.rmlist] or [.magisk]), and the names
    added since are normalised UTF-8 paths without NUL. *)
Theorem backup_restore (xz_enc xz_dec : bytes -> option bytes) origin skip_compress c o :
  (forall d z, xz_enc d = Some z -> xz_dec z = Some d) ->
  load_from_file origin = Ok o ->
  let o' := rm BACKUP true o in
  let c' := rm BACKUP true c in
  (forall n, is_Some (o' !! n) -> plain n) ->
  (forall n, is_Some (c' !! n) -> o' !! n = None -> recordable n) ->
  exists b, backup xz_enc origin skip_compress c = Ok b /\
    (~ same_data o' c' -> forall k, restore xz_dec b !! k = restored o' c' k /\ data <$> restore xz_dec b !! k = data <$> o' !! k) /\
    (same_data o' c' -> restore xz_dec b = ∅).
Proof.
  intros Hxz Ho o' c' Hp Hr. set (acts := diff (btree_iter o') (btree_iter c')).
  destruct (diff_spec (btree_iter o') (btree_iter c')) as [HB HR]; [apply btree_iter_sorted.. |].
  fold acts in HB, HR.
  assert (Forall recordable (records_of acts)) as Hrec.
  { apply Forall_forall. intros n ([e He] & Hno)%elem_of_records_of%HR. apply Hr.
    - exists e. by apply elem_of_btree_iter.
    - apply eq_None_not_Some. intros [f Hf%elem_of_btree_iter]. by apply (Hno f). }
  destruct (restore_eq xz_enc xz_dec Hxz origin skip_compress c o Ho) as (b & Hb & Heq).
  - intros [n e] (Hin & _)%elem_of_backups_of%HB. apply Hp. exists e. by apply elem_of_btree_iter.
  - apply rm_list_utf8. eapply Forall_impl; [exact Hrec |]. by intros x (_ & _ & _ & ?).
  - eapply Forall_impl; [exact Hrec |]. by intros x (_ & _ & ? & _).
  - exists b. split; [done |]. rewrite Heq. fold o' c' acts. split.
    + intros Hd k. cut ((if is_empty (rm_list_of (records_of acts)) && bool_decide (list_to_map (M:=Cpio) (backups_of acts) = ∅) then ∅ else
        list_to_map (backups_of acts) ∪ foldl (fun c r => if is_empty r then c else rm r false c) c' (records_of acts ++ [[]])) !! k = restored o' c' k).
      { intros ->. split; [done | apply restored_data]. }
      destruct (lookup_backups o' c' k) as [Hk | Hk]; [| by destruct (Hk Hrec)].
      rewrite <- Hk. fold acts.
      destruct (is_empty (rm_list_of (records_of acts))) eqn:Er; [| done]. cbn [andb]. rewrite bool_decide_decide.
      destruct (decide _) as [Hm | Hm]; [| reflexivity]. exfalso. apply (diff_differ o' c' Hd); fold acts.
      * destruct (backups_of acts) as [|[n e] bs]; [done |]. exfalso. by apply (insert_non_empty (list_to_map bs : Cpio) n e).
      * apply rm_list_nil. by destruct (rm_list_of (records_of acts)).
    + intros Hs. destruct (diff_same _ _ Hs) as [HB' HR']. fold acts in HB', HR'. by rewrite HB', HR'.
Qed.

(** ** A concrete ramdisk and a reversible encoder for the witnesses *)

Definition demo_enc (d : bytes) : option bytes := Some (#"XZ" ++ rev d).
Definition demo_dec (z : bytes) : option bytes := @rev byte <$> strip_prefix z #"XZ".

Definition demo_orig : Cpio :=
  <[ #"init" := mkEntry 0x81E8 0 0 0 0 #"stock init" ]>
  (<[ #"sbin" := mkEntry 0x41ED 0 0 0 0 [] ]> ∅).
Definition demo_new : Cpio :=
  <[ #"init" := mkEntry 0x81E8 0 0 0 0 #"magiskinit" ]>
  (<[ #"sbin" := mkEntry 0x41ED 0 0 0 0 [] ]>
  (<[ #"overlay.d/sbin/magisk.xz" := mkEntry 0x81A4 0 0 0 0 #"payload" ]> ∅)).

Lemma demo_roundtrip d z : demo_enc d = Some z -> demo_dec z = Some d.
Proof.
  unfold demo_enc, demo_dec. intros [= <-].
  assert (strip_prefix (#"XZ" ++ rev d) #"XZ" = Some (rev d)) as H by by apply strip_prefix_Some.
  change (strip_prefix _ _) with (strip_prefix (#"XZ" ++ rev d) #"XZ"). rewrite H. cbn.
  by rewrite rev_involutive.
Qed.

Lemma is_Some_Forall (c : Cpio) (P : bytes -> Prop) :
  map_Forall (fun n _ => P n) c -> forall n, is_Some (c !! n) -> P n.
Proof. intros H n [e He]. by apply (H n e). Qed.

Lemma backup_restore_witness :
  exists b, backup demo_enc (Some (dump demo_orig)) false demo_new = Ok b /\
    forall k, restore demo_dec b !! k = restored (rm BACKUP true demo_orig) (rm BACKUP true demo_new) k.
Proof.
  destruct (backup_restore demo_enc demo_dec (Some (dump demo_orig)) false demo_new demo_orig) as (b & Hb & Hk & _).
  - exact demo_roundtrip.
  - vm_compute. reflexivity.
  - apply is_Some_Forall. apply (bool_decide_unpack _). vm_compute. exact I.
  - intros n Hn _. revert n Hn. apply is_Some_Forall. apply (bool_decide_unpack _). vm_compute. exact I.
  - exists b. split; [exact Hb |]. intros k. apply Hk. intros H. specialize (H #"init"). vm_compute in H. discriminate.
Defined.

(** When no data changed, [backup] has nothing to store and [restore] then
    empties the ramdisk: the pair is not the identity on an unmodified archive. *)
Theorem backup_restore_unchanged (xz_enc xz_dec : bytes -> option bytes) origin skip_compress c o :
  (forall d z, xz_enc d = Some z -> xz_dec z = Some d) ->
  load_from_file origin = Ok o ->
  same_data (rm BACKUP true o) (rm BACKUP true c) ->
  exists b, backup xz_enc origin skip_compress c = Ok b /\ restore xz_dec b = ∅.
Proof.
  intros Hxz Ho Hs. destruct (diff_same _ _ Hs) as [HB HR].
  destruct (restore_eq xz_enc xz_dec Hxz origin skip_compress c o Ho) as (b & Hb & Heq);
    rewrite ?HB, ?HR in *.
  - by intros p ?%elem_of_nil.
  - done.
  - constructor.
  - exists b. split; [done |]. by rewrite Heq.
Qed.

Lemma backup_restore_unchanged_witness :
  (exists b, backup demo_enc (Some (dump demo_orig)) true demo_orig = Ok b /\ restore demo_dec b = ∅)
  /\ demo_orig <> ∅.
Proof.
  split; [| intros H; by vm_compute in H].
  apply (backup_restore_unchanged demo_enc demo_dec (Some (dump demo_orig)) true demo_orig demo_orig).
  - exact demo_roundtrip.
  - vm_compute. reflexivity.
  - intros n. reflexivity.
Defined.

End CpioBackup.
