(* ===== verification/Args.v ===== *)
(** base/argh.rs and base/derive/argh/mod.rs: the command line parser.

    A struct with [#[derive(FromArgs)]] is the list of its [Field]s; [from_args] is the
    method the derive macro generates for it, with the tables it generates, on top of
    [parse_struct_args].  Values are of one type [V]; a subcommand is the [from_args] of
    its enum.  What the macro checks and reports is in Derive; the texts of the help are not
    modelled; no struct of the program has dynamic subcommands. *)

From S2P Require Import Prelude Text.

Module Args.

Record EarlyExit := mkExit { output : bytes; is_help : bool }.

Definition early_exit (msg : bytes) : EarlyExit := mkExit msg false.

Section Args.
Context {V : Type}.

(** * Fields *)

(** The types a switch can have: [bool], [Option<bool>], an integer up to [max]. *)
Inductive SwitchTy := TBool | TOptBool | TInt (max : Z).

Inductive Optionality :=
| Required
| Defaulted (v : V)
| Optional
| Repeating
| DefaultedRepeating (vs : list V).

Inductive FieldKind :=
| Switch (ty : SwitchTy)
| Option_ (o : Optionality)
| Positional (o : Optionality) (greedy : bool)
| SubCommand (optional : bool) (commands : list bytes) (parse_func : list bytes -> list bytes -> res EarlyExit V).

(** [long]: [None] without the attribute, [Some None] for [long = none]. *)
Record Field := mkField {
  ident : bytes; kind : FieldKind; short : option bytes; long : option (option bytes); arg_name : option bytes;
  parse_value : bytes -> res bytes V }.

Definition is_flag (f : Field) : bool := match kind f with Switch _ | Option_ _ => true | _ => false end.
Definition is_positional (f : Field) : bool := match kind f with Positional _ _ => true | _ => false end.
Definition is_subcommand (f : Field) : bool := match kind f with SubCommand _ _ _ => true | _ => false end.

Definition is_required (f : Field) : bool :=
  match kind f with
  | Option_ Required | Positional Required _ | SubCommand false _ _ => true
  | _ => false
  end.

Definition to_kebab_case (s : bytes) : bytes := join #"-" (filter (fun w => w <> []) (split_on "_"%char s)).

Definition long_name (f : Field) : option bytes :=
  if is_flag f then
    app #"--" <$> match long f with None => Some (to_kebab_case (ident f)) | Some l => l end
  else None.

(** * The generated tables *)

Definition flag_entries (i : nat) (f : Field) : list (bytes * nat) :=
  match short f with Some c => [(#"-" ++ c, i)] | None => [] end ++
  match long_name f with Some l => [(l, i)] | None => [] end.

Fixpoint entries_from (i : nat) (fields : list Field) : list (bytes * nat) :=
  match fields with [] => [] | f :: fields => flag_entries i f ++ entries_from (S i) fields end.

Definition flag_str_to_output_table_map_entries (fields : list Field) : list (bytes * nat) := entries_from 0 fields.

(** The indices of the fields of a kind, from [i] on. *)
Fixpoint indices_from (P : Field -> bool) (i : nat) (fields : list Field) : list nat :=
  match fields with
  | [] => []
  | f :: fields => if P f then i :: indices_from P (S i) fields else indices_from P (S i) fields
  end.

Definition indices (P : Field -> bool) (fields : list Field) : list nat := indices_from P 0 fields.

Definition flag_output_table (fields : list Field) : list nat := indices is_flag fields.
Definition positional_fields (fields : list Field) : list nat := indices is_positional fields.

Definition last_positional (fields : list Field) : option Field := i ← last (positional_fields fields); fields !! i.

Definition last_positional_is_repeating (fields : list Field) : bool :=
  match kind <$> last_positional fields with Some (Positional Repeating _) => true | _ => false end.
Definition last_positional_is_greedy (fields : list Field) : bool :=
  match kind <$> last_positional fields with Some (Positional _ g) => g | _ => false end.

(** * Slots *)

Inductive Slot :=
| FlagBool (b : bool) | FlagOpt (o : option bool) | FlagInt (max n : Z)
| One (o : option V) | Many (l : list V) | OptMany (o : option (list V))
| Sub (o : option V).

Definition init_slot (f : Field) : Slot :=
  match kind f with
  | Switch TBool => FlagBool false
  | Switch TOptBool => FlagOpt None
  | Switch (TInt max) => FlagInt max 0
  | Option_ o | Positional o _ =>
      match o with Repeating => Many [] | DefaultedRepeating _ => OptMany None | _ => One None end
  | SubCommand _ _ _ => Sub None
  end.

(** [Flag::set_flag]; a slot of another kind cannot be reached. *)
Definition set_flag (s : Slot) : Slot :=
  match s with
  | FlagBool _ => FlagBool true
  | FlagOpt _ => FlagOpt (Some true)
  | FlagInt max n => FlagInt max (Z.min max (n + 1))
  | s => s
  end.

(** [ParseValueSlot::fill_slot]. *)
Definition fill_slot (f : Field) (s : Slot) (value : bytes) : res bytes Slot :=
  match s with
  | One (Some _) => Err #"duplicate values provided"
  | One None => v ← parse_value f value; Ok (One (Some v))
  | Many l => v ← parse_value f value; Ok (Many (l ++ [v]))
  | OptMany o => v ← parse_value f value; Ok (OptMany (Some (default [] o ++ [v])))
  | _ => Panic
  end.

Definition map_err {A E E'} (g : E -> E') (m : res E A) : res E' A :=
  match m with Ok a => Ok a | Err e => Err (g e) | Panic => Panic end.

(** * Parsing *)

Definition unrecognized_argument (given : bytes) (arg_to_slot : list (bytes * nat)) (extra : list bytes) : bytes :=
  if is_empty (map fst arg_to_slot ++ extra) then #"Unrecognized argument: " ++ [bof 34] ++ given ++ [bof 34; newline]
  else #"Unrecognized argument: " ++ given ++ [newline].

Definition find_map_name (arg : bytes) (l : list (bytes * nat)) : option nat :=
  snd <$> List.find (fun e => bool_decide (e.1 = arg)) l.

Section Parse.
Context (fields : list Field) (help_triggers : list bytes).

(** [ParseStructOptions::parse]: the slots and the arguments that remain. *)
Definition parse_option (arg : bytes) (remaining : list bytes) (slots : list Slot) : res EarlyExit (list Slot * list bytes) :=
  let arg_to_slot := flag_str_to_output_table_map_entries fields in
  match find_map_name arg arg_to_slot with
  | None => Err (early_exit (unrecognized_argument arg arg_to_slot help_triggers))
  | Some pos =>
      match (i ← flag_output_table fields !! pos; f ← fields !! i; s ← slots !! i; Some (i, f, s)) with
      | None => Panic
      | Some (i, f, s) =>
          match kind f with
          | Switch _ => Ok (<[i := set_flag s]> slots, remaining)
          | _ =>
              match remaining with
              | [] => Err (early_exit (#"No value provided for option '" ++ arg ++ #"'." ++ [newline]))
              | value :: remaining =>
                  s ← map_err (fun m => early_exit (#"Error parsing option '" ++ arg ++ #"' with value '" ++ value ++ #"': " ++ m ++ [newline]))
                        (fill_slot f s value);
                  Ok (<[i := s]> slots, remaining)
              end
          end
      end
  end.

(** [ParseStructPositionals::parse]: the slots, the next index, and whether options end. *)
Definition parse_positional (index : nat) (arg : bytes) (slots : list Slot) : res EarlyExit (list Slot * nat * bool) :=
  let positionals := positional_fields fields in
  match (i ← positionals !! index; f ← fields !! i; s ← slots !! i; Some (i, f, s)) with
  | Some (i, f, s) =>
      s ← map_err (fun m => early_exit (#"Error parsing positional argument '" ++ ident f ++ #"' with value '" ++ arg ++ #"': " ++ m ++ [newline]))
            (fill_slot f s arg);
      Ok (if last_positional_is_repeating fields && (index =? length positionals - 1)%nat
          then (<[i := s]> slots, index, last_positional_is_greedy fields)
          else (<[i := s]> slots, S index, false))
  | None => Err (early_exit (#"Unrecognized argument: " ++ arg ++ [newline]))
  end.

(** [ParseStructSubCommand::parse]; the slots if the argument is a subcommand. *)
Definition subcommand_field : option (nat * Field) :=
  i ← head (indices is_subcommand fields); f ← fields !! i; Some (i, f).

Definition parse_subcommand (help : bool) (cmd_name : list bytes) (arg : bytes) (remaining : list bytes) (slots : list Slot)
    : res EarlyExit (option (list Slot)) :=
  match subcommand_field with
  | Some (i, f) =>
      match kind f with
      | SubCommand _ commands parse_func =>
          if bool_decide (arg ∈ commands) then
            v ← parse_func (cmd_name ++ [arg]) (if help then #"help" :: remaining else remaining);
            Ok (Some (<[i := Sub (Some v)]> slots))
          else Ok None
      | _ => Ok None
      end
  | None => Ok None
  end.

Record PState := mkPState { slots : list Slot; help : bool; positional_index : nat; options_ended : bool }.

(** The loop of [parse_struct_args]; every round takes at least one argument. *)
Fixpoint parse_loop (fuel : nat) (cmd_name : list bytes) (args : list bytes) (st : PState) : res EarlyExit PState :=
  match args with
  | [] => Ok st
  | next_arg :: remaining =>
      match fuel with
      | O => Panic
      | S fuel =>
          if bool_decide (next_arg ∈ help_triggers) && negb (options_ended st) then
            parse_loop fuel cmd_name remaining (mkPState (slots st) true (positional_index st) (options_ended st))
          else if starts_with next_arg #"-" && negb (options_ended st) then
            if bool_decide (next_arg = #"--") then
              parse_loop fuel cmd_name remaining (mkPState (slots st) (help st) (positional_index st) true)
            else if help st then Err (early_exit #"Trailing arguments are not allowed after `help`.")
            else
              '(s, remaining) ← parse_option next_arg remaining (slots st);
              parse_loop fuel cmd_name remaining (mkPState s (help st) (positional_index st) (options_ended st))
          else
            sub ← parse_subcommand (help st) cmd_name next_arg remaining (slots st);
            match sub with
            | Some s => Ok (mkPState s false (positional_index st) (options_ended st))
            | None =>
                '(s, index, ended) ← parse_positional (positional_index st) next_arg (slots st);
                parse_loop fuel cmd_name remaining (mkPState s (help st) index (options_ended st || ended))
            end
      end
  end.

Definition parse_struct_args (cmd_name args : list bytes) (slots0 : list Slot) : res EarlyExit (list Slot) :=
  st ← parse_loop (length args) cmd_name args (mkPState slots0 false 0 false);
  if help st then Err (mkExit [] true) else Ok (slots st).
End Parse.

(** * Requirements *)

Definition trim_underscores (s : bytes) : bytes :=
  let fix go s := match s with c :: s' => if bool_decide (c = "_"%char) then go s' else s | [] => [] end in
  rev (go (rev (go s))).

Definition positional_arg_name (f : Field) : bytes := default (trim_underscores (ident f)) (arg_name f).

Definition option_arg_name (f : Field) : bytes :=
  match short f, long_name f with
  | None, None => []
  | Some short, None => #"-" ++ short
  | None, Some long => long
  | Some short, Some long => #"-" ++ short ++ #"," ++ long
  end.

Record MissingRequirements := mkMissing { options : list bytes; subcommands : option (list bytes); positional_args : list bytes }.

Definition is_none (s : Slot) : bool := match s with One None | Sub None => true | _ => false end.

Definition append_missing_requirement (m : MissingRequirements) (fs : Field * Slot) : MissingRequirements :=
  let '(f, s) := fs in
  if is_required f && is_none s then
    match kind f with
    | Positional _ _ => mkMissing (options m) (subcommands m) (positional_args m ++ [positional_arg_name f])
    | Option_ _ => mkMissing (options m ++ [option_arg_name f]) (subcommands m) (positional_args m)
    | SubCommand _ commands _ => mkMissing (options m) (Some commands) (positional_args m)
    | Switch _ => m
    end
  else m.

Definition NEWLINE_INDENT : bytes := newline :: #"    ".
Definition indented (l : list bytes) : bytes := concat (map (app NEWLINE_INDENT) l).

Definition err_on_any (m : MissingRequirements) : res bytes unit :=
  match m with
  | mkMissing [] None [] => Ok tt
  | mkMissing opts subs pos =>
      Err ((if is_empty pos then [] else #"Required positional arguments not provided:" ++ indented pos) ++
           (if is_empty opts then []
            else (if is_empty pos then [] else [newline]) ++ #"Required options not provided:" ++ indented opts) ++
           match subs with
           | None => []
           | Some cmds =>
               (if is_empty opts then [] else [newline]) ++ #"One of the following subcommands must be present:" ++
               indented (#"help" :: cmds)
           end ++ [newline])
  end.

(** [unwrap] of a missing value aborts. *)
Definition unwrap_field (f : Field) (s : Slot) : res EarlyExit Slot :=
  match kind f, s with
  | Option_ Required, One None | Positional Required _, One None | SubCommand false _ _, Sub None => Panic
  | Option_ (Defaulted v), One None | Positional (Defaulted v) _, One None => Ok (One (Some v))
  | Option_ (DefaultedRepeating l), OptMany None | Positional (DefaultedRepeating l) _, OptMany None => Ok (OptMany (Some l))
  | _, s => Ok s
  end.

Fixpoint unwrap_fields (fields : list Field) (slots : list Slot) : res EarlyExit (list Slot) :=
  match fields, slots with
  | f :: fields, s :: slots => s ← unwrap_field f s; slots ← unwrap_fields fields slots; Ok (s :: slots)
  | _, _ => Ok []
  end.

(** [FromArgs::from_args] of a struct. *)
Definition from_args (fields : list Field) (help_triggers : list bytes) (cmd_name args : list bytes) : res EarlyExit (list Slot) :=
  slots ← parse_struct_args fields help_triggers cmd_name args (map init_slot fields);
  _ ← map_err early_exit (err_on_any (foldl append_missing_requirement (mkMissing [] None []) (combine fields slots)));
  unwrap_fields fields slots.

(** [get_help_triggers]: a subcommand has none. *)
Definition top_level_triggers : list bytes := [ #"-h"; #"--help"].

(** [FromArgs::from_args] of an enum of subcommands. *)
Definition from_args_enum (variants : list (bytes * (list bytes -> list bytes -> res EarlyExit V))) (cmd_name args : list bytes) : res EarlyExit V :=
  match last cmd_name with
  | None => Err (early_exit #"no subcommand name")
  | Some name =>
      match List.find (fun v => bool_decide (v.1 = name)) variants with
      | Some (_, parse) => parse cmd_name args
      | None => Err (early_exit #"no subcommand matched")
      end
  end.

(** * The grammar *)

(** The names of an option or switch. *)
Definition names (f : Field) : list bytes := map fst (flag_entries 0 f).

(** Names are unique, only options and switches have one, and no positional comes before
    them.  The macro checks the first but not the others, see Derive. *)
Fixpoint options_first (fields : list Field) : bool :=
  match fields with
  | [] => true
  | f :: fields => if is_flag f then options_first fields else forallb (fun f => negb (is_flag f)) fields
  end.

Record fields_wf (fields : list Field) : Prop := {
  wf_unique : NoDup (map fst (entries_from 0 fields));
  wf_short : forall i f, fields !! i = Some f -> is_flag f = false -> short f = None;
  wf_first : options_first fields = true }.

Lemma entries_names i f e : e ∈ flag_entries i f <-> e.2 = i /\ e.1 ∈ names f.
Proof.
  unfold names, flag_entries. destruct e as [n j]. rewrite map_app, !elem_of_app. cbn [fst snd].
  destruct (short f), (long_name f); cbn; rewrite ?elem_of_cons, ?elem_of_nil; naive_solver.
Qed.

Lemma entries_from_spec k fields n i :
  (n, i) ∈ entries_from k fields <-> exists j f, i = (k + j)%nat /\ fields !! j = Some f /\ n ∈ names f.
Proof.
  revert k. induction fields as [|f fields IH]; intros k; cbn [entries_from].
  - split; [by intros ?%not_elem_of_nil | naive_solver].
  - rewrite elem_of_app, entries_names, IH. cbn [fst snd]. split.
    + intros [[-> Hn]|(j & g & -> & Hj & Hn)]; [exists 0%nat, f | exists (S j), g]; split_and!; try done; lia.
    + intros ([|j] & g & -> & Hj & Hn); [left; injection Hj as <-; split; [lia | done] | right; exists j, g; split_and!; try done; lia].
Qed.

Lemma find_map_name_spec n (l : list (bytes * nat)) i :
  NoDup (map fst l) -> find_map_name n l = Some i <-> (n, i) ∈ l.
Proof.
  unfold find_map_name. induction l as [|[m j] l IH]; intros Hnd; cbn [List.find].
  - split; [done | by intros ?%not_elem_of_nil].
  - cbn [map fst] in Hnd. apply NoDup_cons in Hnd as [Hm Hnd]. rewrite elem_of_cons. case_bool_decide as Hd; cbn [fst] in Hd.
    + subst m. cbn. split; [intros [= <-]; by left |]. intros [[= <-]|Hin]; [done |].
      exfalso. apply Hm. exact (list_elem_of_fmap_2 fst _ (n, i) Hin).
    + rewrite IH by done. naive_solver.
Qed.

Lemma find_map_name_None n (l : list (bytes * nat)) : find_map_name n l = None <-> forall i, (n, i) ∉ l.
Proof.
  unfold find_map_name. induction l as [|[m j] l IH]; cbn [List.find].
  - split; [intros _ i; apply not_elem_of_nil | done].
  - case_bool_decide as Hd; cbn [fst] in Hd.
    + subst. cbn. split; [done | intros Hi; exfalso; apply (Hi j), elem_of_cons; by left].
    + rewrite IH. setoid_rewrite elem_of_cons. naive_solver.
Qed.

Lemma flag_table_lookup k fields i f :
  options_first fields = true -> fields !! i = Some f -> is_flag f = true -> indices_from is_flag k fields !! i = Some (k + i)%nat.
Proof.
  revert k i. induction fields as [|g fields IH]; intros k i Hof Hi Hf; [done |]. cbn [options_first indices_from] in *.
  destruct (is_flag g) eqn:Eg.
  - destruct i as [|i]; [by rewrite Nat.add_0_r |]. etrans; [exact (IH (S k) i Hof Hi Hf) | f_equal; lia].
  - exfalso. destruct i as [|i]; [injection Hi as ->; congruence |]. cbn in Hi. rewrite forallb_forall in Hof.
    assert (List.In f fields) as Hin by (apply list_elem_of_In; by eapply list_elem_of_lookup_2). apply Hof in Hin. by rewrite Hf in Hin.
Qed.

(** The field a name belongs to. *)
Lemma lookup_name fields n :
  fields_wf fields ->
  match find_map_name n (flag_str_to_output_table_map_entries fields) with
  | Some pos => exists f, fields !! pos = Some f /\ n ∈ names f /\ is_flag f = true /\ flag_output_table fields !! pos = Some pos
  | None => forall i f, fields !! i = Some f -> n ∉ names f
  end.
Proof.
  intros [Hu Hs Hof]. unfold flag_str_to_output_table_map_entries.
  destruct (find_map_name n (entries_from 0 fields)) as [pos|] eqn:E.
  - apply find_map_name_spec in E; [| done]. apply entries_from_spec in E as (j & f & -> & Hj & Hn). cbn [Nat.add].
    assert (is_flag f = true) as Hf.
    { destruct (is_flag f) eqn:Ef; [done |]. exfalso. revert Hn. unfold names, flag_entries, long_name. rewrite (Hs j f Hj Ef), Ef. cbn. set_solver. }
    exists f. split_and!; try done. by apply (flag_table_lookup 0 fields j f).
  - rewrite find_map_name_None in E. intros i f Hi Hn. apply (E i), entries_from_spec. by exists i, f.
Qed.

(** ** Command lines

    What an argument means is determined by the fields alone: an option or switch is
    known by its name, until "--" or until a greedy positional has taken an argument;
    the other arguments are a subcommand, which gets all arguments after it, or the next
    positional. [ix] is the number of positionals that are complete. *)

Definition dashed (arg : bytes) : Prop := starts_with arg #"-" = true /\ arg <> #"--".
Definition operand (ended : bool) (arg : bytes) : Prop := ended = true \/ starts_with arg #"-" = false.

Section Grammar.
Context (fields : list Field) (triggers cmd : list bytes).

Definition stays (ix : nat) : bool := last_positional_is_repeating fields && (ix =? length (positional_fields fields) - 1)%nat.

Definition is_command (arg : bytes) : Prop :=
  exists i f opt cmds parse, subcommand_field fields = Some (i, f) /\ kind f = SubCommand opt cmds parse /\ arg ∈ cmds.

Inductive parses : bool -> nat -> list Slot -> list bytes -> list Slot -> Prop :=
| p_done ended ix s : parses ended ix s [] s
| p_end ix s args s' : parses true ix s args s' -> parses false ix s (#"--" :: args) s'
| p_switch ix s i f ty n sl args s' :
    dashed n -> fields !! i = Some f -> kind f = Switch ty -> n ∈ names f -> s !! i = Some sl ->
    parses false ix (<[i := set_flag sl]> s) args s' -> parses false ix s (n :: args) s'
| p_option ix s i f o n v sl sl' args s' :
    dashed n -> fields !! i = Some f -> kind f = Option_ o -> n ∈ names f -> s !! i = Some sl -> fill_slot f sl v = Ok sl' ->
    parses false ix (<[i := sl']> s) args s' -> parses false ix s (n :: v :: args) s'
| p_subcommand ended ix s i f opt cmds parse v arg args :
    operand ended arg -> subcommand_field fields = Some (i, f) -> kind f = SubCommand opt cmds parse -> arg ∈ cmds ->
    parse (cmd ++ [arg]) args = Ok v -> parses ended ix s (arg :: args) (<[i := Sub (Some v)]> s)
| p_positional ended ix s i f sl sl' arg args s' :
    operand ended arg -> ~ is_command arg -> positional_fields fields !! ix = Some i -> fields !! i = Some f -> s !! i = Some sl ->
    fill_slot f sl arg = Ok sl' ->
    parses (ended || (stays ix && last_positional_is_greedy fields)) (if stays ix then ix else S ix) (<[i := sl']> s) args s' ->
    parses ended ix s (arg :: args) s'.

Hypothesis Hwf : fields_wf fields.

Lemma subcommand_none arg remaining s : ~ is_command arg -> parse_subcommand fields false cmd arg remaining s = Ok None.
Proof.
  intros Hn. unfold parse_subcommand. destruct (subcommand_field fields) as [[i f]|] eqn:E; [| done].
  destruct (kind f) as [| | |opt cmds parse] eqn:Ek; try done. case_bool_decide; [| done]. exfalso. apply Hn. by exists i, f, opt, cmds, parse.
Qed.

Lemma name_unique n i f : fields !! i = Some f -> n ∈ names f -> find_map_name n (flag_str_to_output_table_map_entries fields) = Some i.
Proof. intros Hi Hn. apply find_map_name_spec; [apply Hwf |]. apply entries_from_spec. by exists i, f. Qed.

Lemma parse_option_name n i f sl rem s :
  fields !! i = Some f -> n ∈ names f -> is_flag f = true -> s !! i = Some sl ->
  parse_option fields triggers n rem s =
  match kind f with
  | Switch _ => Ok (<[i := set_flag sl]> s, rem)
  | _ =>
      match rem with
      | [] => Err (early_exit (#"No value provided for option '" ++ n ++ #"'." ++ [newline]))
      | value :: rem =>
          s' ← map_err (fun m => early_exit (#"Error parsing option '" ++ n ++ #"' with value '" ++ value ++ #"': " ++ m ++ [newline])) (fill_slot f sl value);
          Ok (<[i := s']> s, rem)
      end
  end.
Proof.
  intros Hi Hn Hf Hs. unfold parse_option. rewrite (name_unique n i f) by done.
  unfold flag_output_table, indices. rewrite (flag_table_lookup 0 fields i f) by (done || apply Hwf). cbn [mbind option_bind Nat.add].
  by rewrite Hi, Hs.
Qed.

Lemma parses_parse_loop ended ix s args s' :
  parses ended ix s args s' -> Forall (fun a => a ∉ triggers) args -> forall fuel, (length args <= fuel)%nat ->
  exists st, parse_loop fields triggers fuel cmd args (mkPState s false ix ended) = Ok st /\ help st = false /\ slots st = s'.
Proof.
  assert (forall ended arg, operand ended arg -> starts_with arg #"-" && negb ended = false) as Hop.
  { intros e a [-> | ->]; [by rewrite andb_false_r | done]. }
  induction 1 as [ended ix s|ix s args s' Hp IH|ix s i f ty n sl args s' [Hd Hne] Hf Hk Hn Hsl Hp IH|ix s i f o n v sl sl' args s' [Hd Hne] Hf Hk Hn Hsl Hfill Hp IH
    |ended ix s i f opt cmds parse v arg args Ho Hsub Hk Hin Hv|ended ix s i f sl sl' arg args s' Ho Hnc Hix Hf Hsl Hfill Hp IH];
    intros Htr fuel Hfuel.
  - destruct fuel; by eexists.
  - apply Forall_cons in Htr as [Ht Htr]. destruct fuel as [|fuel]; cbn in Hfuel; [lia |]. cbn [parse_loop].
    rewrite bool_decide_eq_false_2 by done. cbn. apply IH; [done | lia].
  - apply Forall_cons in Htr as [Ht Htr]. destruct fuel as [|fuel]; cbn in Hfuel; [lia |]. cbn [parse_loop help options_ended slots].
    rewrite bool_decide_eq_false_2, Hd, (bool_decide_eq_false_2 (n = _)) by done. cbn [andb negb].
    rewrite (parse_option_name n i f sl) by (done || (unfold is_flag; by rewrite Hk)). rewrite Hk. cbn [mbind res_bind].
    apply IH; [done | lia].
  - apply Forall_cons in Htr as [Ht Htr]. apply Forall_cons in Htr as [_ Htr]. destruct fuel as [|fuel]; cbn in Hfuel; [lia |].
    cbn [parse_loop help options_ended slots].
    rewrite bool_decide_eq_false_2, Hd, (bool_decide_eq_false_2 (n = _)) by done. cbn [andb negb].
    rewrite (parse_option_name n i f sl) by (done || (unfold is_flag; by rewrite Hk)). rewrite Hk, Hfill. cbn [map_err mbind res_bind].
    apply IH; [done | lia].
  - apply Forall_cons in Htr as [Ht Htr]. destruct fuel as [|fuel]; cbn in Hfuel; [lia |]. cbn [parse_loop help options_ended slots].
    rewrite bool_decide_eq_false_2, Hop by done. cbn [andb]. unfold parse_subcommand. rewrite Hsub, Hk, bool_decide_eq_true_2 by done.
    cbn beta iota. rewrite Hv. cbn [mbind res_bind]. by eexists.
  - apply Forall_cons in Htr as [Ht Htr]. destruct fuel as [|fuel]; cbn in Hfuel; [lia |]. cbn [parse_loop help options_ended slots positional_index].
    rewrite bool_decide_eq_false_2, Hop by done. cbn [andb]. rewrite subcommand_none by done. cbn [mbind res_bind].
    unfold parse_positional. rewrite Hix. cbn [mbind option_bind]. rewrite Hf, Hsl. cbn [mbind option_bind]. rewrite Hfill.
    cbn [map_err mbind res_bind]. fold (stays ix). destruct (IH Htr fuel ltac:(lia)) as (st & Hst & Hrest). exists st. split; [| done].
    rewrite <- Hst. destruct (stays ix); cbn [andb]; [done |]. by rewrite orb_false_r.
Qed.

Lemma parse_option_Ok n rem s s' rem' :
  length s = length fields -> parse_option fields triggers n rem s = Ok (s', rem') ->
  exists i f sl, fields !! i = Some f /\ n ∈ names f /\ s !! i = Some sl /\
    ((exists ty, kind f = Switch ty /\ s' = <[i := set_flag sl]> s /\ rem' = rem) \/
     (exists o v sl', kind f = Option_ o /\ rem = v :: rem' /\ fill_slot f sl v = Ok sl' /\ s' = <[i := sl']> s)).
Proof.
  intros Hlen Hp. pose proof (lookup_name fields n Hwf) as Hl. destruct (find_map_name n _) as [i|] eqn:E.
  2: { unfold parse_option in Hp. by rewrite E in Hp. }
  destruct Hl as (f & Hi & Hn & Hf & _). destruct (lookup_lt_is_Some_2 s i) as [sl Hsl]; [rewrite Hlen; by eapply lookup_lt_Some |].
  rewrite (parse_option_name n i f sl) in Hp by done. exists i, f, sl. split_and!; try done.
  unfold is_flag in Hf. destruct (kind f) as [ty|o| |]; try done.
  - left. exists ty. by injection Hp as <- <-.
  - right. destruct rem as [|v rem]; [done |]. destruct (fill_slot f sl v) as [sl'| |] eqn:Ef; [| done..].
    injection Hp as <- <-. by exists o, v, sl'.
Qed.

Lemma parse_subcommand_Ok arg rem s r :
  parse_subcommand fields false cmd arg rem s = Ok r ->
  match r with
  | Some s' => exists i f opt cmds parse v, subcommand_field fields = Some (i, f) /\ kind f = SubCommand opt cmds parse /\ arg ∈ cmds /\
      parse (cmd ++ [arg]) rem = Ok v /\ s' = <[i := Sub (Some v)]> s
  | None => ~ is_command arg
  end.
Proof.
  unfold parse_subcommand. destruct (subcommand_field fields) as [[i f]|] eqn:E.
  2: { intros [= <-] (i & f & opt & cmds & parse & Hs & _). congruence. }
  destruct (kind f) as [| | |opt cmds parse] eqn:Ek.
  1-3: intros [= <-] (i' & f' & opt & cmds & parse & Hs & Hk & _); rewrite E in Hs; injection Hs as <- <-; congruence.
  case_bool_decide as Hin.
  - cbn beta iota. destruct (parse (cmd ++ [arg]) rem) as [v| |] eqn:Ev; [| done..]. intros [= <-]. by exists i, f, opt, cmds, parse, v.
  - intros [= <-] (i' & f' & opt' & cmds' & parse' & Hs & Hk & Hin'). rewrite E in Hs. injection Hs as <- <-. congruence.
Qed.

Lemma parse_loop_parses fuel ended ix s args st :
  Forall (fun a => a ∉ triggers) args -> length s = length fields ->
  parse_loop fields triggers fuel cmd args (mkPState s false ix ended) = Ok st ->
  help st = false /\ parses ended ix s args (slots st).
Proof.
  revert ended ix s args. induction fuel as [|fuel IH]; intros ended ix s args Htr Hlen; destruct args as [|arg args]; cbn [parse_loop]; try done.
  1, 2: intros [= <-]; split; [done | apply p_done].
  apply Forall_cons in Htr as [Ht Htr]. rewrite bool_decide_eq_false_2 by done. cbn [andb help options_ended slots positional_index].
  destruct (starts_with arg #"-" && negb ended) eqn:Ed.
  - apply andb_true_iff in Ed as [Ed ->%negb_true_iff]. case_bool_decide as Ha.
    + subst arg. intros H. apply IH in H as [Hh Hp]; [| done | done]. split; [done | by apply p_end].
    + rewrite res_bind_Ok. intros ([s1 rem1] & Hopt & H). apply parse_option_Ok in Hopt as (i & f & sl & Hi & Hn & Hsl & Hcase); [| done].
      destruct Hcase as [(ty & Hk & -> & ->)|(o & v & sl' & Hk & -> & Hfill & ->)].
      * apply IH in H as [Hh Hp]; [| done | by rewrite length_insert]. split; [done |]. by eapply (p_switch ix s i f ty).
      * apply Forall_cons in Htr as [_ Htr]. apply IH in H as [Hh Hp]; [| done | by rewrite length_insert].
        split; [done |]. by eapply (p_option ix s i f o).
  - assert (operand ended arg) as Ho by (apply andb_false_iff in Ed as [Ed|Ed%negb_false_iff]; [by right | by left]).
    rewrite res_bind_Ok. intros (r & Hsub%parse_subcommand_Ok & H). destruct r as [s1|].
    + destruct Hsub as (i & f & opt & cmds & parse & v & H1 & H2 & H3 & H4 & ->). injection H as <-. split; [done |]. by eapply p_subcommand.
    + apply res_bind_Ok in H as ([[s1 ix1] e1] & Hpos & H). unfold parse_positional in Hpos.
      destruct (positional_fields fields !! ix) as [i|] eqn:Hix; [| done]. cbn [mbind option_bind] in Hpos.
      destruct (fields !! i) as [f|] eqn:Hf; [| done]. cbn [mbind option_bind] in Hpos. destruct (s !! i) as [sl|] eqn:Hsl; [| done].
      cbn [mbind option_bind] in Hpos. destruct (fill_slot f sl arg) as [sl'| |] eqn:Hfill; [| done..]. cbn [map_err mbind res_bind] in Hpos.
      fold (stays ix) in Hpos. assert (s1 = <[i := sl']> s /\ ix1 = (if stays ix then ix else S ix) /\ e1 = stays ix && last_positional_is_greedy fields) as (-> & -> & ->)
        by (destruct (stays ix); by injection Hpos as <- <- <-).
      apply IH in H as [Hh Hp]; [| done | by rewrite length_insert]. split; [done |]. by eapply p_positional.
Qed.
End Grammar.

(** ** Requirements *)

Definition complete (fields : list Field) (s : list Slot) : Prop :=
  Forall (fun fs => is_required fs.1 && is_none fs.2 = false) (combine fields s).

Definition clean (m : MissingRequirements) : bool :=
  match m with mkMissing [] None [] => true | _ => false end.

Lemma err_on_any_clean m : if clean m then err_on_any m = Ok tt else exists msg, err_on_any m = Err msg.
Proof. destruct m as [[|o opts] [subs|] [|a pos]]; cbn; try done; by eexists. Qed.

Lemma append_clean m fs : clean (append_missing_requirement m fs) = clean m && negb (is_required fs.1 && is_none fs.2).
Proof.
  destruct fs as [f s]. cbn [fst snd]. unfold append_missing_requirement. destruct (is_required f && is_none s) eqn:E; [| by rewrite andb_true_r].
  rewrite andb_false_r. apply andb_true_iff in E as [Hr _]. unfold is_required in Hr.
  destruct (kind f); [done | | |]; destruct m as [[|x1 opts] [subs|] [|x2 pos]]; done.
Qed.

Lemma missing_clean l m : clean (foldl append_missing_requirement m l) = clean m && forallb (fun fs => negb (is_required fs.1 && is_none fs.2)) l.
Proof.
  revert m. induction l as [|fs l IH]; intros m; cbn [foldl forallb]; [by rewrite andb_true_r |].
  by rewrite IH, append_clean, andb_assoc.
Qed.

Lemma complete_clean fields s :
  complete fields s <-> clean (foldl append_missing_requirement (mkMissing [] None []) (combine fields s)) = true.
Proof.
  rewrite missing_clean. cbn [clean andb]. unfold complete. rewrite Forall_forall, forallb_forall. setoid_rewrite <- list_elem_of_In.
  split; intros H x Hx; specialize (H x Hx); [by rewrite H | by apply negb_true_iff].
Qed.

Lemma unwrap_field_complete f s : is_required f && is_none s = false -> exists s', unwrap_field f s = Ok s'.
Proof.
  unfold is_required, unwrap_field. destruct (kind f) as [ty|[]|[] g|[] c p]; destruct s as [| | |[]| |[]|[]]; cbn; try done; by eexists.
Qed.

Lemma unwrap_fields_complete fields s : complete fields s -> exists r, unwrap_fields fields s = Ok r.
Proof.
  revert s. induction fields as [|f fields IH]; intros [|x s]; cbn [unwrap_fields]; try (by eexists).
  unfold complete. cbn [combine]. intros [H1 H2]%Forall_cons. destruct (unwrap_field_complete f x H1) as [x' ->].
  destruct (IH s H2) as [r Hr]. cbn [mbind res_bind]. rewrite Hr. by eexists.
Qed.

(** ** Nothing aborts *)

Definition same_shape (a b : Slot) : bool :=
  match a, b with
  | FlagBool _, FlagBool _ | FlagOpt _, FlagOpt _ | FlagInt _ _, FlagInt _ _ | One _, One _ | Many _, Many _ | OptMany _, OptMany _ | Sub _, Sub _ => true
  | _, _ => false
  end.

Definition slots_ok (fields : list Field) (s : list Slot) : Prop := Forall2 (fun f x => same_shape (init_slot f) x = true) fields s.

Definition no_panic (f : Field) : Prop :=
  (forall v, parse_value f v <> Panic) /\
  match kind f with SubCommand _ _ parse => forall c a, parse c a <> Panic | _ => True end.

Lemma slots_ok_insert fields s i f x :
  slots_ok fields s -> fields !! i = Some f -> same_shape (init_slot f) x = true -> slots_ok fields (<[i := x]> s).
Proof.
  intros Hs Hf Hx. apply Forall2_same_length_lookup in Hs as [Hl Hs]. apply Forall2_same_length_lookup. split; [by rewrite length_insert |].
  intros j g y Hg Hy. destruct (decide (i = j)) as [->|Hne].
  - rewrite list_lookup_insert_eq in Hy by (rewrite <- Hl; by eapply lookup_lt_Some). by simplify_eq.
  - rewrite list_lookup_insert_ne in Hy by done. by apply (Hs j).
Qed.

Lemma set_flag_shape f x ty : kind f = Switch ty -> same_shape (init_slot f) x = true -> same_shape (init_slot f) (set_flag x) = true.
Proof. unfold init_slot. intros ->. by destruct ty, x. Qed.

Lemma fill_slot_shape f x v :
  match kind f with Option_ _ | Positional _ _ => True | _ => False end -> no_panic f -> same_shape (init_slot f) x = true ->
  match fill_slot f x v with Ok x' => same_shape (init_slot f) x' = true | Err _ => True | Panic => False end.
Proof.
  intros Hk [Hp _]. specialize (Hp v). unfold fill_slot, init_slot. destruct (kind f) as [ty|o|o g|]; try done; destruct o;
    destruct x as [| | |[]| | |]; try done; cbn; intros _; destruct (parse_value f v); done.
Qed.

Lemma lookup_slots_ok fields s i f x :
  slots_ok fields s -> fields !! i = Some f -> s !! i = Some x -> same_shape (init_slot f) x = true.
Proof. intros Hs Hf Hx. by eapply Forall2_lookup_lr in Hs. Qed.

Lemma indices_from_spec P k fields n i : indices_from P k fields !! n = Some i -> exists j f, i = (k + j)%nat /\ fields !! j = Some f /\ P f = true.
Proof.
  revert k n. induction fields as [|f fields IH]; intros k n; cbn [indices_from]; [done |]. destruct (P f) eqn:Ep.
  - destruct n as [|n]; [intros [= <-]; exists 0%nat, f; split_and!; [lia | done | done] |]. intros (j & g & -> & Hj & Hg)%IH.
    exists (S j), g. split_and!; [lia | done | done].
  - intros (j & g & -> & Hj & Hg)%IH. exists (S j), g. split_and!; [lia | done | done].
Qed.

Section Total.
Context (fields : list Field) (triggers cmd : list bytes).
Hypothesis Hwf : fields_wf fields.
Hypothesis Hnp : Forall no_panic fields.

Lemma parse_option_total n rem s :
  slots_ok fields s ->
  match parse_option fields triggers n rem s with Ok (s', rem') => slots_ok fields s' /\ (length rem' <= length rem)%nat | Err _ => True | Panic => False end.
Proof.
  intros Hs. pose proof (lookup_name fields n Hwf) as Hl. destruct (find_map_name n _) as [i|] eqn:E.
  2: { unfold parse_option. by rewrite E. }
  destruct Hl as (f & Hi & Hn & Hf & _). pose proof Hs as Hlen%Forall2_length.
  destruct (lookup_lt_is_Some_2 s i) as [sl Hsl]; [rewrite <- Hlen; by eapply lookup_lt_Some |].
  pose proof (lookup_slots_ok _ _ _ _ _ Hs Hi Hsl) as Hsh. assert (no_panic f) as Hnpf by (rewrite Forall_lookup in Hnp; by eapply Hnp).
  rewrite (parse_option_name fields triggers Hwf n i f sl) by done. unfold is_flag in Hf. destruct (kind f) as [ty|o| |] eqn:Ek; try done.
  - split; [| done]. eapply slots_ok_insert; [done | done | by eapply set_flag_shape].
  - destruct rem as [|v rem]; [done |]. pose proof (fill_slot_shape f sl v) as Hfill. rewrite Ek in Hfill. specialize (Hfill I Hnpf Hsh).
    destruct (fill_slot f sl v); cbn [map_err mbind res_bind]; try done. split; [by eapply slots_ok_insert | cbn; lia].
Qed.

Lemma parse_subcommand_total help arg rem s : parse_subcommand fields help cmd arg rem s <> Panic.
Proof.
  unfold parse_subcommand, subcommand_field. destruct (head _) as [i|]; [| done]. cbn [mbind option_bind].
  destruct (fields !! i) as [f|] eqn:Hf; [| done]. cbn [mbind option_bind]. rewrite Forall_lookup in Hnp. destruct (Hnp i f Hf) as [_ Hsub].
  destruct (kind f) as [| | |opt cmds parse]; try done. case_bool_decide; [| done].
  specialize (Hsub (cmd ++ [arg]) (if help then #"help" :: rem else rem)). by destruct (parse _ _).
Qed.

Lemma parse_positional_total ix arg s :
  slots_ok fields s -> match parse_positional fields ix arg s with Ok (s', _, _) => slots_ok fields s' | Err _ => True | Panic => False end.
Proof.
  intros Hs. unfold parse_positional. destruct (positional_fields fields !! ix) as [i|] eqn:Hix; [| done]. cbn [mbind option_bind].
  apply indices_from_spec in Hix as (j & f & -> & Hf & Hpos). cbn [Nat.add]. rewrite Hf. cbn [mbind option_bind].
  destruct (s !! j) as [sl|] eqn:Hsl; [| done]. cbn [mbind option_bind]. rewrite Forall_lookup in Hnp. pose proof (Hnp j f Hf) as Hnpf.
  pose proof (fill_slot_shape f sl arg) as Hfill. unfold is_positional in Hpos. destruct (kind f); try done.
  specialize (Hfill I Hnpf (lookup_slots_ok _ _ _ _ _ Hs Hf Hsl)). destruct (fill_slot f sl arg); cbn [map_err mbind res_bind]; try done.
  destruct (_ && _); by eapply slots_ok_insert.
Qed.

Lemma parse_loop_total fuel args st :
  (length args <= fuel)%nat -> slots_ok fields (slots st) -> parse_loop fields triggers fuel cmd args st <> Panic.
Proof.
  revert args st. induction fuel as [|fuel IH]; intros [|arg args] st Hlen Hs; cbn in Hlen; try lia; cbn [parse_loop]; try done.
  destruct (_ && negb _); [apply IH; [lia | done] |]. destruct (_ && negb _).
  - case_bool_decide; [apply IH; [lia | done] |]. destruct (help st); [done |].
    pose proof (parse_option_total arg args (slots st) Hs) as Ho. destruct (parse_option _ _ _ _ _) as [[s' rem']| |]; cbn [mbind res_bind]; try done.
    apply IH; [lia | apply Ho].
  - pose proof (parse_subcommand_total (help st) arg args (slots st)) as Hsub.
    destruct (parse_subcommand _ _ _ _ _ _) as [[s'|]| |]; cbn [mbind res_bind]; try done.
    pose proof (parse_positional_total (positional_index st) arg (slots st) Hs) as Hp.
    destruct (parse_positional _ _ _ _) as [[[s' ix'] e']| |]; cbn [mbind res_bind]; try done. by apply IH; [lia |].
Qed.
End Total.

Lemma init_slots_ok fields : slots_ok fields (map init_slot fields).
Proof. unfold slots_ok. induction fields as [|f fields IH]; cbn [map]; constructor; [by destruct (init_slot f) | done]. Qed.
End Args.
Arguments Optionality V : clear implicits.
Arguments FieldKind V : clear implicits.
Arguments Field V : clear implicits.
Arguments Slot V : clear implicits.

(** C7: The parser that is derived for a struct whose options and switches come before
    its positionals and subcommand, with unique names, accepts exactly the command lines of
    the grammar: each argument is taken for the field it names or the next positional,
    and every required field gets a value. Missing values are filled with the
    defaults. No command line, well-formed or not, makes it abort. *)
Theorem from_args_grammar {V} (fields : list (Field V)) triggers cmd args r :
  fields_wf fields -> Forall no_panic fields -> Forall (fun a => a ∉ triggers) args ->
  from_args fields triggers cmd args <> Panic /\
  (from_args fields triggers cmd args = Ok r <->
   exists s, parses fields cmd false 0 (map init_slot fields) args s /\ complete fields s /\ unwrap_fields fields s = Ok r).
Proof.
  intros Hwf Hnp Htr. unfold from_args, parse_struct_args.
  pose proof (parse_loop_total fields triggers cmd Hwf Hnp (length args) args (mkPState (map init_slot fields) false 0 false) (le_n _) (init_slots_ok _)) as Ht.
  assert (forall s, clean (foldl append_missing_requirement (mkMissing [] None []) (combine fields s)) = false ->
    exists msg, err_on_any (foldl append_missing_requirement (mkMissing [] None []) (combine fields s)) = Err msg) as Hbad.
  { intros s Hc. pose proof (err_on_any_clean (foldl append_missing_requirement (mkMissing [] None []) (combine fields s))) as H. by rewrite Hc in H. }
  split.
  - destruct (parse_loop _ _ _ _ _ _) as [st| |]; cbn [mbind res_bind]; try done. destruct (help st); [done |]. cbn [mbind res_bind].
    destruct (clean (foldl append_missing_requirement (mkMissing [] None []) (combine fields (slots st)))) eqn:Hc.
    + pose proof (err_on_any_clean (foldl append_missing_requirement (mkMissing [] None []) (combine fields (slots st)))) as H. rewrite Hc in H. rewrite H.
      cbn [map_err mbind res_bind]. apply complete_clean, unwrap_fields_complete in Hc as [r' ->]. done.
    + destruct (Hbad _ Hc) as [msg ->]. done.
  - split.
    + rewrite res_bind_Ok. intros (s & Hp & H). apply res_bind_Ok in Hp as (st & Hl & Hh). apply res_bind_Ok in H as (u & He & Hu).
      apply parse_loop_parses in Hl as [Hhelp Hps]; [| done | done | by rewrite length_map]. rewrite Hhelp in Hh. injection Hh as <-.
      exists (slots st). split_and!; [done | | done]. apply complete_clean.
      destruct (clean _) eqn:Hc; [done |]. destruct (Hbad _ Hc) as [msg Hm]. by rewrite Hm in He.
    + intros (s & Hps & Hc & Hu). destruct (parses_parse_loop fields triggers cmd Hwf _ _ _ _ _ Hps Htr (length args) (le_n _)) as (st & -> & Hh & Hs).
      cbn [mbind res_bind]. rewrite Hh. cbn [mbind res_bind]. rewrite Hs. apply complete_clean in Hc.
      pose proof (err_on_any_clean (foldl append_missing_requirement (mkMissing [] None []) (combine fields s))) as H. rewrite Hc in H. by rewrite H.
Qed.

(** ** Structs of the program *)

(** [FromStr] of [String] and [Utf8CString] do not fail. *)
Definition string_value (v : bytes) : res bytes bytes := Ok v.

Definition a_switch (name : bytes) (short : option bytes) (long : option (option bytes)) : Field bytes :=
  mkField name (Switch TBool) short long None string_value.
Definition a_positional (name : bytes) (arg : option bytes) (o : Optionality bytes) (greedy : bool) : Field bytes :=
  mkField name (Positional o greedy) None None arg string_value.
Definition an_option (name : bytes) (short : option bytes) (long : option (option bytes)) (o : Optionality bytes) : Field bytes :=
  mkField name (Option_ o) short long None string_value.

(** boot/cpio.rs *)
Definition Exists_fields : list (Field bytes) := [a_positional #"path" (Some #"entry") Required false].
Definition Backup_fields : list (Field bytes) := [a_positional #"origin" (Some #"orig") Required false; a_switch #"skip_compress" (Some #"n") None].
Definition Remove_fields : list (Field bytes) := [a_positional #"path" (Some #"entry") Required false; a_switch #"recursive" (Some #"r") None].
Definition List_fields : list (Field bytes) :=
  [a_switch #"recursive" (Some #"r") None; a_positional #"path" None (Defaulted #"/") false].

(** boot/cli.rs *)
Definition Unpack_fields : list (Field bytes) :=
  [a_switch #"no_decompress" (Some #"n") (Some None); a_switch #"dump_header" (Some #"h") (Some None); a_positional #"img" None Required false].

(** core/resetprop/cli.rs *)
Definition ResetProp_fields : list (Field bytes) :=
  [a_switch #"verbose" (Some #"v") None; a_switch #"wait_mode" (Some #"w") (Some None); a_switch #"persist" (Some #"p") (Some None);
   a_switch #"persist_only" (Some #"P") (Some None); a_switch #"context" (Some #"Z") (Some None); a_switch #"skip_svc" (Some #"n") (Some None);
   an_option #"file" (Some #"f") None Optional; an_option #"delete_key" (Some #"d") (Some (Some #"delete")) Optional;
   a_positional #"args" None Repeating true].

Definition fields_wf_b (fields : list (Field bytes)) : bool :=
  bool_decide (NoDup (map fst (entries_from 0 fields))) && forallb (fun f => is_flag f || negb (bool_decide (is_Some (short f)))) fields && options_first fields.

Lemma fields_wf_decide fields : fields_wf_b fields = true -> fields_wf fields.
Proof.
  unfold fields_wf_b. intros [[Hn%bool_decide_eq_true Hs]%andb_true_iff Ho]%andb_true_iff. split; [done | | done].
  intros i f Hf Hflag. rewrite forallb_forall in Hs. assert (List.In f fields) as Hin by (apply list_elem_of_In; by eapply list_elem_of_lookup_2).
  apply Hs in Hin. rewrite Hflag in Hin. cbn in Hin. apply negb_true_iff, bool_decide_eq_false in Hin. by apply eq_None_not_Some.
Qed.

Lemma from_args_grammar_witness :
  exists s, parses ResetProp_fields [ #"resetprop"] false 0 (map init_slot ResetProp_fields) [ #"-n"; #"ro.x"; #"-1"] s /\
    unwrap_fields ResetProp_fields s =
    Ok [FlagBool false; FlagBool false; FlagBool false; FlagBool false; FlagBool false; FlagBool true; One None; One None; Many [ #"ro.x"; #"-1"]].
Proof.
  destruct (from_args_grammar ResetProp_fields top_level_triggers [ #"resetprop"] [ #"-n"; #"ro.x"; #"-1"]
    [FlagBool false; FlagBool false; FlagBool false; FlagBool false; FlagBool false; FlagBool true; One None; One None; Many [ #"ro.x"; #"-1"]]) as [_ H].
  - apply fields_wf_decide. vm_compute. reflexivity.
  - repeat (apply List.Forall_cons; [split; [intros v; discriminate | exact I] |]). apply List.Forall_nil.
  - repeat (apply List.Forall_cons; [apply (bool_decide_unpack _); vm_compute; exact I |]). apply List.Forall_nil.
  - destruct (proj1 H) as (s & Hp & _ & Hu); [vm_compute; reflexivity |]. exists s. split; [exact Hp | exact Hu].
Defined.

(** Where the table of names and the table of slots disagree, because a positional or the
    subcommand is declared before an option: the name leads past the end of the slots. *)
Theorem option_after_positional_aborts {V} (fields : list (Field V)) triggers cmd i f n args :
  NoDup (map fst (entries_from 0 fields)) -> fields !! i = Some f -> n ∈ names f -> dashed n -> n ∉ triggers ->
  (length (flag_output_table fields) <= i)%nat -> from_args fields triggers cmd (n :: args) = Panic.
Proof.
  intros Hu Hf Hn [Hd Hne] Ht Hlen. unfold from_args, parse_struct_args. cbn [length parse_loop]. rewrite bool_decide_eq_false_2 by done.
  cbn [andb help options_ended slots]. rewrite Hd, (bool_decide_eq_false_2 (n = _)) by done. cbn [andb negb].
  unfold parse_option. assert (find_map_name n (flag_str_to_output_table_map_entries fields) = Some i) as ->.
  { apply find_map_name_spec; [done |]. apply entries_from_spec. by exists i, f. }
  by rewrite (lookup_ge_None_2 (flag_output_table fields) i) by done.
Qed.

(** So are the switches of "rm" and "backup" in the cpio commands. *)
Theorem cpio_switches_abort :
  from_args Remove_fields [] [ #"rm"] [ #"-r"; #"overlay.d"] = Panic /\
  from_args Remove_fields [] [ #"rm"] [ #"overlay.d"; #"-r"] = Panic /\
  from_args Backup_fields [] [ #"backup"] [ #"ramdisk.cpio.orig"; #"-n"] = Panic /\
  from_args List_fields [] [ #"ls"] [ #"-r"; #"/"] = Ok [FlagBool true; One (Some #"/")].
Proof. vm_compute. done. Qed.

(** A help option before a subcommand is handed on to it as the argument "help", which
    no subcommand takes for a request for help: "magiskboot --help unpack" unpacks the
    file "help". *)
Definition a_subcommand (commands : list bytes) (fields : list (Field bytes)) : Field (list (Slot bytes)) :=
  mkField #"action" (SubCommand false commands (from_args fields [])) None None None (fun _ => Err []).

Theorem help_becomes_argument :
  from_args [a_subcommand [ #"unpack"] Unpack_fields] top_level_triggers [ #"magiskboot"] [ #"--help"; #"unpack"] =
  Ok [Sub (Some [FlagBool false; FlagBool false; One (Some #"help")])].
Proof. vm_compute. done. Qed.
End Args.
