(* ===== verification/Derive.v ===== *)
(** base/derive/argh: the macro [#[derive(FromArgs)]] itself, which runs at compile time: it
    reads the attributes of a struct or an enum, reports errors, and fixes the fields and the
    tables that the generated method (see Args) works with.

    The syntax tree is that of the crate syn, which parses it; a piece of tokens that the
    macro has parsed further is given with the results.  Positions are left out. *)

From S2P Require Import Prelude Text Numeric Args.

#[local] Set Warnings "-register-all".

Module Derive.

(** * Errors

    [Errors] collects messages; the macro goes on after an error.  [None]: the macro panics,
    and the messages are lost. *)

Definition W (A : Type) : Type := option (list bytes * A).
#[export] Instance W_ret : MRet W := fun A a => Some ([], a).
#[export] Instance W_bind : MBind W := fun A B f m =>
  match m with Some (e1, a) => match f a with Some (e2, b) => Some (e1 ++ e2, b) | None => None end | None => None end.

Definition err (msg : bytes) : W unit := Some ([msg], tt).
Definition panic {A} : W A := None.
Definition quoted (s : bytes) : bytes := [bof 34] ++ s ++ [bof 34].

Definition duplicate_attrs (attr_kind : bytes) : W unit :=
  Some ([ #"Duplicate " ++ attr_kind ++ #" attribute"; #"First " ++ attr_kind ++ #" attribute here"], tt).

(** * Syntax *)

(** Literals; another literal with the name of its kind. *)
Inductive Lit := LStr (s : bytes) | LChar (c : bytes) | LInt (digits : bytes) | LOther (kind : bytes).
Inductive Expr := ELit (l : Lit) | EIdent (i : bytes) | EOther.

(** A list with what its tokens are parsed as: attributes, the path of a function, a code and
    a message (and whether there is more after them), expressions.  Paths are their segments. *)
Inductive Meta :=
| MPath (p : list bytes)
| MList (p : list bytes) (metas : option (list Meta)) (fn_path : option bytes) (code : option (Expr * Expr * bool)) (exprs : option (list Expr))
| MNameValue (p : list bytes) (value : Expr).

Definition meta_path (m : Meta) : list bytes := match m with MPath p | MList p _ _ _ _ | MNameValue p _ => p end.
Definition is_ident (m : Meta) (name : bytes) : bool := bool_decide (meta_path m = [name]).

Inductive Ty := TyPath (qself : bool) (segments : list Seg) | TyOther
with Seg := mkSeg (seg_ident : bytes) (seg_args : option (list GenericArg))
with GenericArg := GType (t : Ty) | GOther.

Definition seg_ident (s : Seg) : bytes := match s with mkSeg i _ => i end.
Definition seg_args (s : Seg) : option (list GenericArg) := match s with mkSeg _ a => a end.

Record SynField := mkSynField { f_ident : bytes; f_ty : Ty; f_attrs : list Meta }.
Inductive Fields := Named (fs : list SynField) | Unnamed (fs : list SynField) | Unit.
Record Variant := mkVariant { v_ident : bytes; v_fields : Fields; v_attrs : list Meta }.
Inductive Data := Struct (fields : Fields) | Enum (variants : list Variant) | Union.
Record DeriveInput := mkInput { d_ident : bytes; d_attrs : list Meta; d_data : Data }.

(** [expect_lit_*] and [expect_meta_*]. *)
Definition lit_kind (l : Lit) : bytes := match l with LStr _ => #"string" | LChar _ => #"character" | LInt _ => #"integer" | LOther k => k end.
Definition unexpected_lit (expected : bytes) (found : Expr) : W unit :=
  err (match found with
       | ELit l => #"Expected " ++ expected ++ #" literal, found " ++ lit_kind l ++ #" literal"
       | _ => #"Expected " ++ expected ++ #" literal, found non-literal expression."
       end).
Definition expect_lit_str (e : Expr) : W (option bytes) :=
  match e with ELit (LStr s) => mret (Some s) | _ => _ ← unexpected_lit #"string" e; mret None end.
Definition expect_lit_char (e : Expr) : W (option bytes) :=
  match e with ELit (LChar c) => mret (Some c) | _ => _ ← unexpected_lit #"character" e; mret None end.
Definition expect_lit_int (e : Expr) : W (option bytes) :=
  match e with ELit (LInt n) => mret (Some n) | _ => _ ← unexpected_lit #"integer" e; mret None end.

Definition meta_kind (m : Meta) : bytes := match m with MPath _ => #"path" | MList _ _ _ _ _ => #"list" | MNameValue _ _ => #"name-value pair" end.
Definition unexpected_meta (expected : bytes) (found : Meta) : W unit :=
  err (#"Expected " ++ expected ++ #" attribute, found " ++ meta_kind found ++ #" attribute").
Definition expect_meta_word (m : Meta) : W (option (list bytes)) :=
  match m with MPath p => mret (Some p) | _ => _ ← unexpected_meta #"path" m; mret None end.
Definition expect_meta_name_value (m : Meta) : W (option Expr) :=
  match m with MNameValue _ v => mret (Some v) | _ => _ ← unexpected_meta #"name-value pair" m; mret None end.

Section Derive.
(** What is not ASCII: whether a character is a lowercase letter, whether it is a letter or a
    digit.  What syn reports for tokens it cannot parse and for a number; the tokens of a
    default value. *)
Context (wide_lowercase wide_alphanumeric : bytes -> bool).
Context (syn_error : bytes) (int_error : bytes -> bytes) (lex : bytes -> option bytes).

Definition expect_meta_list (m : Meta) : W (option Meta) :=
  match m with MList _ _ _ _ _ => mret (Some m) | _ => _ ← unexpected_meta #"list" m; mret None end.
(** [Errors::ok] of a parse. *)
Definition ok {A} (o : option A) : W (option A) := match o with Some a => mret (Some a) | None => _ ← err syn_error; mret None end.

(** * Characters *)

(** The characters of a text, by their first bytes. *)
Definition char_width (c : byte) : nat :=
  let v := bval c in if v <? 128 then 1 else if v <? 224 then 2 else if v <? 240 then 3 else 4.
Fixpoint chars_go (fuel : nat) (s : bytes) : list bytes :=
  match fuel, s with
  | S fuel, c :: _ => take (char_width c) s :: chars_go fuel (drop (char_width c) s)
  | _, _ => []
  end.
Definition chars (s : bytes) : list bytes := chars_go (length s) s.

Definition is_lowercase (c : bytes) : bool := match c with [b] => in_rng 97 122 b | _ => wide_lowercase c end.
Definition is_alphanumeric (c : bytes) : bool :=
  match c with [b] => in_rng 48 57 b || in_rng 65 90 b || in_rng 97 122 b | _ => wide_alphanumeric c end.
Definition is_ascii_digit (c : bytes) : bool := match c with [b] => in_rng 48 57 b | _ => false end.
Definition is_ascii (s : bytes) : bool := forallb (fun b => bval b <? 128) s.
Definition is_ascii_punctuation (b : byte) : bool := in_rng 33 47 b || in_rng 58 64 b || in_rng 91 96 b || in_rng 123 126 b.

(** * Attributes *)

Inductive FieldKind := KSwitch | KOption | KSubCommand | KPositional.
#[export] Instance FieldKind_eq_dec : EqDecision FieldKind.
Proof. solve_decision. Defined.

Record Description := mkDescription { explicit : bool; content : bytes }.

Record FieldAttrs := mkFieldAttrs {
  default_ : option bytes; description : option Description; from_str_fn : option bytes; field_type : option FieldKind;
  long : option (option bytes); short : option bytes; arg_name : option bytes; greedy : bool; hidden_help : bool
}.
Definition FieldAttrs_default : FieldAttrs := mkFieldAttrs None None None None None None None false false.

(** The same attributes but for one. *)
Definition set_default x (a : FieldAttrs) := mkFieldAttrs x (description a) (from_str_fn a) (field_type a) (long a) (short a) (arg_name a) (greedy a) (hidden_help a).
Definition set_description x (a : FieldAttrs) := mkFieldAttrs (default_ a) x (from_str_fn a) (field_type a) (long a) (short a) (arg_name a) (greedy a) (hidden_help a).
Definition set_from_str_fn x (a : FieldAttrs) := mkFieldAttrs (default_ a) (description a) x (field_type a) (long a) (short a) (arg_name a) (greedy a) (hidden_help a).
Definition set_field_type x (a : FieldAttrs) := mkFieldAttrs (default_ a) (description a) (from_str_fn a) x (long a) (short a) (arg_name a) (greedy a) (hidden_help a).
Definition set_long x (a : FieldAttrs) := mkFieldAttrs (default_ a) (description a) (from_str_fn a) (field_type a) x (short a) (arg_name a) (greedy a) (hidden_help a).
Definition set_short x (a : FieldAttrs) := mkFieldAttrs (default_ a) (description a) (from_str_fn a) (field_type a) (long a) x (arg_name a) (greedy a) (hidden_help a).
Definition set_arg_name x (a : FieldAttrs) := mkFieldAttrs (default_ a) (description a) (from_str_fn a) (field_type a) (long a) (short a) x (greedy a) (hidden_help a).
Definition set_greedy (a : FieldAttrs) := mkFieldAttrs (default_ a) (description a) (from_str_fn a) (field_type a) (long a) (short a) (arg_name a) true (hidden_help a).
Definition set_hidden_help (a : FieldAttrs) := mkFieldAttrs (default_ a) (description a) (from_str_fn a) (field_type a) (long a) (short a) (arg_name a) (greedy a) true.

Definition check_long_name (value : bytes) : W unit :=
  _ ← (if is_ascii value then mret tt else err #"Long names must be ASCII");
  if forallb (fun c => is_lowercase c || bool_decide (c = #"-") || is_ascii_digit c) (chars value) then mret tt
  else err #"Long names may only contain lowercase letters, digits, and dashes".

Definition parse_attr_single_string (value : Expr) (name : bytes) (slot : option bytes) : W (option bytes) :=
  match slot with
  | Some _ => _ ← duplicate_attrs name; mret slot
  | None => expect_lit_str value
  end.

Definition parse_attr_multi_string (value : Expr) (l : list bytes) : W (list bytes) :=
  s ← expect_lit_str value; mret (match s with Some s => l ++ [s] | None => l end).

(** [long = none] of any case is no long name. *)
Definition lower (s : bytes) : bytes := map (fun b => if in_rng 65 90 b then bof (bval b + 32) else b) s.
Definition parse_attr_long (value : Expr) (a : FieldAttrs) : W FieldAttrs :=
  a ← match long a with
      | Some _ => _ ← duplicate_attrs #"long"; mret a
      | None =>
          match value with
          | EIdent i => if bool_decide (lower i = #"none") then mret (set_long (Some None) a) else _ ← unexpected_lit #"string" value; mret a
          | _ => s ← expect_lit_str value; mret (match s with Some s => set_long (Some (Some s)) a | None => a end)
          end
      end;
  _ ← match long a with Some (Some l) => check_long_name l | _ => mret tt end;
  mret a.

Definition char_is_ascii (c : bytes) : bool := match c with [b] => bval b <? 128 | _ => false end.
Definition parse_attr_short (value : Expr) (a : FieldAttrs) : W FieldAttrs :=
  match short a with
  | Some _ => _ ← duplicate_attrs #"short"; mret a
  | None =>
      c ← expect_lit_char value;
      match c with
      | Some c => _ ← (if char_is_ascii c then mret tt else err #"Short names must be ASCII"); mret (set_short (Some c) a)
      | None => mret a
      end
  end.

Definition parse_attr_fn_name (m : Meta) (attr_name : bytes) (slot : option bytes) : W (option bytes) :=
  _ ← match slot with Some _ => duplicate_attrs attr_name | None => mret tt end;
  ok (match m with MList _ _ p _ _ => p | _ => None end).

Definition parse_attr_field_type (m : Meta) (kind : FieldKind) (slot : option FieldKind) : W (option FieldKind) :=
  p ← expect_meta_word m;
  match p with
  | Some [_] => match slot with Some _ => _ ← duplicate_attrs #"field kind"; mret slot | None => mret (Some kind) end
  | Some _ => match slot with Some _ => _ ← duplicate_attrs #"field kind"; mret slot | None => mret slot end
  | None => mret slot
  end.

(** [unescape_doc]: on bytes, since all characters it looks for are ASCII. *)
Fixpoint unescape_doc (s : bytes) : bytes :=
  match s with
  | [] => []
  | c :: s =>
      let push c := if bool_decide (c = bof 123) || bool_decide (c = bof 125) then [c; c] else [c] in
      match s with
      | n :: s' => if bool_decide (c = bof 92) && is_ascii_punctuation n then push n ++ unescape_doc s' else push c ++ unescape_doc s
      | [] => push c
      end
  end.

Definition parse_attr_doc (m : Meta) (slot : option Description) : W (option Description) :=
  v ← expect_meta_name_value m;
  match v with
  | None => mret slot
  | Some v =>
      if match slot with Some d => explicit d | None => false end then mret slot else
      s ← expect_lit_str v;
      mret (match s with
            | Some s => Some (mkDescription false (match slot with Some d => content d ++ unescape_doc s | None => unescape_doc s end))
            | None => slot
            end)
  end.

Definition parse_attr_description (v : Expr) (slot : option Description) : W (option Description) :=
  s ← expect_lit_str v;
  match s with
  | None => mret slot
  | Some s =>
      _ ← (if match slot with Some d => explicit d | None => false end then duplicate_attrs #"description" else mret tt);
      mret (Some (mkDescription true s))
  end.

Definition check_option_description (desc : bytes) : W unit :=
  let bad := err #"Descriptions must begin with a lowercase letter" in
  match chars (trim desc) with
  | [] => bad
  | [x] => if is_lowercase x then mret tt else bad
  | x :: y :: _ => if is_lowercase x || (is_alphanumeric y && negb (is_lowercase y)) then mret tt else bad
  end.

Definition is_doc_attr (m : Meta) : bool := is_ident m #"doc".
Definition is_argh_attr (m : Meta) : bool := is_ident m #"argh".

(** The attributes in [#[argh(...)]]; [None] for other attributes and after an error. *)
Definition argh_attr_to_meta_list (m : Meta) : W (option (list Meta)) :=
  if negb (is_argh_attr m) then mret None else
  l ← expect_meta_list m;
  match l with
  | Some (MList _ metas _ _ _) => ok metas
  | _ => mret None
  end.

(** A sequence of steps on a state, each of which may report errors. *)
Fixpoint each {X S} (f : X -> S -> W S) (l : list X) (s : S) : W S :=
  match l with [] => mret s | x :: l => s ← f x s; each f l s end.

(** One attribute of a field. *)
Definition parse_field_meta (m : Meta) (a : FieldAttrs) : W FieldAttrs :=
  let name_value (f : Expr -> W FieldAttrs) := v ← expect_meta_name_value m; match v with Some v => f v | None => mret a end in
  let kind k := t ← parse_attr_field_type m k (field_type a); mret (set_field_type t a) in
  if is_ident m #"arg_name" then name_value (fun v => s ← parse_attr_single_string v #"arg_name" (arg_name a); mret (set_arg_name s a))
  else if is_ident m #"default" then name_value (fun v => s ← parse_attr_single_string v #"default" (default_ a); mret (set_default s a))
  else if is_ident m #"description" then name_value (fun v => d ← parse_attr_description v (description a); mret (set_description d a))
  else if is_ident m #"from_str_fn" then
    (l ← expect_meta_list m;
     match l with Some l => p ← parse_attr_fn_name l #"from_str_fn" (from_str_fn a); mret (set_from_str_fn p a) | None => mret a end)
  else if is_ident m #"long" then name_value (fun v => parse_attr_long v a)
  else if is_ident m #"option" then kind KOption
  else if is_ident m #"short" then name_value (fun v => parse_attr_short v a)
  else if is_ident m #"subcommand" then kind KSubCommand
  else if is_ident m #"switch" then kind KSwitch
  else if is_ident m #"positional" then kind KPositional
  else if is_ident m #"greedy" then mret (set_greedy a)
  else if is_ident m #"hidden_help" then mret (set_hidden_help a)
  else _ ← err (#"Invalid field-level `argh` attribute" ++ [newline] ++
                #"Expected one of: `arg_name`, `default`, `description`, `from_str_fn`, `greedy`, " ++
                #"`long`, `option`, `short`, `subcommand`, `switch`, `hidden_help`"); mret a.

Definition parse_field_attr (m : Meta) (a : FieldAttrs) : W FieldAttrs :=
  if is_doc_attr m then d ← parse_attr_doc m (description a); mret (set_description d a) else
  ml ← argh_attr_to_meta_list m;
  match ml with Some ml => each parse_field_meta ml a | None => mret a end.

Definition FieldAttrs_parse (attrs : list Meta) : W FieldAttrs :=
  a ← each parse_field_attr attrs FieldAttrs_default;
  _ ← match default_ a, field_type a with
      | Some _, Some (KSubCommand | KSwitch) => err #"`default` may only be specified on `#[argh(option)]` or `#[argh(positional)]` fields"
      | _, _ => mret tt
      end;
  _ ← match greedy a, field_type a with
      | true, Some KPositional => mret tt
      | true, Some _ => err #"`greedy` may only be specified on `#[argh(positional)]` fields"
      | _, _ => mret tt
      end;
  _ ← match description a with Some d => check_option_description (trim (content d)) | None => mret tt end;
  mret a.

(** ** Types *)

Record TypeAttrs := mkTypeAttrs {
  is_subcommand : bool; name : option bytes; t_description : option Description; examples : list bytes; notes : list bytes;
  error_codes : list (bytes * bytes); help_triggers : option (list bytes)
}.
Definition TypeAttrs_default : TypeAttrs := mkTypeAttrs false None None [] [] [] None.

Definition set_subcommand (t : TypeAttrs) := mkTypeAttrs true (name t) (t_description t) (examples t) (notes t) (error_codes t) (help_triggers t).
Definition set_name x (t : TypeAttrs) := mkTypeAttrs (is_subcommand t) x (t_description t) (examples t) (notes t) (error_codes t) (help_triggers t).
Definition set_t_description x (t : TypeAttrs) := mkTypeAttrs (is_subcommand t) (name t) x (examples t) (notes t) (error_codes t) (help_triggers t).
Definition set_examples x (t : TypeAttrs) := mkTypeAttrs (is_subcommand t) (name t) (t_description t) x (notes t) (error_codes t) (help_triggers t).
Definition set_notes x (t : TypeAttrs) := mkTypeAttrs (is_subcommand t) (name t) (t_description t) (examples t) x (error_codes t) (help_triggers t).
Definition set_error_codes x (t : TypeAttrs) := mkTypeAttrs (is_subcommand t) (name t) (t_description t) (examples t) (notes t) x (help_triggers t).
Definition set_help_triggers x (t : TypeAttrs) := mkTypeAttrs (is_subcommand t) (name t) (t_description t) (examples t) (notes t) (error_codes t) x.

Definition I32_MAX : Z := 2 ^ 31 - 1.

(** The codes seen before, in a list for the map. *)
Fixpoint check_codes (seen : list Z) (codes : list (bytes * bytes)) : W unit :=
  match codes with
  | [] => mret tt
  | (digits, _) :: codes =>
      match parse_uint 64 10 digits with
      | None => _ ← err (int_error digits); check_codes seen codes
      | Some value =>
          _ ← (if I32_MAX <? value then err #"Error code out of range for `i32`" else mret tt);
          if bool_decide (value ∈ seen) then
            _ ← err (#"Duplicate error code " ++ fmt_dec value);
            _ ← err (#"Error code " ++ fmt_dec value ++ #" previously defined here");
            check_codes seen codes
          else check_codes (value :: seen) codes
      end
  end.
Definition check_error_codes (t : TypeAttrs) : W unit := check_codes [] (error_codes t).

(** More tokens after the message are an error, but the code is kept. *)
Definition parse_attr_error_code (m : Meta) (t : TypeAttrs) : W TypeAttrs :=
  match m with
  | MList _ _ _ (Some (code, msg, more)) _ =>
      c ← expect_lit_int code;
      s ← expect_lit_str msg;
      _ ← (if more : bool then err syn_error else mret tt);
      mret (match c, s with Some c, Some s => set_error_codes (error_codes t ++ [(c, s)]) t | _, _ => t end)
  | _ => _ ← err syn_error; mret t
  end.

Definition parse_attr_example (v : Expr) (t : TypeAttrs) : W TypeAttrs := l ← parse_attr_multi_string v (examples t); mret (set_examples l t).
Definition parse_attr_note (v : Expr) (t : TypeAttrs) : W TypeAttrs := l ← parse_attr_multi_string v (notes t); mret (set_notes l t).

Definition parse_attr_name (v : Expr) (t : TypeAttrs) : W TypeAttrs :=
  n ← parse_attr_single_string v #"name" (name t);
  _ ← (if bool_decide (n = Some #"help") then err #"Custom `help` commands are not supported." else mret tt);
  mret (set_name n t).

Definition parse_attr_subcommand (t : TypeAttrs) : W TypeAttrs :=
  if is_subcommand t then _ ← duplicate_attrs #"subcommand"; mret t else mret (set_subcommand t).

(** What is not a string is left out. *)
Definition parse_help_triggers (m : Meta) (t : TypeAttrs) : W TypeAttrs :=
  match m with
  | MList _ _ _ _ (Some args) => mret (set_help_triggers (Some (omap (fun e => match e with ELit (LStr s) => Some s | _ => None end) args)) t)
  | _ => _ ← err syn_error; mret t
  end.

Definition parse_type_meta (m : Meta) (t : TypeAttrs) : W TypeAttrs :=
  let name_value (f : Expr -> W TypeAttrs) := v ← expect_meta_name_value m; match v with Some v => f v | None => mret t end in
  let list_ (f : Meta -> W TypeAttrs) := l ← expect_meta_list m; match l with Some l => f l | None => mret t end in
  if is_ident m #"description" then name_value (fun v => d ← parse_attr_description v (t_description t); mret (set_t_description d t))
  else if is_ident m #"error_code" then list_ (fun l => parse_attr_error_code l t)
  else if is_ident m #"example" then name_value (fun v => parse_attr_example v t)
  else if is_ident m #"name" then name_value (fun v => parse_attr_name v t)
  else if is_ident m #"note" then name_value (fun v => parse_attr_note v t)
  else if is_ident m #"subcommand" then
    (p ← expect_meta_word m; match p with Some [_] => parse_attr_subcommand t | _ => mret t end)
  else if is_ident m #"help_triggers" then list_ (fun l => parse_help_triggers l t)
  else _ ← err (#"Invalid type-level `argh` attribute" ++ [newline] ++
                #"Expected one of: `description`, `error_code`, `example`, `name`, " ++ #"`note`, `subcommand`, `help_triggers`"); mret t.

(** The message about help triggers is put at the attribute of this list: there is none when
    it stands in an earlier list. *)
Definition parse_type_attr (m : Meta) (t : TypeAttrs) : W TypeAttrs :=
  if is_doc_attr m then d ← parse_attr_doc m (t_description t); mret (set_t_description d t) else
  ml ← argh_attr_to_meta_list m;
  match ml with
  | None => mret t
  | Some ml =>
      t ← each parse_type_meta ml t;
      _ ← (if is_subcommand t && bool_decide (is_Some (help_triggers t)) then
             if existsb (fun m => is_ident m #"help_triggers") ml then err #"Cannot use `help_triggers` on a subcommand" else panic
           else mret tt);
      mret t
  end.

Definition TypeAttrs_parse (attrs : list Meta) : W TypeAttrs :=
  t ← each parse_type_attr attrs TypeAttrs_default; _ ← check_error_codes t; mret t.

(** ** Variants *)

Definition err_unused_enum_attr : W unit :=
  err (#"Unused `argh` attribute on `#![derive(FromArgs)]` enum. " ++ #"Such `enum`s can only be used to dispatch to subcommands, " ++
       #"and should only contain the #[argh(subcommand)] attribute.").

Definition fields_of (f : Fields) : list SynField := match f with Named fs | Unnamed fs => fs | Unit => [] end.

Definition parse_variant_meta (m : Meta) (is_dynamic : bool) : W bool :=
  if is_ident m #"dynamic" then
    if is_dynamic then _ ← duplicate_attrs #"dynamic"; mret true
    else p ← expect_meta_word m; mret (bool_decide (is_Some p))
  else _ ← err (#"Invalid variant-level `argh` attribute" ++ [newline] ++ #"Variants can only have the #[argh(dynamic)] attribute."); mret is_dynamic.

(** Whether the variant is dynamic. *)
Definition VariantAttrs_parse (v : Variant) : W bool :=
  _ ← each (fun m _ => if is_argh_attr m then err_unused_enum_attr else mret tt) (concat (map f_attrs (fields_of (v_fields v)))) tt;
  each (fun m d => ml ← argh_attr_to_meta_list m; match ml with Some ml => each parse_variant_meta ml d | None => mret d end) (v_attrs v) false.

Definition check_enum_type_attrs (t : TypeAttrs) : W unit :=
  let unused (b : bool) := if b then err_unused_enum_attr else mret tt in
  _ ← (if is_subcommand t then mret tt
       else err (#"`#![derive(FromArgs)]` on `enum`s can only be used to enumerate subcommands." ++ [newline] ++
                 #"Consider adding `#[argh(subcommand)]` to the `enum` declaration."));
  _ ← unused (bool_decide (is_Some (name t)));
  _ ← unused match t_description t with Some d => explicit d | None => false end;
  _ ← unused (negb (is_empty (examples t)));
  _ ← unused (negb (is_empty (notes t)));
  _ ← unused (negb (is_empty (error_codes t)));
  unused match help_triggers t with Some ts => negb (is_empty ts) | None => false end.

(** * Structs *)

Inductive Optionality := ONone | ODefaulted (tokens : bytes) | OOptional | ORepeating | ODefaultedRepeating (tokens : bytes).
Definition is_required (o : Optionality) : bool := match o with ONone => true | _ => false end.

Record StructField := mkStructField {
  field : SynField; attrs : FieldAttrs; kind : FieldKind; ty_without_wrapper : Ty; optionality : Optionality; long_name : option bytes
}.

(** The integer types of a switch, with their greatest values. *)
Definition int_types : list (bytes * Z) :=
  [ (#"u8", 2 ^ 8 - 1); (#"u16", 2 ^ 16 - 1); (#"u32", 2 ^ 32 - 1); (#"u64", 2 ^ 64 - 1); (#"u128", 2 ^ 128 - 1);
    (#"i8", 2 ^ 7 - 1); (#"i16", 2 ^ 15 - 1); (#"i32", 2 ^ 31 - 1); (#"i64", 2 ^ 63 - 1); (#"i128", 2 ^ 127 - 1)].

(** An empty list of arguments is indexed all the same. *)
Definition ty_can_be_switch (ty : Ty) : W bool :=
  match ty with
  | TyPath false [seg] =>
      let ident := bool_decide (seg_ident seg ∈ #"bool" :: map fst int_types) in
      if bool_decide (seg_ident seg = #"Option") then
        match seg_args seg with
        | Some [] => panic
        | Some (GType (TyPath _ (s :: _)) :: _) => mret (bool_decide (seg_ident s = #"bool") || ident)
        | _ => mret ident
        end
      else mret ident
  | _ => mret false
  end.

Definition ty_expect_switch (ty : Ty) : W bool :=
  res ← ty_can_be_switch ty;
  _ ← (if res : bool then mret tt else err #"switches must be of type `bool`, `Option<bool>`, or integer type");
  mret res.

Definition ty_inner (wrapper_names : list bytes) (ty : Ty) : option Ty :=
  match ty with
  | TyPath false segments =>
      seg ← last segments;
      if bool_decide (seg_ident seg ∈ wrapper_names) then
        match seg_args seg with Some (GType t :: _) => Some t | _ => None end
      else None
  | _ => None
  end.

Definition unraw (ident : bytes) : bytes := default ident (strip_prefix ident #"r#").

(** The kind of optionality and the type inside; [None] after an error. *)
Definition field_optionality (kind : FieldKind) (attrs : FieldAttrs) (ty : Ty) : W (option (Optionality * Ty)) :=
  match kind with
  | KSwitch => b ← ty_expect_switch ty; mret (if b : bool then Some (OOptional, ty) else None)
  | KOption | KPositional =>
      match default_ attrs with
      | Some d =>
          match lex d with
          | None => _ ← err #"Invalid tokens: unable to lex `default` value"; mret None
          | Some tokens =>
              mret (Some (match ty_inner [ #"Vec"] ty with Some x => (ODefaultedRepeating tokens, x) | None => (ODefaulted tokens, ty) end))
          end
      | None =>
          mret (Some (match ty_inner [ #"Option"] ty, ty_inner [ #"Vec"] ty with
                      | Some x, _ => (OOptional, x)
                      | None, Some x => (ORepeating, x)
                      | None, None => (ONone, ty)
                      end))
      end
  | KSubCommand => mret (Some (match ty_inner [ #"Option"] ty with Some x => (OOptional, x) | None => (ONone, ty) end))
  end.

(** The name in the attribute, or the name of the field with dashes. *)
Definition requested_long (attrs : FieldAttrs) (ident : bytes) : W (option bytes) :=
  match long attrs with
  | None => let kebab := Args.to_kebab_case (unraw ident) in _ ← check_long_name kebab; mret (Some kebab)
  | Some l => mret l
  end.

Definition field_long_name (kind : FieldKind) (attrs : FieldAttrs) (ident : bytes) : W (option bytes) :=
  match kind with
  | KSwitch | KOption =>
      l ← requested_long attrs ident;
      _ ← (if bool_decide (l = Some #"help") then err #"Custom `--help` flags are not supported." else mret tt);
      let l := app #"--" <$> l in
      _ ← match short attrs, l with None, None => err #"At least one of `short` or `long` has to be set." | _, _ => mret tt end;
      mret l
  | KSubCommand | KPositional => mret None
  end.

(** [StructField::new] *)
Definition StructField_new (f : SynField) (attrs : FieldAttrs) : W (option StructField) :=
  match field_type attrs with
  | None =>
      _ ← err (#"Missing `argh` field kind attribute." ++ [newline] ++ #"Expected one of: `switch`, `option`, `remaining`, `subcommand`, `positional`");
      mret None
  | Some kind =>
      o ← field_optionality kind attrs (f_ty f);
      match o with
      | None => mret None
      | Some (optionality, ty) =>
          long_name ← field_long_name kind attrs (f_ident f);
          mret (Some (mkStructField f attrs kind ty optionality long_name))
      end
  end.

Definition positional_arg_name (f : StructField) : bytes := default (Args.trim_underscores (f_ident (field f))) (arg_name (attrs f)).

(** A name is taken for granted. *)
Definition option_arg_name (f : StructField) : W bytes :=
  match short (attrs f), long_name f with
  | None, None => panic
  | Some short, None => mret (#"-" ++ short)
  | None, Some long => mret long
  | Some short, Some long => mret (#"-" ++ short ++ #"," ++ long)
  end.

(** The fields of the struct, less those with errors. *)
Fixpoint struct_fields (fs : list SynField) : W (list StructField) :=
  match fs with
  | [] => mret []
  | f :: fs =>
      attrs ← FieldAttrs_parse (f_attrs f);
      sf ← StructField_new f attrs;
      rest ← struct_fields fs;
      mret (match sf with Some sf => sf :: rest | None => rest end)
  end.

(** ** Checks *)

Definition seen_name (seen : list bytes) (msg : bytes) (name : option bytes) : W (list bytes) :=
  match name with
  | None => mret seen
  | Some n =>
      _ ← (if bool_decide (n ∈ seen) then
             _ ← err (#"The " ++ msg ++ n ++ [bof 34] ++ #" was already used here."); err #"Later usage here."
           else mret tt);
      mret (n :: seen)
  end.

Fixpoint unique_names (short_names long_names : list bytes) (fields : list StructField) : W unit :=
  match fields with
  | [] => mret tt
  | f :: fields =>
      s ← seen_name short_names (#"short name of " ++ [bof 34] ++ #"-") (short (attrs f));
      l ← seen_name long_names (#"long name of " ++ [bof 34]) (long_name f);
      unique_names s l fields
  end.
Definition ensure_unique_names (fields : list StructField) : W unit := unique_names [] [] fields.

Fixpoint trailing_optional (first_non_required : bool) (fields : list StructField) : W unit :=
  match fields with
  | [] => mret tt
  | f :: fields =>
      if bool_decide (kind f = KPositional) then
        if first_non_required && is_required (optionality f) then
          _ ← err #"Only trailing positional arguments may be `Option`, `Vec`, or defaulted.";
          err #"Later non-optional positional argument declared here."
        else trailing_optional (first_non_required || negb (is_required (optionality f))) fields
      else trailing_optional first_non_required fields
  end.
Definition ensure_only_trailing_positionals_are_optional (fields : list StructField) : W unit := trailing_optional false fields.

(** ** What is generated *)

Definition get_help_triggers (t : TypeAttrs) : list bytes :=
  if is_subcommand t then []
  else match help_triggers t with
       | None => [ #"-h"; #"--help"]
       | Some l => filter (fun s => s <> []) (map trim l)
       end.

(** The fields that must be given, with the name the message has for them; the message for a
    subcommand is made from its commands. *)
Definition append_missing_requirement (f : StructField) (l : list (StructField * bytes)) : W (list (StructField * bytes)) :=
  if negb (is_required (optionality f)) then mret l else
  match kind f with
  | KSwitch => panic
  | KPositional => mret (l ++ [(f, positional_arg_name f)])
  | KOption => n ← option_arg_name f; mret (l ++ [(f, n)])
  | KSubCommand => mret (l ++ [(f, [])])
  end.
Definition append_missing_requirements (fields : list StructField) : W (list (StructField * bytes)) :=
  each append_missing_requirement fields [].

(** The method [from_args]: its fields, whose tables are those of Args; the subcommand; the
    triggers. *)
Record Method := mkMethod { fields : list StructField; subcommand : option StructField; requirements : list (StructField * bytes); triggers : list bytes }.

Definition impl_from_args_struct_from_args (t : TypeAttrs) (fields : list StructField) : W Method :=
  let subcommands := filter (fun f => kind f = KSubCommand) fields in
  _ ← each (fun _ _ => duplicate_attrs #"subcommand") (tail subcommands) tt;
  missing ← append_missing_requirements fields;
  mret (mkMethod fields (head subcommands) missing (get_help_triggers t)).

(** [Some]: the name of a subcommand. *)
Definition top_or_sub_cmd_impl (t : TypeAttrs) : W (option bytes) :=
  if negb (is_subcommand t) then mret None else
  match name t with
  | Some n => mret (Some n)
  | None => _ ← err (#"`#[argh(name = " ++ [bof 34] ++ #"..." ++ [bof 34] ++ #")]` attribute is required for subcommands"); mret (Some [])
  end.

(** An enum: its variants with their types, and the variant of dynamic subcommands. *)
Inductive Generated :=
| GStruct (method : Method) (command : option bytes)
| GEnum (variants : list (bytes * Ty)) (dynamic : option (bytes * Ty))
| GNothing.

Definition impl_from_args_struct (t : TypeAttrs) (ds : Fields) : W Generated :=
  match ds with
  | Unnamed _ => _ ← err #"`#![derive(FromArgs)]` is not currently supported on tuple structs"; mret GNothing
  | Unit => _ ← err #"#![derive(FromArgs)]` cannot be applied to unit structs"; mret GNothing
  | Named fs =>
      fields ← struct_fields fs;
      _ ← ensure_unique_names fields;
      _ ← ensure_only_trailing_positionals_are_optional fields;
      method ← impl_from_args_struct_from_args t fields;
      command ← top_or_sub_cmd_impl t;
      mret (GStruct method command)
  end.

(** * Enums *)

Definition with_enum_suggestion (help_text : bytes) : bytes :=
  help_text ++ [newline] ++ #"Instead, use a variant with a single unnamed field for each subcommand:" ++ [newline] ++
  #"    enum MyCommandEnum {" ++ [newline] ++ #"        SubCommandOne(SubCommandOne)," ++ [newline] ++
  #"        SubCommandTwo(SubCommandTwo)," ++ [newline] ++ #"    }".

Definition enum_only_single_field_unnamed_variants (f : Fields) : W (option Ty) :=
  match f with
  | Named _ => _ ← err (with_enum_suggestion #"`#![derive(FromArgs)]` `enum`s do not support variants with named fields."); mret None
  | Unit => _ ← err (with_enum_suggestion #"`#![derive(FromArgs)]` does not support `enum`s with no variants."); mret None
  | Unnamed [f] => mret (Some (f_ty f))
  | Unnamed _ => _ ← err (with_enum_suggestion #"`#![derive(FromArgs)]` `enum` variants must only contain one field."); mret None
  end.

Definition enum_variant (v : Variant) (st : list (bytes * Ty) * option (bytes * Ty)) : W (list (bytes * Ty) * option (bytes * Ty)) :=
  let '(variants, dynamic) := st in
  ty ← enum_only_single_field_unnamed_variants (v_fields v);
  match ty with
  | None => mret st
  | Some ty =>
      d ← VariantAttrs_parse v;
      if d : bool then
        _ ← (if bool_decide (is_Some dynamic) then err #"Only one variant can have the `dynamic` attribute" else mret tt);
        mret (variants, Some (v_ident v, ty))
      else mret (variants ++ [(v_ident v, ty)], dynamic)
  end.

Definition impl_from_args_enum (t : TypeAttrs) (de : list Variant) : W Generated :=
  _ ← check_enum_type_attrs t;
  st ← each enum_variant de ([], None);
  mret (GEnum st.1 st.2).

(** [impl_from_args]: the code, and the errors that the compiler reports with it. *)
Definition impl_from_args (d : DeriveInput) : W Generated :=
  t ← TypeAttrs_parse (d_attrs d);
  match d_data d with
  | Struct ds => impl_from_args_struct t ds
  | Enum de => impl_from_args_enum t de
  | Union => _ ← err #"`#[derive(FromArgs)]` cannot be applied to unions"; mret GNothing
  end.

(** * What is accepted

    No error, no panic. *)

Lemma W_bind_ok {A B} (m : W A) (f : A -> W B) b : (m ≫= f) = Some ([], b) <-> exists a, m = Some ([], a) /\ f a = Some ([], b).
Proof.
  unfold mbind, W_bind. destruct m as [[e1 a]|]; [| by split; [| intros (? & ? & ?)]].
  destruct (f a) as [[e2 b']|] eqn:E; [| split; [done |]; intros (a' & [= -> ->] & Hf); by rewrite Hf in E]. split.
  - destruct e1; [| done]. destruct e2; [| done]. intros [= ->]. by exists a.
  - intros (a' & [= -> ->] & Hf). rewrite Hf in E. by injection E as <- <-.
Qed.

Lemma W_ret_ok {A} (a b : A) : (mret a : W A) = Some ([], b) <-> a = b.
Proof. split; [by intros [=] | by intros ->]. Qed.

Lemma W_err_ok msg u : err msg = Some ([], u) <-> False.
Proof. done. Qed.

Lemma each_ok {X S} (P : S -> Prop) (f : X -> S -> W S) l s s' :
  (forall x s s', x ∈ l -> P s -> f x s = Some ([], s') -> P s') -> P s -> each f l s = Some ([], s') -> P s'.
Proof.
  revert s. induction l as [|x l IH]; intros s Hf Hs; cbn [each].
  - intros [=]. by subst.
  - intros (s1 & H1 & H2)%W_bind_ok. eapply IH; [| | exact H2].
    + intros x' t t' Hx'. apply Hf, elem_of_cons. by right.
    + eapply Hf; [apply elem_of_cons; by left | exact Hs | exact H1].
Qed.

(** ** Names *)

Definition name_byte (b : byte) : bool := in_rng 97 122 b || bool_decide (b = "-"%char) || in_rng 48 57 b.

Lemma chars_go_ascii s fuel : is_ascii s = true -> (length s <= fuel)%nat -> chars_go fuel s = map (fun b => [b]) s.
Proof.
  revert s. induction fuel as [|fuel IH]; intros [|c s] Ha Hl; cbn in Hl; try done; [lia |].
  unfold is_ascii in Ha. cbn [forallb] in Ha. apply andb_true_iff in Ha as [Hc Ha]. cbn [chars_go map]. unfold char_width. rewrite Hc. cbn. f_equal.
  rewrite skipn_O. apply IH; [exact Ha | lia].
Qed.

Lemma check_long_name_ok s u : check_long_name s = Some ([], u) -> forallb name_byte s = true.
Proof.
  unfold check_long_name. rewrite W_bind_ok. intros (u' & Ha & Hf). destruct (is_ascii s) eqn:Ea; [| done].
  unfold chars in Hf. rewrite chars_go_ascii in Hf by done. clear Ha Ea. destruct (forallb _ _) eqn:E in Hf; [| done]. clear Hf.
  induction s as [|b s IH]; [done |]. cbn [map forallb] in E |- *. apply andb_true_iff in E as [Eb E]. rewrite (IH E), andb_true_r.
  etrans; [| exact Eb]. unfold name_byte. cbn [is_lowercase is_ascii_digit]. f_equal. f_equal. apply bool_decide_ext. split; [by intros -> | by intros [=]].
Qed.

(** The names in the attributes of a field. *)
Definition names_ok (a : FieldAttrs) : Prop :=
  (forall l, long a = Some (Some l) -> forallb name_byte l = true) /\ (forall c, short a = Some c -> exists b, c = [b]).

Ltac w_ok := repeat first
  [ progress (rewrite ?W_bind_ok, ?W_ret_ok, ?W_err_ok in *)
  | match goal with
    | H : exists _, _ |- _ => destruct H
    | H : _ /\ _ |- _ => destruct H
    | H : False |- _ => destruct H
    | H : (match ?x with _ => _ end) = Some ([], _) |- _ => destruct x eqn:?
    | H : None = Some _ |- _ => discriminate H
    | H : Some (_ :: _, _) = Some ([], _) |- _ => discriminate H
    | H : duplicate_attrs _ = Some ([], _) |- _ => discriminate H
    | H : panic = Some ([], _) |- _ => discriminate H
    end
  | progress simplify_eq ].

Lemma parse_attr_long_ok v a a' : names_ok a -> parse_attr_long v a = Some ([], a') -> names_ok a'.
Proof.
  intros [_ Hs] (a1 & H1 & (u & H2 & [= <-])%W_bind_ok)%W_bind_ok. split.
  - intros l Hl. rewrite Hl in H2. by apply check_long_name_ok in H2.
  - unfold expect_lit_str in H1. w_ok; exact Hs.
Qed.

Lemma parse_attr_short_ok v a a' : names_ok a -> parse_attr_short v a = Some ([], a') -> names_ok a'.
Proof.
  intros Ha H. unfold parse_attr_short in H. w_ok; [| exact Ha]. destruct Ha as [Hl _]. split; [exact Hl |]. intros c [= <-].
  match goal with H : char_is_ascii ?c = true |- _ => destruct c as [|b [|? ?]]; try done; by exists b end.
Qed.

Lemma parse_field_meta_ok m a a' : names_ok a -> parse_field_meta m a = Some ([], a') -> names_ok a'.
Proof.
  intros Ha H. unfold parse_field_meta in H. w_ok; try exact Ha; [by eapply parse_attr_long_ok | by eapply parse_attr_short_ok].
Qed.

Lemma parse_field_attr_ok m a a' : names_ok a -> parse_field_attr m a = Some ([], a') -> names_ok a'.
Proof.
  intros Ha H. unfold parse_field_attr in H. w_ok; try exact Ha.
  eapply (each_ok names_ok); [| exact Ha | eassumption]. intros x s s' _. apply parse_field_meta_ok.
Qed.

Lemma FieldAttrs_parse_ok l a : FieldAttrs_parse l = Some ([], a) -> names_ok a.
Proof.
  intros (a1 & H1 & H2)%W_bind_ok. w_ok; eapply (each_ok names_ok); try eassumption; try (by split);
    intros x s s' _; apply parse_field_attr_ok.
Qed.

(** ** Fields *)

Definition is_flag (k : FieldKind) : bool := match k with KSwitch | KOption => true | _ => false end.

(** The names of a field that went through the checks. *)
Record field_ok (f : StructField) : Prop := {
  ok_short : forall c, short (attrs f) = Some c -> exists b, c = [b];
  ok_long : forall l, long_name f = Some l -> exists n, l = #"--" ++ n /\ forallb name_byte n = true /\ n <> #"help";
  ok_named : is_flag (kind f) = true -> short (attrs f) = None -> is_Some (long_name f);
  ok_unnamed : is_flag (kind f) = false -> long_name f = None;
  ok_switch : kind f = KSwitch -> optionality f = OOptional /\ ty_without_wrapper f = f_ty (field f);
  ok_kind : field_type (attrs f) = Some (kind f);
  ok_derived : long_name f = if is_flag (kind f) then app #"--" <$> default (Some (Args.to_kebab_case (unraw (f_ident (field f))))) (long (attrs f)) else None
}.

Lemma requested_long_ok a ident l :
  names_ok a -> requested_long a ident = Some ([], l) ->
  l = default (Some (Args.to_kebab_case (unraw ident))) (long a) /\ forall n, l = Some n -> forallb name_byte n = true.
Proof.
  unfold requested_long. intros [Hl _] H. destruct (long a) as [l'|].
  - apply W_ret_ok in H as <-. split; [done |]. intros n ->. by apply Hl.
  - apply W_bind_ok in H as (u & Hc & H). apply W_ret_ok in H as <-. split; [done |]. intros n [= <-]. by eapply check_long_name_ok.
Qed.

Lemma field_long_name_ok k a ident l :
  names_ok a -> field_long_name k a ident = Some ([], l) ->
  l = (if is_flag k then app #"--" <$> default (Some (Args.to_kebab_case (unraw ident))) (long a) else None) /\
  (forall l', l = Some l' -> exists n, l' = #"--" ++ n /\ forallb name_byte n = true /\ n <> #"help") /\
  (is_flag k = true -> short a = None -> is_Some l).
Proof.
  intros Ha H. unfold field_long_name in H.
  destruct k; cbn [is_flag]; try (apply W_ret_ok in H as <-; split_and!; done);
    apply W_bind_ok in H as (l1 & [-> Hb]%requested_long_ok & H); try exact Ha;
    apply W_bind_ok in H as (u1 & H1 & (u2 & H2 & <-%W_ret_ok)%W_bind_ok);
    case_bool_decide as Hh; try done; destruct (default _ (long a)) as [n|]; cbn [fmap option_fmap option_map] in *;
    (split_and!; [done | intros l' [= <-]; exists n; split_and!; [done | by apply Hb | by intros ->] || done | by intros _ Hs; rewrite ?Hs in H2]).
Qed.

Lemma StructField_new_ok f a sf : names_ok a -> StructField_new f a = Some ([], sf) -> exists sf', sf = Some sf' /\ field sf' = f /\ attrs sf' = a /\ field_ok sf'.
Proof.
  intros Ha H. unfold StructField_new in H. destruct (field_type a) as [k|] eqn:Ek; [| by apply W_bind_ok in H as (? & ? & ?)].
  apply W_bind_ok in H as ([[o ty]|] & Ho & H).
  - apply W_bind_ok in H as (l & Hl & <-%W_ret_ok). destruct (field_long_name_ok _ _ _ _ Ha Hl) as (Hd & Hn & Hs).
    eexists. split_and!; [done.. |]. split; cbn [short attrs long_name kind field optionality ty_without_wrapper]; try done; [apply Ha | |].
    + intros Hk. by rewrite Hd, Hk.
    + intros ->. unfold field_optionality, ty_expect_switch in Ho. w_ok; done.
  - exfalso. unfold field_optionality, ty_expect_switch in Ho. clear H. w_ok.
Qed.

Lemma struct_fields_ok fs l : struct_fields fs = Some ([], l) -> map field l = fs /\ Forall field_ok l.
Proof.
  revert l. induction fs as [|f fs IH]; intros l H; cbn [struct_fields] in H.
  - by apply W_ret_ok in H as <-.
  - apply W_bind_ok in H as (a & Ha%FieldAttrs_parse_ok & (sf & Hsf & (rest & [Hm Hr]%IH & <-%W_ret_ok)%W_bind_ok)%W_bind_ok).
    destruct (StructField_new_ok _ _ _ Ha Hsf) as (sf' & -> & <- & _ & Hok). cbn [map]. rewrite Hm. split; [done |]. by constructor.
Qed.

(** The names in use, short or long. *)
Definition short_names (l : list StructField) : list bytes := omap (fun f => short (attrs f)) l.
Definition long_names (l : list StructField) : list bytes := omap long_name l.

Lemma seen_name_ok seen msg n s : seen_name seen msg n = Some ([], s) <-> s = option_list n ++ seen /\ (forall x, n = Some x -> x ∉ seen).
Proof.
  unfold seen_name. destruct n as [n|]; cbn [option_list app]; [| rewrite W_ret_ok; naive_solver].
  rewrite W_bind_ok. setoid_rewrite W_ret_ok. case_bool_decide as Hn; split.
  - by intros (? & ? & ?).
  - intros [_ H]. destruct (H n); done.
  - intros (u & _ & <-). split; [done |]. by intros y [= <-].
  - intros [-> _]. by exists tt.
Qed.

Lemma fresh_name (n : option bytes) seen rest :
  (forall x, n = Some x -> x ∉ seen) /\ NoDup rest /\ (forall x, x ∈ option_list n ++ seen -> x ∉ rest) <->
  NoDup (option_list n ++ rest) /\ (forall x, x ∈ seen -> x ∉ option_list n ++ rest).
Proof.
  destruct n as [n|]; simpl; [| naive_solver]. rewrite NoDup_cons. setoid_rewrite elem_of_cons. split.
  - intros (Hn & Hr & Hs). split_and!; try done; [by apply Hs; left |]. intros x Hx [->|Hin]; [by apply (Hn n) | by apply (Hs x); [right |]].
  - intros ((Hn & Hr) & Hs). split_and!; try done; [intros x [= <-] Hx; apply (Hs n); auto | intros x [->|Hx] Hin; [done | apply (Hs x); auto]].
Qed.

Lemma unique_names_ok s l fields u :
  unique_names s l fields = Some ([], u) <->
  (NoDup (short_names fields) /\ forall x, x ∈ s -> x ∉ short_names fields) /\ (NoDup (long_names fields) /\ forall x, x ∈ l -> x ∉ long_names fields).
Proof.
  destruct u. revert s l. induction fields as [|f fields IH]; intros s l; cbn [unique_names].
  - rewrite W_ret_ok. cbn. split; [intros _; split_and!; [constructor | intros x _; apply not_elem_of_nil | constructor | intros x _; apply not_elem_of_nil] | done].
  - rewrite W_bind_ok. setoid_rewrite W_bind_ok. setoid_rewrite seen_name_ok. setoid_rewrite IH.
    assert (short_names (f :: fields) = option_list (short (attrs f)) ++ short_names fields) as -> by (unfold short_names; cbn; by destruct (short (attrs f))).
    assert (long_names (f :: fields) = option_list (long_name f) ++ long_names fields) as -> by (unfold long_names; cbn; by destruct (long_name f)).
    rewrite <- !fresh_name. naive_solver.
Qed.

(** Once a positional need not be given, none after it must be. *)
Lemma trailing_optional_ok b fields u :
  trailing_optional b fields = Some ([], u) <->
  let pos := map (fun f => is_required (optionality f)) (filter (fun f => kind f = KPositional) fields) in
  (b = true -> Forall (fun r => r = false) pos) /\
  forall i j, (i < j)%nat -> pos !! i = Some false -> pos !! j <> Some true.
Proof.
  destruct u. cbn zeta. revert b. induction fields as [|f fields IH]; intros b; cbn [trailing_optional].
  - rewrite W_ret_ok. cbn. naive_solver.
  - case_bool_decide as Hk; [rewrite filter_cons_True by done | by rewrite filter_cons_False, IH by done]. cbn [map].
    destruct (is_required (optionality f)) eqn:Er; cbn [negb].
    + destruct b; cbn [andb orb].
      * split; [by intros (? & ? & ?)%W_bind_ok |]. intros [H _]. specialize (H eq_refl). by inversion H.
      * rewrite IH. split; (intros [H1 H2]; split; [done |]).
        -- intros [|i] [|j] Hij; cbn; try done; try lia. apply H2. lia.
        -- intros i j Hij. apply (H2 (S i) (S j)). lia.
    + rewrite andb_false_r, orb_true_r, IH. split; intros [H1 H2]; split.
      * intros _. constructor; [done | by apply H1].
      * intros [|i] [|j] Hij; cbn; try done; try lia; [intros _ Hj | apply H2; lia].
        specialize (H1 eq_refl). rewrite Forall_forall in H1. apply list_elem_of_lookup_2, H1 in Hj. done.
      * intros _. apply Forall_lookup_2. intros j r Hj. destruct r; [| done]. by destruct (H2 0%nat (S j) ltac:(lia) eq_refl).
      * intros i j Hij. apply (H2 (S i) (S j)). lia.
Qed.

Lemma each_duplicate_ok {X} kind (l : list X) u : each (fun _ _ => duplicate_attrs kind) l tt = Some ([], u) <-> l = [].
Proof. destruct l; cbn [each]; [by destruct u | split; [by intros (? & ? & ?)%W_bind_ok | done]]. Qed.

(** ** Types *)

Lemma parse_type_attr_name m t t' : name t <> Some #"help" -> parse_type_attr m t = Some ([], t') -> name t' <> Some #"help".
Proof.
  intros Ht H. unfold parse_type_attr in H. destruct (is_doc_attr m); [by w_ok |]. apply W_bind_ok in H as ([ml|] & _ & H); [| by w_ok].
  apply W_bind_ok in H as (t1 & H1 & (u & _ & <-%W_ret_ok)%W_bind_ok). revert H1. apply (each_ok (fun t => name t <> Some #"help")); [| done].
  clear. intros x s s' _ Hs H. unfold parse_type_meta, parse_attr_error_code, parse_attr_example, parse_attr_note, parse_attr_name, parse_attr_subcommand, parse_help_triggers in H.
  w_ok; try done; [by destruct x1, x2 |]. by match goal with H : bool_decide _ = false |- _ => apply bool_decide_eq_false in H end.
Qed.

Lemma TypeAttrs_parse_name l t : TypeAttrs_parse l = Some ([], t) -> name t <> Some #"help".
Proof.
  intros (t1 & H1 & (u & _ & <-%W_ret_ok)%W_bind_ok)%W_bind_ok. revert H1. apply (each_ok (fun t => name t <> Some #"help")); [| done].
  intros x s s' _. apply parse_type_attr_name.
Qed.

Lemma check_codes_ok seen codes u :
  check_codes seen codes = Some ([], u) <->
  exists vs, Forall2 (fun c v => parse_uint 64 10 c.1 = Some v) codes vs /\ Forall (fun v => v <= I32_MAX) vs /\ NoDup vs /\ (forall v, v ∈ seen -> v ∉ vs).
Proof.
  destruct u. revert seen. induction codes as [|[c m] codes IH]; intros seen; cbn [check_codes].
  - rewrite W_ret_ok. split; [intros _; exists []; split_and!; try constructor; intros v _; apply not_elem_of_nil | done].
  - destruct (parse_uint 64 10 c) as [v|] eqn:Ev.
    + rewrite W_bind_ok. split.
      * intros (? & Hr & H). destruct (Z.ltb_spec I32_MAX v); [done |]. case_bool_decide as Hs; [by apply W_bind_ok in H as (? & ? & ?) |].
        apply IH in H as (vs & Hf & Hm & Hn & Hd). exists (v :: vs). split_and!; [by constructor.. | |].
        -- apply NoDup_cons. split; [apply Hd; by left | done].
        -- intros w Hw [->|Hin]%elem_of_cons; [done |]. apply (Hd w); [by right | done].
      * intros (vs & Hf & Hm & Hn & Hd). inversion Hf as [|? v' ? vs' Hv Hf']; subst. cbn in Hv. rewrite Ev in Hv. injection Hv as <-.
        apply Forall_cons in Hm as [Hv Hm]. apply NoDup_cons in Hn as [Hnv Hn]. exists tt. split; [by destruct (Z.ltb_spec I32_MAX v); [lia |] |].
        rewrite bool_decide_eq_false_2 by (intros Hs; apply (Hd v Hs); by left). apply IH. exists vs'. split_and!; try done.
        intros w [->|Hw]%elem_of_cons; [done |]. intros Hin. apply (Hd w Hw). by right.
    + split; [by intros (? & ? & ?)%W_bind_ok |]. intros (vs & Hf & _). inversion Hf as [|? v' ? vs' Hv Hf']; subst. cbn in Hv. congruence.
Qed.

(** ** Declarations *)

(** What a struct is known to satisfy once it is accepted. *)
Record struct_ok (fs : list SynField) (t : TypeAttrs) (g : Method) (command : option bytes) : Prop := {
  so_fields : map field (fields g) = fs;
  so_each : Forall field_ok (fields g);
  so_short : NoDup (short_names (fields g));
  so_long : NoDup (long_names (fields g));
  so_trailing :
    let pos := map (fun f => is_required (optionality f)) (filter (fun f => kind f = KPositional) (fields g)) in
    forall i j, (i < j)%nat -> pos !! i = Some false -> pos !! j <> Some true;
  so_subcommand : filter (fun f => kind f = KSubCommand) (fields g) = option_list (subcommand g);
  so_requirements : append_missing_requirements (fields g) = Some ([], requirements g);
  so_triggers : triggers g = get_help_triggers t;
  so_command : command = (if is_subcommand t then name t else None) /\ (is_subcommand t = true -> is_Some command) /\ command <> Some #"help"
}.

Lemma impl_from_args_struct_ok t ds g command :
  name t <> Some #"help" -> impl_from_args_struct t ds = Some ([], GStruct g command) -> exists fs, ds = Named fs /\ struct_ok fs t g command.
Proof.
  intros Hname H. unfold impl_from_args_struct in H. destruct ds as [fs|fs|]; [| by apply W_bind_ok in H as (? & ? & ?) ..]. exists fs. split; [done |].
  apply W_bind_ok in H as (l & [Hf Ho]%struct_fields_ok & H). apply W_bind_ok in H as (u1 & [[Hs _] [Hl _]]%unique_names_ok & H).
  apply W_bind_ok in H as (u2 & [_ Ht]%trailing_optional_ok & H). apply W_bind_ok in H as (g' & Hg & H). apply W_bind_ok in H as (c & Hc & H).
  apply W_ret_ok in H as [= <- <-]. unfold impl_from_args_struct_from_args in Hg. apply W_bind_ok in Hg as (u3 & Hd%each_duplicate_ok & Hg).
  apply W_bind_ok in Hg as (r & Hr & <-%W_ret_ok). cbn [fields] in *. split; cbn [fields subcommand requirements triggers]; try done.
  - revert Hd. generalize (filter (fun f => kind f = KSubCommand) l). by intros [|x [|y l']].
  - unfold top_or_sub_cmd_impl in Hc. destruct (is_subcommand t); cbn [negb] in Hc; [| by apply W_ret_ok in Hc as <-].
    destruct (name t) as [n|] eqn:En; [apply W_ret_ok in Hc as <- | by apply W_bind_ok in Hc as (? & ? & ?)]. split_and!; [done | by exists n | congruence].
Qed.

Lemma accepted_parts d g :
  impl_from_args d = Some ([], g) ->
  exists t, TypeAttrs_parse (d_attrs d) = Some ([], t) /\
    match d_data d with Struct ds => impl_from_args_struct t ds | Enum de => impl_from_args_enum t de | Union => None end = Some ([], g).
Proof. intros (t & Ht & H)%W_bind_ok. exists t. split; [done |]. destruct (d_data d); [done | done | by apply W_bind_ok in H as (? & ? & ?)]. Qed.

(** The variants of an accepted enum. *)
Definition single_variant (v : Variant) (e : bytes * Ty) : Prop := exists f, v_fields v = Unnamed [f] /\ e = (v_ident v, f_ty f).

Lemma each_enum_variant de st st' :
  each enum_variant de st = Some ([], st') ->
  exists es, Forall2 single_variant de es /\ st'.1 ++ option_list st'.2 ≡ₚ (st.1 ++ option_list st.2) ++ es /\ (is_Some st.2 -> st'.2 = st.2).
Proof.
  revert st. induction de as [|v de IH]; intros [vs dyn] H; cbn [each] in H.
  - apply W_ret_ok in H as <-. exists []. rewrite app_nil_r. by split_and!; [constructor | |].
  - apply W_bind_ok in H as ([vs1 dyn1] & H1 & (es & Hes & Hp & Hd)%IH). cbn [fst snd] in *. unfold enum_variant in H1. apply W_bind_ok in H1 as (ty & Hty & H1).
    assert (exists f, v_fields v = Unnamed [f] /\ ty = Some (f_ty f)) as (f & Hv & ->).
    { unfold enum_only_single_field_unnamed_variants in Hty. destruct (v_fields v) as [|[|f [|]]|]; try (by apply W_bind_ok in Hty as (? & ? & ?)). apply W_ret_ok in Hty as <-. by exists f. }
    apply W_bind_ok in H1 as ([] & _ & H1).
    + apply W_bind_ok in H1 as (u & Hu & [= <- <-]%W_ret_ok). case_bool_decide as Hs; [done |]. destruct dyn; [by destruct Hs |].
      exists ((v_ident v, f_ty f) :: es). split_and!; [constructor; [by exists f | done] | | by intros [? ?]]. rewrite Hp. cbn. by rewrite app_nil_r, <- app_assoc.
    + apply W_ret_ok in H1 as [= <- <-]. exists ((v_ident v, f_ty f) :: es). split_and!; [constructor; [by exists f | done] | | done]. rewrite Hp.
      rewrite <- !app_assoc. apply Permutation_app_head. cbn. by rewrite Permutation_middle.
Qed.

End Derive.

(** * Theorems *)

Section Meaning.
(** What the compiler makes of types, functions and default values; the commands of a type
    that has them. *)
Context {V : Type} (value : bytes -> V) (values : bytes -> list V) (from_arg_value : option bytes -> Ty -> bytes -> res bytes V).
Context (commands : Ty -> list bytes) (parse_func : Ty -> list bytes -> list bytes -> res Args.EarlyExit V).

Definition switch_ty (ty : Ty) : Args.SwitchTy :=
  match ty with
  | TyPath _ [seg] =>
      match List.find (fun p => bool_decide (p.1 = seg_ident seg)) int_types with
      | Some (_, max) => Args.TInt max
      | None => if bool_decide (seg_ident seg = #"Option") then Args.TOptBool else Args.TBool
      end
  | _ => Args.TBool
  end.

Definition args_optionality (o : Optionality) : Args.Optionality V :=
  match o with
  | ONone => Args.Required | ODefaulted t => Args.Defaulted (value t) | OOptional => Args.Optional | ORepeating => Args.Repeating
  | ODefaultedRepeating t => Args.DefaultedRepeating (values t)
  end.

(** The field as the generated method treats it. *)
Definition args_field (f : StructField) : Args.Field V :=
  Args.mkField (unraw (f_ident (field f)))
    match kind f with
    | KSwitch => Args.Switch (switch_ty (ty_without_wrapper f))
    | KOption => Args.Option_ (args_optionality (optionality f))
    | KPositional => Args.Positional (args_optionality (optionality f)) (greedy (attrs f))
    | KSubCommand => Args.SubCommand (negb (is_required (optionality f))) (commands (ty_without_wrapper f)) (parse_func (ty_without_wrapper f))
    end
    (short (attrs f)) (long (attrs f)) (Some (positional_arg_name f))
    (from_arg_value (from_str_fn (attrs f)) (ty_without_wrapper f)).

Lemma args_is_flag f : Args.is_flag (args_field f) = is_flag (kind f).
Proof. unfold Args.is_flag. cbn. by destruct (kind f). Qed.

Lemma args_long_name f : field_ok f -> Args.long_name (args_field f) = long_name f.
Proof.
  intros Hf. rewrite (ok_derived _ Hf). unfold Args.long_name. rewrite args_is_flag. destruct (is_flag (kind f)); [| done]. cbn [args_field Args.long Args.ident].
  by destruct (long (attrs f)).
Qed.

Lemma args_is_required f : field_ok f -> Args.is_required (args_field f) = is_required (optionality f).
Proof.
  intros Hf. unfold Args.is_required. cbn. destruct (kind f) eqn:Ek; [by destruct (ok_switch _ Hf Ek) as [-> _] | by destruct (optionality f) ..].
Qed.

(** The names of the generated table. *)
Lemma args_names l k :
  Forall field_ok l -> map fst (Args.entries_from k (map args_field l)) ≡ₚ map (app #"-") (short_names l) ++ long_names l.
Proof.
  intros H. revert k. induction H as [|f l Hf Hl IH]; intros k; [done |]. cbn [map Args.entries_from]. rewrite map_app, (IH (S k)).
  unfold Args.flag_entries. rewrite args_long_name by done. change (Args.short (args_field f)) with (short (attrs f)).
  unfold short_names, long_names. cbn [omap list_omap]. destruct (short (attrs f)) as [c|], (long_name f) as [n|]; cbn [map fst app]; try done.
  - constructor. by rewrite Permutation_middle.
  - by rewrite Permutation_middle.
Qed.

Lemma args_option_name f n : field_ok f -> option_arg_name f = Some ([], n) -> Args.option_arg_name (args_field f) = n.
Proof.
  intros Hf. unfold option_arg_name, Args.option_arg_name. rewrite args_long_name by done. change (Args.short (args_field f)) with (short (attrs f)).
  destruct (short (attrs f)), (long_name f); [by intros <-%W_ret_ok .. | done].
Qed.

(** The message for a field that is missing. *)
Definition requirement_name (f : Args.Field V) : bytes :=
  match Args.kind f with Args.Positional _ _ => Args.positional_arg_name f | Args.Option_ _ => Args.option_arg_name f | _ => [] end.

Lemma requirements_ok l acc r :
  Forall field_ok l -> each append_missing_requirement l acc = Some ([], r) ->
  r = acc ++ map (fun f => (f, requirement_name (args_field f))) (filter (fun f => Args.is_required (args_field f) = true) l).
Proof.
  intros H. revert acc r. induction H as [|f l Hf Hl IH]; intros acc r Hr; cbn [each] in Hr.
  - apply W_ret_ok in Hr as <-. by rewrite app_nil_r.
  - apply W_bind_ok in Hr as (acc' & Ha & ->%IH). unfold append_missing_requirement in Ha. rewrite filter_cons, (args_is_required f Hf).
    destruct (is_required (optionality f)) eqn:Er; cbn [negb] in Ha; [| by apply W_ret_ok in Ha as <-]. rewrite decide_True by done. cbn [map].
    change (?x :: ?y) with ([x] ++ y). rewrite app_assoc. f_equal. unfold requirement_name. cbn [args_field Args.kind].
    destruct (kind f) eqn:Ek; [done | | by apply W_ret_ok in Ha as <- ..]. apply W_bind_ok in Ha as (n & Hn & <-%W_ret_ok). by rewrite (args_option_name f n).
Qed.

(** Names are distinct unless a short name is a dash. *)
Lemma args_names_unique l k :
  Forall field_ok l -> NoDup (short_names l) -> NoDup (long_names l) -> #"-" ∉ short_names l ->
  NoDup (map fst (Args.entries_from k (map args_field l))).
Proof.
  intros Hf Hs Hl Hd. rewrite args_names by done. apply NoDup_app. split_and!; [| | done].
  - by apply (NoDup_fmap_2 (app #"-")).
  - intros x (c & -> & Hc)%list_elem_of_fmap (f & Hin & Hn)%list_elem_of_omap. rewrite Forall_forall in Hf.
    assert (exists g, g ∈ l /\ short (attrs g) = Some c) as (g & Hg & Hgc) by (apply list_elem_of_omap in Hc as (g & ? & ?); by exists g).
    destruct (ok_short _ (Hf g Hg) c Hgc) as [b ->]. destruct (ok_long _ (Hf f Hin) _ Hn) as (n & Hnn & _). injection Hnn as -> _. done.
Qed.

End Meaning.

Section Accepted.
Context (wide_lowercase wide_alphanumeric : bytes -> bool) (syn_error : bytes) (int_error : bytes -> bytes) (lex : bytes -> option bytes).
Notation accept := (impl_from_args wide_lowercase wide_alphanumeric syn_error int_error lex).

(** A struct that the macro accepts has all its fields, each of one kind; every option and
    switch has a name, long names are of lowercase letters, digits and dashes and not
    "--help", and no two fields share a name; after an optional positional no other is
    required; there is at most one subcommand; and a subcommand has a name. *)
Theorem accepted_struct d g command :
  accept d = Some ([], GStruct g command) ->
  exists fs t, d_data d = Struct (Named fs) /\ struct_ok fs t g command.
Proof.
  intros (t & Ht & H)%accepted_parts. destruct (d_data d) as [ds|de|]; [| by apply W_bind_ok in H as (? & ? & (? & ? & ?)%W_bind_ok) | done].
  destruct (impl_from_args_struct_ok wide_lowercase wide_alphanumeric syn_error int_error lex t ds g command (TypeAttrs_parse_name _ _ _ _ Ht) H) as (fs & -> & Hok). by exists fs, t.
Qed.

(** The tables of an accepted struct are as the parser of Args needs them, but for what the
    macro does not check: that no short name is a dash, that only options and switches have
    a short name, and that they come first. *)
Theorem accepted_fields_wf {V} (value : bytes -> V) values from_arg_value commands parse_func d g command :
  let args := map (args_field value values from_arg_value commands parse_func) (fields g) in
  accept d = Some ([], GStruct g command) ->
  #"-" ∉ short_names (fields g) -> Forall (fun f => is_flag (kind f) = false -> short (attrs f) = None) (fields g) ->
  Args.options_first args = true ->
  Args.fields_wf args /\ requirements g = map (fun f => (f, requirement_name (args_field value values from_arg_value commands parse_func f)))
    (filter (fun f => Args.is_required (args_field value values from_arg_value commands parse_func f) = true) (fields g)).
Proof.
  intros args (fs & t & _ & Hok)%accepted_struct Hd Hs Hof. destruct Hok as [_ Hf Hns Hnl _ _ Hr _ _]. split; [split |].
  - by apply args_names_unique.
  - intros i a Ha. apply list_lookup_fmap_Some_1 in Ha as (f & -> & Hi). rewrite args_is_flag. intros Hk.
    rewrite Forall_forall in Hs. by apply Hs; [by eapply list_elem_of_lookup_2 |].
  - done.
  - apply (requirements_ok value values from_arg_value commands parse_func _ [] _ Hf Hr).
Qed.

(** Error codes that are accepted are different 32-bit integers. *)
Theorem accepted_error_codes l t :
  TypeAttrs_parse syn_error int_error l = Some ([], t) ->
  exists vs, Forall2 (fun c v => parse_uint 64 10 c.1 = Some v) (error_codes t) vs /\ Forall (fun v => v <= I32_MAX) vs /\ NoDup vs.
Proof.
  intros (t1 & _ & (u & (vs & Hv & Hm & Hn & _)%check_codes_ok & <-%W_ret_ok)%W_bind_ok)%W_bind_ok. by exists vs.
Qed.

(** An enum that is accepted is an enumeration of subcommands and nothing else: every variant
    has exactly one field, and is either one of the subcommands or the only dynamic one. *)
Theorem accepted_enum d vs dynamic :
  accept d = Some ([], GEnum vs dynamic) ->
  exists de es, d_data d = Enum de /\ Forall2 single_variant de es /\ vs ++ option_list dynamic ≡ₚ es.
Proof.
  intros (t & Ht & H)%accepted_parts. destruct (d_data d) as [ds|de|]; [| | done].
  - exfalso. unfold impl_from_args_struct in H. destruct ds; repeat (apply W_bind_ok in H as (? & ? & H)); done.
  - apply W_bind_ok in H as (u & _ & H). apply W_bind_ok in H as (st & (es & Hes & Hp & _)%each_enum_variant & [= <- <-]%W_ret_ok). by exists de, es.
Qed.

End Accepted.
(** * Declarations of the program *)

Definition word (w : bytes) : Meta := MPath [w].
Definition is_value (w : bytes) (l : Lit) : Meta := MNameValue [w] (ELit l).
Definition argh (l : list Meta) : Meta := MList [ #"argh"] (Some l) None None None.
Definition ty (name : bytes) : Ty := TyPath false [mkSeg name None].

(** boot/cpio.rs *)
Definition Remove_declared : list SynField :=
  [mkSynField #"path" (ty #"String") [argh [word #"positional"; is_value #"arg_name" (LStr #"entry")]];
   mkSynField #"recursive" (ty #"bool") [argh [word #"switch"; is_value #"short" (LChar #"r")]]].
Definition Remove : DeriveInput :=
  mkInput #"Remove" [argh [word #"subcommand"; is_value #"name" (LStr #"rm")]] (Struct (Named Remove_declared)).
Definition List_ : DeriveInput :=
  mkInput #"List" [argh [word #"subcommand"; is_value #"name" (LStr #"ls")]]
    (Struct (Named [mkSynField #"recursive" (ty #"bool") [argh [word #"switch"; is_value #"short" (LChar #"r")]];
                    mkSynField #"path" (ty #"String") [argh [word #"positional"; is_value #"default" (LStr #"/")]]])).

(** With ASCII names, and default values that stand for themselves. *)
Definition ascii_macro : DeriveInput -> W Generated := impl_from_args (fun _ => false) (fun _ => false) #"expected `,`" (fun _ => #"invalid digit found in string") Some.
Definition text_field : StructField -> Args.Field bytes := args_field id (fun t => [t]) (fun _ _ => Ok) (fun _ => []) (fun _ _ _ => Err (Args.early_exit [])).

(** The method generated for a declaration that is accepted. *)
Definition generated (d : DeriveInput) : option (list (Args.Field bytes)) :=
  match ascii_macro d with Some ([], GStruct g _) => Some (map text_field (fields g)) | _ => None end.
Definition run (d : DeriveInput) (args : list bytes) : option (res Args.EarlyExit (list (Args.Slot bytes))) :=
  fs ← generated d; Some (Args.from_args fs [] [] args).

Lemma accepted_struct_witness :
  exists g command fs t, ascii_macro List_ = Some ([], GStruct g command) /\ d_data List_ = Struct (Named fs) /\ struct_ok fs t g command.
Proof.
  destruct (ascii_macro List_) as [[[|] [g command| |]]|] eqn:E; try (vm_compute in E; discriminate E).
  exists g, command. destruct (accepted_struct _ _ _ _ _ List_ g command E) as (fs & t & H). by exists fs, t.
Defined.

(** The macro accepts the declaration of "rm" in the cpio commands, whose switch it then
    looks up past the end of its table. *)
Theorem accepted_switch_aborts :
  run List_ [ #"-r"; #"/"] = Some (Ok [Args.FlagBool true; Args.One (Some #"/")]) /\
  run Remove [ #"overlay.d"] = Some (Ok [Args.One (Some #"overlay.d"); Args.FlagBool false]) /\
  run Remove [ #"-r"; #"overlay.d"] = Some Panic.
Proof. vm_compute. done. Qed.

(** A short name on a positional is accepted, and stands for an option. *)
Theorem positional_short_accepted :
  let d := mkInput #"S" [] (Struct (Named
    [mkSynField #"path" (ty #"String") [argh [word #"positional"; is_value #"short" (LChar #"p")]];
     mkSynField #"verbose" (ty #"bool") [argh [word #"switch"]]])) in
  run d [ #"-p"; #"x"] = Some (Ok [Args.One (Some #"x"); Args.FlagBool true]).
Proof. vm_compute. done. Qed.

(** Three mistakes that the macro reports by panicking, or by a message and a panic, which
    leaves only the panic: an option that must be given and has no name; help triggers of
    a subcommand in a list of their own; a switch of type [Option] with no argument. *)
Theorem nameless_option_panics n t :
  ascii_macro (mkInput n t (Struct (Named [mkSynField #"x" (ty #"String") [argh [word #"option"; MNameValue [ #"long"] (EIdent #"none")]]]))) = None.
Proof. unfold ascii_macro, impl_from_args. by destruct (TypeAttrs_parse _ _ _) as [[e t']|]. Qed.

Theorem separate_help_triggers_panic n dt :
  ascii_macro (mkInput n [MList [ #"argh"] (Some [MList [ #"help_triggers"] None None None (Some [ELit (LStr #"-h")])]) None None None;
                          argh [word #"subcommand"; is_value #"name" (LStr #"su")]] dt) = None.
Proof. reflexivity. Qed.

Theorem option_switch_panics n t :
  ascii_macro (mkInput n t (Struct (Named [mkSynField #"x" (TyPath false [mkSeg #"Option" (Some [])]) [argh [word #"switch"]]]))) = None.
Proof. unfold ascii_macro, impl_from_args. by destruct (TypeAttrs_parse _ _ _) as [[e t']|]. Qed.

(** One mistake is not noticed: [help_triggers] of what are no strings leaves no trigger. *)
Theorem help_trigger_not_string :
  (m ← TypeAttrs_parse [] (fun _ => []) [argh [MList [ #"help_triggers"] None None None (Some [EIdent #"HELP"])]]; mret (get_help_triggers m)) = Some ([], []).
Proof. done. Qed.
End Derive.
