(* ===== verification/Help.v ===== *)
(** base/argh.rs, [argh_shared]: the list of commands with their descriptions, in lines of at
    most 80 characters. *)

From S2P Require Import Prelude Text.

Module Help.

Record CommandInfo := mkCommandInfo { name : bytes; description : bytes }.

Definition INDENT : bytes := #"  ".
Definition DESCRIPTION_INDENT : nat := 20.
Definition WRAP_WIDTH : nat := 80.

(** [chars().count()]: the bytes that start a character. *)
Definition char_len (s : bytes) : nat := length (filter (fun c => cont c = false) s).

Definition space : byte := bof 32.
Definition spaces (n : nat) : bytes := replicate n space.

(** The line and whether spaces were added. *)
Definition indent_description (line : bytes) : bytes * bool :=
  let cur_len := char_len line in
  if (cur_len <? DESCRIPTION_INDENT)%nat then (line ++ spaces (DESCRIPTION_INDENT - cur_len), true) else (line, false).

(** The output; the line is empty afterwards. *)
Definition new_line (current_line out : bytes) : bytes := out ++ newline :: current_line.

(** The inner loop: the line, and the words that are left. *)
Fixpoint fill (current_line : bytes) (words : list bytes) : bytes * list bytes :=
  match words with
  | [] => (current_line, [])
  | word :: rest =>
      if (WRAP_WIDTH <? char_len current_line + char_len word + 1)%nat then (current_line, words)
      else fill (current_line ++ space :: word) rest
  end.

(** The outer loop; a word is taken in every round. *)
Fixpoint wrap (fuel : nat) (current_line : bytes) (words : list bytes) (out : bytes) : bytes :=
  match fuel, words with
  | S fuel, first_word :: words =>
      let '(line, rest) := fill ((indent_description current_line).1 ++ first_word) words in
      match rest with
      | [] => wrap fuel line [] out
      | _ => wrap fuel [] rest (new_line line out)
      end
  | _, _ => new_line current_line out
  end.

Definition write_description (out : bytes) (cmd : CommandInfo) : bytes :=
  let current_line := INDENT ++ name cmd in
  if is_empty (description cmd) then new_line current_line out else
  let '(current_line, out) :=
    let '(line, added) := indent_description current_line in if added then (line, out) else ([], new_line line out) in
  let words := split_on space (description cmd) in
  wrap (length words) current_line words out.

Definition print_subcommands (commands : list CommandInfo) : bytes := foldl write_description [] commands.

(** * What is written *)

Definition text (lines : list bytes) : bytes := concat (map (cons newline) lines).

(** A group of words after an indentation. *)
Definition put (indent : bytes) (g : list bytes) : bytes := indent ++ join [space] g.

(** Lines are filled from the left: two words share a line only if it keeps the width, and
    a line ends only where the next word would not fit. *)
Fixpoint filled (indent : bytes) (groups : list (list bytes)) : Prop :=
  match groups with
  | [] => True
  | g :: groups =>
      g <> [] /\ ((2 <= length g)%nat -> (char_len (put indent g) <= WRAP_WIDTH)%nat) /\
      match groups with (w :: _) :: _ => (WRAP_WIDTH < char_len (put indent g) + char_len w + 1)%nat | _ => True end /\
      filled (spaces DESCRIPTION_INDENT) groups
  end.

Definition put_all (indent : bytes) (groups : list (list bytes)) : list bytes :=
  match groups with [] => [] | g :: groups => put indent g :: map (put (spaces DESCRIPTION_INDENT)) groups end.

Lemma char_len_app s t : char_len (s ++ t) = (char_len s + char_len t)%nat.
Proof. unfold char_len. by rewrite filter_app, length_app. Qed.

Lemma join_snoc g w : g <> [] -> join [space] (g ++ [w]) = join [space] g ++ space :: w.
Proof.
  induction g as [|x g IH]; [done |]. intros _. destruct g as [|y g]; [done |].
  change (join [space] (x :: y :: g)) with (x ++ [space] ++ join [space] (y :: g)).
  change (join [space] ((x :: y :: g) ++ [w])) with (x ++ [space] ++ join [space] ((y :: g) ++ [w])).
  rewrite IH by done. by rewrite <- !app_assoc.
Qed.

Lemma fill_spec indent g words line rest :
  g <> [] -> ((2 <= length g)%nat -> (char_len (put indent g) <= WRAP_WIDTH)%nat) -> fill (put indent g) words = (line, rest) ->
  exists h, words = h ++ rest /\ line = put indent (g ++ h) /\
    ((2 <= length (g ++ h))%nat -> (char_len line <= WRAP_WIDTH)%nat) /\
    match rest with w :: _ => (WRAP_WIDTH < char_len line + char_len w + 1)%nat | [] => True end.
Proof.
  revert g. induction words as [|w words IH]; intros g Hg Hw H; cbn [fill] in H.
  - injection H as <- <-. exists []. rewrite (app_nil_r g). by split_and!.
  - destruct (Nat.ltb_spec WRAP_WIDTH (char_len (put indent g) + char_len w + 1)) as [Hlt|Hle].
    + injection H as <- <-. exists []. rewrite (app_nil_r g). by split_and!.
    + assert (put indent g ++ space :: w = put indent (g ++ [w])) as Hp by (unfold put; by rewrite join_snoc, app_assoc).
      rewrite Hp in H. apply IH in H as (h & -> & -> & Hl & Hr).
      * exists (w :: h). assert ((g ++ [w]) ++ h = g ++ w :: h) as Hgh by (by rewrite <- app_assoc). rewrite Hgh in *. by split_and!.
      * by destruct g.
      * intros _. rewrite <- Hp, char_len_app. change (space :: w) with ([space] ++ w). rewrite char_len_app. change (char_len [space]) with 1%nat. lia.
Qed.

Lemma text_snoc l out : new_line l out = out ++ text [l].
Proof. unfold new_line, text. cbn. by rewrite app_nil_r. Qed.

Lemma indent_empty : (indent_description []).1 = spaces DESCRIPTION_INDENT.
Proof. done. Qed.

Lemma wrap_spec fuel line words out :
  words <> [] -> (length words <= fuel)%nat ->
  exists groups, concat groups = words /\ filled (indent_description line).1 groups /\
    wrap fuel line words out = out ++ text (put_all (indent_description line).1 groups).
Proof.
  revert line words out. induction fuel as [|fuel IH]; intros line words out Hw Hf; [destruct words; [done | cbn in Hf; lia] |].
  destruct words as [|w words]; [done |]. cbn [wrap]. set (indent := (indent_description line).1).
  destruct (fill (indent ++ w) words) as [line' rest] eqn:E.
  change (indent ++ w) with (put indent [w]) in E. apply fill_spec in E as (h & -> & -> & Hl & Hr); [| done | cbn; lia].
  destruct rest as [|r rest].
  - rewrite app_nil_r. exists [w :: h]. split; [cbn; by rewrite app_nil_r | split; [done |]]. cbn [put_all map]. rewrite <- text_snoc. by destruct fuel.
  - destruct (IH [] (r :: rest) (new_line (put indent ([w] ++ h)) out)) as (groups & Hc & Hfl & Hwr); [done | cbn in Hf |- *; rewrite length_app in Hf; cbn in Hf; lia |].
    exists ((w :: h) :: groups). split; [cbn; by rewrite Hc | split].
    + cbn [filled]. split_and!; [done | done | | exact Hfl]. destruct groups as [|[|x g] groups]; [done | done |]. by injection Hc as -> _.
    + rewrite Hwr, text_snoc, <- app_assoc. f_equal. rewrite indent_empty. unfold put_all, text. cbn [map concat]. rewrite app_nil_r. f_equal.
      by destruct groups.
Qed.

(** A description is split at its spaces and filled into lines: the first goes on after the
    name, padded to the column, if the name leaves room, and no word is lost, moved or
    cut.  A line is wider than 80 characters only if it holds a single word. *)
Theorem write_description_spec out n d :
  d <> [] ->
  exists groups, concat groups = split_on space d /\
    write_description out (mkCommandInfo n d) =
    out ++ text (if (char_len (INDENT ++ n) <? DESCRIPTION_INDENT)%nat
                 then put_all (INDENT ++ n ++ spaces (DESCRIPTION_INDENT - char_len (INDENT ++ n))) groups
                 else (INDENT ++ n) :: put_all (spaces DESCRIPTION_INDENT) groups) /\
    filled (if (char_len (INDENT ++ n) <? DESCRIPTION_INDENT)%nat then INDENT ++ n ++ spaces (DESCRIPTION_INDENT - char_len (INDENT ++ n)) else spaces DESCRIPTION_INDENT) groups.
Proof.
  intros Hd. assert (split_on space d <> []) as Hne by (destruct d as [|c d]; [done |]; cbn; repeat case_match; done).
  unfold write_description. cbn [name description]. destruct d as [|c d]; [done |]. cbn [is_empty].
  unfold indent_description at 1. destruct (Nat.ltb_spec (char_len (INDENT ++ n)) DESCRIPTION_INDENT) as [Hlt|Hge].
  - set (line := (INDENT ++ n) ++ spaces _). destruct (wrap_spec (length (split_on space (c :: d))) line _ out Hne (Nat.le_refl _)) as (groups & Hc & Hf & Hw).
    assert ((indent_description line).1 = line) as Hi.
    { unfold indent_description. assert (char_len line = DESCRIPTION_INDENT) as ->; [| done]. subst line. rewrite char_len_app.
      assert (forall k, char_len (spaces k) = k) as -> by (intros k; induction k as [|k IHk]; [done |]; change (S (char_len (spaces k)) = S k); by rewrite IHk). lia. }
    rewrite Hi in Hf, Hw. exists groups. rewrite (app_assoc INDENT). by split_and!.
  - destruct (wrap_spec (length (split_on space (c :: d))) [] _ (new_line (INDENT ++ n) out) Hne (Nat.le_refl _)) as (groups & Hc & Hf & Hw).
    exists groups. split_and!; [done | | exact Hf]. rewrite Hw, text_snoc, <- app_assoc. f_equal. unfold text. cbn [map concat]. by rewrite app_nil_r.
Qed.

(** The words of a line, with and without its limit. *)
Lemma write_description_spec_witness :
  exists groups, concat groups = split_on space #"patch the image" /\
    write_description [] (mkCommandInfo #"patch" #"patch the image") = text (put_all #"  patch             " groups).
Proof.
  destruct (write_description_spec [] #"patch" #"patch the image") as (groups & Hc & Hw & _); [discriminate |].
  exists groups. split; [exact Hc | exact Hw].
Defined.

(** The macro gives no command a description: each is one line with its name. *)
Theorem print_subcommands_names cmds :
  print_subcommands (map (fun n => mkCommandInfo n []) cmds) = text (map (app INDENT) cmds).
Proof.
  unfold print_subcommands. assert (forall out, foldl write_description out (map (fun n => mkCommandInfo n []) cmds) = out ++ text (map (app INDENT) cmds)) as H; [| exact (H [])].
  induction cmds as [|n cmds IH]; intros out; cbn [map foldl]; [by rewrite app_nil_r |]. rewrite IH. unfold write_description. cbn [description is_empty name].
  rewrite text_snoc, <- app_assoc. f_equal. unfold text. cbn [map concat]. by rewrite app_nil_r.
Qed.

End Help.
