(* ===== verification/CpioCli.v ===== *)
(** boot/cpio.rs, the commands: their arguments, extraction to files, and the interpreter
    [cpio_commands] that runs a batch of them on an archive.

    What the host does with a file operation is an argument, as are xz and the texts of
    sizes (crates); the texts that are only printed to the user are left out, but for the
    lines of "ls". *)

From S2P Require Import Prelude Text Numeric CStr Patch Cpio CpioOps Args.
Import Cpio.

Module CpioCli.
Import CpioOps Args.

(** * Commands *)

Inductive CpioAction :=
| Test | Restore | Patch
| Exists (path : bytes)
| Backup (origin : bytes) (skip_compress : bool)
| Remove (path : bytes) (recursive : bool)
| Move (from to : bytes)
| Extract (paths : list bytes)
| MakeDir (mode : Z) (dir : bytes)
| Link (src dst : bytes)
| Add (mode : Z) (path file : bytes)
| List_ (path : bytes) (recursive : bool).

(** The values of the fields: [String] and [mode_t]. *)
Inductive Val := VStr (s : bytes) | VMode (m : Z).

Definition str_value (v : bytes) : res bytes Val := Ok (VStr v).

(** The text of a [ParseIntError]. *)
Fixpoint int_error (acc : Z) (s : bytes) : bytes :=
  match s with
  | [] => #"number too large to fit in target type"
  | c :: s =>
      match to_digit 8 c with
      | None => #"invalid digit found in string"
      | Some d => if acc * 8 + d <? 2 ^ 32 then int_error (acc * 8 + d) s else #"number too large to fit in target type"
      end
  end.

Definition mode_value (v : bytes) : res bytes Val :=
  match parse_mode v with
  | Some m => Ok (VMode m)
  | None =>
      Err (match v with
           | [] => #"cannot parse integer from empty string"
           | ["+"%char] => #"invalid digit found in string"
           | "+"%char :: s => int_error 0 s
           | s => int_error 0 s
           end)
  end.

Definition pos (name : bytes) (arg : option bytes) : Field Val := mkField name (Positional Required false) None None arg str_value.
Definition mode_pos : Field Val := mkField #"mode" (Positional Required false) None None None mode_value.
Definition switch (name short : bytes) : Field Val := mkField name (Switch TBool) (Some short) None None str_value.

Definition fields_of (cmd : bytes) : list (Field Val) :=
  if bool_decide (cmd = #"exists") then [pos #"path" (Some #"entry")]
  else if bool_decide (cmd = #"backup") then [pos #"origin" (Some #"orig"); switch #"skip_compress" #"n"]
  else if bool_decide (cmd = #"rm") then [pos #"path" (Some #"entry"); switch #"recursive" #"r"]
  else if bool_decide (cmd = #"mv") then [pos #"from" (Some #"source"); pos #"to" (Some #"dest")]
  else if bool_decide (cmd = #"extract") then [mkField #"paths" (Positional Repeating true) None None None str_value]
  else if bool_decide (cmd = #"mkdir") then [mode_pos; pos #"dir" (Some #"entry")]
  else if bool_decide (cmd = #"ln") then [pos #"src" (Some #"entry"); pos #"dst" (Some #"target")]
  else if bool_decide (cmd = #"add") then [mode_pos; pos #"path" (Some #"entry"); pos #"file" (Some #"infile")]
  else if bool_decide (cmd = #"ls")
  then [switch #"recursive" #"r"; mkField #"path" (Positional (Defaulted (VStr #"/")) false) None None None str_value]
  else [].

Definition COMMANDS : list bytes :=
  [ #"test"; #"restore"; #"patch"; #"exists"; #"backup"; #"rm"; #"mv"; #"extract"; #"mkdir"; #"ln"; #"add"; #"ls"].

Definition strs (l : list Val) : list bytes := omap (fun v => match v with VStr s => Some s | _ => None end) l.

(** The variant that is built from the fields of a command. *)
Definition action_of (cmd : bytes) (l : list (Slot Val)) : res EarlyExit CpioAction :=
  match l with
  | [] =>
      if bool_decide (cmd = #"test") then Ok Test
      else if bool_decide (cmd = #"restore") then Ok Restore
      else if bool_decide (cmd = #"patch") then Ok Patch else Panic
  | [One (Some (VStr path))] => Ok (Exists path)
  | [One (Some (VStr s)); FlagBool b] => if bool_decide (cmd = #"backup") then Ok (Backup s b) else Ok (Remove s b)
  | [One (Some (VStr a)); One (Some (VStr b))] => if bool_decide (cmd = #"mv") then Ok (Move a b) else Ok (Link a b)
  | [Many l] => Ok (Extract (strs l))
  | [One (Some (VMode m)); One (Some (VStr dir))] => Ok (MakeDir m dir)
  | [One (Some (VMode m)); One (Some (VStr path)); One (Some (VStr file))] => Ok (Add m path file)
  | [FlagBool r; One (Some (VStr path))] => Ok (List_ path r)
  | _ => Panic
  end.

Definition variant (cmd : bytes) : bytes * (list bytes -> list bytes -> res EarlyExit CpioAction) :=
  (cmd, fun cmd_name args => l ← from_args (fields_of cmd) [] cmd_name args; action_of cmd l).

(** [CpioCommand::from_args]. *)
Definition CpioCommand_fields : list (Field CpioAction) :=
  [mkField #"action" (SubCommand false COMMANDS (from_args_enum (map variant COMMANDS))) None None None (fun _ => Err [])].

Definition CpioCommand (file : bytes) (args : list bytes) : res EarlyExit CpioAction :=
  l ← from_args CpioCommand_fields top_level_triggers [ #"magiskboot"; #"cpio"; file] args;
  match l with [Sub (Some a)] => Ok a | _ => Panic end.

(** * Extraction *)

(** What is done to the host's files; the directory of [Mkdirs] by its components. *)
Inductive HostAction :=
| Mkdirs (absolute : bool) (dirs : list bytes)
| MkDir (out : bytes) (mode : Z)
| WriteFile (out : bytes) (mode : Z) (data : bytes)
| MkSymlink (out target : bytes)
| MkNod (out : bytes) (mode major minor : Z).

Section Interpreter.
(** Whether an operation succeeds. *)
Context (succeeds : HostAction -> bool) (host : bytes -> option file_info) (xz_enc xz_dec : bytes -> option bytes).
Context (read_file : bytes -> option bytes) (keep_verity keep_force_encrypt : bool) (fmt_size : Z -> bytes).

Definition act (a : HostAction) : list HostAction * logged unit := ([a], if succeeds a then Ok tt else Err tt).

(** Do [a], and go on with [k] if it succeeds. *)
Definition then_ (a : list HostAction * logged unit) (k : list HostAction * logged unit) : list HostAction * logged unit :=
  match a.2 with Ok _ => (a.1 ++ k.1, k.2) | _ => a end.

Definition make_entry (e : CpioEntry) (out : bytes) : list HostAction * logged unit :=
  let perm := Z.land (mode e) 0x1ff in
  if file_type e =? S_IFDIR then act (MkDir out perm)
  else if file_type e =? S_IFREG then act (WriteFile out perm (data e))
  else if file_type e =? S_IFLNK then
    match from_utf8 (data e) with Some target => act (MkSymlink out target) | None => ([], Err tt) end
  else if (file_type e =? S_IFBLK) || (file_type e =? S_IFCHR) then
    if (rdevmajor e <? 2 ^ 32) && (rdevminor e <? 2 ^ 32) then ([MkNod out (mode e) (rdevmajor e) (rdevminor e)], Ok tt) else ([], Err tt)
  else ([], Err tt).

Definition extract_entry (c : Cpio) (path out : bytes) : list HostAction * logged unit :=
  match c !! path with
  | None => ([], Err tt)
  | Some e =>
      match comps out with
      | [] => make_entry e out
      | cs => then_ (act (Mkdirs (starts_with out SLASH) (removelast cs))) (make_entry e out)
      end
  end.

Fixpoint extract_all (c : Cpio) (names : list bytes) : list HostAction * logged unit :=
  match names with
  | [] => ([], Ok tt)
  | n :: names =>
      if bool_decide (n = #".") || bool_decide (n = #"..") then extract_all c names
      else then_ (extract_entry c n n) (extract_all c names)
  end.

Definition extract (path out : option bytes) (c : Cpio) : list HostAction * logged unit :=
  match norm_path <$> path, out with
  | Some path, Some out => extract_entry c path out
  | _, _ => extract_all c (btree_iter c).*1
  end.

(** * Listing *)

Definition perm_char (m bit : Z) (c : bytes) : bytes := if Z.land m bit =? 0 then #"-" else c.

(** [Display] of an entry. *)
Definition show_entry (e : CpioEntry) : bytes :=
  let m := mode e in
  let tab := [bof 9] in
  (if file_type e =? S_IFDIR then #"d" else if file_type e =? S_IFREG then #"-" else if file_type e =? S_IFLNK then #"l"
   else if file_type e =? S_IFBLK then #"b" else if file_type e =? S_IFCHR then #"c" else #"?") ++
  perm_char m 0x100 #"r" ++ perm_char m 0x80 #"w" ++ perm_char m 0x40 #"x" ++
  perm_char m 0x20 #"r" ++ perm_char m 0x10 #"w" ++ perm_char m 0x8 #"x" ++
  perm_char m 0x4 #"r" ++ perm_char m 0x2 #"w" ++ perm_char m 0x1 #"x" ++
  tab ++ fmt_dec (uid e) ++ tab ++ fmt_dec (gid e) ++ tab ++ fmt_size (zlen (data e)) ++ tab ++ fmt_dec (rdevmajor e) ++ #":" ++ fmt_dec (rdevminor e).

Definition ls_lines (path : bytes) (recursive : bool) (c : Cpio) : list bytes :=
  map (fun p => show_entry p.2 ++ [bof 9] ++ p.1) (ls path recursive c).

(** * The interpreter *)

(** How the process goes on: [cpio_commands] returns, or exits with a code. *)
Inductive Outcome := Returned (r : logged unit) | Exited (code : Z).

(** What was written to the archive, if anything, what was printed, and the operations
    on other files. *)
Record Run := mkRun { written : option bytes; printed : list bytes; acts : list HostAction; outcome : Outcome }.

(** The effect of one command: the archive goes on to the next, or the batch ends. *)
Inductive Step := Next (c : Cpio) (done_ : list HostAction) | Stop (r : Run).

Definition stop (o : Outcome) : Step := Stop (mkRun None [] [] o).
Definition next (r : logged Cpio) : Step :=
  match r with Ok c => Next c [] | Err e => stop (Returned (Err e)) | Panic => stop (Returned Panic) end.

Definition do_command (a : CpioAction) (c : Cpio) : Step :=
  match a with
  | Test => stop (Exited (test c))
  | Restore => Next (restore xz_dec c) []
  | Patch => Next (patch keep_verity keep_force_encrypt c) []
  | Exists path => stop (Returned (if exists_ path c then Ok tt else Err tt))
  | Backup origin skip => next (backup xz_enc (read_file origin) skip c)
  | Remove path recursive => Next (rm path recursive c) []
  | Move from to => next (mv from to c)
  | MakeDir mode dir => Next (mkdir mode dir c) []
  | Link src dst => Next (ln src dst c) []
  | Add mode path file => next (add host mode path file c)
  | Extract paths =>
      if negb (is_empty paths) && negb (length paths =? 2)%nat then stop (Returned (Err tt)) else
      let '(acts, r) := extract (paths !! 0%nat) (paths !! 1%nat) c in
      match r with Ok _ => Next c acts | r => Stop (mkRun None [] acts (Returned r)) end
  | List_ path recursive => Stop (mkRun None (ls_lines path recursive c) [] (Returned (Ok tt)))
  end.

Definition prepend (l : list HostAction) (r : Run) : Run := mkRun (written r) (printed r) (l ++ acts r) (outcome r).

Definition words_of (cmd : bytes) : list bytes := filter (fun w => w <> []) (split_on " "%char cmd).

Fixpoint run_commands (file : bytes) (cmds : list bytes) (c : Cpio) : Run :=
  match cmds with
  | [] => mkRun (Some (dump c)) [] [] (Returned (Ok tt))
  | cmd :: cmds =>
      if starts_with cmd #"#" then run_commands file cmds c else
      match CpioCommand file (words_of cmd) with
      | Ok a =>
          match do_command a c with
          | Next c done_ => prepend done_ (run_commands file cmds c)
          | Stop r => r
          end
      | Err e => mkRun None [] [] (Exited (if is_help e then 0 else 1))
      | Panic => mkRun None [] [] (Returned Panic)
      end
  end.

Definition cpio_commands (file : bytes) (cmds : list bytes) : Run :=
  match read_file file with
  | Some data =>
      match load_from_data data with
      | Ok c => run_commands file cmds c
      | Err e => mkRun None [] [] (Returned (Err e))
      | Panic => mkRun None [] [] (Returned Panic)
      end
  | None => run_commands file cmds new
  end.
End Interpreter.

(** * Reading commands *)

(** A word of a command that is not taken for an option. *)
Definition plain (w : bytes) : Prop := w <> [] /\ starts_with w #"-" = false /\ " "%char ∉ w.

Lemma command_args file cmd args :
  cmd ∈ COMMANDS ->
  CpioCommand file (cmd :: args) =
  l ← from_args (fields_of cmd) [] [ #"magiskboot"; #"cpio"; file; cmd] args; action_of cmd l.
Proof.
  intros Hin. unfold CpioCommand, from_args at 1, parse_struct_args. cbn [length parse_loop].
  assert (bool_decide (cmd ∈ top_level_triggers) = false /\ starts_with cmd #"-" = false) as [-> ->].
  { apply list_elem_of_In in Hin. cbn in Hin. repeat (destruct Hin as [<-|Hin]; [done |]). done. }
  cbn [andb help slots options_ended].
  assert (parse_subcommand CpioCommand_fields false [ #"magiskboot"; #"cpio"; file] cmd args (map init_slot CpioCommand_fields) =
    v ← (l ← from_args (fields_of cmd) [] [ #"magiskboot"; #"cpio"; file; cmd] args; action_of cmd l); Ok (Some [Sub (Some v)])) as ->.
  { unfold parse_subcommand. cbn [subcommand_field indices indices_from CpioCommand_fields is_subcommand kind head mbind option_bind lookup list_lookup].
    change (subcommand_field CpioCommand_fields) with (Some (0%nat, mkField #"action" (SubCommand false COMMANDS (from_args_enum (map variant COMMANDS))) None None None (fun _ => Err (A:=CpioAction) []))).
    cbn [kind]. rewrite bool_decide_eq_true_2 by done. unfold from_args_enum. change (last ([ #"magiskboot"; #"cpio"; file] ++ [cmd])) with (Some cmd).
    cbn iota. match goal with |- context [List.find ?f ?l] => assert (List.find f l = Some (variant cmd)) as -> end.
    { apply list_elem_of_In in Hin. cbn in Hin. repeat (destruct Hin as [<-|Hin]; [reflexivity |]). done. }
    done. }
  destruct (from_args (fields_of cmd) [] _ args) as [l| |]; cbn [mbind res_bind]; [| done..].
  by destruct (action_of cmd l).
Qed.

(** * Batches of edits *)

(** The commands that change the archive, with their arguments as they are written. *)
Inductive Edit :=
| EMkdir (mode dir : bytes) | ELn (target entry : bytes) | EMv (source dest : bytes)
| EAdd (mode entry infile : bytes) | ERm (entry : bytes) | EPatch.

Definition edit_words (e : Edit) : list bytes :=
  match e with
  | EMkdir m d => [ #"mkdir"; m; d]
  | ELn t e => [ #"ln"; t; e]
  | EMv s d => [ #"mv"; s; d]
  | EAdd m e f => [ #"add"; m; e; f]
  | ERm e => [ #"rm"; e]
  | EPatch => [ #"patch"]
  end.

Definition show_edit (e : Edit) : bytes := join #" " (edit_words e).

(** The words have no blanks and are no options, and modes are octal numbers. *)
Definition edit_ok (e : Edit) : Prop :=
  Forall plain (edit_words e) /\
  match e with EMkdir m _ | EAdd m _ _ => is_Some (parse_mode m) | _ => True end.

Section Edits.
Context (succeeds : HostAction -> bool) (host : bytes -> option file_info) (xz_enc xz_dec : bytes -> option bytes).
Context (read_file : bytes -> option bytes) (keep_verity keep_force_encrypt : bool) (fmt_size : Z -> bytes).

Definition octal (m : bytes) : Z := default 0 (parse_mode m).

Definition apply_edit (e : Edit) (c : Cpio) : logged Cpio :=
  match e with
  | EMkdir m d => Ok (mkdir (octal m) d c)
  | ELn t e => Ok (ln t e c)
  | EMv s d => mv s d c
  | EAdd m e f => add host (octal m) e f c
  | ERm e => Ok (rm e false c)
  | EPatch => Ok (patch keep_verity keep_force_encrypt c)
  end.

Fixpoint apply_edits (es : list Edit) (c : Cpio) : logged Cpio :=
  match es with [] => Ok c | e :: es => c ← apply_edit e c; apply_edits es c end.

Definition action_of_edit (e : Edit) : CpioAction :=
  match e with
  | EMkdir m d => MakeDir (octal m) d
  | ELn t e => Link t e
  | EMv s d => Move s d
  | EAdd m e f => Add (octal m) e f
  | ERm e => Remove e false
  | EPatch => Patch
  end.

Lemma words_show e : edit_ok e -> words_of (show_edit e) = edit_words e /\ starts_with (show_edit e) #"#" = false.
Proof.
  intros [Hp _]. split.
  - unfold words_of, show_edit. change #" " with [" "%char].
    rewrite split_on_join; [| by destruct e | eapply Forall_impl; [exact Hp | by intros w (_ & _ & ?)]].
    apply filter_all. intros w Hw. rewrite Forall_forall in Hp. by apply Hp.
  - by destruct e.
Qed.

Lemma plain_not_dash w : plain w -> starts_with w #"-" = false.
Proof. by intros (_ & ? & _). Qed.

Lemma loop_plain (fields : list (Field Val)) fuel cmd arg rem st :
  starts_with arg #"-" = false -> subcommand_field fields = None ->
  parse_loop fields [] (S fuel) cmd (arg :: rem) st =
  '(s, index, ended) ← parse_positional fields (positional_index st) arg (slots st);
  parse_loop fields [] fuel cmd rem (mkPState s (help st) index (options_ended st || ended)).
Proof.
  intros Hd Hs. cbn [parse_loop]. rewrite bool_decide_eq_false_2 by set_solver. rewrite Hd. cbn [andb].
  unfold parse_subcommand. by rewrite Hs.
Qed.

Lemma fields_mkdir : fields_of #"mkdir" = [mode_pos; pos #"dir" (Some #"entry")].
Proof. reflexivity. Qed.
Lemma fields_ln : fields_of #"ln" = [pos #"src" (Some #"entry"); pos #"dst" (Some #"target")].
Proof. reflexivity. Qed.
Lemma fields_mv : fields_of #"mv" = [pos #"from" (Some #"source"); pos #"to" (Some #"dest")].
Proof. reflexivity. Qed.
Lemma fields_add : fields_of #"add" = [mode_pos; pos #"path" (Some #"entry"); pos #"file" (Some #"infile")].
Proof. reflexivity. Qed.
Lemma fields_rm : fields_of #"rm" = [pos #"path" (Some #"entry"); switch #"recursive" #"r"].
Proof. reflexivity. Qed.

Ltac next_word := rewrite loop_plain by done; unfold parse_positional at 1; cbn -[parse_loop mode_value].

Lemma command_edit file e : edit_ok e -> CpioCommand file (edit_words e) = Ok (action_of_edit e).
Proof.
  intros [Hp Hm]. destruct e as [m d|t e|s d|m e f|e|]; cbn [edit_words] in *;
    repeat (apply Forall_cons in Hp as [?%plain_not_dash Hp]); rewrite command_args by (apply (bool_decide_unpack _); vm_compute; exact I);
    rewrite ?fields_mkdir, ?fields_ln, ?fields_mv, ?fields_add, ?fields_rm; unfold from_args, parse_struct_args; cbn [length].
  - destruct Hm as [mode Hm]. next_word. unfold mode_value at 1, octal. rewrite Hm. cbn -[parse_loop]. next_word. reflexivity.
  - next_word. next_word. reflexivity.
  - next_word. next_word. reflexivity.
  - destruct Hm as [mode Hm]. next_word. unfold mode_value at 1, octal. rewrite Hm. cbn -[parse_loop]. next_word. next_word. reflexivity.
  - next_word. reflexivity.
  - reflexivity.
Qed.

(** ** What a batch leaves in the file *)

Lemma lor_u32 a b : u32 a -> u32 b -> u32 (Z.lor a b).
Proof.
  intros [Ha1 Ha2] [Hb1 Hb2]. assert (0 <= Z.lor a b) as Hl by (by apply Z.lor_nonneg). split; [done |].
  destruct (decide (Z.lor a b = 0)) as [->|Hne]; [done |]. apply Z.log2_lt_pow2; [lia |]. rewrite Z.log2_lor by done.
  apply Z.max_lub_lt.
  - destruct (decide (a = 0)) as [->|]; [done |]. apply Z.log2_lt_pow2; [lia | done].
  - destruct (decide (b = 0)) as [->|]; [done |]. apply Z.log2_lt_pow2; [lia | done].
Qed.

Lemma octal_u32 m : u32 (octal m).
Proof.
  unfold octal, parse_mode, parse_uint. set (ds := match m with [] => m | _ => _ end).
  destruct (is_empty ds); [done |]. destruct (parse_digits 8 0 ds) as [v|] eqn:E; [| done].
  apply parse_digits_bound in E; [| lia..]. destruct (Z.ltb_spec v (2 ^ 32)); [| done]. split; [cbn; lia | done].
Qed.

Lemma wf_insert (n : bytes) (e : CpioEntry) (c : Cpio) : wf_cpio c -> wf_name n -> wf_entry e -> wf_cpio (<[n := e]> c).
Proof. intros. by apply map_Forall_insert_2. Qed.

Lemma patch_data_wf patcher e :
  (forall d, let '(buf, len) := patcher d in length buf = length d /\ 0 <= len <= zlen d) -> wf_entry e -> wf_entry (patch_data patcher e).
Proof.
  intros Hp (H1 & H2 & H3 & H4 & H5 & H6). unfold patch_data. specialize (Hp (data e)). destruct (patcher (data e)) as [buf len].
  destruct Hp as [Hl Hb]. unfold wf_entry. cbn. split_and!; try done. destruct (len =? zlen buf); [by rewrite Hl |].
  unfold resize. rewrite length_app, length_take, length_replicate. lia.
Qed.

Lemma patcher_bound m d : Patch.matcher_ok m -> let '(buf, len) := Patch.remove_pattern d m in length buf = length d /\ 0 <= len <= zlen d.
Proof.
  intros Hm. rewrite Patch.remove_pattern_eq by done. pose proof (Patch.strip_length m d). rewrite length_app, length_replicate. lia.
Qed.

Lemma patch_wf c : wf_cpio c -> wf_cpio (patch keep_verity keep_force_encrypt c).
Proof.
  intros Hc n e' He. unfold patch in He. rewrite map_lookup_imap in He. destruct (c !! n) as [e|] eqn:E; [| done]. cbn in He.
  destruct (Hc n e E) as [Hn Hw]. split; [done |]. unfold patch_entry in He.
  assert (forall e, wf_entry e -> wf_entry (patch_data Patch.patch_verity e)) as Hv.
  { intros. apply patch_data_wf; [| done]. intros d. apply patcher_bound, Patch.verity_matcher_ok. }
  assert (forall e, wf_entry e -> wf_entry (patch_data Patch.patch_encryption e)) as He'.
  { intros. apply patch_data_wf; [| done]. intros d. apply patcher_bound, Patch.encryption_matcher_ok. }
  destruct (is_fstab keep_verity keep_force_encrypt n e), keep_verity, keep_force_encrypt; cbn in He; try case_bool_decide; cbn in He; naive_solver.
Qed.

(** The names, the target of a link and what is read from the host can be stored. *)
Definition representable (e : Edit) : Prop :=
  match e with
  | EMkdir _ d => wf_name (norm_path d)
  | ELn t e => wf_name (norm_path e) /\ zlen (norm_path t) < 2 ^ 32
  | EMv _ d => wf_name (norm_path d)
  | EAdd _ e f => wf_name (norm_path e) /\ forall i, host f = Some i ->
      u32 (st_major i) /\ u32 (st_minor i) /\ forall d, read_all i = Some d -> zlen d < 2 ^ 32
  | ERm _ | EPatch => True
  end.

Lemma apply_edit_wf e c c' : representable e -> wf_cpio c -> apply_edit e c = Ok c' -> wf_cpio c'.
Proof.
  intros Hr Hc. destruct e as [m d|t e|s d|m e f|e|]; cbn [apply_edit representable] in *.
  - intros [= <-]. apply wf_insert; [done | done |]. unfold wf_entry. cbn. split_and!; try done; apply lor_u32; [apply octal_u32 | done].
  - intros [= <-]. destruct Hr as [Hn Ht]. apply wf_insert; [done | done |]. unfold wf_entry. cbn. split_and!; done.
  - unfold mv. destruct (c !! norm_path s) as [x|] eqn:E; [| done]. intros [= <-]. apply wf_insert; [| done | by apply (Hc _ _ E)].
    intros n y Hy. apply lookup_delete_Some in Hy as [_ Hy]. by apply Hc.
  - destruct Hr as [Hn Hh]. unfold add. destruct (ends_with e SLASH); [done |]. destruct (host f) as [i|] eqn:Ei; [| done].
    destruct (Hh i eq_refl) as (H1 & H2 & H3). cbn [of_option mbind res_bind].
    assert (forall md maj mn d, u32 md -> u32 maj -> u32 mn -> zlen d < 2 ^ 32 -> wf_cpio (<[norm_path e := mkEntry md 0 0 maj mn d]> c)) as Hi.
    { intros. apply wf_insert; [done | done |]. unfold wf_entry. cbn. split_and!; done. }
    pose proof (octal_u32 m) as Hm. destruct (CpioOps.kind i); cbn [mbind res_bind]; try done.
    1, 2: destruct (read_all i) as [d|] eqn:Ed; [| done]; cbn [of_option mbind res_bind]; intros [= <-]; apply Hi; [by apply lor_u32 | done | done | by apply H3].
    all: intros [= <-]; apply Hi; [by apply lor_u32 | done | done | done].
  - intros [= <-]. unfold rm. intros n y Hy. apply lookup_delete_Some in Hy as [_ Hy]. by apply Hc.
  - intros [= <-]. by apply patch_wf.
Qed.

Lemma apply_edits_wf es c c' : Forall representable es -> wf_cpio c -> apply_edits es c = Ok c' -> wf_cpio c'.
Proof.
  revert c. induction es as [|e es IH]; intros c Hr Hc; cbn [apply_edits]; [by intros [= <-] |].
  apply Forall_cons in Hr as [Hr1 Hr2]. rewrite res_bind_Ok. intros (c1 & H1 & H2). eapply IH; [done | | done]. by eapply apply_edit_wf.
Qed.

Abbreviation run := (run_commands succeeds host xz_enc xz_dec read_file keep_verity keep_force_encrypt fmt_size).

Lemma do_command_edit e c :
  do_command succeeds host xz_enc xz_dec read_file keep_verity keep_force_encrypt fmt_size (action_of_edit e) c =
  next (apply_edit e c).
Proof. destruct e; reflexivity. Qed.

Lemma run_edits file es c :
  Forall edit_ok es ->
  run file (map show_edit es) c =
  match apply_edits es c with
  | Ok c' => mkRun (Some (dump c')) [] [] (Returned (Ok tt))
  | Err e => mkRun None [] [] (Returned (Err e))
  | Panic => mkRun None [] [] (Returned Panic)
  end.
Proof.
  revert c. induction es as [|e es IH]; intros c Hok; cbn [map run_commands apply_edits]; [done |]. apply Forall_cons in Hok as [He Hes].
  destruct (words_show e He) as [Hw Hh]. rewrite Hh, Hw, command_edit, do_command_edit by done.
  destruct (apply_edit e c) as [c1| |]; cbn [next stop mbind res_bind]; [| done..]. rewrite IH by done. by destruct (apply_edits es c1).
Qed.
End Edits.

(** C14: Running a batch of edits on an archive. The commands as they are written, with
    modes in octal, do what they say, one after the other, on the archive that the file
    holds, or on an empty one if there is no file. The file is written once, after the
    last command, and only if all commands succeed; the archive written, if its names and
    sizes can be stored, is the one that is read back next time. *)
Theorem cpio_commands_edits succeeds host xz_enc xz_dec read_file keep_verity keep_force_encrypt fmt_size file es c :
  match read_file file with Some d => load_from_data d = Ok c | None => c = new end ->
  Forall edit_ok es ->
  let r := cpio_commands succeeds host xz_enc xz_dec read_file keep_verity keep_force_encrypt fmt_size file (map show_edit es) in
  printed r = [] /\ acts r = [] /\
  match apply_edits host keep_verity keep_force_encrypt es c with
  | Ok c' =>
      outcome r = Returned (Ok tt) /\ written r = Some (dump c') /\
      (Forall (representable host) es -> 300000 + Z.of_nat (size c') < 2 ^ 32 -> wf_cpio c' /\ load_from_data (dump c') = Ok c')
  | Err e => outcome r = Returned (Err e) /\ written r = None
  | Panic => outcome r = Returned Panic /\ written r = None
  end.
Proof.
  intros Hload Hok r.
  assert (r = run_commands succeeds host xz_enc xz_dec read_file keep_verity keep_force_encrypt fmt_size file (map show_edit es) c) as ->.
  { unfold r, cpio_commands. destruct (read_file file) as [d|]; [by rewrite Hload | by subst]. }
  assert (wf_cpio c) as Hc.
  { destruct (read_file file) as [d|]; [by apply (load_wf d) | subst c; apply map_Forall_empty]. }
  rewrite run_edits by done. destruct (apply_edits host keep_verity keep_force_encrypt es c) as [c'| |] eqn:E; cbn; split_and!; try done.
  intros Hr Hsize. assert (wf_cpio c') as Hc' by (by eapply apply_edits_wf). split; [done | by apply load_dumped].
Qed.

Definition demo_edits : list Edit := [EMkdir #"0755" #"/dir/"; EAdd #"750" #"dir/init" #"init"; EMv #"dir/init" #"init.real"; ELn #"/system/bin/sh" #"sh"; ERm #"dir"].
Definition demo_host (f : bytes) : option file_info := Some (mkFileInfo KFile 0 0 (Some #"elf")).

Lemma cpio_commands_edits_witness :
  let r := cpio_commands (fun _ => true) demo_host (fun _ => None) (fun _ => None) (fun _ => None) true true (fun _ => []) #"ramdisk.cpio"
    (map show_edit demo_edits) in
  match apply_edits demo_host true true demo_edits new with
  | Ok c' => written r = Some (dump c') /\ load_from_data (dump c') = Ok c' /\ (btree_iter c').*1 = [ #"init.real"; #"sh"]
  | _ => False
  end.
Proof.
  pose proof (cpio_commands_edits (fun _ => true) demo_host (fun _ => None) (fun _ => None) (fun _ => None) true true (fun _ => []) #"ramdisk.cpio"
    demo_edits new eq_refl) as H.
  assert ((match apply_edits demo_host true true demo_edits new with Ok _ => true | _ => false end) = true) as Hok by (vm_compute; reflexivity).
  destruct (apply_edits demo_host true true demo_edits new) as [c'| |] eqn:E; [clear Hok | done | done].
  destruct H as (_ & _ & _ & H1 & H2).
  - repeat (apply List.Forall_cons; [split; [repeat (apply List.Forall_cons; [split_and!; [discriminate | reflexivity | apply (bool_decide_unpack _); vm_compute; exact I] |]); apply List.Forall_nil
      | vm_compute; try exact I; eauto] |]). apply List.Forall_nil.
  - assert (c' = match apply_edits demo_host true true demo_edits new with Ok c => c | _ => new end) as Hc' by (rewrite E; reflexivity).
    split; [exact H1 |]. split; [apply H2 |].
    + repeat (apply List.Forall_cons; [cbn [representable]; try exact I; try split; try (apply (bool_decide_unpack _); vm_compute; exact I) |]);
        [intros i [= <-]; cbn; split_and!; try (apply (bool_decide_unpack _); vm_compute; exact I); intros d [= <-]; vm_compute; reflexivity | apply List.Forall_nil].
    + rewrite Hc'. vm_compute. reflexivity.
    + rewrite Hc'. vm_compute. reflexivity.
Defined.

(** The switches of "rm" and "backup" abort the whole batch, and nothing is written. *)
Theorem rm_recursive_aborts succeeds host xz_enc xz_dec read_file keep_verity keep_force_encrypt fmt_size :
  read_file #"ramdisk.cpio" = None ->
  cpio_commands succeeds host xz_enc xz_dec read_file keep_verity keep_force_encrypt fmt_size #"ramdisk.cpio" [ #"rm -r overlay.d"] =
  mkRun None [] [] (Returned Panic).
Proof. intros Hr. unfold cpio_commands. rewrite Hr. vm_compute. reflexivity. Qed.

(** Extracting everything "to the current directory" follows the names of the archive out
    of it. *)
Theorem extract_escapes :
  let c : Cpio := {[ #"../x" := mkEntry 0x81a4 0 0 0 0 #"data" ]} in
  extract (fun _ => true) None None c = ([Mkdirs false [ #".."]; WriteFile #"../x" 0x1a4 #"data"], Ok tt).
Proof. vm_compute. reflexivity. Qed.
End CpioCli.
