(* ===== verification/Statement.v ===== *)
(** sepolicy/statement.rs: the tokenizer and parser of policy statements, and the
    loader that runs one statement per line.

    The policy database itself is C++ over libsepol: a statement becomes one
    [PolicyOp], the method call of [SePolicy] it makes, and the database is a state
    with a function that applies such a call. *)

From S2P Require Import Prelude Text Numeric.

Module Statement.

(** * Tokens and errors *)

Inductive Token :=
| AL | DN | AA | DA | AX | AY | DX | PM | EF | TA | TY | AT | TT | TC | TM | GF
| LB | RB | CM | ST | TL | HP
| HX (n : Z)
| ID (s : bytes).

#[export] Instance Token_eq_dec : EqDecision Token.
Proof. solve_decision. Defined.

Inductive ParseError :=
| General
| AvtabAv (action : Token)
| AvtabXperms (action : Token)
| AvtabType (action : Token)
| TypeState (action : Token)
| TypeAttr
| TypeTrans
| NewType
| NewAttr
| GenfsCon
| ShowHelp
| UnknownAction (action : Token).

#[export] Instance ParseError_eq_dec : EqDecision ParseError.
Proof. solve_decision. Defined.

Record Xperm := mkXperm { low : Z; high : Z; reset : bool }.
#[export] Instance Xperm_eq_dec : EqDecision Xperm.
Proof. solve_decision. Defined.

(** The methods of [SePolicy] that [exec_statement] calls. *)
Inductive PolicyOp :=
| Allow (s t c p : list bytes)
| Deny (s t c p : list bytes)
| Auditallow (s t c p : list bytes)
| Dontaudit (s t c p : list bytes)
| Allowxperm (s t c : list bytes) (p : list Xperm)
| Auditallowxperm (s t c : list bytes) (p : list Xperm)
| Dontauditxperm (s t c : list bytes) (p : list Xperm)
| Permissive (t : list bytes)
| Enforce (t : list bytes)
| Typeattribute (t a : list bytes)
| Type_ (t : bytes) (a : list bytes)
| Attribute (t : bytes)
| Type_transition (s t c d o : bytes)
| Type_change (s t c d : bytes)
| Type_member (s t c d : bytes)
| Genfscon (s t c : bytes).

(** A parser consumes tokens from the front of the peekable iterator. *)
Abbreviation tokens := (list Token).
Abbreviation parser A := (tokens -> res ParseError (A * tokens)).

(** * Terms *)

Definition parse_id : parser bytes := fun ts =>
  match ts with ID name :: ts => Ok (name, ts) | _ => Err General end.

Fixpoint term_loop (names : list bytes) (ts : tokens) : res ParseError (list bytes * tokens) :=
  match ts with
  | ID name :: ts => term_loop (names ++ [name]) ts
  | RB :: ts => Ok (names, ts)
  | _ => Err General
  end.

Definition parse_term : parser (list bytes) := fun ts =>
  match ts with
  | ID name :: ts => Ok ([name], ts)
  | LB :: ts => term_loop [] ts
  | _ => Err General
  end.

Fixpoint sterm_loop (names : option (list bytes)) (ts : tokens)
    : res ParseError (list bytes * tokens) :=
  match ts with
  | ID name :: ts => sterm_loop ((fun ns => ns ++ [name]) <$> names) ts
  | ST :: ts => sterm_loop None ts
  | RB :: ts => Ok (default [] names, ts)
  | _ => Err General
  end.

Definition parse_sterm : parser (list bytes) := fun ts =>
  match ts with
  | ID name :: ts => Ok ([name], ts)
  | ST :: ts => Ok ([], ts)
  | LB :: ts => sterm_loop (Some []) ts
  | _ => Err General
  end.

Definition parse_xperm : parser Xperm := fun ts =>
  match ts with
  | HX lo :: HP :: HX hi :: ts => Ok (mkXperm lo hi false, ts)
  | HX lo :: HP :: _ => Err General
  | HX lo :: ts => Ok (mkXperm lo lo false, ts)
  | _ => Err General
  end.

(** The loop over [xperm_list]; each round consumes a token. *)
Fixpoint xperm_loop (fuel : nat) (rst : bool) (xperms : list Xperm) (ts : tokens)
    : res ParseError (list Xperm * tokens) :=
  match fuel with
  | O => Panic
  | S fuel =>
      '(x, ts) ← parse_xperm ts;
      let xperms := xperms ++ [mkXperm (low x) (high x) rst] in
      match ts with
      | RB :: ts => Ok (xperms, ts)
      | _ => xperm_loop fuel rst xperms ts
      end
  end.

Definition parse_xperms : parser (list Xperm) := fun ts =>
  '(rst, ts) ←
    match ts with
    | TL :: ts => match ts with LB :: _ => Ok (true, ts) | _ => Err General end
    | _ => Ok (false, ts)
    end;
  match ts with
  | LB :: ts => xperm_loop (S (length ts)) rst [] ts
  | ST :: ts => Ok ([mkXperm 0 0xFFFF rst], ts)
  | HX lo :: ts =>
      if 0 <? lo then Ok ([mkXperm lo lo rst], ts) else Ok ([mkXperm 0 0xFFFF rst], ts)
  | _ => Err General
  end.

Definition match_string (pattern : bytes) : parser unit := fun ts =>
  match ts with
  | ID s :: ts => if bool_decide (s = pattern) then Ok (tt, ts) else Err General
  | _ => Err General
  end.

(** * Tokenizer *)

Definition keyword (s : bytes) : option Token :=
  if bool_decide (s = #"allow") then Some AL
  else if bool_decide (s = #"deny") then Some DN
  else if bool_decide (s = #"auditallow") then Some AA
  else if bool_decide (s = #"dontaudit") then Some DA
  else if bool_decide (s = #"allowxperm") then Some AX
  else if bool_decide (s = #"auditallowxperm") then Some AY
  else if bool_decide (s = #"dontauditxperm") then Some DX
  else if bool_decide (s = #"permissive") then Some PM
  else if bool_decide (s = #"enforce") then Some EF
  else if bool_decide (s = #"typeattribute") then Some TA
  else if bool_decide (s = #"type") then Some TY
  else if bool_decide (s = #"attribute") then Some AT
  else if bool_decide (s = #"type_transition") then Some TT
  else if bool_decide (s = #"type_change") then Some TC
  else if bool_decide (s = #"type_member") then Some TM
  else if bool_decide (s = #"genfscon") then Some GF
  else if bool_decide (s = #"*") then Some ST
  else None.

(** [s.find(c)] with [s.split_at(idx)] and [&b[1..]] is [split_once]. *)
Fixpoint extract_token (fuel : nat) (s : bytes) : tokens :=
  match fuel with
  | O => []
  | S fuel =>
      match keyword s with
      | Some t => [t]
      | None =>
          if is_empty s then [] else
          match split_once (bof 123) s with
          | Some (a, b) => extract_token fuel a ++ LB :: extract_token fuel b
          | None =>
          match split_once (bof 125) s with
          | Some (a, b) => extract_token fuel a ++ RB :: extract_token fuel b
          | None =>
          match split_once (bof 44) s with
          | Some (a, b) => extract_token fuel a ++ CM :: extract_token fuel b
          | None =>
          match split_once (bof 45) s with
          | Some (a, b) => extract_token fuel a ++ HP :: extract_token fuel b
          | None =>
          match strip_prefix s #"~" with
          | Some r => TL :: extract_token fuel r
          | None =>
          match strip_prefix s #"0x" with
          | Some r => [HX (default 0 (parse_uint 16 10 r))]
          | None => [ID s]
          end end end end end end
      end
  end.

(** Every recursive call is on a shorter string. *)
Definition tokens_of_word (s : bytes) : tokens := extract_token (S (length s)) s.

Definition tokenize_statement (statement : bytes) : tokens :=
  concat (map tokens_of_word (split_whitespace statement)).

(** * Statements *)

Definition check_additional_args : parser unit := fun ts =>
  match ts with [] => Ok (tt, []) | _ => Err General end.

(** [if result.is_err() { Err(e)? }] *)
Definition map_err {A} (e : ParseError) (m : res ParseError A) : res ParseError A :=
  match m with Err _ => Err e | _ => m end.

Definition exec_av (mk : list bytes -> list bytes -> list bytes -> list bytes -> PolicyOp)
    (ts : tokens) : res ParseError PolicyOp :=
  '(s, ts) ← parse_sterm ts;
  '(t, ts) ← parse_sterm ts;
  '(c, ts) ← parse_sterm ts;
  '(p, ts) ← parse_sterm ts;
  '(_, ts) ← check_additional_args ts;
  Ok (mk s t c p).

Definition exec_xperm (mk : list bytes -> list bytes -> list bytes -> list Xperm -> PolicyOp)
    (ts : tokens) : res ParseError PolicyOp :=
  '(s, ts) ← parse_sterm ts;
  '(t, ts) ← parse_sterm ts;
  '(c, ts) ← parse_sterm ts;
  '(_, ts) ← match_string #"ioctl" ts;
  '(p, ts) ← parse_xperms ts;
  '(_, ts) ← check_additional_args ts;
  Ok (mk s t c p).

Definition exec_state (mk : list bytes -> PolicyOp) (ts : tokens) : res ParseError PolicyOp :=
  '(t, ts) ← parse_sterm ts;
  '(_, ts) ← check_additional_args ts;
  Ok (mk t).

Definition exec_type4 (mk : bytes -> bytes -> bytes -> bytes -> PolicyOp) (ts : tokens)
    : res ParseError PolicyOp :=
  '(s, ts) ← parse_id ts;
  '(t, ts) ← parse_id ts;
  '(c, ts) ← parse_id ts;
  '(d, ts) ← parse_id ts;
  '(_, ts) ← check_additional_args ts;
  Ok (mk s t c d).

Definition exec_statement (ts : tokens) : res ParseError PolicyOp :=
  match ts with
  | [] => Err ShowHelp
  | action :: ts =>
      match action with
      | AL => map_err (AvtabAv action) (exec_av Allow ts)
      | DN => map_err (AvtabAv action) (exec_av Deny ts)
      | AA => map_err (AvtabAv action) (exec_av Auditallow ts)
      | DA => map_err (AvtabAv action) (exec_av Dontaudit ts)
      | AX => map_err (AvtabXperms action) (exec_xperm Allowxperm ts)
      | AY => map_err (AvtabXperms action) (exec_xperm Auditallowxperm ts)
      | DX => map_err (AvtabXperms action) (exec_xperm Dontauditxperm ts)
      | PM => map_err (TypeState action) (exec_state Permissive ts)
      | EF => map_err (TypeState action) (exec_state Enforce ts)
      | TA => map_err TypeAttr
          ('(t, ts) ← parse_term ts;
           '(a, ts) ← parse_term ts;
           '(_, ts) ← check_additional_args ts;
           Ok (Typeattribute t a))
      | TY => map_err NewType
          ('(t, ts) ← parse_id ts;
           '(a, ts) ← match ts with [] => Ok ([], ts) | _ => parse_term ts end;
           '(_, ts) ← check_additional_args ts;
           Ok (Type_ t a))
      | AT => map_err NewAttr
          ('(t, ts) ← parse_id ts;
           '(_, ts) ← check_additional_args ts;
           Ok (Attribute t))
      | TC => map_err (AvtabType action) (exec_type4 Type_change ts)
      | TM => map_err (AvtabType action) (exec_type4 Type_member ts)
      | TT => map_err TypeTrans
          ('(s, ts) ← parse_id ts;
           '(t, ts) ← parse_id ts;
           '(c, ts) ← parse_id ts;
           '(d, ts) ← parse_id ts;
           '(o, ts) ← match ts with [] => Ok ([], ts) | _ => parse_id ts end;
           '(_, ts) ← check_additional_args ts;
           Ok (Type_transition s t c d o))
      | GF => map_err GenfsCon
          ('(s, ts) ← parse_id ts;
           '(t, ts) ← parse_id ts;
           '(c, ts) ← parse_id ts;
           '(_, ts) ← check_additional_args ts;
           Ok (Genfscon s t c))
      | _ => Err (UnknownAction action)
      end
  end.

(** * Printing *)

(** The digits of [{:X}]. *)
Definition upper_hex (n : Z) : bytes :=
  map (fun c => if in_rng 97 122 c then bof (bval c - 32) else c) (print_radix 16 n).

(** [Display for Token] *)
Definition show_token (t : Token) : bytes :=
  match t with
  | AL => #"allow" | DN => #"deny" | AA => #"auditallow" | DA => #"dontaudit"
  | AX => #"allowxperm" | AY => #"auditallowxperm" | DX => #"dontauditxperm"
  | PM => #"permissive" | EF => #"enforce" | TA => #"typeattribute" | TY => #"type"
  | AT => #"attribute" | TT => #"type_transition" | TC => #"type_change"
  | TM => #"type_member" | GF => #"genfscon"
  | LB => #"{" | RB => #"}" | CM => #"," | ST => #"*" | TL => #"~" | HP => #"-"
  | HX n => zero_pad 6 (upper_hex n)
  | ID s => s
  end.

(** [Display for ParseError], the help text apart. *)
Definition show_error (help : bytes) (e : ParseError) : bytes :=
  match e with
  | General => []
  | ShowHelp => help
  | AvtabAv a => show_token a ++ #" *source_type *target_type *class *perm_set"
  | AvtabXperms a => show_token a ++ #" *source_type *target_type *class operation xperm_set"
  | AvtabType a => show_token a ++ #" source_type target_type class default_type"
  | TypeState a => show_token a ++ #" *type"
  | TypeAttr => #"typeattribute ^type ^attribute"
  | TypeTrans => #"type_transition source_type target_type class default_type (object_name)"
  | NewType => #"type type_name ^(attribute)"
  | NewAttr => #"attribute attribute_name"
  | GenfsCon => #"genfscon fs_name partial_path fs_context"
  | UnknownAction a => #"Unknown action: " ++ [bof 34] ++ show_token a ++ [bof 34]
  end.

(** * Loading rules *)

Section Load.
Context {SePolicy : Type} (apply_op : PolicyOp -> SePolicy -> SePolicy).

(** A statement that does not parse is reported and changes nothing. *)
Definition parse_statement (sp : SePolicy) (statement : bytes) : SePolicy :=
  let statement := trim statement in
  if is_empty statement || starts_with statement #"#" then sp else
  match exec_statement (tokenize_statement statement) with
  | Ok op => apply_op op sp
  | _ => sp
  end.

Definition load_rules (sp : SePolicy) (rules : bytes) : SePolicy :=
  foldl parse_statement sp (utf8_lines (read_lines rules)).

Definition load_rule_file (sp : SePolicy) (file : option bytes) : SePolicy :=
  match file with Some rules => load_rules sp rules | None => sp end.
End Load.

End Statement.
