(* ===== verification/Grammar.v ===== *)
(** The grammar of policy statements, rule by rule as the comments of sepolicy/statement.rs
    write it, and what it has to do with the hand-written parser: the parser
    accepts the statements of the grammar, with the operation the grammar
    gives them, but for four differences that are spelled out, and a statement that is
    printed and read again is itself. *)

From S2P Require Import Prelude Text Numeric Statement.

Module Grammar.
Import Statement.

(** * The grammar of the comments *)

(** [names ::= ID(n) | names ID(n)] *)
Inductive names : tokens -> list bytes -> Prop :=
| names_one n : names [ID n] [n]
| names_snoc ts v n : names ts v -> names (ts ++ [ID n]) (v ++ [n]).

(** [term ::= ID(n) | LB names RB] *)
Inductive term : tokens -> list bytes -> Prop :=
| term_id n : term [ID n] [n]
| term_names ts ns : names ts ns -> term (LB :: ts ++ [RB]) ns.

(** [names ::= ST | ID(n) | names ID(n) | names ST]: a star gives the empty list for "all",
    to which a name that follows is pushed. *)
Inductive snames : tokens -> list bytes -> Prop :=
| snames_star : snames [ST] []
| snames_one n : snames [ID n] [n]
| snames_snoc ts v n : snames ts v -> snames (ts ++ [ID n]) (v ++ [n])
| snames_snoc_star ts v : snames ts v -> snames (ts ++ [ST]) [].

(** [sterm ::= ST | ID(n) | LB names RB] *)
Inductive sterm : tokens -> list bytes -> Prop :=
| sterm_star : sterm [ST] []
| sterm_id n : sterm [ID n] [n]
| sterm_names ts ns : snames ts ns -> sterm (LB :: ts ++ [RB]) ns.

(** [xperm ::= HX(low) | HX(low) HP HX(high)] *)
Inductive xperm : tokens -> Xperm -> Prop :=
| xperm_value lo : xperm [HX lo] (mkXperm lo lo false)
| xperm_range lo hi : xperm [HX lo; HP; HX hi] (mkXperm lo hi false).

(** [xperm_list ::= xperm | xperm_list xperm] *)
Inductive xperm_list : tokens -> list Xperm -> Prop :=
| xl_one ts p : xperm ts p -> xperm_list ts [p]
| xl_snoc ts l ts' p : xperm_list ts l -> xperm ts' p -> xperm_list (ts ++ ts') (l ++ [p]).

Definition set_reset (rst : bool) (x : Xperm) : Xperm := mkXperm (low x) (high x) rst.

(** [xperms ::= HX(low) | LB xperm_list RB | TL LB xperm_list RB | ST]; the value 0 clears
    the rules. *)
Inductive xperms : tokens -> list Xperm -> Prop :=
| xp_value lo : xperms [HX lo] [if 0 <? lo then mkXperm lo lo false else mkXperm 0 0xFFFF true]
| xp_list ts l : xperm_list ts l -> xperms (LB :: ts ++ [RB]) l
| xp_compl ts l : xperm_list ts l -> xperms (TL :: LB :: ts ++ [RB]) (map (set_reset true) l)
| xp_star : xperms [ST] [mkXperm 0 0xFFFF false].

Definition av_op (a : Token) : option (list bytes -> list bytes -> list bytes -> list bytes -> PolicyOp) :=
  match a with AL => Some Allow | DN => Some Deny | AA => Some Auditallow | DA => Some Dontaudit | _ => None end.
Definition xperm_op (a : Token) : option (list bytes -> list bytes -> list bytes -> list Xperm -> PolicyOp) :=
  match a with AX => Some Allowxperm | AY => Some Auditallowxperm | DX => Some Dontauditxperm | _ => None end.

(** The rules of [statement], over the phrases for its arguments. *)
Inductive statement_of (sterm term : tokens -> list bytes -> Prop) (xperms : tokens -> list Xperm -> Prop) (operation : bytes -> Prop) :
    tokens -> PolicyOp -> Prop :=
| st_av a mk s t c p S T C P :
    av_op a = Some mk -> sterm s S -> sterm t T -> sterm c C -> sterm p P ->
    statement_of sterm term xperms operation (a :: s ++ t ++ c ++ p) (mk S T C P)
| st_xperm a mk s t c i p S T C P :
    xperm_op a = Some mk -> sterm s S -> sterm t T -> sterm c C -> operation i -> xperms p P ->
    statement_of sterm term xperms operation (a :: s ++ t ++ c ++ ID i :: p) (mk S T C P)
| st_permissive t T : sterm t T -> statement_of sterm term xperms operation (PM :: t) (Permissive T)
| st_enforce t T : sterm t T -> statement_of sterm term xperms operation (EF :: t) (Enforce T)
| st_typeattribute t a T A : term t T -> term a A -> statement_of sterm term xperms operation (TA :: t ++ a) (Typeattribute T A)
| st_type t : statement_of sterm term xperms operation [TY; ID t] (Type_ t [])
| st_type_attr t a A : term a A -> statement_of sterm term xperms operation (TY :: ID t :: a) (Type_ t A)
| st_attribute t : statement_of sterm term xperms operation [AT; ID t] (Attribute t)
| st_trans s t c d : statement_of sterm term xperms operation [TT; ID s; ID t; ID c; ID d] (Type_transition s t c d [])
| st_trans_obj s t c d o : statement_of sterm term xperms operation [TT; ID s; ID t; ID c; ID d; ID o] (Type_transition s t c d o)
| st_change s t c d : statement_of sterm term xperms operation [TC; ID s; ID t; ID c; ID d] (Type_change s t c d)
| st_member s t c d : statement_of sterm term xperms operation [TM; ID s; ID t; ID c; ID d] (Type_member s t c d)
| st_genfscon s t c : statement_of sterm term xperms operation [GF; ID s; ID t; ID c] (Genfscon s t c).

(** The statements of the comments: any name may stand for the operation. *)
Definition documented : tokens -> PolicyOp -> Prop := statement_of sterm term xperms (fun _ => True).

(** * What the parser reads instead *)

Definition ioctl (i : bytes) : Prop := i = #"ioctl".

(** Braces may be empty. *)
Definition accepted_term (ts : tokens) (ns : list bytes) : Prop := term ts ns \/ (ts = [LB; RB] /\ ns = []).

(** So may these, and a star stands for "all" also when names follow it. *)
Definition accepted_sterm (ts : tokens) (ns : list bytes) : Prop :=
  (exists ns', sterm ts ns' /\ ns = if decide (ST ∈ ts) then [] else ns') \/ (ts = [LB; RB] /\ ns = []).

(** The value 0 is the whole range, and clears nothing. *)
Definition accepted_xperms (ts : tokens) (l : list Xperm) : Prop :=
  exists l', xperms ts l' /\ l = match ts with [HX lo] => map (set_reset false) l' | _ => l' end.

Abbreviation statement := (statement_of accepted_sterm accepted_term accepted_xperms ioctl).

(** The token sequences on which this may make a difference: empty braces, a name that
    follows a star in braces, the value 0 for the extended permissions, and an
    operation other than ioctl. *)
Inductive item : Token -> Prop :=
| item_id n : item (ID n)
| item_star : item ST.

Inductive deviates : tokens -> Prop :=
| dev_empty pre suf : deviates (pre ++ [LB; RB] ++ suf)
| dev_star pre items n suf : Forall item items -> deviates (pre ++ (LB :: items ++ [ST; ID n]) ++ suf)
| dev_zero pre i lo : lo <= 0 -> deviates (pre ++ [ID i; HX lo])
| dev_operation pre i p l : i <> #"ioctl" -> xperms p l -> deviates (pre ++ ID i :: p).

Create HintDb grammar.
#[export] Hint Constructors statement_of names term snames sterm xperm xperm_list xperms : grammar.

(** * The phrases as the loops read them *)

Definition item_name (t : Token) : option bytes :=
  match t with ID n => Some n | _ => None end.

Inductive read_term : tokens -> list bytes -> Prop :=
| rterm_id n : read_term [ID n] [n]
| rterm_names ns : read_term (LB :: map ID ns ++ [RB]) ns.

Inductive read_sterm : tokens -> list bytes -> Prop :=
| rsterm_id n : read_sterm [ID n] [n]
| rsterm_star : read_sterm [ST] []
| rsterm_names items : Forall item items -> ST ∉ items ->
    read_sterm (LB :: items ++ [RB]) (omap item_name items)
| rsterm_all items : Forall item items -> ST ∈ items -> read_sterm (LB :: items ++ [RB]) [].

Inductive ident : tokens -> bytes -> Prop := ident_id n : ident [ID n] n.

Inductive read_list (rst : bool) : tokens -> list Xperm -> Prop :=
| rl_one lo : read_list rst [HX lo] [mkXperm lo lo rst]
| rl_range lo hi : read_list rst [HX lo; HP; HX hi] [mkXperm lo hi rst]
| rl_cons lo ts l : read_list rst ts l ->
    read_list rst (HX lo :: ts) (mkXperm lo lo rst :: l)
| rl_cons_range lo hi ts l : read_list rst ts l ->
    read_list rst (HX lo :: HP :: HX hi :: ts) (mkXperm lo hi rst :: l).

Inductive read_xperms : tokens -> list Xperm -> Prop :=
| rx_value lo : 0 < lo -> read_xperms [HX lo] [mkXperm lo lo false]
| rx_zero lo : lo <= 0 -> read_xperms [HX lo] [mkXperm 0 0xFFFF false]
| rx_star : read_xperms [ST] [mkXperm 0 0xFFFF false]
| rx_list ts l : read_list false ts l -> read_xperms (LB :: ts ++ [RB]) l
| rx_compl ts l : read_list true ts l -> read_xperms (TL :: LB :: ts ++ [RB]) l.

(** ** They are those of the comments but for the differences *)

Lemma names_map ts ns : names ts ns <-> ts = map ID ns /\ ns <> [].
Proof.
  split.
  - induction 1 as [|ts v n _ [-> IH]]; [done |]. split; [by rewrite map_app | by destruct v].
  - intros [-> Hne]. induction ns as [|n ns IH] using rev_ind; [done |]. rewrite map_app.
    destruct ns; [constructor | by apply names_snoc, IH].
Qed.

Lemma read_term_accepted ts ns : read_term ts ns <-> accepted_term ts ns.
Proof.
  unfold accepted_term. split.
  - intros [n|[|m ms]]; [left; constructor | by right | left; constructor; by apply names_map].
  - intros [[n|ts' ns' [-> _]%names_map] | [-> ->]]; [constructor | constructor | apply (rterm_names [])].
Qed.

Lemma snames_items ts ns : snames ts ns -> Forall item ts /\ ts <> [] /\ (ST ∉ ts -> ns = omap item_name ts).
Proof.
  induction 1 as [|n|ts v n _ (IH1 & IH2 & IH3)|ts v _ (IH1 & IH2 & IH3)]; [split_and!; [by repeat constructor | done | set_solver].. | |].
  - split_and!; [apply Forall_app; by repeat constructor | by destruct ts |]. intros Hs. rewrite omap_app, IH3 by set_solver. done.
  - split_and!; [apply Forall_app; by repeat constructor | by destruct ts | set_solver].
Qed.

Lemma items_snames ts : Forall item ts -> ts <> [] -> exists ns, snames ts ns.
Proof.
  induction ts as [|t ts IH] using rev_ind; [done |]. intros [Hts Ht]%Forall_app _. apply Forall_cons in Ht as [Ht _].
  destruct ts as [|t' ts]; [destruct Ht; eexists; constructor |]. destruct (IH Hts) as [ns Hns]; [done |].
  destruct Ht; eexists; [by eapply snames_snoc | by eapply snames_snoc_star].
Qed.

Lemma read_sterm_accepted ts ns : read_sterm ts ns <-> accepted_sterm ts ns.
Proof.
  unfold accepted_sterm. split.
  - intros [n| |items Hi Hs|items Hi Hs].
    + left. exists [n]. split; [constructor | by rewrite decide_False by set_solver].
    + left. exists []. split; [constructor | by case_decide].
    + destruct items as [|t items]; [by right |]. left. destruct (items_snames (t :: items) Hi) as [ms Hms]; [done |].
      exists ms. split; [by constructor |]. rewrite decide_False by set_solver. by apply snames_items in Hms as (_ & _ & ->).
    + left. destruct (items_snames items Hi) as [ms Hms]; [intros ->; by apply elem_of_nil in Hs |]. exists ms. split; [by constructor | by rewrite decide_True by set_solver].
  - intros [(ns' & H & ->) | [-> ->]]; [| apply (rsterm_names []); [constructor | set_solver]].
    destruct H as [|n|ts ns H]; [case_decide; constructor | rewrite decide_False by set_solver; constructor |].
    apply snames_items in H as (Hi & _ & Hn). case_decide as Hs.
    + apply rsterm_all; [done | set_solver].
    + rewrite Hn by set_solver. apply rsterm_names; [done | set_solver].
Qed.

Lemma xperm_list_cons ts p ts' l : xperm ts p -> xperm_list ts' l -> xperm_list (ts ++ ts') (p :: l).
Proof.
  intros Hp. induction 1 as [ts' q Hq|ts' l ts'' q _ IH Hq]; [by apply (xl_snoc _ [p]); [constructor |] |].
  rewrite app_assoc, app_comm_cons. by constructor.
Qed.

Lemma read_list_snoc rst ts l ts' p : read_list rst ts l -> xperm ts' p -> read_list rst (ts ++ ts') (l ++ [set_reset rst p]).
Proof.
  intros Hl Hp. assert (read_list rst ts' [set_reset rst p]) as Hp' by (destruct Hp; constructor).
  induction Hl; cbn [app]; [by apply rl_cons | by apply rl_cons_range | by apply rl_cons | by apply rl_cons_range].
Qed.

Lemma read_list_documented rst ts l : read_list rst ts l <-> exists l', xperm_list ts l' /\ l = map (set_reset rst) l'.
Proof.
  split.
  - induction 1 as [lo|lo hi|lo ts l _ (l' & Hl & ->)|lo hi ts l _ (l' & Hl & ->)].
    + by exists [mkXperm lo lo false]; repeat constructor.
    + by exists [mkXperm lo hi false]; repeat constructor.
    + exists (mkXperm lo lo false :: l'). split; [| done]. apply (xperm_list_cons [HX lo]); [constructor | done].
    + exists (mkXperm lo hi false :: l'). split; [| done]. apply (xperm_list_cons [HX lo; HP; HX hi]); [constructor | done].
  - intros (l' & H & ->). induction H as [ts p []|ts l ts' p _ IH Hp]; [constructor | constructor |].
    rewrite map_app. by apply read_list_snoc.
Qed.

Lemma xperm_list_reset ts l : xperm_list ts l -> map (set_reset false) l = l.
Proof. induction 1 as [ts p []|ts l ts' p _ IH []]; rewrite ?map_app, ?IH; done. Qed.

Lemma xperm_list_long ts l : xperm_list ts l -> ts <> [].
Proof. induction 1 as [ts p []|ts l ts' p _ IH []]; [done | done | by destruct ts..]. Qed.

Lemma read_xperms_accepted ts l : read_xperms ts l <-> accepted_xperms ts l.
Proof.
  unfold accepted_xperms. split.
  - intros [lo Hlo|lo Hlo| |ts' l' (l0 & Hl & ->)%read_list_documented|ts' l' (l0 & Hl & ->)%read_list_documented].
    + eexists. split; [constructor |]. by rewrite (proj2 (Z.ltb_lt 0 lo)).
    + eexists. split; [constructor |]. by rewrite (proj2 (Z.ltb_ge 0 lo)).
    + eexists. split; [constructor | done].
    + rewrite (xperm_list_reset _ _ Hl). exists l0. split; [by constructor |]. by destruct ts'.
    + eexists. split; [by apply xp_compl | done].
  - intros (l' & H & ->). destruct H as [lo|ts l' Hl|ts l' Hl|]; [| | |constructor].
    + cbn. destruct (Z.ltb_spec 0 lo); by constructor.
    + cbn [app]. apply rx_list. apply read_list_documented. exists l'. by rewrite (xperm_list_reset _ _ Hl).
    + cbn [app]. apply rx_compl. apply read_list_documented. by exists l'.
Qed.

(** * The parsers implement their non-terminals *)

(** [p] consumes exactly the phrases of [R]. *)
Definition parses {A} (p : parser A) (R : tokens -> A -> Prop) : Prop :=
  forall ts x rest, p ts = Ok (x, rest) <-> exists pre, ts = pre ++ rest /\ R pre x.

Lemma parse_id_ok : parses parse_id ident.
Proof.
  intros ts x rest. unfold parse_id. split.
  - intros H. inv_matches. injection H as -> ->. eexists [_]. split; [done | constructor].
  - by intros (pre & -> & []).
Qed.

Lemma term_loop_ok names ts ns rest :
  term_loop names ts = Ok (ns, rest) <-> exists ms, ns = names ++ ms /\ ts = map ID ms ++ RB :: rest.
Proof.
  revert names. induction ts as [|t ts IH]; intros names; cbn [term_loop].
  { split; [done |]. by intros ([|? ?] & _ & ?). }
  destruct t; try (split; [done |]; intros ([|? ?] & _ & Hts); simpl in Hts; congruence).
  - split.
    + intros [= <- <-]. exists []. by rewrite app_nil_r.
    + intros ([|m ms] & -> & Hts); simpl in Hts; [| done]. injection Hts as ->. by rewrite app_nil_r.
  - rewrite IH. split.
    + intros (ms & -> & ->). exists (s :: ms). by rewrite <- app_assoc.
    + intros ([|m ms] & -> & Hts); simpl in Hts; [done |]. injection Hts as -> ->.
      exists ms. by rewrite <- app_assoc.
Qed.

Lemma parse_term_ok : parses parse_term accepted_term.
Proof.
  intros ts x rest. setoid_rewrite <- read_term_accepted. unfold parse_term. split.
  - destruct ts as [|[] ts]; try done.
    + intros (ms & -> & ->)%term_loop_ok. exists (LB :: map ID ms ++ [RB]).
      split; [by rewrite <- app_comm_cons, <- app_assoc | constructor].
    + intros [= <- <-]. eexists [_]. split; [done | constructor].
  - intros (pre & -> & [n|ns]); [done |]. simpl. rewrite <- app_assoc.
    apply term_loop_ok. by exists ns.
Qed.

(** What the star-aware loop has collected after some items. *)
Fixpoint collect (names : option (list bytes)) (items : tokens) : option (list bytes) :=
  match items with
  | [] => names
  | ID n :: items => collect ((fun ns => ns ++ [n]) <$> names) items
  | _ :: items => collect None items
  end.

Lemma collect_None items : collect None items = None.
Proof. induction items as [|[] ? IH]; simpl; auto. Qed.

Lemma collect_spec ns items :
  Forall item items ->
  collect (Some ns) items = if decide (ST ∈ items) then None else Some (ns ++ omap item_name items).
Proof.
  intros Hi. revert ns. induction Hi as [|t items [n|] _ IH]; intros ns; cbn [collect].
  - rewrite decide_False by set_solver. by rewrite app_nil_r.
  - cbn. rewrite IH, <- app_assoc. simpl. repeat case_decide; set_solver.
  - rewrite collect_None. by rewrite decide_True by set_solver.
Qed.

Lemma sterm_loop_ok names ts ns rest :
  sterm_loop names ts = Ok (ns, rest) <->
  exists items, Forall item items /\ ts = items ++ RB :: rest /\ ns = default [] (collect names items).
Proof.
  revert names. induction ts as [|t ts IH]; intros names; cbn [sterm_loop].
  { split; [done |]. by intros ([|? ?] & _ & ? & _). }
  assert (forall P : Prop, (forall t' items, item t' -> Forall item items -> t = t' ->
      ts = items ++ RB :: rest -> ns = default [] (collect names (t' :: items)) -> P) ->
    (t = RB -> ts = rest -> ns = default [] names -> P) ->
    (exists items, Forall item items /\ t :: ts = items ++ RB :: rest /\ ns = default [] (collect names items)) -> P)
    as Hinv.
  { intros P H1 H2 (items & Hi & Hts & Hns). destruct Hi as [|t' items Ht Hi]; injection Hts as -> ->; eauto. }
  destruct t; try (split; [done | apply Hinv; [by intros ? ? [] | done]]).
  - split; [intros [= <- <-]; by exists [] |]. apply Hinv; [by intros ? ? [] | by intros _ -> ->].
  - rewrite IH. split.
    + intros (items & Hi & -> & ->). exists (ST :: items). repeat constructor; done.
    + apply Hinv; [| done]. intros t' items _ Hi <- -> ->. eauto.
  - rewrite IH. split.
    + intros (items & Hi & -> & ->). exists (ID s :: items). repeat constructor; done.
    + apply Hinv; [| done]. intros t' items _ Hi <- -> ->. eauto.
Qed.

Lemma parse_sterm_ok : parses parse_sterm accepted_sterm.
Proof.
  intros ts x rest. setoid_rewrite <- read_sterm_accepted. unfold parse_sterm. split.
  - destruct ts as [|[] ts]; try done.
    + intros (items & Hi & -> & ->)%sterm_loop_ok. exists (LB :: items ++ [RB]).
      split; [by rewrite <- app_comm_cons, <- app_assoc |].
      rewrite collect_spec by done. case_decide; by constructor.
    + intros [= <- <-]. eexists [_]. split; [done | constructor].
    + intros [= <- <-]. eexists [_]. split; [done | constructor].
  - intros (pre & -> & H). destruct H as [n| |items Hi Hs|items Hi Hs]; [done | done | |].
    all: simpl; rewrite <- app_assoc; apply sterm_loop_ok; exists items; split_and!; [done | done |].
    + by rewrite collect_spec, decide_False by done.
    + by rewrite collect_spec, decide_True by done.
Qed.

Lemma parse_xperm_ok ts x rest :
  parse_xperm ts = Ok (x, rest) <->
  (exists lo, ts = HX lo :: rest /\ x = mkXperm lo lo false /\ head rest <> Some HP) \/
  (exists lo hi, ts = HX lo :: HP :: HX hi :: rest /\ x = mkXperm lo hi false).
Proof.
  unfold parse_xperm. split.
  - intros H. inv_matches; injection H as <- <-; first [by left; eexists | by right; do 2 eexists].
  - intros [(lo & -> & -> & Hh) | (lo & hi & -> & ->)]; [| done].
    destruct rest as [|[] rest]; done.
Qed.

Lemma read_list_head rst ts l : read_list rst ts l -> exists lo ts', ts = HX lo :: ts'.
Proof. destruct 1; eauto. Qed.

Lemma xperm_loop_ok fuel rst acc ts l rest :
  (length ts < fuel)%nat ->
  xperm_loop fuel rst acc ts = Ok (l, rest) <->
  exists pre l', l = acc ++ l' /\ ts = pre ++ RB :: rest /\ read_list rst pre l'.
Proof.
  revert acc ts. induction fuel as [|fuel IH]; intros acc ts Hf; [lia |].
  cbn [xperm_loop]. rewrite res_bind_Ok. split.
  - intros ([x ts'] & Hx & H). apply parse_xperm_ok in Hx.
    assert (ts' = RB :: rest /\ l = acc ++ [mkXperm (low x) (high x) rst] \/
            xperm_loop fuel rst (acc ++ [mkXperm (low x) (high x) rst]) ts' = Ok (l, rest)) as H'.
    { destruct ts' as [|[] ts']; try (right; exact H). injection H as <- <-. auto. }
    clear H. destruct Hx as [(lo & -> & -> & _) | (lo & hi & -> & ->)]; simpl in *.
    + destruct H' as [[-> ->] | H'].
      * exists [HX lo]. eexists. split_and!; [done | done | constructor].
      * apply IH in H' as (pre & l' & -> & -> & Hl); [| lia].
        exists (HX lo :: pre). eexists (_ :: l'). rewrite <- app_assoc. split_and!; [done | done | by constructor].
    + destruct H' as [[-> ->] | H'].
      * exists [HX lo; HP; HX hi]. eexists. split_and!; [done | done | constructor].
      * apply IH in H' as (pre & l' & -> & -> & Hl); [| lia].
        exists (HX lo :: HP :: HX hi :: pre). eexists (_ :: l'). rewrite <- app_assoc.
        split_and!; [done | done | by constructor].
  - intros (pre & l' & -> & -> & Hl).
    destruct Hl as [lo|lo hi|lo ts l' Hl|lo hi ts l' Hl]; [by eexists (_, _) | by eexists (_, _) | |].
    all: destruct (read_list_head _ _ _ Hl) as (lo' & ts' & ->).
    all: eexists (_, _); split; [done |]; simpl in *.
    all: rewrite (app_comm_cons ts' _ (HX lo')); apply IH; [simpl; lia |].
    all: eexists _, l'; rewrite <- app_assoc; split_and!; done.
Qed.

Lemma parse_xperms_ok : parses parse_xperms accepted_xperms.
Proof.
  intros ts x rest. setoid_rewrite <- read_xperms_accepted. unfold parse_xperms. split.
  - intros ([rst ts'] & Hr & H)%res_bind_Ok.
    assert (ts = ts' /\ rst = false \/ ts = TL :: ts' /\ rst = true /\ head ts' = Some LB) as Hts.
    { destruct ts as [|t ts]; [injection Hr as <- <-; auto |].
      destruct t; try (injection Hr as <- <-; auto; fail).
      inv_matches. injection Hr as <- <-. auto. }
    destruct ts' as [|[] ts']; try done.
    + apply xperm_loop_ok in H as (pre & l & -> & -> & Hl); [| lia].
      destruct Hts as [[-> ->] | (-> & -> & _)].
      * exists (LB :: pre ++ [RB]). simpl. rewrite <- app_assoc. split; [done | by constructor].
      * exists (TL :: LB :: pre ++ [RB]). simpl. rewrite <- app_assoc. split; [done | by constructor].
    + destruct Hts as [[-> ->] | (-> & -> & ?)]; [| done]. injection H as <- <-.
      exists [ST]. split; [done | constructor].
    + destruct Hts as [[-> ->] | (-> & -> & ?)]; [| done].
      destruct (Z.ltb_spec 0 n); injection H as <- <-; exists [HX n]; (split; [done | by constructor]).
  - intros (pre & -> & H). destruct H as [lo Hlo|lo Hlo| |ts l Hl|ts l Hl]; cbn -[xperm_loop].
    + by destruct (Z.ltb_spec 0 lo); [| lia].
    + by destruct (Z.ltb_spec 0 lo); [lia |].
    + done.
    + rewrite <- app_assoc. apply xperm_loop_ok; [lia |]. by exists ts, l.
    + rewrite <- app_assoc. apply xperm_loop_ok; [lia |]. by exists ts, l.
Qed.

Lemma match_string_ok pat : parses (match_string pat) (fun pre _ => pre = [ID pat]).
Proof.
  intros ts [] rest. unfold match_string. split.
  - intros H. inv_matches. case_bool_decide; [| done]. injection H as ->. subst. by eexists [_].
  - intros (pre & -> & ->). simpl. by rewrite bool_decide_true.
Qed.

(** * Statements *)

Lemma bind_parses {A B} {p : parser A} {R} (Hp : parses p R) (k : A * tokens -> res ParseError B) ts y :
  p ts ≫= k = Ok y -> exists pre x rest, ts = pre ++ rest /\ R pre x /\ k (x, rest) = Ok y.
Proof. intros ([x rest] & (pre & -> & HR)%Hp & Hk)%res_bind_Ok. eauto 6. Qed.

Lemma run_parses {A} {p : parser A} {R} (Hp : parses p R) pre x rest :
  R pre x -> p (pre ++ rest) = Ok (x, rest).
Proof. intros. apply Hp. eauto. Qed.

Lemma run_parses_nil {A} {p : parser A} {R} (Hp : parses p R) pre x :
  R pre x -> p pre = Ok (x, []).
Proof. intros. apply Hp. exists pre. by rewrite app_nil_r. Qed.

Lemma finish_ok {A} (k : unit * tokens -> res ParseError A) ts y :
  check_additional_args ts ≫= k = Ok y <-> ts = [] /\ k (tt, []) = Ok y.
Proof. destruct ts; simpl; naive_solver. Qed.

Lemma map_err_Ok {A} e (m : res ParseError A) y : map_err e m = Ok y <-> m = Ok y.
Proof. by destruct m. Qed.

(** Peel the next sub-parser off a successful run. *)
Ltac peel H :=
  first
  [ apply (bind_parses parse_sterm_ok) in H as (? & ? & ? & -> & ? & H)
  | apply (bind_parses parse_term_ok) in H as (? & ? & ? & -> & ? & H)
  | apply (bind_parses parse_id_ok) in H as (? & ? & ? & -> & [] & H)
  | apply (bind_parses (match_string_ok _)) in H as (? & ? & ? & -> & -> & H)
  | apply (bind_parses parse_xperms_ok) in H as (? & ? & ? & -> & ? & H)
  | apply finish_ok in H as [-> H]; injection H as <- ];
  cbn beta iota in *.

(** Run the next sub-parser on a phrase of the grammar. *)
Ltac run :=
  first
  [ erewrite (run_parses parse_sterm_ok) by eassumption
  | erewrite (run_parses parse_term_ok) by eassumption
  | erewrite (run_parses_nil parse_sterm_ok) by eassumption
  | erewrite (run_parses_nil parse_term_ok) by eassumption
  | erewrite (run_parses_nil parse_xperms_ok) by eassumption ];
  cbn [mbind res_bind].

Lemma exec_statement_sound ts op : exec_statement ts = Ok op -> statement ts op.
Proof.
  unfold exec_statement, exec_av, exec_xperm, exec_state, exec_type4.
  destruct ts as [|a ts]; [done |].
  destruct a; try done; intros H%map_err_Ok.
  all: repeat first
    [ peel H
    | match type of H with match ?ts with _ => _ end ≫= _ = _ =>
        destruct ts eqn:?; [cbn [mbind res_bind] in H |] end ].
  all: rewrite ?app_nil_r; simpl in *; subst; try (injection H as <-).
  all: first
    [ solve [eapply st_av; first [reflexivity | eassumption]]
    | solve [eapply st_xperm; first [reflexivity | eassumption]]
    | solve [eauto with grammar] ].
Qed.

Lemma exec_statement_complete ts op : statement ts op -> exec_statement ts = Ok op.
Proof.
  destruct 1; try done.
  - destruct a; try done; simplify_option_eq; cbn [exec_statement]; apply map_err_Ok;
      unfold exec_av; by repeat run.
  - destruct a; try done; simplify_option_eq; cbn [exec_statement]; apply map_err_Ok;
      unfold exec_xperm, ioctl in *; subst; do 3 run;
      rewrite (run_parses (match_string_ok #"ioctl") [ID #"ioctl"] tt p eq_refl : match_string _ (_ :: _) = _);
      cbn [mbind res_bind]; by run.
  - cbn [exec_statement]. unfold exec_state. by run.
  - cbn [exec_statement]. unfold exec_state. by run.
  - cbn [exec_statement]. by do 2 run.
  - cbn [exec_statement parse_id]. destruct a as [|a0 a]; [destruct H as [H|[H _]]; by inversion H |].
    cbn [mbind res_bind]. by run.
Qed.

(** ** No statement aborts the parser *)

Lemma bind_no_panic {A B} (m : res ParseError A) (k : A -> res ParseError B) :
  m <> Panic -> (forall a, m = Ok a -> k a <> Panic) -> m ≫= k <> Panic.
Proof. destruct m; simpl; auto. Qed.

Lemma term_loop_total names ts : term_loop names ts <> Panic.
Proof. revert names. induction ts as [|[] ts IH]; intros; simpl; auto. Qed.

Lemma sterm_loop_total names ts : sterm_loop names ts <> Panic.
Proof. revert names. induction ts as [|[] ts IH]; intros; simpl; auto. Qed.

Lemma xperm_loop_total fuel rst acc ts : (length ts < fuel)%nat -> xperm_loop fuel rst acc ts <> Panic.
Proof.
  revert acc ts. induction fuel as [|fuel IH]; intros acc ts Hf; [lia |]. cbn [xperm_loop].
  apply bind_no_panic.
  { unfold parse_xperm. by repeat case_match. }
  intros [x rest] [(lo & -> & _) | (lo & hi & -> & _)]%parse_xperm_ok; simpl in Hf.
  all: destruct rest as [|[] rest]; try done; apply IH; simpl in *; lia.
Qed.

Lemma parse_sterm_total ts : parse_sterm ts <> Panic.
Proof. destruct ts as [|[] ts]; try done. apply sterm_loop_total. Qed.

Lemma parse_term_total ts : parse_term ts <> Panic.
Proof. destruct ts as [|[] ts]; try done. apply term_loop_total. Qed.

Lemma parse_id_total ts : parse_id ts <> Panic.
Proof. by destruct ts as [|[] ts]. Qed.

Lemma match_string_total pat ts : match_string pat ts <> Panic.
Proof. destruct ts as [|[] ts]; try done. simpl. by case_bool_decide. Qed.

Lemma parse_xperms_total ts : parse_xperms ts <> Panic.
Proof.
  apply bind_no_panic.
  - by destruct ts as [|[] [|[] ts]].
  - intros [rst [|[] ts']] _; try done; [apply xperm_loop_total; lia |]. by destruct (0 <? n).
Qed.

Lemma check_additional_args_total ts : check_additional_args ts <> Panic.
Proof. by destruct ts. Qed.

#[export] Hint Resolve parse_sterm_total parse_term_total parse_id_total match_string_total
  parse_xperms_total check_additional_args_total : grammar.

Lemma map_err_Err {A} e (m : res ParseError A) : m <> Panic -> (exists a, map_err e m = Ok a) \/ map_err e m = Err e.
Proof. destruct m; simpl; eauto; congruence. Qed.

(** The hint that goes with each action. *)
Definition usage (ts : tokens) : ParseError :=
  match ts with
  | [] => ShowHelp
  | a :: _ =>
      match a with
      | AL | DN | AA | DA => AvtabAv a
      | AX | AY | DX => AvtabXperms a
      | PM | EF => TypeState a
      | TA => TypeAttr | TY => NewType | AT => NewAttr
      | TC | TM => AvtabType a
      | TT => TypeTrans | GF => GenfsCon
      | _ => UnknownAction a
      end
  end.

Lemma exec_statement_total ts : (exists op, exec_statement ts = Ok op) \/ exec_statement ts = Err (usage ts).
Proof.
  destruct ts as [|a ts]; [by right |].
  destruct a; cbn [exec_statement usage]; try (by right); apply map_err_Err.
  all: unfold exec_av, exec_xperm, exec_state, exec_type4.
  all: repeat (apply bind_no_panic; [| intros [??] _]; auto with grammar; try done).
  all: case_match; auto with grammar; done.
Qed.

(** * Printing and tokenizing *)

Definition special (c : byte) : bool := bool_decide (c ∈ [bof 123; bof 125; bof 44; bof 45]).

(** A name that the tokenizer leaves in one piece. *)
Definition plain_id (s : bytes) : Prop :=
  word s /\ keyword s = None /\ Forall (fun c => special c = false) s /\
  starts_with s #"~" = false /\ starts_with s #"0x" = false.

Definition plain (t : Token) : Prop :=
  match t with ID s => plain_id s | HX _ => False | _ => True end.

#[export] Instance plain_dec t : Decision (plain t).
Proof. destruct t; simpl; unfold plain_id; apply _. Defined.

Definition print_tokens (ts : tokens) : bytes := join [bof 32] (map show_token ts).

Lemma split_once_None c s : c ∉ s -> split_once c s = None.
Proof.
  intros H. destruct (split_once c s) as [[a b]|] eqn:E; [| done].
  apply split_once_Some in E as [_ ->]. set_solver.
Qed.

Lemma special_split c s :
  special c = true -> Forall (fun c => special c = false) s -> split_once c s = None.
Proof. intros Hc Hs. apply split_once_None. intros Hin. rewrite Forall_forall in Hs. by rewrite Hs in Hc. Qed.

Lemma strip_prefix_None s p : starts_with s p = false -> strip_prefix s p = None.
Proof. unfold strip_prefix. by intros ->. Qed.

Lemma extract_plain_id s : plain_id s -> tokens_of_word s = [ID s].
Proof.
  intros ((Hne & _) & Hk & Hs & Ht & Hx). unfold tokens_of_word. cbn [extract_token].
  rewrite Hk. destruct (is_empty s) eqn:E; [by destruct s |].
  rewrite !special_split by done. by rewrite !strip_prefix_None by done.
Qed.

Lemma extract_show t : plain t -> tokens_of_word (show_token t) = [t].
Proof. destruct t; [intros _; vm_compute; reflexivity .. | done | apply extract_plain_id]. Qed.

Lemma show_word t : plain t -> word (show_token t).
Proof. destruct t; [intros _; apply word_bool; vm_compute; reflexivity .. | done | by intros []]. Qed.

Lemma show_words ts : Forall plain ts -> Forall word (map show_token ts).
Proof. induction 1; simpl; constructor; auto using show_word. Qed.

Lemma tokenize_print ts : Forall plain ts -> tokenize_statement (print_tokens ts) = ts.
Proof.
  intros Hts. unfold tokenize_statement, print_tokens.
  rewrite split_whitespace_join by by apply show_words.
  induction Hts as [|t ts Ht _ IH]; [done |]. simpl. by rewrite extract_show, IH.
Qed.

Section Rules.
Context {SePolicy : Type} (apply_op : PolicyOp -> SePolicy -> SePolicy).

Lemma trim_print ts : ts <> [] -> Forall plain ts -> trim (print_tokens ts ++ [newline]) = print_tokens ts.
Proof.
  intros Hne Hts. assert (map show_token ts <> []) by by destruct ts.
  destruct (join_words_head (map show_token ts)) as (a & s & Ha & ?); [done | by apply show_words |].
  destruct (join_words_last (map show_token ts)) as (s' & b & Hb & ?); [done | by apply show_words |].
  by eapply trim_line.
Qed.

(** A comment is not a statement of the grammar. *)
Lemma comment_no_statement ts op :
  Forall plain ts -> starts_with (print_tokens ts) #"#" = true -> ~ statement ts op.
Proof.
  intros _ [u Hu]%starts_with_spec Hst. unfold print_tokens in Hu. change (#"#" ++ u) with (bof 35 :: u) in Hu.
  destruct Hst; try destruct a; try done; cbn [map show_token join] in Hu; case_match; discriminate Hu.
Qed.

Lemma parse_printed sp ts o :
  ts <> [] -> Forall plain ts ->
  match o with Some op => statement ts op | None => forall op, ~ statement ts op end ->
  parse_statement apply_op sp (print_tokens ts ++ [newline]) =
  match o with Some op => apply_op op sp | None => sp end.
Proof.
  intros Hne Hts Ho. unfold parse_statement. rewrite trim_print by done.
  assert (is_empty (print_tokens ts) = false) as ->.
  { destruct (join_words_head (map show_token ts)) as (a & s & Ha & _).
    - by destruct ts.
    - by apply show_words.
    - unfold print_tokens. by rewrite Ha. }
  rewrite orb_false_l, tokenize_print by done.
  destruct (starts_with (print_tokens ts) #"#") eqn:Hc.
  - destruct o as [op|]; [| done]. by destruct (comment_no_statement ts op Hts Hc).
  - destruct o as [op|]; [by rewrite (exec_statement_complete ts op) |].
    destruct (exec_statement_total ts) as [[op Hop] | ->]; [| done].
    by destruct (Ho op); apply exec_statement_sound.
Qed.

Definition print_rules (prog : list tokens) : bytes :=
  concat (map (fun l => l ++ [newline]) (map print_tokens prog)).
End Rules.

(** ** Where the parser and the comments agree *)

Definition part (t ts : tokens) : Prop := exists pre suf, ts = pre ++ t ++ suf.

Lemma agree_term ts t ns : ~ deviates ts -> part t ts -> accepted_term t ns <-> term t ns.
Proof.
  intros Hd (pre & suf & ->). split; [| by left]. intros [H|[-> ->]]; [done |]. by destruct Hd; apply dev_empty.
Qed.

Lemma snames_star_last ts ns : snames ts ns -> ST ∈ ts -> (forall items n suf, Forall item items -> ts <> items ++ [ST; ID n] ++ suf) -> ns = [].
Proof.
  intros H Hs Hno. destruct H as [|n|ts v n H|ts v H]; [done | set_solver | | done].
  assert (v = []) as ->.
  { clear -H Hs Hno. revert n Hs Hno. induction H as [|m|ts v m H IH|ts v H IH]; intros n Hs Hno; [done | set_solver | | done].
    rewrite (IH m); [| set_solver |].
    - exfalso. assert (ST ∈ ts) as Hts by set_solver. specialize (IH m ltac:(set_solver)). rewrite IH in H; [| intros items k suf Hi He; apply (Hno items k (suf ++ [ID n]) Hi); by rewrite He, <- app_assoc].
      inversion H; subst.
      + by apply (Hno [] m [ID n]); [constructor |].
      + by destruct v0.
      + apply snames_items in H0 as [Hi _]. apply (Hno ts0 m [ID n] Hi). by rewrite <- !app_assoc.
    - intros items k suf Hi He. apply (Hno items k (suf ++ [ID n]) Hi). by rewrite He, <- app_assoc. }
  exfalso. inversion H; subst; [by apply (Hno [] n []); [constructor |] | by destruct v |].
  apply snames_items in H0 as [Hi _]. apply (Hno ts0 n [] Hi). by rewrite <- app_assoc.
Qed.

Lemma agree_sterm ts t ns : ~ deviates ts -> part t ts -> accepted_sterm t ns <-> sterm t ns.
Proof.
  intros Hd (pre & suf & ->). assert (forall ns', sterm t ns' -> ST ∈ t -> ns' = []) as Hstar.
  { intros ns' H0 Hs. inversion H0 as [|n|ts ms H]; subst; [done | set_solver |]. apply (snames_star_last ts ns' H); [set_solver |].
    intros items n suf' Hi ->. apply Hd. replace (pre ++ _ ++ suf) with (pre ++ (LB :: items ++ [ST; ID n]) ++ (suf' ++ RB :: suf)); [by apply dev_star |].
    cbn. rewrite <- ?app_assoc. cbn. by rewrite <- ?app_assoc. }
  split.
  - intros [(ns' & H & ->) | [-> ->]]; [| by destruct Hd; apply dev_empty]. case_decide as Hs; [| done]. by rewrite <- (Hstar ns').
  - intros H. left. exists ns. split; [done |]. case_decide; [by apply Hstar | done].
Qed.

Lemma agree_xperms pre i p l : ~ deviates (pre ++ ID i :: p) -> accepted_xperms p l /\ ioctl i <-> xperms p l.
Proof.
  intros Hd. assert (forall l, xperms p l -> match p with [HX lo] => map (set_reset false) l | _ => l end = l) as Hreset.
  { intros l' H. inversion H as [lo|ts' l0 H'|ts' l0 H'|]; subst; [| by destruct ts' | done | done].
    destruct (Z.ltb_spec 0 lo); [done |]. by destruct Hd; apply dev_zero. }
  split.
  - intros [(l' & H & ->) _]. by rewrite Hreset.
  - intros H. split; [exists l; by rewrite Hreset |]. unfold ioctl. destruct (decide (i = #"ioctl")); [done |].
    by destruct Hd; eapply dev_operation.
Qed.

(** Show where a phrase stands in a statement. *)
Ltac part_at :=
  first
  [ by exists [], []; rewrite ?app_nil_r
  | by eexists [_], []; rewrite app_nil_r
  | by eexists [_], _
  | by eexists [_; _], []; rewrite app_nil_r
  | match goal with
    | |- part ?p (?a :: ?s ++ ?p) => exists (a :: s), []; by rewrite app_nil_r
    | |- part ?t (?a :: ?s ++ ?t ++ ?r) => by exists (a :: s), r
    | |- part ?c (?a :: ?s ++ ?t ++ ?c ++ ?r) => exists (a :: s ++ t), r; cbn; by rewrite <- app_assoc
    | |- part ?p (?a :: ?s ++ ?t ++ ?c ++ ?p) => exists (a :: s ++ t ++ c), []; cbn; by rewrite app_nil_r, <- !app_assoc
    end ].

Lemma agree_statement ts op (Hd : ~ deviates ts) : statement ts op <-> documented ts op.
Proof.
  unfold documented. split; intros H; revert Hd; destruct H; intros Hd; try (constructor; fail).
  all: repeat match goal with
    | H : accepted_sterm _ _ |- _ => apply (agree_sterm _ _ _ Hd) in H; [| part_at]
    | H : accepted_term _ _ |- _ => apply (agree_term _ _ _ Hd) in H; [| part_at]
    end.
  all: try (econstructor; first [eassumption | apply (agree_sterm _ _ _ Hd); [part_at | done] | apply (agree_term _ _ _ Hd); [part_at | done]]; fail).
  - assert (~ deviates ((a :: s ++ t ++ c) ++ ID i :: p)) as Hd' by (cbn; by rewrite <- !app_assoc).
    apply st_xperm; try done. by apply (agree_xperms _ _ _ _ Hd').
  - assert (~ deviates ((a :: s ++ t ++ c) ++ ID i :: p)) as Hd' by (cbn; by rewrite <- !app_assoc).
    destruct (proj2 (agree_xperms _ _ _ P Hd')) as [Hp Hi]; [done |].
    apply st_xperm; try done; (apply (agree_sterm _ _ _ Hd); [part_at | done]).
Qed.

(** C5: The parser against the grammar that the comments of sepolicy/statement.rs give.
    It reads the statements of that grammar, with the operation they denote, but for four
    differences: braces may be empty; in braces a star stands for "all" also when
    names follow it, where the comments push those names to the list; the value 0 of the
    extended permissions gives the whole range and does not clear the rules; and only
    ioctl is taken as their operation. On token sequences in which none of these
    occurs, parser and comments agree. Every other sequence is refused with the
    usage hint of its action, and none aborts the parser. *)
Theorem exec_statement_grammar ts :
  (forall op, exec_statement ts = Ok op <-> statement ts op) /\
  (~ deviates ts -> forall op, exec_statement ts = Ok op <-> documented ts op) /\
  ((forall op, ~ statement ts op) -> exec_statement ts = Err (usage ts)).
Proof.
  assert (forall op, exec_statement ts = Ok op <-> statement ts op) as Hs by (split; [apply exec_statement_sound | apply exec_statement_complete]).
  split; [exact Hs |]. split; [intros Hd op; rewrite Hs; by apply agree_statement |].
  intros Hno. destruct (exec_statement_total ts) as [[op Hop] | H]; [| done].
  by destruct (Hno op); apply exec_statement_sound.
Qed.

(** The differences do occur: empty braces are no statement of the comments and are read; of
    [{ * a }] the comments make the name; 0 is to clear the rules and grants all of them;
    and an operation other than ioctl is refused. *)
Theorem grammar_differences :
  (exec_statement [TY; ID #"t"; LB; RB] = Ok (Type_ #"t" []) /\ forall op, ~ documented [TY; ID #"t"; LB; RB] op) /\
  (exec_statement [PM; LB; ST; ID #"a"; RB] = Ok (Permissive []) /\ documented [PM; LB; ST; ID #"a"; RB] (Permissive [ #"a"])) /\
  (let ts := [AX; ID #"s"; ID #"t"; ID #"c"; ID #"ioctl"; HX 0] in
   exec_statement ts = Ok (Allowxperm [ #"s"] [ #"t"] [ #"c"] [mkXperm 0 0xFFFF false]) /\
   documented ts (Allowxperm [ #"s"] [ #"t"] [ #"c"] [mkXperm 0 0xFFFF true])) /\
  (let ts := [AX; ID #"s"; ID #"t"; ID #"c"; ID #"nlmsg"; ST] in
   exec_statement ts = Err (AvtabXperms AX) /\ documented ts (Allowxperm [ #"s"] [ #"t"] [ #"c"] [mkXperm 0 0xFFFF false])).
Proof.
  unfold documented. split_and!; try (vm_compute; reflexivity).
  - intros op H. inversion H; subst; try done.
    match goal with H : term [LB; RB] _ |- _ => inversion H as [|ts' ns' Hn Hts]; subst end.
    apply names_map in Hn as [-> Hne]. by destruct A as [|n [|]].
  - apply (st_permissive _ _ _ _ [LB; ST; ID #"a"; RB]), (sterm_names [ST; ID #"a"]), (snames_snoc [ST] []), snames_star.
  - apply (st_xperm _ _ _ _ AX Allowxperm [ID #"s"] [ID #"t"] [ID #"c"] #"ioctl" [HX 0]); try done; try constructor.
  - apply (st_xperm _ _ _ _ AX Allowxperm [ID #"s"] [ID #"t"] [ID #"c"] #"nlmsg" [ST]); try done; constructor.
Qed.

(** loading a rule text runs the operations of its well-formed lines, in order,
    and nothing else: each line is read back as the tokens it was printed from, and
    a line outside the grammar changes nothing and does not stop the loading. *)
Theorem load_rules_printed {SePolicy} (apply_op : PolicyOp -> SePolicy -> SePolicy) sp
    (prog : list (tokens * option PolicyOp)) :
  Forall (fun '(ts, o) => ts <> [] /\ Forall plain ts /\
    match o with Some op => statement ts op | None => forall op, ~ statement ts op end) prog ->
  load_rules apply_op sp (print_rules prog.*1) = foldl (flip apply_op) sp (omap snd prog).
Proof.
  intros H. unfold load_rules, print_rules.
  assert (Forall (fun ts => Forall plain ts) prog.*1) as Hp.
  { apply Forall_fmap. eapply Forall_impl; [exact H |]. by intros [ts o] (_ & ? & _). }
  rewrite <- (app_nil_r (concat _)), read_lines_lines, app_nil_r, utf8_lines_all.
  - revert sp. induction H as [|[ts o] prog (Hne & Hts & Ho) _ IH]; intros sp; [done |].
    simpl. rewrite parse_printed with (o := o) by done. inversion Hp. rewrite IH by done.
    by destruct o.
  - apply Forall_map. apply Forall_map. eapply Forall_impl; [exact Hp |].
    intros ts Hts. apply word_line. by apply show_words.
  - apply Forall_map. eapply Forall_impl; [exact Hp |].
    intros ts Hts. apply word_line. by apply show_words.
Qed.

Definition demo_prog : list (tokens * option PolicyOp) :=
  [ ([AL; LB; ID #"s1"; ID #"s2"; RB; ID #"t"; ID #"file"; ST],
     Some (Allow [ #"s1"; #"s2"] [ #"t"] [ #"file"] []));
    ([AL; ID #"s1"], None);
    ([TY; ID #"magisk"; ID #"domain"], Some (Type_ #"magisk" [ #"domain"])) ].

Lemma load_rules_printed_witness :
  load_rules cons [] (print_rules demo_prog.*1) =
  [Type_ #"magisk" [ #"domain"]; Allow [ #"s1"; #"s2"] [ #"t"] [ #"file"] []].
Proof.
  rewrite (load_rules_printed cons [] demo_prog); [reflexivity |].
  repeat constructor; try done;
    try (apply word_bool; vm_compute; reflexivity); try (vm_compute; reflexivity).
  - apply exec_statement_sound. vm_compute. reflexivity.
  - intros op Hop%exec_statement_complete. vm_compute in Hop. discriminate Hop.
Defined.

Lemma parse_digits_letter acc ds :
  Exists (fun c => to_digit 10 c = None) ds -> parse_digits 10 acc ds = None.
Proof.
  intros H. revert acc. induction H as [c ds Hc|c ds Hc IH]; intros acc; simpl; [by rewrite Hc |].
  destruct (to_digit 10 c); auto.
Qed.

(** A hexadecimal literal with a letter in it. *)
Definition hex_with_letter (ds : bytes) : Prop :=
  Forall (fun c => to_digit 16 c <> None) ds /\ Exists (fun c => to_digit 10 c = None) ds.

Lemma hex_digit_graphic c : to_digit 16 c <> None -> graphic c = true /\ special c = false /\ c <> bof 43.
Proof.
  intros H. unfold to_digit, in_rng in H.
  assert (48 <= bval c <= 57 \/ 65 <= bval c <= 70 \/ 97 <= bval c <= 102) as Hv.
  { repeat case_match; try done; lia. }
  split; [unfold graphic, in_rng; lia |]. split.
  - unfold special. apply bool_decide_eq_false. intros Hin.
    assert (bval c ∈ [123; 125; 44; 45]) as Hb.
    { repeat (apply elem_of_cons in Hin as [-> |Hin]; [set_solver |]). set_solver. }
    set_solver by lia.
  - intros ->. change (bval (bof 43)) with 43 in Hv. lia.
Qed.

Lemma hex_with_letter_props ds :
  hex_with_letter ds ->
  word (#"0x" ++ ds) /\ Forall (fun c => special c = false) (#"0x" ++ ds) /\
  parse_uint 16 10 ds = None.
Proof.
  intros [Hh Hl]. split_and!.
  - split; [done |]. apply Forall_app. split; [by repeat constructor |].
    eapply Forall_impl; [exact Hh |]. intros c Hc. by apply hex_digit_graphic.
  - apply Forall_app. split; [by repeat constructor |].
    eapply Forall_impl; [exact Hh |]. intros c Hc. by apply hex_digit_graphic.
  - unfold parse_uint. destruct Hh as [|c ds Hc Hh]; [by inversion Hl |].
    rewrite decide_False by by apply hex_digit_graphic.
    cbn [is_empty]. by rewrite parse_digits_letter.
Qed.

Lemma extract_hex_letter ds : hex_with_letter ds -> tokens_of_word (#"0x" ++ ds) = [HX 0].
Proof.
  intros (_ & Hs & Hp)%hex_with_letter_props. unfold tokens_of_word. cbn [extract_token].
  assert (keyword (#"0x" ++ ds) = None) as -> by done.
  rewrite !special_split by done. cbn [is_empty].
  change (strip_prefix (#"0x" ++ ds) #"~") with (@None bytes).
  change (is_empty (#"0x" ++ ds)) with false. cbn iota.
  rewrite (proj2 (strip_prefix_Some (#"0x" ++ ds) #"0x" ds)) by done. by rewrite Hp.
Qed.

(** Hexadecimal ioctl numbers are read in base ten.  A number written with a
    letter digit, such as 0x892A of the help text, is not a decimal numeral, becomes
    0, and the rule grants the whole range 0x0000-0xFFFF instead of the one command. *)
Theorem hex_literal_grants_all s t c ds :
  plain_id s -> plain_id t -> plain_id c -> hex_with_letter ds ->
  exec_statement (tokenize_statement
    (join #" " [ #"allowxperm"; s; t; c; #"ioctl"; #"0x" ++ ds ])) =
  Ok (Allowxperm [s] [t] [c] [mkXperm 0 0xFFFF false]).
Proof.
  intros Hs Ht Hc Hd. unfold tokenize_statement. change #" " with [bof 32].
  rewrite split_whitespace_join.
  2:{ rewrite !Forall_cons. split_and!; [.. | by constructor];
        first [apply Hs | apply Ht | apply Hc | by apply hex_with_letter_props
              | apply word_bool; vm_compute; reflexivity]. }
  cbn [map concat]. rewrite (extract_plain_id s), (extract_plain_id t), (extract_plain_id c), extract_hex_letter by done.
  change (tokens_of_word #"allowxperm") with [AX].
  change (tokens_of_word #"ioctl") with [ID #"ioctl"]. reflexivity.
Qed.

Lemma hex_literal_grants_all_witness :
  exec_statement (tokenize_statement #"allowxperm source target class ioctl 0x892A") =
  Ok (Allowxperm [ #"source"] [ #"target"] [ #"class"] [mkXperm 0 0xFFFF false]).
Proof.
  apply (hex_literal_grants_all #"source" #"target" #"class" #"892A");
    try (split; [apply word_bool; vm_compute; reflexivity |]; split_and!; [reflexivity | by repeat constructor | done | done]).
  split; [by repeat constructor |]. do 3 apply Exists_cons_tl. by apply Exists_cons_hd.
Defined.
End Grammar.
