(* ===== verification/PolicyHelp.v ===== *)
(** sepolicy/statement.rs and sepolicy/cli.rs: the help texts of magiskpolicy, and what they
    have to do with the statements it accepts. *)

From S2P Require Import Prelude Text Numeric Statement Grammar.

Module PolicyHelp.
Import Statement Grammar.

Definition preamble : list bytes :=
  [ #"** Policy statements:";
   [];
   #"One policy statement should be treated as a single parameter;";
   #"this means each policy statement should be enclosed in quotes.";
   #"Multiple policy statements can be provided in a single command.";
   [];
   #"Statements has a format of " ++ [bof 34] ++ #"<rule_name> [args...]" ++ [bof 34] ++ #".";
   #"Arguments labeled with (^) can accept one or more entries.";
   #"Multiple entries consist of a space separated list enclosed in braces ({}).";
   #"Arguments labeled with (" ++ #"*) are the same as (^), but additionally";
   #"support the match-all operator (" ++ #"*).";
   [];
   #"Example: " ++ [bof 34] ++ #"allow { s1 s2 } { t1 t2 } class *" ++ [bof 34];
   #"Will be expanded to:";
   [];
   #"allow s1 t1 class { all-permissions-of-class }";
   #"allow s1 t2 class { all-permissions-of-class }";
   #"allow s2 t1 class { all-permissions-of-class }";
   #"allow s2 t2 class { all-permissions-of-class }";
   [];
   #"** Extended permissions:";
   [];
   #"The only supported operation for extended permissions right now is 'ioctl'.";
   #"xperm_set is one or multiple hexadecimal numeric values ranging from 0x0000 to 0xFFFF.";
   #"Multiple values consist of a space separated list enclosed in braces ({}).";
   #"Use the complement operator (~) to specify all permissions except those explicitly listed.";
   #"Use the range operator (-) to specify all permissions within the low " ++ map bof [226; 128; 147] ++ #" high range.";
   #"Use the match all operator (" ++ #"*) to match all ioctl commands (0x0000-0xFFFF).";
   #"The special value 0 is used to clear all rules.";
   [];
   #"Some examples:";
   #"allowxperm source target class ioctl 0x8910";
   #"allowxperm source target class ioctl { 0x8910-0x8926 0x892A-0x8935 }";
   #"allowxperm source target class ioctl ~{ 0x8910 0x892A }";
   #"allowxperm source target class ioctl *";
   [];
   #"** Supported policy statements:";
   []].

(** The forms of the statements, as they are shown after an error. *)
Definition forms : list ParseError :=
  [AvtabAv AL; AvtabAv DN; AvtabAv AA; AvtabAv DA; AvtabXperms AX; AvtabXperms AY; AvtabXperms DX; TypeState PM; TypeState EF;
   TypeAttr; NewType; NewAttr; TypeTrans; AvtabType TC; AvtabType TM; GenfsCon].

Definition help_lines : list bytes := preamble ++ map (show_error []) forms.
(** [format_statement_help] *)
Definition format_statement_help : bytes := concat (map (fun l => l ++ [newline]) help_lines).

(** [print_usage] of magiskpolicy. *)
Definition print_usage (cmd : bytes) : bytes :=
  concat (map (fun l => l ++ [newline])
  [ #"MagiskPolicy - SELinux Policy Patch Tool";
   [];
   #"Usage: " ++ cmd ++ #" [--options...] [policy statements...]";
   [];
   #"Options:";
   #"   --help            show help message for policy statements";
   #"   --load FILE       load monolithic sepolicy from FILE";
   #"   --load-split      load from precompiled sepolicy or compile";
   #"                     split cil policies";
   #"   --compile-split   compile split cil policies";
   #"   --save FILE       dump monolithic sepolicy to FILE";
   #"   --live            immediately load sepolicy into the kernel";
   #"   --magisk          apply built-in Magisk sepolicy rules";
   #"   --apply FILE      apply rules from FILE, read and parsed";
   #"                     line by line as policy statements";
   #"                     (multiple --apply are allowed)";
   #"   --print-rules     print all rules in the loaded sepolicy";
   [];
   #"If neither --load, --load-split, nor --compile-split is specified,";
   #"it will load from current live policies (/sys/fs/selinux/policy)"]) ++ [newline] ++ format_statement_help ++ [newline].

(** * Theorems *)

(** The help is complete: a statement that is refused is answered with a line of it, with
    all of it if it is empty, or with the name of the action that is none; and each form
    belongs to the action it begins with, which is a keyword. *)
Theorem help_complete ts e :
  exec_statement ts = Err e ->
  (e = ShowHelp /\ ts = []) \/ (exists a, e = UnknownAction a /\ head ts = Some a /\ a ∉ [AL; DN; AA; DA; AX; AY; DX; PM; EF; TA; TY; AT; TT; TC; TM; GF]) \/
  (show_error format_statement_help e ∈ help_lines /\
   exists a, head ts = Some a /\ starts_with (show_error format_statement_help e) (show_token a ++ #" ") = true /\ tokens_of_word (show_token a) = [a]).
Proof.
  intros He. destruct (exec_statement_total ts) as [[op Hop]|Hu]; [congruence |]. rewrite Hu in He. injection He as <-.
  destruct ts as [|a ts]; [by left |]. right.
  assert (forall f, f ∈ forms -> show_error format_statement_help f ∈ help_lines) as Hin.
  { intros f Hf. apply elem_of_app. right. apply list_elem_of_fmap. exists f. split; [| done]. unfold forms in Hf. rewrite !elem_of_cons, elem_of_nil in Hf.
    repeat (destruct Hf as [->|Hf]; [done |]). done. }
  destruct a; cbn [usage head].
  all: try (right; split; [apply Hin; unfold forms; rewrite !elem_of_cons; tauto |]; eexists; split_and!; [reflexivity | reflexivity | reflexivity]).
  all: left; eexists; split_and!; [reflexivity | reflexivity |]; rewrite !not_elem_of_cons; split_and!; try done; apply not_elem_of_nil.
Qed.

(** The example of the help text means what the text says, for the two lists; the match-all
    operator is the empty list.  The examples for extended permissions do not: their
    numbers are read in base ten. *)
Theorem help_examples :
  let run s := exec_statement (tokenize_statement s) in
  run #"allow { s1 s2 } { t1 t2 } class *" = Ok (Allow [ #"s1"; #"s2"] [ #"t1"; #"t2"] [ #"class"] []) /\
  run #"allowxperm source target class ioctl *" = Ok (Allowxperm [ #"source"] [ #"target"] [ #"class"] [mkXperm 0 0xFFFF false]) /\
  run #"allowxperm source target class ioctl 0x8910" = Ok (Allowxperm [ #"source"] [ #"target"] [ #"class"] [mkXperm 8910 8910 false]) /\
  8910 <> 0x8910.
Proof. split_and!; [vm_compute; reflexivity.. | done]. Qed.

Lemma help_complete_witness : show_error format_statement_help (NewAttr) ∈ help_lines.
Proof.
  destruct (help_complete [AT] NewAttr eq_refl) as [[H _]|[(a & H & _)|[H _]]]; [discriminate H | discriminate H | exact H].
Defined.

End PolicyHelp.
