(* ===== verification/Policy.v ===== *)
(** sepolicy/rules.rs, sepolicy/cli.rs and the printing of sepolicy/lib.rs: the rules that
    are built in, and the command magiskpolicy.

    The policy database is C++: a rule is the call of [SePolicy] it makes, as in Statement,
    and the command has the database, its readers and its writer as arguments. *)

From S2P Require Import Prelude Text Numeric Statement Args.

Module Policy.
Import Statement Args.

(** * The built-in rules (sepolicy/rules.rs) *)

Definition SEPOL_PROC_DOMAIN : bytes := #"magisk".
Definition SEPOL_FILE_TYPE : bytes := #"magisk_file".
Definition SEPOL_LOG_TYPE : bytes := #"magisk_log_file".

(** The abbreviations of the macro [rules!]. *)
Definition proc : list bytes := [SEPOL_PROC_DOMAIN].
Definition file : list bytes := [SEPOL_FILE_TYPE].
Definition log : list bytes := [SEPOL_LOG_TYPE].
Definition all {A} : list A := [].
Definition xall : list Xperm := [mkXperm 0x0000 0xFFFF false].
Definition svcmgr : list bytes := [ #"servicemanager"; #"vndservicemanager"; #"hwservicemanager"].

Definition magisk_rules : list PolicyOp :=
  [ Deny all [ #"kernel"] [ #"security"] [ #"load_policy"];
    Type_ SEPOL_PROC_DOMAIN [ #"domain"];
    Typeattribute proc [ #"mlstrustedsubject"; #"netdomain"; #"appdomain"];
    Type_ SEPOL_FILE_TYPE [ #"file_type"];
    Typeattribute file [ #"mlstrustedobject"];
    Type_ SEPOL_LOG_TYPE [ #"file_type"];
    Typeattribute log [ #"mlstrustedobject"];
    (* Create unconstrained file type *)
    Allow [ #"domain"] file [ #"file"; #"dir"; #"fifo_file"; #"chr_file"; #"lnk_file"; #"sock_file"] all;
    (* Only allow zygote to open log pipe *)
    Allow [ #"zygote"] log [ #"fifo_file"] [ #"open"; #"read"];
    (* Allow all processes to output logs *)
    Allow [ #"domain"] log [ #"fifo_file"] [ #"write"];
    (* Make our root domain unconstrained *)
    Allow proc [ #"fs_type"; #"dev_type"; #"file_type"; #"domain"; #"service_manager_type"; #"hwservice_manager_type";
                 #"vndservice_manager_type"; #"port_type"; #"node_type"; #"property_type"] all all;
    (* Just in case, make the domain permissive *)
    Permissive proc;
    (* Allow us to do any ioctl *)
    Allowxperm proc [ #"fs_type"; #"dev_type"; #"file_type"; #"domain"] [ #"blk_file"; #"fifo_file"; #"chr_file"] xall;
    Allowxperm proc proc [ #"tcp_socket"; #"udp_socket"; #"rawip_socket"] xall;
    (* Let binder work with our processes *)
    Allow svcmgr proc [ #"dir"] [ #"search"];
    Allow svcmgr proc [ #"file"] [ #"open"; #"read"; #"map"];
    Allow svcmgr proc [ #"process"] [ #"getattr"];
    Allow [ #"domain"] proc [ #"binder"] [ #"call"; #"transfer"];
    (* Other common IPC *)
    Allow [ #"domain"] proc [ #"process"] [ #"sigchld"];
    Allow [ #"domain"] proc [ #"fd"] [ #"use"];
    Allow [ #"domain"] proc [ #"fifo_file"] [ #"write"; #"read"; #"open"; #"getattr"];
    (* Allow these processes to access MagiskSU and output logs *)
    Allow [ #"zygote"; #"shell"; #"platform_app"; #"system_app"; #"priv_app"; #"untrusted_app"; #"untrusted_app_all"]
          proc [ #"unix_stream_socket"] [ #"connectto"; #"getopt"];
    (* Let selected domains access tmpfs files *)
    Allow [ #"init"; #"zygote"; #"shell"] [ #"tmpfs"] [ #"file"] all;
    (* Allow magiskinit daemon to log to kmsg *)
    Allow [ #"kernel"] [ #"rootfs"; #"tmpfs"] [ #"chr_file"] [ #"write"];
    (* Allow magiskinit daemon to handle mock selinuxfs *)
    Allow [ #"kernel"] [ #"tmpfs"] [ #"fifo_file"] [ #"open"; #"read"; #"write"];
    (* For relabelling files *)
    Allow [ #"rootfs"] [ #"labeledfs"; #"tmpfs"] [ #"filesystem"] [ #"associate"];
    Allow file [ #"pipefs"; #"devpts"] [ #"filesystem"] [ #"associate"];
    Allow [ #"kernel"] all [ #"file"] [ #"relabelto"];
    Allow [ #"kernel"] [ #"tmpfs"] [ #"file"] [ #"relabelfrom"];
    (* Let init transit to SEPOL_PROC_DOMAIN *)
    Allow [ #"kernel"] [ #"kernel"] [ #"process"] [ #"setcurrent"];
    Allow [ #"kernel"] proc [ #"process"] [ #"dyntransition"];
    (* Let init run stuffs *)
    Allow [ #"init"] proc [ #"process"] all;
    (* For mounting loop devices, mirrors, tmpfs *)
    Allow [ #"kernel"] [ #"fs_type"; #"dev_type"; #"file_type"] [ #"file"] [ #"read"; #"write"];
    (* Zygisk rules *)
    Allow [ #"zygote"] [ #"zygote"] [ #"process"] [ #"execmem"];
    Allow [ #"zygote"] [ #"fs_type"] [ #"filesystem"] [ #"unmount"];
    Allow [ #"system_server"] [ #"system_server"] [ #"process"] [ #"execmem"];
    (* Shut llkd up *)
    Dontaudit [ #"llkd"] proc [ #"process"] [ #"ptrace"];
    (* Keep /data/adb/* context *)
    Deny [ #"init"] [ #"adb_data_file"] [ #"dir"] [ #"search"];
    Deny [ #"vendor_init"] [ #"adb_data_file"] [ #"dir"] [ #"search"] ].

(** [SePolicy::xperm_to_string]. *)
Definition hex_06X (n : Z) : bytes := #"0x" ++ zero_pad 4 (upper_hex n).

Definition xperm_to_string (p : Xperm) : bytes :=
  (if reset p then #"~" else []) ++
  if low p =? high p then #"{ " ++ hex_06X (low p) ++ #" }" else #"{ " ++ hex_06X (low p) ++ #"-" ++ hex_06X (high p) ++ #" }".

(** * The command (sepolicy/cli.rs) *)

Record Cli := mkCli {
  live : bool; magisk : bool; compile_split : bool; load_split : bool; print_rules : bool;
  load : option bytes; save : option bytes; apply_files : list bytes; polices : list bytes }.

Definition str_value (v : bytes) : res bytes bytes := Ok v.
Definition switch (name : bytes) : Field bytes := mkField name (Switch TBool) None None None str_value.
Definition option_ (name : bytes) (o : Optionality bytes) : Field bytes := mkField name (Option_ o) None None None str_value.

Definition Cli_fields : list (Field bytes) :=
  [ switch #"live"; switch #"magisk"; switch #"compile_split"; switch #"load_split"; switch #"print_rules";
    option_ #"load" Optional; option_ #"save" Optional; option_ #"apply" Repeating;
    mkField #"polices" (Positional Repeating false) None None None str_value ].

Definition Cli_of (l : list (Slot bytes)) : res EarlyExit Cli :=
  match l with
  | [FlagBool live; FlagBool magisk; FlagBool compile; FlagBool split; FlagBool print; One load; One save; Many apply; Many polices] =>
      Ok (mkCli live magisk compile split print load save apply polices)
  | _ => Panic
  end.

Section Main.
Context {SePolicy : Type} (apply_op : PolicyOp -> SePolicy -> SePolicy).
(** [None] is a null policy; [read_file] is the contents of a file of rules. *)
Context (from_file : bytes -> option SePolicy) (from_split compile_split_ : option SePolicy).
Context (to_file : SePolicy -> bytes -> bool) (read_file : bytes -> option bytes).

(** The exit code, the policies that are written in order, and the one that is printed. *)
Record Outcome := mkOutcome { code : Z; written : list (bytes * SePolicy); printed : option SePolicy }.

Definition fail : Outcome := mkOutcome 1 [] None.

Definition apply_ops (ops : list PolicyOp) (sp : SePolicy) : SePolicy := fold_left (fun sp op => apply_op op sp) ops sp.

Definition load_source (cli : Cli) : option (option SePolicy) :=
  match load cli, load_split cli, compile_split cli with
  | Some file, false, false => Some (from_file file)
  | None, true, false => Some from_split
  | None, false, true => Some compile_split_
  | None, false, false => Some (from_file #"/sys/fs/selinux/policy")
  | _, _, _ => None
  end.

Definition edit (cli : Cli) (sp : SePolicy) : SePolicy :=
  let sp := if magisk cli then apply_ops magisk_rules sp else sp in
  let sp := fold_left (fun sp f => load_rule_file apply_op sp (read_file f)) (apply_files cli) sp in
  fold_left (load_rules apply_op) (polices cli) sp.

Definition put (sp : SePolicy) (f : bytes) (o : Outcome) : Outcome := mkOutcome (code o) ((f, sp) :: written o) (printed o).

Definition run_cli (cli : Cli) : Outcome :=
  match load_source cli with
  | None | Some None => fail
  | Some (Some sp) =>
      if print_rules cli then
        if magisk cli || negb (is_empty (apply_files cli)) || negb (is_empty (polices cli)) || live cli
           || match save cli with Some _ => true | None => false end
        then fail else mkOutcome 0 [] (Some sp)
      else
        let sp := edit cli sp in
        let finish :=
          match save cli with
          | Some f => if to_file sp f then put sp f (mkOutcome 0 [] None) else fail
          | None => mkOutcome 0 [] None
          end in
        if live cli then
          if to_file sp #"/sys/fs/selinux/load" then put sp #"/sys/fs/selinux/load" finish else fail
        else finish
  end.

(** [main], and [on_early_exit]; [None] aborts. *)
Definition main (cmds : list bytes) : option Outcome :=
  match cmds with
  | cmd :: args =>
      if is_empty args then Some fail else
      match (l ← from_args Cli_fields top_level_triggers [cmd] args; Cli_of l) with
      | Ok cli => Some (run_cli cli)
      | Err e => Some (mkOutcome (if is_help e then 0 else 1) [] None)
      | Panic => None
      end
  | [] => Some fail
  end.
End Main.

(** * What the command writes *)

(** The operation of a line, and those of a text. *)
Definition line_op (line : bytes) : option PolicyOp :=
  let line := trim line in
  if is_empty line || starts_with line #"#" then None else res_ok (exec_statement (tokenize_statement line)).
Definition text_ops (rules : bytes) : list PolicyOp := omap line_op (utf8_lines (read_lines rules)).

Section MainSpec.
Context {SePolicy : Type} (apply_op : PolicyOp -> SePolicy -> SePolicy).
Context (from_file : bytes -> option SePolicy) (from_split compile_split_ : option SePolicy).
Context (to_file : SePolicy -> bytes -> bool) (read_file : bytes -> option bytes).

Lemma load_rules_ops sp rules : load_rules apply_op sp rules = apply_ops apply_op (text_ops rules) sp.
Proof.
  unfold load_rules, text_ops, apply_ops. revert sp. induction (utf8_lines (read_lines rules)) as [|l ls IH]; intros sp; [done |].
  cbn [foldl omap list_omap]. rewrite IH. unfold parse_statement, line_op. cbv zeta. destruct (is_empty _ || _); [done |].
  by destruct (exec_statement _).
Qed.

Lemma apply_ops_app ops1 ops2 sp : apply_ops apply_op (ops1 ++ ops2) sp = apply_ops apply_op ops2 (apply_ops apply_op ops1 sp).
Proof. unfold apply_ops. apply fold_left_app. Qed.

Definition file_ops (f : bytes) : list PolicyOp := match read_file f with Some rules => text_ops rules | None => [] end.

(** All the operations of a command line, in the order they are applied. *)
Definition cli_ops (cli : Cli) : list PolicyOp :=
  (if magisk cli then magisk_rules else []) ++ concat (map file_ops (apply_files cli)) ++ concat (map text_ops (polices cli)).

Lemma fold_ops {A} (ops_of : A -> list PolicyOp) (step : SePolicy -> A -> SePolicy) l sp :
  (forall sp x, step sp x = apply_ops apply_op (ops_of x) sp) -> fold_left step l sp = apply_ops apply_op (concat (map ops_of l)) sp.
Proof.
  intros H. revert sp. induction l as [|x l IH]; intros sp; [done |]. cbn [fold_left map concat]. by rewrite apply_ops_app, IH, H.
Qed.

Lemma edit_ops cli sp : edit apply_op read_file cli sp = apply_ops apply_op (cli_ops cli) sp.
Proof.
  unfold edit, cli_ops. cbv zeta. rewrite !apply_ops_app.
  rewrite (fold_ops text_ops (load_rules apply_op)) by apply load_rules_ops.
  rewrite (fold_ops file_ops) by (intros sp' f; unfold load_rule_file, file_ops; destruct (read_file f); [apply load_rules_ops | done]).
  by destruct (magisk cli).
Qed.

(** Where the policy is to be written, in order. *)
Definition targets (cli : Cli) : list bytes :=
  (if live cli then [ #"/sys/fs/selinux/load"] else []) ++ match save cli with Some f => [f] | None => [] end.

(** Whatever is written is the loaded policy with the built-in rules, then those of the
    files, then the statements, whatever the order of the options; nothing is written
    behind a target that fails, and the exit code is zero exactly if everything was. *)
Lemma run_cli_policy cli sp :
  load_source from_file from_split compile_split_ cli = Some (Some sp) -> print_rules cli = false ->
  let o := run_cli apply_op from_file from_split compile_split_ to_file read_file cli in
  let result := apply_ops apply_op (cli_ops cli) sp in
  (exists n, written o = map (fun f => (f, result)) (take n (targets cli))) /\
  (code o = 0 <-> Forall (fun f => to_file result f = true) (targets cli)) /\ (code o = 0 -> map fst (written o) = targets cli).
Proof.
  intros Hl Hp. unfold run_cli. rewrite Hl, Hp, edit_ops. cbv zeta. generalize (apply_ops apply_op (cli_ops cli) sp) as r. intros r.
  unfold targets, put, fail. clear. destruct (live cli), (save cli) as [f|]; cbn [app].
  - destruct (to_file r #"/sys/fs/selinux/load") eqn:E1, (to_file r f) eqn:E2; cbn [code written]; rewrite !Forall_cons, E1, E2.
    + split; [by exists 2%nat |]. split; [| done]. split; [by repeat constructor | done].
    + split; [by exists 1%nat |]. split; [| done]. split; [done |]. by intros (_ & ? & _).
    + split; [by exists 0%nat |]. split; [| done]. split; [done |]. by intros (? & _).
    + split; [by exists 0%nat |]. split; [| done]. split; [done |]. by intros (? & _).
  - destruct (to_file r #"/sys/fs/selinux/load") eqn:E1; cbn [code written]; rewrite Forall_singleton, E1.
    + split; [by exists 1%nat |]. done.
    + split; [by exists 0%nat |]. done.
  - destruct (to_file r f) eqn:E2; cbn [code written]; rewrite Forall_singleton, E2.
    + split; [by exists 1%nat |]. done.
    + split; [by exists 0%nat |]. done.
  - split; [by exists 0%nat |]. split; [| done]. split; [constructor | done].
Qed.
End MainSpec.
End Policy.
