(* ===== verification/PolicyDb.v ===== *)
(** sepolicy/api.cpp and the access vector rules of sepolicy/sepolicy.cpp: the tables of a
    policy that the operations of Policy and Statement change, and what the built-in rules
    make of any policy they are applied to.

    A policy is its types and attributes, its classes with their permissions, the attributes
    of each type, the bits of the access vector table, and the permissive types.  Extended
    permissions, auditing and transitions are other tables.  Names are shorter than the 256
    bytes a lookup copies, and inserting a type does not run out of memory. *)

From S2P Require Import Prelude Text Numeric Statement Policy.

Module PolicyDb.
Import Statement Policy.

(** * The tables *)

Inductive Flavor := TYPE_TYPE | TYPE_ATTRIB.

#[export] Instance Flavor_eq_dec : EqDecision Flavor.
Proof. solve_decision. Defined.

Record Db := mkDb {
  flavor : bytes -> option Flavor;               (** [p_types] *)
  class_perms : bytes -> option (list bytes);    (** [p_classes], common permissions included *)
  type_attrs : bytes -> list bytes;              (** [type_attr_map] *)
  allowed : bytes -> bytes -> bytes -> bytes -> bool;   (** [te_avtab], for [AVTAB_ALLOWED] *)
  permissive : bytes -> bool }.

Definition known (d : Db) (x : bytes) : bool := match flavor d x with Some _ => true | None => false end.
Definition is_class (d : Db) (c : bytes) : bool := match class_perms d c with Some _ => true | None => false end.
Definition has_perm (d : Db) (c p : bytes) : bool := match class_perms d c with Some l => bool_decide (p ∈ l) | None => false end.

(** The types a list of names stands for: no names are all attributes, or, when a rule takes
    something away, all types and attributes; a name that does not exist is skipped. *)
Definition sel (strip : bool) (d : Db) (names : list bytes) (x : bytes) : bool :=
  match names with
  | [] => match flavor d x with Some TYPE_ATTRIB => true | Some TYPE_TYPE => strip | None => false end
  | _ => bool_decide (x ∈ names) && known d x
  end.

Definition sel_class (d : Db) (cs : list bytes) (c : bytes) : bool := is_class d c && (is_empty cs || bool_decide (c ∈ cs)).

(** No permissions are all bits; named ones need a class that has them. *)
Definition sel_perm (d : Db) (cs ps : list bytes) (c p : bytes) : bool :=
  is_empty ps || negb (is_empty cs) && bool_decide (p ∈ ps) && has_perm d c p.

Definition hits (strip : bool) (d : Db) (ss ts cs ps : list bytes) (s t c p : bytes) : bool :=
  sel strip d ss s && sel strip d ts t && sel_class d cs c && sel_perm d cs ps c p.

(** [add_rule] for all combinations of the names, with the effect [AVTAB_ALLOWED]. *)
Definition add_rule (invert : bool) (ss ts cs ps : list bytes) (d : Db) : Db :=
  mkDb (flavor d) (class_perms d) (type_attrs d)
    (fun s t c p => if hits invert d ss ts cs ps s t c p then negb invert else allowed d s t c p) (permissive d).

Definition add_type (name : bytes) (f : Flavor) (d : Db) : Db :=
  if known d name then d else
  mkDb (fun x => if bool_decide (x = name) then Some f else flavor d x) (class_perms d) (type_attrs d) (allowed d) (permissive d).

Definition add_typeattribute (d : Db) (ta : bytes * bytes) : Db :=
  if bool_decide (flavor d ta.1 = Some TYPE_TYPE) && bool_decide (flavor d ta.2 = Some TYPE_ATTRIB) then
    mkDb (flavor d) (class_perms d) (fun x => if bool_decide (x = ta.1) then type_attrs d x ++ [ta.2] else type_attrs d x) (allowed d) (permissive d)
  else d.

Definition set_type_state (on : bool) (ts : list bytes) (d : Db) : Db :=
  mkDb (flavor d) (class_perms d) (type_attrs d) (allowed d)
    (fun x => if known d x && (is_empty ts || bool_decide (x ∈ ts)) then on else permissive d x).

(** The operations of [SePolicy] on these tables. *)
Definition apply_db (op : PolicyOp) (d : Db) : Db :=
  match op with
  | Allow ss ts cs ps => add_rule false ss ts cs ps d
  | Deny ss ts cs ps => add_rule true ss ts cs ps d
  | Type_ t atts => fold_left (fun d a => add_typeattribute d (t, a)) atts (add_type t TYPE_TYPE d)
  | Typeattribute ts atts => fold_left add_typeattribute (list_prod ts atts) d
  | Attribute a => add_type a TYPE_ATTRIB d
  | Permissive ts => set_type_state true ts d
  | Enforce ts => set_type_state false ts d
  | _ => d
  end.

(** A process of type [s] may do [p] to an object of class [c] and type [t]: by a rule for the
    types or for their attributes. *)
Definition may (d : Db) (s t c p : bytes) : Prop :=
  exists s' t', s' ∈ s :: type_attrs d s /\ t' ∈ t :: type_attrs d t /\ allowed d s' t' c p = true.

(** * Rules *)

Definition simple (op : PolicyOp) : bool := match op with Type_ _ _ | Typeattribute _ _ | Attribute _ => false | _ => true end.

Definition same_names (d d' : Db) : Prop := flavor d' = flavor d /\ class_perms d' = class_perms d /\ type_attrs d' = type_attrs d.

Lemma apply_simple op d : simple op = true -> same_names d (apply_db op d).
Proof. by destruct op. Qed.

Lemma apply_simples ops d : forallb simple ops = true -> same_names d (apply_ops apply_db ops d).
Proof.
  revert d. induction ops as [|op ops IH]; intros d; [by intros _; split_and! |]. cbn [forallb].
  intros [H1 H2]%andb_true_iff. destruct (IH (apply_db op d) H2) as (E1 & E2 & E3), (apply_simple op d H1) as (F1 & F2 & F3).
  rewrite F1 in E1. rewrite F2 in E2. rewrite F3 in E3. by split_and!.
Qed.

Lemma hits_names strip d d' ss ts cs ps s t c p : same_names d d' -> hits strip d' ss ts cs ps s t c p = hits strip d ss ts cs ps s t c p.
Proof. intros (H1 & H2 & _). unfold hits, sel, sel_class, sel_perm, is_class, has_perm, known. by rewrite H1, H2. Qed.

Definition allow_hits (d : Db) (s t c p : bytes) (op : PolicyOp) : bool := match op with Allow ss ts cs ps => hits false d ss ts cs ps s t c p | _ => false end.
Definition deny_hits (d : Db) (s t c p : bytes) (op : PolicyOp) : bool := match op with Deny ss ts cs ps => hits true d ss ts cs ps s t c p | _ => false end.

(** Where no rule takes something away, the bits are those from before and those allowed. *)
Lemma rules_allowed ops d s t c p :
  forallb simple ops = true -> existsb (deny_hits d s t c p) ops = false ->
  allowed (apply_ops apply_db ops d) s t c p = allowed d s t c p || existsb (allow_hits d s t c p) ops.
Proof.
  unfold apply_ops. revert d. induction ops as [|op ops IH]; intros d Hs Hd; [cbn; by rewrite orb_false_r |]. cbn [forallb fold_left existsb] in *.
  apply andb_true_iff in Hs as [Hs1 Hs2]. apply orb_false_iff in Hd as [Hd1 Hd2]. pose proof (apply_simple op d Hs1) as Hn.
  assert (existsb (deny_hits (apply_db op d) s t c p) ops = false) as Hd2'.
  { rewrite <- Hd2. clear -Hn. induction ops as [|o ops IH]; [done |]. cbn [existsb]. rewrite IH. f_equal. destruct o; try done. by apply hits_names. }
  assert (existsb (allow_hits (apply_db op d) s t c p) ops = existsb (allow_hits d s t c p) ops) as Ha.
  { clear -Hn. induction ops as [|o ops IH]; [done |]. cbn [existsb]. rewrite IH. f_equal. destruct o; try done. by apply hits_names. }
  rewrite IH by done. rewrite Ha, orb_assoc. f_equal. destruct op; cbn [apply_db allow_hits] in *; try by rewrite orb_false_r.
  - cbn [add_rule allowed]. destruct (hits false d _ _ _ _ s t c p); cbn; [by rewrite orb_true_r | by rewrite orb_false_r].
  - cbn [add_rule allowed]. cbn [deny_hits] in Hd1. rewrite Hd1. by rewrite orb_false_r.
Qed.

(** The classes and permissions of the rules from one name to another. *)
Definition matching (s t : bytes) (ops : list PolicyOp) : list (list bytes * list bytes) :=
  omap (fun op => match op with Allow ss ts cs ps => if bool_decide (s ∈ ss) && bool_decide (t ∈ ts) then Some (cs, ps) else None | _ => None end) ops.

(** Every rule names its sources, and those with the source [s] their targets. *)
Definition named (s : bytes) (ops : list PolicyOp) : bool :=
  forallb (fun op => match op with Allow ss ts _ _ => negb (is_empty ss) && (negb (bool_decide (s ∈ ss)) || negb (is_empty ts)) | _ => true end) ops.

Definition sel_pair (d : Db) (c p : bytes) (r : list bytes * list bytes) : bool := sel_class d r.1 c && sel_perm d r.1 r.2 c p.

Lemma allow_matching d ops s t c p :
  named s ops = true -> existsb (allow_hits d s t c p) ops = known d s && known d t && existsb (sel_pair d c p) (matching s t ops).
Proof.
  induction ops as [|op ops IH]; intros Hn; [by rewrite andb_false_r |]. unfold named in Hn. cbn [forallb] in Hn. apply andb_true_iff in Hn as [H1 Hn].
  cbn [existsb]. rewrite IH by exact Hn. destruct op as [ss ts cs ps| | | | | | | | | | | | | | |]; cbn [allow_hits orb]; try done.
  unfold matching. cbn [omap list_omap]. fold (matching s t ops). unfold hits. destruct ss as [|x ss]; [done |]. cbn [is_empty negb andb] in H1.
  unfold sel at 1. destruct (bool_decide (s ∈ x :: ss)); cbn [andb orb negb] in *; [| done].
  destruct ts as [|y ts]; [done |]. unfold sel. destruct (bool_decide (t ∈ y :: ts)); cbn [andb]; [| by rewrite andb_false_r].
  cbn [existsb]. unfold sel_pair at 2. cbn [fst snd]. destruct (known d s), (known d t); cbn [andb orb]; done.
Qed.

Definition sources (ops : list PolicyOp) : list bytes := concat (map (fun op => match op with Allow ss _ _ _ => ss | _ => [] end) ops).

Lemma not_source d ops s t c p :
  s ∉ sources ops -> forallb (fun op => match op with Allow ss _ _ _ => negb (is_empty ss) | _ => true end) ops = true ->
  existsb (allow_hits d s t c p) ops = false.
Proof.
  unfold sources. induction ops as [|op ops IH]; intros Hs Hn; [done |]. cbn [forallb map concat existsb] in *. apply andb_true_iff in Hn as [H1 Hn].
  rewrite IH by (done || set_solver). rewrite orb_false_r. destruct op as [ss ts cs ps| | | | | | | | | | | | | | |]; try done. cbn [allow_hits]. unfold hits, sel.
  destruct ss as [|x ss]; [done |]. rewrite bool_decide_eq_false_2 by set_solver. done.
Qed.

(** Rules that name their classes and permissions, as pairs. *)
Definition pairs (l : list (list bytes * list bytes)) : list (bytes * bytes) := concat (map (fun r => list_prod r.1 r.2) l).

Lemma has_perm_class d c p : has_perm d c p = true -> is_class d c = true.
Proof. unfold has_perm, is_class. by destruct (class_perms d c). Qed.

Lemma sel_pairs d l c p :
  forallb (fun r => negb (is_empty r.1) && negb (is_empty r.2)) l = true ->
  existsb (sel_pair d c p) l = true <-> (c, p) ∈ pairs l /\ has_perm d c p = true.
Proof.
  induction l as [|r l IH]; intros Hn; [set_solver |]. cbn [forallb existsb] in *. apply andb_true_iff in Hn as [H1 Hn]. unfold pairs in *. cbn [map concat].
  rewrite orb_true_iff, IH, elem_of_app by done. destruct r as [[|x cs] [|y ps]]; try done. cbn [fst snd].
  assert (sel_pair d c p (x :: cs, y :: ps) = true <-> (c, p) ∈ list_prod (x :: cs) (y :: ps) /\ has_perm d c p = true) as ->; [| tauto].
  unfold sel_pair, sel_class, sel_perm. cbn [fst snd is_empty negb orb andb]. rewrite !andb_true_iff, !bool_decide_eq_true.
  rewrite (list_elem_of_In (list_prod _ _)), in_prod_iff, <- !list_elem_of_In.
  split; [tauto |]. intros [[H2 H3] H4]. by pose proof (has_perm_class _ _ _ H4).
Qed.

(** * The types the rules declare *)

Definition is_attr (d : Db) (a : bytes) : bool := bool_decide (flavor d a = Some TYPE_ATTRIB).

(** The tables of [d'] are those of [d], with the attributes among [atts] added to [t]. *)
Definition attached (t : bytes) (atts : list bytes) (d d' : Db) : Prop :=
  flavor d' = flavor d /\ class_perms d' = class_perms d /\ allowed d' = allowed d /\ permissive d' = permissive d /\
  forall x, type_attrs d' x = type_attrs d x ++ if bool_decide (x = t) then List.filter (is_attr d) atts else [].

Lemma attached_nil t d : attached t [] d d.
Proof. unfold attached. split_and!; try done. intros x. cbn. destruct (bool_decide _); by rewrite app_nil_r. Qed.

Lemma attached_app t l1 l2 d d1 d2 : attached t l1 d d1 -> attached t l2 d1 d2 -> attached t (l1 ++ l2) d d2.
Proof.
  intros (A1 & A2 & A3 & A4 & A5) (B1 & B2 & B3 & B4 & B5). unfold attached. rewrite B1, B2, B3, B4. split_and!; try done.
  intros x. rewrite B5, A5, List.filter_app. assert (is_attr d1 = is_attr d) as -> by (unfold is_attr; by rewrite A1).
  destruct (bool_decide _); [by rewrite app_assoc | by rewrite !app_nil_r].
Qed.

Lemma add_attribute t a d : flavor d t = Some TYPE_TYPE -> attached t [a] d (add_typeattribute d (t, a)).
Proof.
  intros Ht. unfold attached, add_typeattribute. cbn [fst snd List.filter]. rewrite (bool_decide_eq_true_2 (flavor d t = _)) by done. cbn [andb].
  fold (is_attr d a). destruct (is_attr d a); split_and!; try done; intros x; cbn [type_attrs]; destruct (bool_decide _); by rewrite ?app_nil_r.
Qed.

Lemma add_attributes t atts d : flavor d t = Some TYPE_TYPE -> attached t atts d (fold_left (fun d a => add_typeattribute d (t, a)) atts d).
Proof.
  revert d. induction atts as [|a atts IH]; intros d Ht; [apply attached_nil |]. pose proof (add_attribute t a d Ht) as H.
  apply (attached_app t [a] atts _ _ _ H). apply IH. destruct H as (-> & _). done.
Qed.

(** Declaring a type with some attributes and adding others to it. *)
Definition declared (t : bytes) (atts : list bytes) (d d' : Db) : Prop :=
  (forall x, flavor d' x = if bool_decide (x = t) then Some TYPE_TYPE else flavor d x) /\ class_perms d' = class_perms d /\
  allowed d' = allowed d /\ forall x, type_attrs d' x = type_attrs d x ++ if bool_decide (x = t) then List.filter (is_attr d) atts else [].

Lemma declare_type t l1 l2 d :
  flavor d t = None -> t ∉ l1 ++ l2 -> declared t (l1 ++ l2) d (apply_ops apply_db [Type_ t l1; Typeattribute [t] l2] d).
Proof.
  intros Ht Hn. unfold apply_ops. cbn [fold_left apply_db list_prod]. rewrite app_nil_r.
  assert (forall l d, fold_left add_typeattribute (map (pair t) l) d = fold_left (fun d a => add_typeattribute d (t, a)) l d) as ->
    by (intros l; induction l as [|a l IH]; intros d'; [done | apply IH]).
  set (d1 := add_type t TYPE_TYPE d).
  assert (forall x, flavor d1 x = if bool_decide (x = t) then Some TYPE_TYPE else flavor d x) as H1 by (intros x; unfold d1, add_type, known; by rewrite Ht).
  assert (flavor d1 t = Some TYPE_TYPE) as H2 by (rewrite H1; by rewrite bool_decide_eq_true_2).
  pose proof (add_attributes t l1 d1 H2) as A. assert (flavor (fold_left (fun d a => add_typeattribute d (t, a)) l1 d1) t = Some TYPE_TYPE) as H3 by (destruct A as (-> & _); done).
  destruct (attached_app _ _ _ _ _ _ A (add_attributes t l2 _ H3)) as (B1 & B2 & B3 & _ & B5). unfold declared. rewrite B1, B2, B3.
  split_and!; [exact H1 | unfold d1, add_type, known; by rewrite Ht.. |]. intros x. rewrite B5.
  replace (type_attrs d1 x) with (type_attrs d x) by (unfold d1, add_type, known; by rewrite Ht). f_equal. destruct (bool_decide (x = t)); [| done].
  apply List.filter_ext_in. intros a Ha%list_elem_of_In. unfold is_attr. rewrite H1. rewrite (bool_decide_eq_false_2 (a = t)) by (by intros ->). done.
Qed.

(** * Magisk's rules on any policy *)

Definition own : list bytes := [SEPOL_PROC_DOMAIN; SEPOL_FILE_TYPE; SEPOL_LOG_TYPE].

Lemma not_own x : x ∉ own <-> x <> SEPOL_PROC_DOMAIN /\ x <> SEPOL_FILE_TYPE /\ x <> SEPOL_LOG_TYPE.
Proof. unfold own. rewrite !not_elem_of_cons. pose proof (not_elem_of_nil x). tauto. Qed.

Lemma own_cases x : x = SEPOL_PROC_DOMAIN \/ x = SEPOL_FILE_TYPE \/ x = SEPOL_LOG_TYPE \/ x ∉ own.
Proof. rewrite not_own. destruct (decide (x = SEPOL_PROC_DOMAIN)), (decide (x = SEPOL_FILE_TYPE)), (decide (x = SEPOL_LOG_TYPE)); tauto. Qed.

Definition own_attrs (x : bytes) : list bytes :=
  if bool_decide (x = SEPOL_PROC_DOMAIN) then [ #"domain"; #"mlstrustedsubject"; #"netdomain"; #"appdomain"]
  else if bool_decide (x ∈ own) then [ #"file_type"; #"mlstrustedobject"] else [].

(** What is assumed of the policy before: it does not know Magisk's types, and the tables are
    about the names that exist. *)
Record Base (d : Db) : Prop := {
  base_new : forall x, x ∈ own -> flavor d x = None /\ type_attrs d x = [];
  base_known : forall s t c p, allowed d s t c p = true -> known d s = true /\ known d t = true;
  base_attrs : forall x a, a ∈ type_attrs d x -> flavor d a = Some TYPE_ATTRIB }.

(** The declarations, and the other rules. *)
Definition declarations : list PolicyOp := take 7 magisk_rules.
Definition grants : list PolicyOp := drop 7 magisk_rules.

Definition stripped (d : Db) : bytes -> bytes -> bytes -> bytes -> bool := hits true d [] [ #"kernel"] [ #"security"] [ #"load_policy"].

Lemma apply_declarations d :
  Base d ->
  let d0 := apply_ops apply_db declarations d in
  (forall x, flavor d0 x = if bool_decide (x ∈ own) then Some TYPE_TYPE else flavor d x) /\ class_perms d0 = class_perms d /\
  (forall s t c p, allowed d0 s t c p = if stripped d s t c p then false else allowed d s t c p) /\
  forall x, type_attrs d0 x = type_attrs d x ++ List.filter (is_attr d) (own_attrs x).
Proof.
  intros B d0.
  assert (forall x, x ∈ own -> flavor d x = None) as N by (intros x Hx; by destruct (base_new d B x Hx)).
  set (d1 := add_rule true [] [ #"kernel"] [ #"security"] [ #"load_policy"] d).
  destruct (declare_type SEPOL_PROC_DOMAIN [ #"domain"] [ #"mlstrustedsubject"; #"netdomain"; #"appdomain"] d1) as (P1 & P2 & P3 & P4);
    [apply N; by apply (bool_decide_unpack _) | by apply (bool_decide_unpack _) |].
  set (d2 := apply_ops apply_db [Type_ SEPOL_PROC_DOMAIN _; Typeattribute _ _] d1) in *.
  destruct (declare_type SEPOL_FILE_TYPE [ #"file_type"] [ #"mlstrustedobject"] d2) as (F1 & F2 & F3 & F4);
    [rewrite P1; apply N; by apply (bool_decide_unpack _) | by apply (bool_decide_unpack _) |].
  set (d3 := apply_ops apply_db [Type_ SEPOL_FILE_TYPE _; Typeattribute _ _] d2) in *.
  destruct (declare_type SEPOL_LOG_TYPE [ #"file_type"] [ #"mlstrustedobject"] d3) as (L1 & L2 & L3 & L4);
    [rewrite F1, P1; apply N; by apply (bool_decide_unpack _) | by apply (bool_decide_unpack _) |].
  set (d4 := apply_ops apply_db [Type_ SEPOL_LOG_TYPE _; Typeattribute _ _] d3) in *.
  assert (d0 = d4) as ->.
  { unfold d0, declarations. change (take 7 magisk_rules) with ([Deny [] [ #"kernel"] [ #"security"] [ #"load_policy"]] ++ ([Type_ SEPOL_PROC_DOMAIN [ #"domain"];
      Typeattribute proc [ #"mlstrustedsubject"; #"netdomain"; #"appdomain"]] ++ ([Type_ SEPOL_FILE_TYPE [ #"file_type"]; Typeattribute file [ #"mlstrustedobject"]] ++
      [Type_ SEPOL_LOG_TYPE [ #"file_type"]; Typeattribute log [ #"mlstrustedobject"]]))).
    rewrite !apply_ops_app. reflexivity. }
  rewrite L2, F2, P2, L3, F3, P3.
  split_and!; [| done | done |].
  - intros x. rewrite L1, F1, P1. destruct (own_cases x) as [->|[->|[->|Hx]]]; [reflexivity.. |]. rewrite (bool_decide_eq_false_2 _ Hx).
    apply not_own in Hx as (H1 & H2 & H3). by rewrite !bool_decide_eq_false_2.
  - assert (forall a, a ∉ own -> is_attr d2 a = is_attr d a /\ is_attr d3 a = is_attr d a) as Ha.
    { intros a (H1 & H2 & H3)%not_own. unfold is_attr. rewrite F1, P1. by rewrite !(bool_decide_eq_false_2 (a = _)) by done. }
    intros x. rewrite L4, F4, P4. change (type_attrs d1 x) with (type_attrs d x). change (is_attr d1) with (is_attr d).
    cbn [app List.filter]. destruct (Ha #"file_type") as [-> ->]; [by apply (bool_decide_unpack _) |].
    destruct (Ha #"mlstrustedobject") as [-> ->]; [by apply (bool_decide_unpack _) |].
    destruct (own_cases x) as [->|[->|[->|Hx]]]; [cbn; by rewrite ?app_nil_r.. |]. unfold own_attrs. rewrite (bool_decide_eq_false_2 (x ∈ own) Hx).
    apply not_own in Hx as (H1 & H2 & H3). rewrite !bool_decide_eq_false_2 by done. cbn. by rewrite !app_nil_r.
Qed.

Lemma hits_elsewhere e strip ss ts cs ps s t c p x y : t <> x \/ c <> y -> ts = [x] -> cs = [y] -> hits strip e ss ts cs ps s t c p = false.
Proof.
  intros Ht -> ->. unfold hits, sel_class. destruct Ht as [Ht|Ht].
  - replace (sel strip e [x] t) with false; [by rewrite andb_false_r |]. unfold sel. by rewrite bool_decide_eq_false_2 by (by rewrite list_elem_of_singleton).
  - cbn [is_empty orb]. rewrite (bool_decide_eq_false_2 (c ∈ [y])) by (by rewrite list_elem_of_singleton). by rewrite !andb_false_r.
Qed.

Lemma security_grant e s t op : In op grants -> allow_hits e s t #"security" #"load_policy" op = true -> s = SEPOL_PROC_DOMAIN.
Proof.
  assert (forallb (fun op => match op with Allow ss _ cs _ => bool_decide (ss = proc) || negb (is_empty cs) && negb (bool_decide (#"security" ∈ cs)) | _ => true end) grants = true)
    as Hg by (vm_compute; reflexivity).
  intros Hop Ha. pose proof (proj1 (forallb_forall _ _) Hg op Hop) as Ho. clear Hg Hop. destruct op as [ss ts cs ps| | | | | | | | | | | | | | |]; try discriminate Ha.
  cbv beta iota in Ho. cbn [allow_hits] in Ha. unfold hits, sel_class in Ha. apply andb_true_iff in Ha as [[[Ha _]%andb_true_iff [_ Hc]%andb_true_iff]%andb_true_iff _].
  apply orb_true_iff in Ho as [->%bool_decide_eq_true_1|[Ho1%negb_true_iff Ho2%negb_true_iff]%andb_true_iff]; [| by rewrite Ho1, Ho2 in Hc].
  unfold sel, proc in Ha. cbv beta iota in Ha. apply andb_true_iff in Ha as [Ha%bool_decide_eq_true_1 _]. by apply list_elem_of_singleton in Ha as ->.
Qed.

(** The attributes on which the Magisk domain gets everything. *)
Definition constrained : list bytes :=
  [ #"fs_type"; #"dev_type"; #"file_type"; #"domain"; #"service_manager_type"; #"hwservice_manager_type";
    #"vndservice_manager_type"; #"port_type"; #"node_type"; #"property_type"].

Lemma hits_everything e s a c p : a ∈ constrained -> hits false e [s] constrained [] [] s a c p = known e s && known e a && is_class e c.
Proof.
  intros Ha. unfold hits, sel_class, sel_perm. cbn [is_empty orb]. rewrite !andb_true_r. f_equal. f_equal.
  - unfold sel. by rewrite bool_decide_eq_true_2 by left.
  - unfold sel, constrained in *. by rewrite bool_decide_eq_true_2 by exact Ha.
Qed.

Lemma permissive_kept ops e x :
  forallb (fun op => match op with Enforce _ => false | _ => simple op end) ops = true -> permissive e x = true -> permissive (apply_ops apply_db ops e) x = true.
Proof.
  unfold apply_ops. revert e. induction ops as [|op ops IH]; intros e H He; [exact He |]. cbn [forallb fold_left] in *. apply andb_true_iff in H as [H1 H2].
  apply IH; [exact H2 |]. destruct op; try discriminate H1; try exact He. cbn [apply_db set_type_state permissive]. by destruct (_ && _).
Qed.

Lemma permissive_grants e : known e SEPOL_PROC_DOMAIN = true -> permissive (apply_ops apply_db grants e) SEPOL_PROC_DOMAIN = true.
Proof.
  intros Hk. replace grants with (take 4 grants ++ [Permissive proc] ++ drop 5 grants) by reflexivity. rewrite !apply_ops_app.
  apply permissive_kept; [reflexivity |]. unfold apply_ops at 1. cbn [fold_left apply_db set_type_state permissive].
  destruct (apply_simples (take 4 grants) e eq_refl) as (E & _). unfold known in *. rewrite E, Hk. reflexivity.
Qed.

Section Applied.
Context (d : Db) (B : Base d).
Let d0 : Db := apply_ops apply_db declarations d.
Let d' : Db := apply_ops apply_db magisk_rules d.

Lemma rules_split : d' = apply_ops apply_db grants d0.
Proof. unfold d', d0. rewrite <- apply_ops_app. unfold declarations, grants. by rewrite take_drop. Qed.

Lemma names_after :
  (forall x, flavor d' x = if bool_decide (x ∈ own) then Some TYPE_TYPE else flavor d x) /\ class_perms d' = class_perms d /\
  forall x, type_attrs d' x = type_attrs d x ++ List.filter (is_attr d) (own_attrs x).
Proof.
  rewrite rules_split. destruct (apply_simples grants d0 eq_refl) as (-> & -> & ->).
  by destruct (apply_declarations d B) as (H1 & H2 & _ & H4).
Qed.

Lemma known_after x : known d0 x = bool_decide (x ∈ own) || known d x.
Proof. destruct (apply_declarations d B) as (H1 & _). unfold known, d0. rewrite H1. by case_bool_decide. Qed.

Lemma grants_deny op : In op grants -> match op with Deny _ ts cs _ => ts = [ #"adb_data_file"] /\ cs = [ #"dir"] | _ => True end.
Proof.
  change grants with (drop 7 magisk_rules). cbn [drop magisk_rules In]. intros H. repeat (destruct H as [<-|H]; [first [exact I | split; reflexivity] |]). destruct H.
Qed.

(** The bits afterwards: those from before but the one that is stripped, and the granted. *)
Lemma allowed_after s t c p :
  t <> #"adb_data_file" \/ c <> #"dir" ->
  allowed d' s t c p = (if stripped d s t c p then false else allowed d s t c p) || existsb (allow_hits d0 s t c p) grants.
Proof.
  intros Ht. rewrite rules_split. destruct (apply_declarations d B) as (_ & _ & HA & _). rewrite rules_allowed; [unfold d0; rewrite HA; reflexivity | reflexivity |].
  apply not_true_iff_false. intros (op & Hop & Hd)%existsb_exists. pose proof (grants_deny op Hop) as Ho.
  destruct op as [|ss ts cs ps| | | | | | | | | | | | | |]; try discriminate Hd. clear Hop.
  destruct Ho as [E1 E2]. cbn [deny_hits] in Hd. rewrite (hits_elsewhere _ _ _ _ _ _ _ _ _ _ _ _ Ht E1 E2) in Hd. discriminate Hd.
Qed.

Lemma not_stripped s t c p : t <> #"kernel" -> stripped d s t c p = false.
Proof. intros Ht. unfold stripped, hits, sel. rewrite (bool_decide_eq_false_2 (t ∈ _)) by set_solver. by destruct (flavor d s) as [[]|]. Qed.

Lemma unknown_own s t c p : t ∈ own -> allowed d s t c p = false.
Proof.
  intros Ht. apply not_true_iff_false. intros [_ H]%(base_known d B). unfold known in H. by destruct (base_new d B t Ht) as [E _]; rewrite E in H.
Qed.

(** An ordinary type: a domain that no rule names, neither itself nor by another attribute. *)
Definition ordinary (s : bytes) : Prop :=
  flavor d s = Some TYPE_TYPE /\ #"domain" ∈ type_attrs d s /\ forall x, x ∈ s :: type_attrs d s -> x = #"domain" \/ x ∉ sources magisk_rules.

Lemma domain_known s : ordinary s -> known d0 #"domain" = true.
Proof. intros (_ & H & _). rewrite known_after. unfold known. by rewrite (base_attrs d B _ _ H). Qed.

Lemma ordinary_attrs s : ordinary s -> type_attrs d' s = type_attrs d s.
Proof.
  intros (H & _). assert (s ∉ own) as Hs by (intros Hs; destruct (base_new d B s Hs); congruence). destruct names_after as (_ & _ & ->).
  unfold own_attrs. apply not_own in Hs as Hs'. destruct Hs' as (H1 & _). rewrite !bool_decide_eq_false_2 by done. by rewrite app_nil_r.
Qed.

Lemma pair_after c p r : sel_pair d0 c p r = sel_pair d c p r.
Proof. destruct (apply_declarations d B) as (_ & H & _). unfold sel_pair, sel_class, sel_perm, is_class, has_perm, d0. by rewrite H. Qed.

Lemma allowed_ordinary s s' t c p :
  ordinary s -> s' ∈ s :: type_attrs d s -> t <> #"adb_data_file" -> t <> #"kernel" ->
  allowed d' s' t c p = allowed d s' t c p || bool_decide (s' = #"domain") && known d0 t && existsb (sel_pair d c p) (matching #"domain" t grants).
Proof.
  intros Ho Hs' Ht1 Ht2. rewrite allowed_after by (left; exact Ht1). rewrite not_stripped by exact Ht2. f_equal.
  case_bool_decide as E.
  - subst s'. rewrite allow_matching by (vm_compute; reflexivity). rewrite (domain_known s Ho). cbn [andb]. f_equal.
    induction (matching #"domain" t grants) as [|r l IH]; [done |]. cbn [existsb]. by rewrite IH, pair_after.
  - cbn [andb]. destruct Ho as (_ & _ & Ho). destruct (Ho s' Hs') as [|Hn]; [done |].
    apply not_source; [exact Hn | vm_compute; reflexivity].
Qed.

Lemma own_targets t a :
  t ∈ own -> a ∈ t :: own_attrs t -> a <> #"adb_data_file" /\ a <> #"kernel" /\ (a <> t -> matching #"domain" a grants = []).
Proof.
  assert (forallb (fun t => forallb (fun a => negb (bool_decide (a = #"adb_data_file")) && negb (bool_decide (a = #"kernel")) &&
    (bool_decide (a = t) || is_empty (matching #"domain" a grants))) (t :: own_attrs t)) own = true) as H by (vm_compute; reflexivity).
  intros Ht%list_elem_of_In Ha%list_elem_of_In. pose proof (proj1 (forallb_forall _ _) H t Ht) as H1. cbv beta in H1.
  pose proof (proj1 (forallb_forall _ _) H1 a Ha) as H2. cbv beta in H2. clear H H1. apply andb_true_iff in H2 as [[H2 H3]%andb_true_iff H4].
  apply negb_true_iff, bool_decide_eq_false_1 in H2, H3. split_and!; [exact H2 | exact H3 |]. intros Hn. rewrite bool_decide_eq_false_2 in H4 by exact Hn.
  by destruct (matching #"domain" a grants).
Qed.

(** What an ordinary type may do to one of Magisk's types: what the rules give to all domains,
    and what the policy gave it on the attributes of that type. *)
Lemma may_own s t c p :
  ordinary s -> t ∈ own ->
  may d' s t c p <-> existsb (sel_pair d c p) (matching #"domain" t grants) = true \/
    exists s' a, s' ∈ s :: type_attrs d s /\ a ∈ own_attrs t /\ is_attr d a = true /\ allowed d s' a c p = true.
Proof.
  intros Ho Ht. unfold may. rewrite (ordinary_attrs s Ho). destruct names_after as (_ & _ & Hn). rewrite (Hn t). destruct (base_new d B t Ht) as [Hu ->]. cbn [app].
  assert (forall x, is_attr d x = true -> x <> t) as Hx by (intros x H%bool_decide_eq_true_1 ->; congruence).
  split.
  - intros (s' & t' & Hs' & Ht' & Ha). apply elem_of_cons in Ht' as [->|Ht'].
    + destruct (own_targets t t Ht ltac:(left)) as (H1 & H2 & _). rewrite (allowed_ordinary s) in Ha by done. rewrite unknown_own in Ha by done.
      left. by apply andb_true_iff in Ha as [_ Ha].
    + right. apply list_elem_of_In, List.filter_In in Ht' as [Hi Hf]. apply list_elem_of_In in Hi.
      destruct (own_targets t t' Ht ltac:(by right)) as (H1 & H2 & H3). rewrite (allowed_ordinary s) in Ha by done.
      rewrite H3 in Ha by (by apply Hx). rewrite andb_false_r, orb_false_r in Ha. by exists s', t'.
  - intros [H|(s' & a & Hs' & Hi & Hf & Ha)].
    + exists #"domain", t. destruct Ho as (Ho1 & Ho2 & Ho3). split_and!; [by right | by left |]. destruct (own_targets t t Ht ltac:(left)) as (H1 & H2 & _).
      rewrite (allowed_ordinary s); [| done | by right | done..]. rewrite H, known_after, !bool_decide_eq_true_2 by done. by rewrite orb_true_r.
    + exists s', a. destruct (own_targets t a Ht ltac:(by right)) as (H1 & H2 & _). split_and!; [done | | by rewrite (allowed_ordinary s), Ha by done].
      right. apply list_elem_of_In, List.filter_In. split; [by apply list_elem_of_In | done].
Qed.

(** Only the Magisk domain is allowed to load a policy on top of what the policy allowed on
    the attributes of the kernel's type. *)
Lemma may_load s :
  has_perm d #"security" #"load_policy" = true -> may d' s #"kernel" #"security" #"load_policy" ->
  s = SEPOL_PROC_DOMAIN \/
  exists s' a, s' ∈ s :: type_attrs d' s /\ a ∈ type_attrs d #"kernel" /\ allowed d s' a #"security" #"load_policy" = true.
Proof.
  intros Hp (s' & t' & Hs' & Ht' & Ha). destruct names_after as (_ & _ & Hn). rewrite (Hn #"kernel") in Ht'.
  replace (own_attrs #"kernel") with ([] : list bytes) in Ht' by (vm_compute; reflexivity). cbn [List.filter] in Ht'. rewrite app_nil_r in Ht'.
  rewrite allowed_after in Ha by (right; discriminate). apply orb_true_iff in Ha as [Ha|Ha].
  - right. apply elem_of_cons in Ht' as [->|Ht']; [| destruct (stripped d s' t' _ _); [done | by exists s', t']].
    exfalso. destruct (stripped d s' _ _ _) eqn:E; [done |]. destruct (base_known d B _ _ _ _ Ha) as [H1 H2]. apply not_true_iff_false in E. apply E.
    unfold stripped, hits, sel, sel_class, sel_perm. rewrite Hp, H2, (has_perm_class _ _ _ Hp). unfold known in H1. by destruct (flavor d s') as [[]|].
  - left. apply existsb_exists in Ha as (op & Hop & Ha).
    apply (security_grant _ _ _ _ Hop) in Ha as ->.
    apply elem_of_cons in Hs' as [|Hs']; [done |]. exfalso. rewrite Hn in Hs'.
    assert (flavor d SEPOL_PROC_DOMAIN = None) as Hu by (apply (base_new d B); left).
    apply elem_of_app in Hs' as [Hs'|Hs']; [by rewrite (base_attrs d B _ _ Hs') in Hu |].
    apply list_elem_of_In, List.filter_In in Hs' as [_ Hs'%bool_decide_eq_true_1]. congruence.
Qed.

(** The Magisk domain may do everything to what has one of the attributes of its rule. *)
Lemma may_everything t a c p :
  a ∈ constrained -> a ∈ t :: type_attrs d' t -> known d a = true -> is_class d c = true -> may d' SEPOL_PROC_DOMAIN t c p.
Proof.
  intros Ha Ht Hk Hc. exists SEPOL_PROC_DOMAIN, a. split_and!; [left | exact Ht |].
  rewrite allowed_after; [| left; intros ->; revert Ha; by apply (bool_decide_unpack _)]. apply orb_true_iff. right. apply existsb_exists. exists (Allow [SEPOL_PROC_DOMAIN] constrained [] []).
  split; [by do 3 right; left |]. cbn [allow_hits]. rewrite hits_everything by exact Ha. rewrite !known_after, Hk, orb_true_r.
  destruct (apply_declarations d B) as (_ & HC & _). unfold is_class in *. fold d0 in HC. rewrite HC, Hc. reflexivity.
Qed.

Lemma magisk_permissive : permissive d' SEPOL_PROC_DOMAIN = true.
Proof. rewrite rules_split. apply permissive_grants. rewrite known_after. reflexivity. Qed.
End Applied.

(** What the rules give to every domain. *)
Definition ipc : list (bytes * bytes) :=
  [ (#"binder", #"call"); (#"binder", #"transfer"); (#"process", #"sigchld"); (#"fd", #"use");
    (#"fifo_file", #"write"); (#"fifo_file", #"read"); (#"fifo_file", #"open"); (#"fifo_file", #"getattr")].
Definition file_classes : list bytes := [ #"file"; #"dir"; #"fifo_file"; #"chr_file"; #"lnk_file"; #"sock_file"].

(** What the policy allowed [s] on an attribute that [t] gets. *)
Definition by_attribute (d : Db) (s t c p : bytes) : Prop :=
  exists s' a, s' ∈ s :: type_attrs d s /\ a ∈ own_attrs t /\ is_attr d a = true /\ allowed d s' a c p = true.

Lemma whole_classes d (cs : list bytes) c p : cs <> [] -> existsb (sel_pair d c p) [(cs, [])] = true <-> c ∈ cs /\ is_class d c = true.
Proof.
  intros H. cbn [existsb]. unfold sel_pair, sel_class, sel_perm. cbn [fst snd is_empty orb]. rewrite orb_false_r, andb_true_r.
  destruct cs as [|x cs]; [done |]. cbn [is_empty orb]. rewrite andb_true_iff, bool_decide_eq_true. tauto.
Qed.

(** C24: on any policy that does not know Magisk's types, the built-in rules have this effect,
    with the rules that take permissions away and those of the policy itself: to a process of
    the Magisk domain an ordinary domain, one that no rule names by itself or by an attribute
    other than [domain], may do the binder calls and the other communication listed, to the
    log pipe write, and to files of the type of Magisk's files everything, and beyond that
    only what the policy allowed it on an attribute that these types get; a policy can be
    loaded only by the Magisk domain and by what the policy allowed it through an attribute of
    the type of the kernel; and the Magisk domain may do everything of every class to every
    type with one of the ten attributes, and is permissive. *)
Theorem magisk_rules_isolate (d : Db) :
  Base d ->
  let d' := apply_ops apply_db magisk_rules d in
  (forall s c p, ordinary d s ->
     (may d' s SEPOL_PROC_DOMAIN c p <-> (c, p) ∈ ipc /\ has_perm d c p = true \/ by_attribute d s SEPOL_PROC_DOMAIN c p) /\
     (may d' s SEPOL_LOG_TYPE c p <-> (c, p) = (#"fifo_file", #"write") /\ has_perm d c p = true \/ by_attribute d s SEPOL_LOG_TYPE c p) /\
     (may d' s SEPOL_FILE_TYPE c p <-> c ∈ file_classes /\ is_class d c = true \/ by_attribute d s SEPOL_FILE_TYPE c p)) /\
  (forall s, has_perm d #"security" #"load_policy" = true -> may d' s #"kernel" #"security" #"load_policy" ->
     s = SEPOL_PROC_DOMAIN \/
     exists s' a, s' ∈ s :: type_attrs d' s /\ a ∈ type_attrs d #"kernel" /\ allowed d s' a #"security" #"load_policy" = true) /\
  (forall t a c p, a ∈ constrained -> a ∈ t :: type_attrs d' t -> known d a = true -> is_class d c = true -> may d' SEPOL_PROC_DOMAIN t c p) /\
  permissive d' SEPOL_PROC_DOMAIN = true.
Proof.
  intros B. cbv zeta. split_and!; [| exact (may_load d B) | exact (may_everything d B) | exact (magisk_permissive d B)].
  intros s c p Ho. pose proof (may_own d B s SEPOL_PROC_DOMAIN c p Ho ltac:(by apply (bool_decide_unpack _))) as H1.
  pose proof (may_own d B s SEPOL_LOG_TYPE c p Ho ltac:(by apply (bool_decide_unpack _))) as H2.
  pose proof (may_own d B s SEPOL_FILE_TYPE c p Ho ltac:(by apply (bool_decide_unpack _))) as H3.
  rewrite H1, H2, H3. split_and!.
  - rewrite sel_pairs by (vm_compute; reflexivity). replace (pairs (matching #"domain" SEPOL_PROC_DOMAIN grants)) with ipc by (vm_compute; reflexivity). reflexivity.
  - rewrite sel_pairs by (vm_compute; reflexivity). replace (pairs (matching #"domain" SEPOL_LOG_TYPE grants)) with [ (#"fifo_file", #"write")] by (vm_compute; reflexivity).
    rewrite list_elem_of_singleton. reflexivity.
  - replace (matching #"domain" SEPOL_FILE_TYPE grants) with [(file_classes, [] : list bytes)] by (vm_compute; reflexivity). by rewrite whole_classes.
Qed.

(** A policy with an application, the kernel and a program that loaded policies. *)
Definition demo_db : Db :=
  mkDb (fun x => if bool_decide (x ∈ [ #"domain"; #"file_type"]) then Some TYPE_ATTRIB
                 else if bool_decide (x ∈ [ #"app"; #"kernel"; #"loader"]) then Some TYPE_TYPE else None)
    (fun c => if bool_decide (c = #"security") then Some [ #"load_policy"] else if bool_decide (c = #"binder") then Some [ #"call"]
              else if bool_decide (c = #"file") then Some [ #"write"] else if bool_decide (c = #"process") then Some [ #"ptrace"] else None)
    (fun x => if bool_decide (x ∈ [ #"app"; #"kernel"; #"loader"]) then [ #"domain"] else [])
    (fun s t c p => bool_decide ((s, t, c, p) = (#"loader", #"kernel", #"security", #"load_policy")))
    (fun _ => false).

Lemma demo_db_base : Base demo_db.
Proof.
  split.
  - intros x Hx. destruct (own_cases x) as [->|[->|[->|?]]]; done.
  - intros s t c p H. cbn [demo_db allowed] in H. apply bool_decide_eq_true_1 in H. injection H as -> -> -> ->. done.
  - intros x a Ha. cbn [demo_db type_attrs] in Ha. destruct (bool_decide _) in Ha; [| by apply not_elem_of_nil in Ha].
    apply list_elem_of_singleton in Ha as ->. reflexivity.
Qed.

Lemma demo_db_ordinary : ordinary demo_db #"app".
Proof.
  split; [reflexivity |]. split; [by apply (bool_decide_unpack _) |]. intros x Hx. cbn in Hx. apply elem_of_cons in Hx as [->|Hx]; [right; by apply (bool_decide_unpack _) |].
  left. by apply list_elem_of_singleton in Hx.
Qed.

Lemma demo_db_attribute t c p : ~ by_attribute demo_db #"app" t c p.
Proof.
  intros (s' & a & Hs & _ & _ & Ha). cbn [demo_db allowed] in Ha. apply bool_decide_eq_true_1 in Ha. injection Ha as -> -> -> ->. revert Hs. by apply (bool_decide_unpack _).
Qed.

Lemma magisk_rules_isolate_witness :
  Base demo_db /\ ordinary demo_db #"app" /\
  let d' := apply_ops apply_db magisk_rules demo_db in
  may d' #"app" SEPOL_PROC_DOMAIN #"binder" #"call" /\ ~ may d' #"app" SEPOL_PROC_DOMAIN #"process" #"ptrace" /\
  may d' #"app" SEPOL_FILE_TYPE #"file" #"write" /\ may demo_db #"loader" #"kernel" #"security" #"load_policy" /\
  ~ may d' #"loader" #"kernel" #"security" #"load_policy" /\ may d' SEPOL_PROC_DOMAIN #"kernel" #"security" #"load_policy".
Proof.
  split; [exact demo_db_base |]. split; [exact demo_db_ordinary |]. cbv zeta.
  destruct (magisk_rules_isolate demo_db demo_db_base) as (H1 & H2 & H3 & _). split_and!.
  - apply (proj1 (H1 #"app" #"binder" #"call" demo_db_ordinary)). left. split; [by apply (bool_decide_unpack _) | reflexivity].
  - intros H. apply (proj1 (H1 #"app" #"process" #"ptrace" demo_db_ordinary)) in H as [[H _]|H]; [| by apply demo_db_attribute in H].
    revert H. by apply (bool_decide_unpack _).
  - apply (proj2 (proj2 (H1 #"app" #"file" #"write" demo_db_ordinary))). left. split; [by apply (bool_decide_unpack _) | reflexivity].
  - exists #"loader", #"kernel". split_and!; [left | left | reflexivity].
  - intros H. apply H2 in H as [H|(s' & a & _ & Ha & H)]; [discriminate H | | reflexivity]. cbn [demo_db allowed] in H. apply bool_decide_eq_true_1 in H. injection H as _ ->.
    revert Ha. by apply (bool_decide_unpack _).
  - apply (H3 #"kernel" #"domain"); [by apply (bool_decide_unpack _) | apply (bool_decide_unpack _); vm_compute; exact I | reflexivity | reflexivity].
Defined.
End PolicyDb.
