(* ===== verification/Files.v ===== *)
(** base/files.rs: the reader and writer extension traits over seekable files,
    the line and property readers, and the parser of /proc/<pid>/mountinfo. *)

From S2P Require Import Prelude Text Numeric.

Module Files.

(** * Readers *)

(** The [io::Error]s the code tells apart, and the ones it raises itself. *)
Inductive IoError :=
| InvalidInput            (** a seek before the start of the file *)
| UnexpectedEof
| InvalidData (msg : bytes)
| OtherIo.

Abbreviation io := (res IoError).

(** An open file: its contents and the offset of the next read. *)
Record File := mkFile { contents : bytes; offset : Z }.

(** [Read::read_exact] for a buffer of [n] bytes. *)
Definition read_exact (n : Z) (f : File) : io (bytes * File) :=
  let avail := drop (Z.to_nat (offset f)) (contents f) in
  if n <=? zlen avail
  then Ok (take (Z.to_nat n) avail, mkFile (contents f) (offset f + n))
  else Err UnexpectedEof.

Inductive SeekFrom := Start (n : Z) | End_ (n : Z) | Current (n : Z).

(** [lseek]: the new offset may lie behind the end of the file, not before its
    start, and fits an [i64]. *)
Definition seek (s : SeekFrom) (f : File) : io File :=
  let pos := match s with
             | Start n => n
             | End_ n => zlen (contents f) + n
             | Current n => offset f + n
             end in
  if (0 <=? pos) && (pos <? 2 ^ 63) then Ok (mkFile (contents f) pos) else Err InvalidInput.

(** [read_pod] of a little-endian integer of [n] bytes. *)
Definition read_pod (n : Z) (f : File) : io (Z * File) :=
  '(b, f) ← read_exact n f; Ok (of_le b, f).

(** [ReadExt::skip]: the loop reads at most 4096 bytes a round. *)
Fixpoint skip_loop (fuel : nat) (len : Z) (f : File) : io File :=
  match fuel with
  | O => Panic
  | S fuel =>
      if 0 <? len then
        let l := Z.min 4096 len in
        '(_, f) ← read_exact l f;
        skip_loop fuel (len - l) f
      else Ok f
  end.

Definition skip (len : Z) (f : File) : io File := skip_loop (S (Z.to_nat len)) len f.

(** [ReadSeekExt::skip]: seek, and read only when the file cannot seek. *)
Definition seek_skip (len : Z) (f : File) : io File :=
  match seek (Current (swrap 64 len)) f with
  | Ok f => Ok f
  | _ => skip len f
  end.

(** * Writers *)

(** [WriteExt::write_zeros], on what has been written so far. *)
Fixpoint write_zeros_loop (fuel : nat) (len : Z) (out : bytes) : bytes :=
  match fuel with
  | O => out
  | S fuel =>
      if 0 <? len then
        let l := Z.min 4096 len in
        write_zeros_loop fuel (len - l) (out ++ replicate (Z.to_nat l) (bof 0))
      else out
  end.

Definition write_zeros (len : Z) (out : bytes) : bytes :=
  write_zeros_loop (S (Z.to_nat len)) len out.

(** * Properties *)

(** The closure of [for_each_prop] that [for_each_line] runs: the closure of the
    caller updates its captures and says whether to go on. *)
Definition prop_line {A} (f : bytes -> bytes -> A -> A * bool) (line : bytes) (a : A) : A * bool :=
  let line := trim line in
  if starts_with line #"#" then (a, true) else
  match split_once (bof 61) line with
  | Some (key, value) => f (trim key) (trim value) a
  | None => (a, true)
  end.

Fixpoint each_line {A} (f : bytes -> A -> A * bool) (ls : list bytes) (a : A) : A :=
  match ls with
  | [] => a
  | l :: ls => let '(a, go) := f l a in if (go : bool) then each_line f ls a else a
  end.

Definition for_each_prop {A} (f : bytes -> bytes -> A -> A * bool) (s : bytes) (a : A) : A :=
  each_line (prop_line f) (utf8_lines (read_lines s)) a.

(** * Mount table *)

Record MountInfo := mkMountInfo {
  id : Z; parent : Z; device : Z;
  root : bytes; target : bytes; vfs_option : bytes;
  shared : Z; master : Z; propagation_from : Z; unbindable : bool;
  fs_type : bytes; source : bytes; fs_option : bytes
}.

Definition u32_parse (s : bytes) : option Z := parse_uint 32 10 s.

(** The optional fields, up to the ["-"] that ends them. *)
Fixpoint optional_loop (ws : list bytes) (sh ma pr : Z) (un : bool)
    : option (Z * Z * Z * bool * list bytes) :=
  match ws with
  | [] => None
  | optional :: ws =>
      if bool_decide (optional = #"-") then Some (sh, ma, pr, un, ws) else
      match strip_prefix optional #"master:" with
      | Some peer => v ← u32_parse peer; optional_loop ws sh v pr un
      | None =>
      match strip_prefix optional #"shared:" with
      | Some peer => v ← u32_parse peer; optional_loop ws v ma pr un
      | None =>
      match strip_prefix optional #"propagate_from:" with
      | Some peer => v ← u32_parse peer; optional_loop ws sh ma v un
      | None => optional_loop ws sh ma pr (un || bool_decide (optional = #"unbindable"))
      end end end
  end.

Definition next (ws : list bytes) : option (bytes * list bytes) :=
  match ws with [] => None | w :: ws => Some (w, ws) end.

Section Mount.
(** [libc::makedev] *)
Context (makedev : Z -> Z -> Z).

Definition parse_mount_info_line (line : bytes) : option MountInfo :=
  let iter := split_whitespace line in
  '(w, iter) ← next iter; id ← u32_parse w;
  '(w, iter) ← next iter; parent ← u32_parse w;
  '(w, iter) ← next iter;
  '(maj, min) ← split_once (bof 58) w;
  maj ← u32_parse maj;
  min ← u32_parse min;
  '(root, iter) ← next iter;
  '(target, iter) ← next iter;
  '(vfs_option, iter) ← next iter;
  '(shared, master, propagation_from, unbindable, iter) ← optional_loop iter 0 0 0 false;
  '(fs_type, iter) ← next iter;
  '(source, iter) ← next iter;
  '(fs_option, iter) ← next iter;
  Some (mkMountInfo id parent (makedev maj min) root target vfs_option
          shared master propagation_from unbindable fs_type source fs_option).

(** [parse_mount_info]: the table up to the first line that does not parse. *)
Definition parse_mount_info (file : option bytes) : list MountInfo :=
  match file with
  | None => []
  | Some s =>
      each_line (fun line res =>
        match parse_mount_info_line line with
        | Some info => (res ++ [info], true)
        | None => (res, false)
        end) (utf8_lines (read_lines s)) []
  end.
End Mount.

(** * Lemmas *)

Lemma read_exact_app pre b post n :
  n = zlen b ->
  read_exact n (mkFile (pre ++ b ++ post) (zlen pre)) = Ok (b, mkFile (pre ++ b ++ post) (zlen pre + n)).
Proof.
  intros ->. unfold read_exact. cbn [contents offset]. rewrite Nat2Z.id, drop_app_length.
  rewrite (proj2 (Z.leb_le _ _)) by (rewrite length_app; lia).
  by rewrite Nat2Z.id, take_app_length.
Qed.

(** The bytes [b] are in the file at offset [o]. *)
Definition at_off (s : bytes) (o : Z) (b : bytes) : Prop :=
  exists pre post, s = pre ++ b ++ post /\ zlen pre = o.

Lemma at_off_self s : at_off s 0 s.
Proof. exists [], []. by rewrite app_nil_r. Qed.

Lemma at_off_head s o a b : at_off s o (a ++ b) -> at_off s o a.
Proof. intros (pre & post & -> & <-). exists pre, (b ++ post). by rewrite <- app_assoc. Qed.

Lemma at_off_tail s o a b : at_off s o (a ++ b) -> at_off s (o + zlen a) b.
Proof.
  intros (pre & post & -> & <-). exists (pre ++ a), post. rewrite length_app, <- !app_assoc. split; [done | lia].
Qed.

Lemma at_off_bound s o b : at_off s o b -> 0 <= o /\ o + zlen b <= zlen s.
Proof. intros (pre & post & -> & <-). rewrite !length_app. lia. Qed.

Lemma at_off_take s o b : at_off s o b -> take (length b) (drop (Z.to_nat o) s) = b.
Proof. intros (pre & post & -> & <-). by rewrite Nat2Z.id, drop_app_length, take_app_length. Qed.

Lemma read_exact_at s o b n :
  at_off s o b -> n = zlen b -> read_exact n (mkFile s o) = Ok (b, mkFile s (o + n)).
Proof. intros (pre & post & -> & <-) ->. by apply read_exact_app. Qed.

Lemma read_pod_at s o k v :
  at_off s o (to_le (Z.to_nat k) v) -> 0 <= k -> 0 <= v < 256 ^ k ->
  read_pod k (mkFile s o) = Ok (v, mkFile s (o + k)).
Proof.
  intros Ha Hk Hv. unfold read_pod. rewrite (read_exact_at _ _ _ _ Ha) by (rewrite to_le_length; lia).
  cbn [mbind res_bind]. by rewrite of_to_le, Z2Nat.id, Z.mod_small by done.
Qed.

Lemma read_exact_range s o n :
  0 <= o -> 0 <= n -> o + n <= zlen s ->
  read_exact n (mkFile s o) = Ok (take (Z.to_nat n) (drop (Z.to_nat o) s), mkFile s (o + n)).
Proof.
  intros. unfold read_exact. cbn [contents offset]. rewrite length_drop.
  by rewrite (proj2 (Z.leb_le _ _)) by lia.
Qed.

Lemma seek_ok s f p :
  (match s with Start n => n | End_ n => zlen (contents f) + n | Current n => offset f + n end) = p ->
  0 <= p < 2 ^ 63 -> seek s f = Ok (mkFile (contents f) p).
Proof.
  intros <- Hp. unfold seek. by rewrite (proj2 (Z.leb_le _ _)), (proj2 (Z.ltb_lt _ _)) by lia.
Qed.

Lemma read_exact_inv n f b f' :
  0 <= n -> read_exact n f = Ok (b, f') ->
  contents f' = contents f /\ offset f' = offset f + n /\
  (0 <= offset f -> offset f + n <= zlen (contents f) \/ n = 0) /\ zlen b = n.
Proof.
  intros Hn. unfold read_exact. rewrite length_drop. destruct (Z.leb_spec n (Z.of_nat (length (contents f) - Z.to_nat (offset f)))); [| done].
  intros [= <- <-]. simpl. rewrite length_take, length_drop. split_and!; [done | lia..].
Qed.

Lemma skip_loop_spec fuel len f :
  (Z.to_nat len < fuel)%nat -> 0 <= len -> 0 <= offset f ->
  skip_loop fuel len f = '(_, f) ← read_exact len f; Ok f.
Proof.
  revert len f. induction fuel as [|fuel IH]; intros len f Hf Hl Ho; [lia |].
  cbn [skip_loop]. destruct (Z.ltb_spec 0 len) as [Hlt|].
  2:{ replace len with 0 by lia. unfold read_exact. destruct f as [c o]. simpl.
      by rewrite (proj2 (Z.leb_le _ _)), Z.add_0_r by lia. }
  unfold read_exact at 1 2. rewrite !length_drop.
  set (k := Z.min 4096 len).
  destruct (Z.leb_spec len (Z.of_nat (length (contents f) - Z.to_nat (offset f)))) as [H1|H1];
  destruct (Z.leb_spec k (Z.of_nat (length (contents f) - Z.to_nat (offset f)))) as [H2|H2];
    cbn [mbind res_bind]; try lia; try done.
  - rewrite IH by (simpl; lia). unfold read_exact. cbn [contents offset]. rewrite length_drop.
    rewrite (proj2 (Z.leb_le _ _)) by lia. cbn. do 2 f_equal. lia.
  - rewrite IH by (simpl; lia). unfold read_exact. cbn [contents offset]. rewrite length_drop.
    by rewrite (proj2 (Z.leb_gt _ _)) by lia.
Qed.

(** The chunked skip reads exactly [len] bytes. *)
Lemma skip_spec len f :
  0 <= len -> 0 <= offset f -> skip len f = '(_, f) ← read_exact len f; Ok f.
Proof. intros. apply skip_loop_spec; lia. Qed.

Lemma write_zeros_loop_spec fuel len out :
  (Z.to_nat len < fuel)%nat ->
  write_zeros_loop fuel len out = out ++ replicate (Z.to_nat len) (bof 0).
Proof.
  revert len out. induction fuel as [|fuel IH]; intros len out Hf; [lia |].
  cbn [write_zeros_loop]. destruct (Z.ltb_spec 0 len).
  - rewrite IH by lia. rewrite <- app_assoc, <- replicate_add. do 2 f_equal. lia.
  - replace (Z.to_nat len) with 0%nat by lia. by rewrite app_nil_r.
Qed.

Lemma write_zeros_spec len out : write_zeros len out = out ++ replicate (Z.to_nat len) (bof 0).
Proof. apply write_zeros_loop_spec. lia. Qed.

(** ** The mount table the kernel prints *)

Inductive Optional := Shared (n : Z) | Master (n : Z) | PropagateFrom (n : Z) | Unbindable.

Definition u32 (n : Z) : Prop := 0 <= n < 2 ^ 32.

(** One line of mountinfo, field by field. *)
Record Line := mkLine {
  l_id : Z; l_parent : Z; l_maj : Z; l_min : Z;
  l_root : bytes; l_target : bytes; l_vfs : bytes;
  l_optional : list Optional;
  l_type : bytes; l_source : bytes; l_opt : bytes
}.

Definition opt_num (o : Optional) : Z :=
  match o with Shared n | Master n | PropagateFrom n => n | Unbindable => 0 end.

Definition line_wf (l : Line) : Prop :=
  Forall u32 [l_id l; l_parent l; l_maj l; l_min l] /\
  Forall (fun o => u32 (opt_num o)) (l_optional l) /\
  Forall word [l_root l; l_target l; l_vfs l; l_type l; l_source l; l_opt l].

Definition print_optional (o : Optional) : bytes :=
  match o with
  | Shared n => #"shared:" ++ print_radix 10 n
  | Master n => #"master:" ++ print_radix 10 n
  | PropagateFrom n => #"propagate_from:" ++ print_radix 10 n
  | Unbindable => #"unbindable"
  end.

Definition line_words (l : Line) : list bytes :=
  [print_radix 10 (l_id l); print_radix 10 (l_parent l);
   print_radix 10 (l_maj l) ++ bof 58 :: print_radix 10 (l_min l);
   l_root l; l_target l; l_vfs l] ++
  map print_optional (l_optional l) ++ #"-" :: [l_type l; l_source l; l_opt l].

Definition print_line (l : Line) : bytes := join [bof 32] (line_words l).

(** The last field of each kind counts. *)
Definition last_of (sel : Optional -> option Z) (os : list Optional) (d : Z) : Z :=
  foldl (fun d o => default d (sel o)) d os.
Definition sel_shared o := match o with Shared n => Some n | _ => None end.
Definition sel_master o := match o with Master n => Some n | _ => None end.
Definition sel_propagate o := match o with PropagateFrom n => Some n | _ => None end.
Definition is_unbindable o := match o with Unbindable => true | _ => false end.

Definition line_info (makedev : Z -> Z -> Z) (l : Line) : MountInfo :=
  mkMountInfo (l_id l) (l_parent l) (makedev (l_maj l) (l_min l)) (l_root l) (l_target l) (l_vfs l)
    (last_of sel_shared (l_optional l) 0) (last_of sel_master (l_optional l) 0)
    (last_of sel_propagate (l_optional l) 0) (existsb is_unbindable (l_optional l))
    (l_type l) (l_source l) (l_opt l).

Lemma u32_parse_print n : u32 n -> u32_parse (print_radix 10 n) = Some n.
Proof. apply parse_uint_print. Qed.

Lemma strip_prefix_app p s : strip_prefix (p ++ s) p = Some s.
Proof. by apply strip_prefix_Some. Qed.

Lemma optional_loop_print os ws sh ma pr un :
  Forall (fun o => u32 (opt_num o)) os ->
  optional_loop (map print_optional os ++ #"-" :: ws) sh ma pr un =
  Some (last_of sel_shared os sh, last_of sel_master os ma, last_of sel_propagate os pr,
        un || existsb is_unbindable os, ws).
Proof.
  intros Ho. revert sh ma pr un. induction Ho as [|o os Hu Ho IH]; intros sh ma pr un.
  - cbn [map app optional_loop]. rewrite bool_decide_true by done. by rewrite orb_false_r.
  - destruct o as [n|n|n|]; simpl in Hu; cbn [map app optional_loop print_optional];
      rewrite bool_decide_false by done.
    + change (strip_prefix (#"shared:" ++ print_radix 10 n) #"master:") with (@None bytes).
      rewrite strip_prefix_app, u32_parse_print by done. cbn [mbind option_bind]. by rewrite IH.
    + rewrite strip_prefix_app, u32_parse_print by done. cbn [mbind option_bind]. by rewrite IH.
    + change (strip_prefix (#"propagate_from:" ++ print_radix 10 n) #"master:") with (@None bytes).
      change (strip_prefix (#"propagate_from:" ++ print_radix 10 n) #"shared:") with (@None bytes).
      rewrite strip_prefix_app, u32_parse_print by done. cbn [mbind option_bind]. by rewrite IH.
    + change (strip_prefix #"unbindable" #"master:") with (@None bytes).
      change (strip_prefix #"unbindable" #"shared:") with (@None bytes).
      change (strip_prefix #"unbindable" #"propagate_from:") with (@None bytes).
      rewrite bool_decide_true by done. cbn iota. rewrite IH. by destruct un.
Qed.

Lemma word_app a b : word a -> word b -> word (a ++ b).
Proof.
  intros [Ha Hga] [_ Hgb]. split; [by destruct a |]. by apply Forall_app.
Qed.

Lemma line_words_word l : line_wf l -> Forall word (line_words l).
Proof.
  intros (Hn & Ho & Hw). rewrite !Forall_cons in Hn. rewrite !Forall_cons in Hw. unfold u32 in *.
  unfold line_words. rewrite !Forall_app, !Forall_cons. split_and!; try apply Hw; try by constructor.
  - apply print_dec_word. lia.
  - apply print_dec_word. lia.
  - apply word_app; [apply print_dec_word; lia |]. apply (word_app [bof 58]); [| apply print_dec_word; lia].
    by apply word_bool.
  - apply Forall_map. eapply Forall_impl; [exact Ho |]. intros [n|n|n|] Hu; unfold u32 in Hu; cbn [print_optional opt_num] in *; [.. | by apply word_bool].
    all: apply word_app; [by apply word_bool | apply print_dec_word; lia].
  - by apply word_bool.
Qed.

Lemma split_once_app c a b : c ∉ a -> split_once c (a ++ c :: b) = Some (a, b).
Proof. intros. by apply split_once_Some. Qed.

Lemma print_dec_no_colon n : 0 <= n -> bof 58 ∉ print_radix 10 n.
Proof. intros Hn Hin. pose proof (print_dec_digits n Hn) as Hd. rewrite Forall_forall in Hd. by specialize (Hd _ Hin). Qed.

Lemma parse_line_print makedev l tl :
  line_end tl -> line_wf l -> parse_mount_info_line makedev (print_line l ++ tl) = Some (line_info makedev l).
Proof.
  intros Htl Hwf. unfold parse_mount_info_line, print_line.
  rewrite split_whitespace_line by (done || by apply line_words_word).
  destruct Hwf as (Hn & Ho & _). rewrite !Forall_cons in Hn. destruct Hn as (Hid & Hpa & Hma & Hmi & _).
  unfold line_words. cbn [app next mbind option_bind].
  rewrite !u32_parse_print by done. cbn [mbind option_bind].
  rewrite split_once_app by (apply print_dec_no_colon, Hma). cbn [mbind option_bind].
  rewrite !u32_parse_print by done. cbn [mbind option_bind].
  by rewrite optional_loop_print.
Qed.

Lemma each_line_mounts makedev ls rest res :
  Forall line_wf ls ->
  (match rest with [] => True | bad :: _ => parse_mount_info_line makedev bad = None end) ->
  each_line (fun line res =>
    match parse_mount_info_line makedev line with
    | Some info => (res ++ [info], true)
    | None => (res, false)
    end) (map (fun l => l ++ [newline]) (map print_line ls) ++ rest) res = res ++ map (line_info makedev) ls.
Proof.
  intros Hls Hr. revert res. induction Hls as [|l ls Hl _ IH]; intros res.
  - simpl. rewrite app_nil_r. destruct rest as [|bad rest]; [done |]. simpl. by rewrite Hr.
  - cbn [map app each_line]. rewrite parse_line_print by (done || by right).
    rewrite IH, <- app_assoc. done.
Qed.

(** the mount table the kernel prints is read back field by field, each
    optional field kind with its last value.  The first line that does not parse
    ends the table: the mounts after it are lost. *)
Theorem parse_mount_info_print makedev ls bad rest :
  Forall line_wf ls -> (newline ∉ bad) -> utf8_valid (bad ++ [newline]) = true ->
  parse_mount_info_line makedev (bad ++ [newline]) = None ->
  let text := concat (map (fun l => l ++ [newline]) (map print_line ls)) in
  parse_mount_info makedev (Some text) = map (line_info makedev) ls /\
  parse_mount_info makedev (Some (text ++ (bad ++ [newline]) ++ rest)) = map (line_info makedev) ls.
Proof.
  intros Hls Hnl Hu Hbad text. subst text.
  assert (Forall (fun l => newline ∉ l) (map print_line ls)) as Hn.
  { apply Forall_map. eapply Forall_impl; [exact Hls |]. intros l Hl. by apply word_line, line_words_word. }
  assert (Forall (fun l => utf8_valid l = true) (map (fun l => l ++ [newline]) (map print_line ls))) as Hv.
  { apply Forall_map, Forall_map. eapply Forall_impl; [exact Hls |]. intros l Hl. by apply word_line, line_words_word. }
  unfold parse_mount_info. split.
  - rewrite <- (app_nil_r (concat _)), read_lines_lines, utf8_lines_app by done.
    by rewrite each_line_mounts.
  - rewrite read_lines_lines, utf8_lines_app by done. rewrite <- app_assoc.
    unfold read_lines. cbn [app]. rewrite read_lines_go_line by done. cbn [rev app utf8_lines]. rewrite Hu.
    by rewrite each_line_mounts.
Qed.

Definition demo_line : Line :=
  mkLine 36 35 98 0 #"/mnt1" #"/mnt2" #"rw,noatime" [Master 1; Shared 7; Unbindable] #"ext3" #"/dev/root" #"rw".

Lemma parse_mount_info_print_witness :
  parse_mount_info Z.add (Some (print_line demo_line ++ [newline] ++ (#"37 35 0:5 / /x rw - tmpfs  rw" ++ [newline]) ++
                                print_line demo_line)) =
  [mkMountInfo 36 35 98 #"/mnt1" #"/mnt2" #"rw,noatime" 7 1 0 true #"ext3" #"/dev/root" #"rw"].
Proof.
  destruct (parse_mount_info_print Z.add [demo_line] #"37 35 0:5 / /x rw - tmpfs  rw" (print_line demo_line))
    as [_ H].
  - constructor; [| constructor]. split_and!.
    + repeat constructor; unfold u32; cbn; lia.
    + repeat constructor; unfold u32; cbn; lia.
    + repeat (constructor; [by apply word_bool |]). constructor.
  - apply (bool_decide_unpack _). vm_compute. exact I.
  - vm_compute. reflexivity.
  - vm_compute. reflexivity.
  - etransitivity; [| exact H]. f_equal.
Defined.

End Files.
