(* ===== verification/Compress.v ===== *)
(** boot/format.rs, boot/compress.rs and the [Chunker] of base/misc.rs: the names of the
    compression formats, the encoder and the decoder of the LZ4 block archives (the
    "legacy" and the "LG" format), and the commands compress and decompress.

    The compressors are crates.  LZ4 on one block is a pair of arguments, [compress] and
    [decompress], with the bound [compress_bound]; the formats that are crates altogether
    are the arguments [crate_encode] and [crate_decode] of the commands.  The detection
    of a format is C++ ([check_fmt]).  A writer is the list of the bytes written to it and
    does not fail. *)

From S2P Require Import Prelude Text Numeric Files.

Module Compress.
Import Files.

(** * Formats (boot/format.rs) *)

Inductive FileFormat :=
| UNKNOWN | CHROMEOS | AOSP | AOSP_VENDOR | DHTB | BLOB
| GZIP | ZOPFLI | XZ | LZMA | BZIP2 | LZ4 | LZ4_LEGACY | LZ4_LG
| LZOP
| MTK | DTB | ZIMAGE.

#[export] Instance FileFormat_eq_dec : EqDecision FileFormat.
Proof. solve_decision. Defined.

Definition format_from_str (s : bytes) : option FileFormat :=
  if bool_decide (s = #"gzip") then Some GZIP
  else if bool_decide (s = #"zopfli") then Some ZOPFLI
  else if bool_decide (s = #"xz") then Some XZ
  else if bool_decide (s = #"lzma") then Some LZMA
  else if bool_decide (s = #"bzip2") then Some BZIP2
  else if bool_decide (s = #"lz4") then Some LZ4
  else if bool_decide (s = #"lz4_legacy") then Some LZ4_LEGACY
  else if bool_decide (s = #"lz4_lg") then Some LZ4_LG
  else None.

(** [as_cstr], which [Display] prints. *)
Definition format_name (f : FileFormat) : bytes :=
  match f with
  | GZIP => #"gzip" | ZOPFLI => #"zopfli" | LZOP => #"lzop" | XZ => #"xz" | LZMA => #"lzma"
  | BZIP2 => #"bzip2" | LZ4 => #"lz4" | LZ4_LEGACY => #"lz4_legacy" | LZ4_LG => #"lz4_lg"
  | DTB => #"dtb" | ZIMAGE => #"zimage" | _ => #"raw"
  end.

Definition ext (f : FileFormat) : bytes :=
  match f with
  | GZIP | ZOPFLI => #"gz"
  | LZOP => #"lzo"
  | XZ => #"xz"
  | LZMA => #"lzma"
  | BZIP2 => #"bz2"
  | LZ4 | LZ4_LEGACY | LZ4_LG => #"lz4"
  | _ => []
  end.

Definition is_compressed (f : FileFormat) : bool :=
  match f with GZIP | ZOPFLI | XZ | LZMA | BZIP2 | LZ4 | LZ4_LEGACY | LZ4_LG => true | _ => false end.

Definition formats_list : list FileFormat := [GZIP; ZOPFLI; XZ; LZMA; BZIP2; LZ4; LZ4_LEGACY; LZ4_LG].
Definition formats : bytes := join #" " (map format_name formats_list).

Definition fmt_compressed_any (f : FileFormat) : bool := is_compressed f || bool_decide (f = LZOP).

(** * Chunks (base/misc.rs) *)

(** [chunk] holds the first [pos] bytes of the buffer, the others are never read; the
    buffer has [chunk_cap] bytes. *)
Record Chunker := mkChunker { chunk : bytes; chunk_cap : Z; chunk_size : Z }.

Definition Chunker_new (size : Z) : Chunker := mkChunker [] size size.

Definition set_chunk_size (size : Z) (c : Chunker) : Chunker :=
  mkChunker [] (if chunk_cap c <? size then size else chunk_cap c) size.

(** [self.chunk[self.pos..self.pos + len].copy_from_slice(..)]. *)
Definition fill {E} (c : Chunker) (b : bytes) : res E Chunker :=
  if zlen (chunk c) + zlen b <=? chunk_cap c then Ok (mkChunker (chunk c ++ b) (chunk_cap c) (chunk_size c)) else Panic.

(** The rest of the buffer, a chunk if one is complete, and the new state.  The
    subtraction never wraps, as [pos] is less than [chunk_size] between two calls. *)
Definition add_data {E} (c : Chunker) (buf : bytes) : res E (bytes * option bytes * Chunker) :=
  if 0 <? zlen (chunk c) then
    let len := Z.to_nat (Z.min (chunk_size c - zlen (chunk c)) (zlen buf)) in
    c ← fill c (take len buf);
    if zlen (chunk c) =? chunk_size c
    then Ok (drop len buf, Some (chunk c), mkChunker [] (chunk_cap c) (chunk_size c))
    else Ok (drop len buf, None, c)
  else if chunk_size c <=? zlen buf then
    let n := Z.to_nat (chunk_size c) in Ok (drop n buf, Some (take n buf), c)
  else c ← fill c buf; Ok ([], None, c).

Definition get_available (c : Chunker) : bytes * Chunker := (chunk c, mkChunker [] (chunk_cap c) (chunk_size c)).

(** * Readers *)

(** A reader is the list of the outcomes of its reads: a piece of data, of which a read
    takes as much as fits its buffer, or an error.  A [Cursor] chained with a file is two
    pieces; a read of a chain goes on to the second when the first is exhausted. *)
Inductive Event := Data (b : bytes) | Fail (e : IoError).

Fixpoint reader_read (n : Z) (r : list Event) : io bytes * list Event :=
  match r with
  | [] => (Ok [], [])
  | Fail e :: r => (Err e, r)
  | Data [] :: r => reader_read n r
  | Data b :: r =>
      if n <? zlen b then (Ok (take (Z.to_nat n) b), Data (drop (Z.to_nat n) b) :: r) else (Ok b, r)
  end.

(** [Read::read_exact]: a read of nothing is the end. *)
Fixpoint reader_read_exact (n : Z) (r : list Event) : io bytes * list Event :=
  if n <=? 0 then (Ok [], r) else
  match r with
  | [] => (Err UnexpectedEof, [])
  | Fail e :: r => (Err e, r)
  | Data b :: r =>
      if n <? zlen b then (Ok (take (Z.to_nat n) b), Data (drop (Z.to_nat n) b) :: r)
      else let '(rest, r) := reader_read_exact (n - zlen b) r in (x ← rest; Ok (b ++ x), r)
  end.

Definition read_u32 (r : list Event) : io Z * list Event :=
  let '(b, r) := reader_read_exact 4 r in (b ← b; Ok (of_le b), r).

(** * LZ4 block archives (boot/compress.rs) *)

Definition LZ4_BLOCK_SIZE : Z := 0x800000.
Definition LZ4_MAGIC : Z := 0x184c2102.

Definition write_pod (z : Z) : bytes := to_le 4 z.

Record Encoder := mkEncoder { write : bytes; chunker : Chunker; total : Z; is_lg : bool }.

Definition Encoder_new (lg : bool) : Encoder := mkEncoder [] (Chunker_new LZ4_BLOCK_SIZE) 0 lg.

(** What memory holds before anything is written to it is the argument [uninit]. *)
Record Decoder := mkDecoder { read : list Event; in_buf : bytes; out_buf : bytes; out_pos : Z }.

Definition Decoder_new (r : list Event) : Decoder := mkDecoder r [] [] 0.

Section Lz4.
Context (oc : bool) (compress decompress : bytes -> option bytes) (compress_bound : Z) (uninit : nat -> byte).

Definition encode_block (w chunk : bytes) : io bytes :=
  match compress chunk with
  | None => Err OtherIo
  | Some block => Ok (w ++ write_pod (uwrap 32 (zlen block)) ++ block)
  end.

(** The loop of [write_all]; a round that does not complete a chunk takes all of [buf]. *)
Fixpoint encode_loop (fuel : nat) (buf : bytes) (w : bytes) (c : Chunker) : io (bytes * Chunker) :=
  match fuel with
  | O => Panic
  | S fuel =>
      if is_empty buf then Ok (w, c) else
      '(buf, chunk, c) ← add_data c buf;
      match chunk with
      | Some chunk => w ← encode_block w chunk; encode_loop fuel buf w c
      | None => encode_loop fuel buf w c
      end
  end.

Definition encoder_write_all (e : Encoder) (buf : bytes) : io Encoder :=
  let w := if total e =? 0 then write e ++ write_pod LZ4_MAGIC else write e in
  t ← u_arith oc 32 (total e + uwrap 32 (zlen buf));
  '(w, c) ← encode_loop (S (length buf)) buf w (chunker e);
  Ok (mkEncoder w c t (is_lg e)).

Definition encoder_finish (e : Encoder) : io bytes :=
  let '(chunk, _) := get_available (chunker e) in
  w ← (if is_empty chunk then Ok (write e) else encode_block (write e) chunk);
  Ok (if is_lg e then w ++ write_pod (total e) else w).

(** [std::io::copy] of a source that is read piece by piece, and [finish]. *)
Fixpoint encoder_copy (pieces : list bytes) (e : Encoder) : io Encoder :=
  match pieces with
  | [] => Ok e
  | p :: pieces => e ← encoder_write_all e p; encoder_copy pieces e
  end.

Definition lz4_encode (lg : bool) (pieces : list bytes) : io bytes :=
  e ← encoder_copy pieces (Encoder_new lg); encoder_finish e.

(** The first [n] bytes of a buffer of which only the bytes of [b] have been written. *)
Definition buf_prefix (n : Z) (b : bytes) : bytes :=
  take (Z.to_nat n) b ++ map uninit (seq (length b) (Z.to_nat n - length b)).

(** [buf_prefix] after bytes have been read to its start, and to what is behind them. *)
Definition overwrite (b : bytes) (buf : bytes) : bytes := b ++ drop (length b) buf.

(** The next block, to [out_buf]; [false] is the end, which leaves only the reader changed. *)
Definition next_block (d : Decoder) : io (Decoder * bool) :=
  let at_end r : io (Decoder * bool) := Ok (mkDecoder r (in_buf d) (out_buf d) (out_pos d), false) in
  let '(size, r) := read_u32 (read d) in
  match size with
  | Err UnexpectedEof => at_end r
  | Err e => Err e
  | Panic => Panic
  | Ok size =>
      let '(size, r) := if size =? LZ4_MAGIC then read_u32 r else (Ok size, r) in
      size ← size;
      if compress_bound <? size then at_end r else
      let '(got, r) := reader_read size r in
      match got with
      | Ok [] => at_end r
      | Panic => Panic
      | Ok _ | Err _ =>
          (* an error of this read is ignored, and the block is what the buffer held *)
          let '(rest, b, r) :=
            match got with
            | Ok b =>
                if zlen b =? size then (Ok [], b, r)
                else let '(rest, r) := reader_read_exact (size - zlen b) r in (rest, b, r)
            | _ => (Ok [], [], r)
            end in
          rest ← rest;
          let in_buf := overwrite (b ++ rest) (in_buf d) in
          match decompress (buf_prefix size in_buf) with
          | None => Err OtherIo
          | Some out => Ok (mkDecoder r in_buf out 0, true)
          end
      end
  end.

Definition decoder_read (n : Z) (d : Decoder) : io (bytes * Decoder) :=
  '(d, more) ← (if out_pos d =? zlen (out_buf d) then next_block d else Ok (d, true));
  if negb more then Ok ([], d) else
  let copy_len := Z.min n (zlen (out_buf d) - out_pos d) in
  b ← slice (out_buf d) (out_pos d) (out_pos d + copy_len);
  Ok (b, mkDecoder (read d) (in_buf d) (out_buf d) (out_pos d + copy_len)).

(** [std::io::copy] to a file, with a buffer of [n] bytes. *)
Fixpoint decoder_copy (fuel : nat) (n : Z) (d : Decoder) (out : bytes) : io bytes :=
  match fuel with
  | O => Panic
  | S fuel =>
      '(b, d) ← decoder_read n d;
      if is_empty b then Ok out else decoder_copy fuel n d (out ++ b)
  end.

Definition lz4_decode (fuel : nat) (n : Z) (r : list Event) : io bytes := decoder_copy fuel n (Decoder_new r) [].
End Lz4.

(** * Commands *)

Definition rsplit_once (c : byte) (s : bytes) : option (bytes * bytes) :=
  match split_once c (rev s) with Some (b, a) => Some (rev a, rev b) | None => None end.

(** The files, and what is on standard input and output. *)
Record World := mkWorld { files : gmap bytes bytes; stdin : bytes; stdout : bytes }.

Inductive CmdError := Unsupported | Os (path : bytes) | Coder (e : IoError).

(** The pieces in which a source is read with a buffer of [n] bytes. *)
Fixpoint pieces_go (fuel : nat) (n : nat) (s : bytes) : list bytes :=
  match fuel, s with
  | S fuel, _ :: _ => take n s :: pieces_go fuel n (drop n s)
  | _, _ => []
  end.
Definition pieces (n : Z) (s : bytes) : list bytes := pieces_go (length s) (Z.to_nat n) s.

Inductive Output := StdOut | OutFile (path : bytes).

Section Commands.
Context (oc : bool) (compress decompress : bytes -> option bytes) (compress_bound : Z) (uninit : nat -> byte).
Context (crate_encode : FileFormat -> list bytes -> io bytes) (crate_decode : FileFormat -> list Event -> io bytes).
Context (check_fmt : bytes -> FileFormat) (creatable removable : bytes -> bool).
(** The size of the buffer of [std::io::copy], and a bound on the rounds of its loop. *)
Context (buf_size : Z) (fuel : nat).
(** What a coder has written when it fails. *)
Context (partial : FileFormat -> bytes -> bytes).

(** [get_encoder], all of the input, and [finish]. *)
Definition encode (format : FileFormat) (ps : list bytes) : io bytes :=
  match format with
  | LZ4_LEGACY => lz4_encode oc compress false ps
  | LZ4_LG => lz4_encode oc compress true ps
  | XZ | LZMA | BZIP2 | LZ4 | ZOPFLI | GZIP => crate_encode format ps
  | _ => Panic
  end.

(** [get_decoder] and all it reads. *)
Definition decode (format : FileFormat) (r : list Event) : io bytes :=
  match format with
  | LZ4_LG | LZ4_LEGACY => lz4_decode decompress compress_bound uninit fuel buf_size r
  | XZ | LZMA | BZIP2 | LZ4 | ZOPFLI | GZIP => crate_decode format r
  | _ => Panic
  end.

(** [compress_bytes] and [decompress_bytes]: the bytes written; errors are only logged. *)
Definition compress_bytes (format : FileFormat) (in_bytes : bytes) : option bytes :=
  match encode format (pieces buf_size in_bytes) with
  | Ok out => Some out | Err _ => Some (partial format in_bytes) | Panic => None
  end.
Definition decompress_bytes (format : FileFormat) (in_bytes : bytes) : option bytes :=
  match decode format [Data in_bytes] with
  | Ok out => Some out | Err _ => Some (partial format in_bytes) | Panic => None
  end.

Definition open_input (w : World) (infile : bytes) : res CmdError bytes :=
  if bool_decide (infile = #"-") then Ok (stdin w) else of_option (Os infile) (files w !! infile).

(** Open for writing; a file is emptied. *)
Definition open_output (w : World) (o : Output) : World * res CmdError unit :=
  match o with
  | StdOut => (w, Ok tt)
  | OutFile path =>
      if creatable path then (mkWorld (<[path := []]> (files w)) (stdin w) (stdout w), Ok tt) else (w, Err (Os path))
  end.

Definition put_output (w : World) (o : Output) (b : bytes) : World :=
  match o with
  | StdOut => mkWorld (files w) (stdin w) (stdout w ++ b)
  | OutFile path => mkWorld (<[path := b]> (files w)) (stdin w) (stdout w)
  end.

Definition remove_input (w : World) (rm_in : bool) (infile : bytes) : World * res CmdError unit :=
  if negb rm_in then (w, Ok tt)
  else if removable infile then (mkWorld (delete infile (files w)) (stdin w) (stdout w), Ok tt) else (w, Err (Os infile)).

(** The end of both commands: open the output, run the coder, remove the input.  The
    output is not the input file. *)
Definition run_coder (w : World) (format : FileFormat) (infile input : bytes) (o : Output) (rm_in : bool) (result : io bytes) : World * res CmdError unit :=
  match open_output w o with
  | (w, Ok _) =>
      match result with
      | Ok b => remove_input (put_output w o b) rm_in infile
      | Err e => (put_output w o (partial format input), Err (Coder e))
      | Panic => (w, Panic)
      end
  | (w, r) => (w, r)
  end.

Definition decompress_cmd (w : World) (infile : bytes) (outfile : option bytes) : World * res CmdError unit :=
  match open_input w infile with
  | Err e => (w, Err e)
  | Panic => (w, Panic)
  | Ok input =>
      let in_std := bool_decide (infile = #"-") in
      let buf := take 4096 input in
      let format := check_fmt buf in
      if negb (is_compressed format) then (w, Err Unsupported) else
      let output : option (Output * bool) :=
        match outfile with
        | Some outfile => Some (if bool_decide (outfile = #"-") then StdOut else OutFile outfile, false)
        | None =>
            if in_std then Some (StdOut, false) else
            match rsplit_once "."%char infile with
            | Some (outfile, e) => if bool_decide (e = ext format) then Some (OutFile outfile, true) else None
            | None => None
            end
        end in
      match output with
      | None => (w, Err Unsupported)
      | Some (o, rm_in) => run_coder w format infile input o rm_in (decode format [Data buf; Data (drop 4096 input)])
      end
  end.

Definition compress_cmd (w : World) (method : FileFormat) (infile : bytes) (outfile : option bytes) : World * res CmdError unit :=
  match open_input w infile with
  | Err e => (w, Err e)
  | Panic => (w, Panic)
  | Ok input =>
      let in_std := bool_decide (infile = #"-") in
      let '(o, rm_in) :=
        match outfile with
        | Some outfile => (if bool_decide (outfile = #"-") then StdOut else OutFile outfile, false)
        | None => if in_std then (StdOut, false) else (OutFile (infile ++ #"." ++ ext method), true)
        end in
      run_coder w method infile input o rm_in (encode method (pieces buf_size input))
  end.
End Commands.

(** * Lemmas on chunks and readers *)

Definition chunker_wf (c : Chunker) : Prop := chunk_cap c = chunk_size c /\ zlen (chunk c) < chunk_size c.

(** No byte is lost or moved, a chunk that is handed out is full, and some of the data is
    consumed. *)
Lemma add_data_spec {E} c buf :
  chunker_wf c -> buf <> [] ->
  exists buf' o c', add_data (E:=E) c buf = Ok (buf', o, c') /\
    chunk c ++ buf = default [] o ++ chunk c' ++ buf' /\ chunker_wf c' /\ chunk_size c' = chunk_size c /\
    (forall ch, o = Some ch -> zlen ch = chunk_size c) /\ (length buf' < length buf)%nat.
Proof.
  intros [Hcap Hpos] Hne. unfold add_data, fill.
  assert (0 < length buf)%nat as Hl by (destruct buf; [done | simpl; lia]).
  destruct (0 <? zlen (chunk c)) eqn:E0; [| destruct (chunk_size c <=? zlen buf) eqn:E1].
  - apply Z.ltb_lt in E0. set (n := Z.to_nat _). assert (n <= length buf)%nat by lia.
    rewrite length_take_le by done. rewrite (proj2 (Z.leb_le _ _)) by lia. cbn [mbind res_bind chunk chunk_cap chunk_size].
    destruct (zlen (chunk c ++ take n buf) =? chunk_size c) eqn:E2; do 3 eexists; (split; [done |]); cbn [default from_option chunk chunk_size Datatypes.id].
    + apply Z.eqb_eq in E2. split_and!; [by rewrite app_nil_l, <- app_assoc, take_drop | split; simpl; [done | lia] | done | by intros ch [= <-] | rewrite length_drop; lia].
    + apply Z.eqb_neq in E2. rewrite length_app, length_take_le in E2 by done.
      split_and!; [by rewrite app_nil_l, <- app_assoc, take_drop | split; cbn [chunk chunk_cap chunk_size]; [done | rewrite length_app, length_take_le by done; lia]
        | done | done | rewrite length_drop; lia].
  - apply Z.ltb_ge in E0. apply Z.leb_le in E1. assert (chunk c = []) as Hc by (destruct (chunk c); [done | simpl in E0; lia]).
    do 3 eexists. split; [done |]. cbn [default from_option Datatypes.id]. rewrite Hc in Hpos |- *. simpl in Hpos.
    split_and!; [by rewrite !app_nil_l, take_drop | split; [done | by rewrite Hc] | done | | rewrite length_drop; lia].
    intros ch [= <-]. rewrite length_take_le; lia.
  - apply Z.ltb_ge in E0. apply Z.leb_gt in E1. assert (chunk c = []) as Hc by (destruct (chunk c); [done | simpl in E0; lia]).
    rewrite Hc in *. simpl. rewrite (proj2 (Z.leb_le _ _)) by lia. cbn [mbind res_bind].
    do 3 eexists. split; [done |]. cbn [default from_option chunk chunk_cap chunk_size].
    split_and!; [by rewrite app_nil_r | split; simpl; [done | lia] | done | done | simpl; lia].
Qed.

Lemma reader_read_exact_data n segs :
  0 <= n <= zlen (concat segs) ->
  exists segs', reader_read_exact n (map Data segs) = (Ok (take (Z.to_nat n) (concat segs)), map Data segs') /\
    concat segs' = drop (Z.to_nat n) (concat segs).
Proof.
  revert n. induction segs as [|b segs IH]; intros n Hn; cbn [map reader_read_exact concat].
  { exists []. simpl in Hn. assert (n = 0) as -> by lia. done. }
  cbn [concat] in Hn. rewrite length_app in Hn.
  destruct (n <=? 0) eqn:E0.
  { apply Z.leb_le in E0. assert (n = 0) as -> by lia. by exists (b :: segs). }
  apply Z.leb_gt in E0. destruct (n <? zlen b) eqn:E1.
  - apply Z.ltb_lt in E1. exists (drop (Z.to_nat n) b :: segs). cbn [map concat].
    rewrite take_app_le, drop_app_le by lia. done.
  - apply Z.ltb_ge in E1. destruct (IH (n - zlen b)) as (segs' & -> & Hs); [lia |].
    exists segs'. cbn [mbind res_bind]. rewrite take_app_ge, drop_app_ge by lia.
    replace (Z.to_nat n - length b)%nat with (Z.to_nat (n - zlen b)) by lia. done.
Qed.

Lemma reader_read_exact_eof n segs :
  zlen (concat segs) < n -> reader_read_exact n (map Data segs) = (Err UnexpectedEof, []).
Proof.
  revert n. induction segs as [|b segs IH]; intros n Hn; cbn [map reader_read_exact concat] in *;
    rewrite (proj2 (Z.leb_gt _ _)) by lia; [done |].
  rewrite length_app in Hn. rewrite (proj2 (Z.ltb_ge _ _)) by lia. by rewrite IH by lia.
Qed.

Lemma reader_read_data n segs :
  0 < n -> concat segs <> [] ->
  exists b segs', reader_read n (map Data segs) = (Ok b, map Data segs') /\ b <> [] /\ zlen b <= n /\ concat segs = b ++ concat segs'.
Proof.
  intros Hn. induction segs as [|[|x b] segs IH]; intros Hne; [done | by apply IH |].
  cbn [map reader_read concat]. destruct (n <? zlen (x :: b)) eqn:E1.
  - apply Z.ltb_lt in E1. exists (take (Z.to_nat n) (x :: b)), (drop (Z.to_nat n) (x :: b) :: segs). split; [done |].
    split_and!; [| rewrite length_take; lia | cbn [concat]; by rewrite app_assoc, take_drop].
    intros H%(f_equal length). rewrite length_take in H. simpl in H. lia.
  - apply Z.ltb_ge in E1. by exists (x :: b), segs.
Qed.

Lemma reader_read_end n segs : concat segs = [] -> (reader_read n (map Data segs)).1 = Ok [].
Proof. induction segs as [|[|x b] segs IH]; intros H; [done | by apply IH | done]. Qed.

Lemma Ok_inj {E A} (x y : A) : Ok x = Ok y :> res E A -> x = y.
Proof. by intros [= ->]. Qed.

Lemma write_pod_length z : zlen (write_pod z) = 4.
Proof. unfold write_pod. by rewrite to_le_length. Qed.

Lemma read_u32_data z segs rest :
  0 <= z < 2 ^ 32 -> concat segs = write_pod z ++ rest ->
  exists segs', read_u32 (map Data segs) = (Ok z, map Data segs') /\ concat segs' = rest.
Proof.
  intros Hz Hs. unfold read_u32. pose proof (write_pod_length z) as Hl.
  destruct (reader_read_exact_data 4 segs) as (segs' & -> & Hs'); [rewrite Hs, length_app; lia |].
  exists segs'. rewrite Hs in *. cbn [mbind res_bind].
  rewrite take_app_length', drop_app_length' in * by lia. split; [| done].
  unfold write_pod. by rewrite of_to_le, Z.mod_small by done.
Qed.

(** * Round trip of the LZ4 block archives *)

Section Lz4Roundtrip.
Context (oc : bool) (compress decompress : bytes -> option bytes) (compress_bound : Z) (uninit : nat -> byte).

(** What the code relies on: a chunk is compressed to some bytes, at most
    [compress_bound], which are decompressed to the chunk again. *)
Definition block_law : Prop :=
  compress_bound < LZ4_MAGIC /\
  forall c, 0 < zlen c <= LZ4_BLOCK_SIZE ->
    exists b, compress c = Some b /\ 0 < zlen b <= compress_bound /\ decompress b = Some c.
Context (Hlaw : block_law).

Definition block_of (c b : bytes) : Prop := compress c = Some b /\ 0 < zlen b <= compress_bound /\ decompress b = Some c /\ c <> [].
Definition frame (b : bytes) : bytes := write_pod (zlen b) ++ b.
Definition frames (bs : list bytes) : bytes := concat (map frame bs).

Lemma encode_block_frame w c :
  0 < zlen c <= LZ4_BLOCK_SIZE -> exists b, block_of c b /\ encode_block compress w c = Ok (w ++ frame b).
Proof.
  intros Hc. destruct (proj2 Hlaw c Hc) as (b & Hb & Hlen & Hd). exists b. destruct Hlaw as [Hm _].
  split; [split_and!; try done; try lia; intros ->; simpl in Hc; lia|]. unfold encode_block, frame. rewrite Hb, uwrap_small; [done |].
  unfold LZ4_MAGIC in Hm. lia.
Qed.

Definition lz4_wf (c : Chunker) : Prop := chunker_wf c /\ chunk_size c = LZ4_BLOCK_SIZE.

Lemma encode_loop_frames fuel buf w c :
  lz4_wf c -> (length buf < fuel)%nat ->
  exists cs bs c', encode_loop compress fuel buf w c = Ok (w ++ frames bs, c') /\ Forall2 block_of cs bs /\
    chunk c ++ buf = concat cs ++ chunk c' /\ lz4_wf c'.
Proof.
  revert buf w c. induction fuel as [|fuel IH]; intros buf w c [Hwf Hsz] Hf; [lia |]. cbn [encode_loop].
  destruct buf as [|x buf]; cbn [is_empty].
  { exists [], [], c. unfold frames. rewrite !app_nil_r. split_and!; done. }
  destruct (add_data_spec (E:=IoError) c (x :: buf) Hwf) as (buf' & o & c' & -> & Heq & Hwf' & Hsz' & Ho & Hl); [done |].
  cbn [mbind res_bind]. assert (lz4_wf c') as Hwf'' by (split; congruence). destruct o as [ch|].
  - destruct (encode_block_frame w ch) as (b & Hb & ->); [rewrite (Ho ch), Hsz by done; unfold LZ4_BLOCK_SIZE; lia |].
    cbn [mbind res_bind]. destruct (IH buf' (w ++ frame b) c') as (cs & bs & c'' & -> & Hbs & Hcs & Hw); [done | lia |].
    exists (ch :: cs), (b :: bs), c''. split_and!; [unfold frames; cbn [map concat]; by rewrite app_assoc | by constructor | | done].
    cbn [default from_option Datatypes.id concat] in *. by rewrite Heq, Hcs, app_assoc.
  - destruct (IH buf' w c') as (cs & bs & c'' & -> & Hbs & Hcs & Hw); [done | lia |].
    exists cs, bs, c''. split_and!; try done. by rewrite Heq, <- Hcs.
Qed.

(** The state of an encoder that has been given [d]: the chunks it has completed, framed. *)
Definition encoded (e : Encoder) (d : bytes) : Prop :=
  exists cs bs, write e = write_pod LZ4_MAGIC ++ frames bs /\ Forall2 block_of cs bs /\
    d = concat cs ++ chunk (chunker e) /\ lz4_wf (chunker e) /\ total e = zlen d /\ 0 < total e.

Lemma frames_app bs bs' : frames (bs ++ bs') = frames bs ++ frames bs'.
Proof. unfold frames. by rewrite map_app, concat_app. Qed.

Lemma frames_one b : frames [b] = frame b.
Proof. unfold frames. simpl. by rewrite app_nil_r. Qed.

Lemma encoder_write_more e d p :
  encoded e d -> zlen (d ++ p) < 2 ^ 32 ->
  exists e', encoder_write_all oc compress e p = Ok e' /\ encoded e' (d ++ p) /\ is_lg e' = is_lg e.
Proof.
  intros (cs & bs & Hw & Hbs & Hd & Hwf & Ht & Hpos) Hlen. rewrite length_app in Hlen. unfold encoder_write_all.
  rewrite (proj2 (Z.eqb_neq _ _)) by lia. rewrite uwrap_small by lia. rewrite u_arith_small by lia. cbn [mbind res_bind].
  destruct (encode_loop_frames (S (length p)) p (write e) (chunker e) Hwf) as (cs' & bs' & c' & -> & Hbs' & Hcs & Hwf'); [lia |].
  cbn [mbind res_bind]. eexists. split; [done |]. split; [| done]. exists (cs ++ cs'), (bs ++ bs'). cbn [write chunker total].
  split_and!; [by rewrite frames_app, Hw, app_assoc | by apply Forall2_app | | done | rewrite length_app; lia | lia].
  by rewrite Hd, <- app_assoc, Hcs, concat_app, app_assoc.
Qed.

Lemma encoder_write_first lg p :
  p <> [] -> zlen p < 2 ^ 32 ->
  exists e', encoder_write_all oc compress (Encoder_new lg) p = Ok e' /\ encoded e' p /\ is_lg e' = lg.
Proof.
  intros Hne Hlen. unfold encoder_write_all. cbn [total Encoder_new write is_lg chunker]. rewrite app_nil_l.
  change (0 =? 0) with true. rewrite uwrap_small by lia. rewrite u_arith_small by lia. cbn [mbind res_bind].
  destruct (encode_loop_frames (S (length p)) p (write_pod LZ4_MAGIC) (Chunker_new LZ4_BLOCK_SIZE))
    as (cs & bs & c' & -> & Hbs & Hcs & Hwf); [by split | lia |].
  cbn [mbind res_bind]. eexists. split; [done |]. split; [| done]. exists cs, bs. cbn [write chunker total].
  split_and!; try done. destruct p; [done | simpl; lia].
Qed.

Lemma encoder_copy_more pieces e d :
  encoded e d -> zlen (d ++ concat pieces) < 2 ^ 32 ->
  exists e', encoder_copy oc compress pieces e = Ok e' /\ encoded e' (d ++ concat pieces) /\ is_lg e' = is_lg e.
Proof.
  revert e d. induction pieces as [|p pieces IH]; intros e d He Hlen; cbn [encoder_copy concat] in *.
  { exists e. by rewrite app_nil_r. }
  destruct (encoder_write_more e d p He) as (e' & -> & He' & Hlg); [rewrite !length_app in *; lia |].
  cbn [mbind res_bind]. destruct (IH e' (d ++ p) He') as (e'' & -> & He'' & Hlg'); [by rewrite <- app_assoc |].
  exists e''. rewrite <- app_assoc in He''. by rewrite Hlg', Hlg.
Qed.

Definition trailer (lg : bool) (d : bytes) : bytes := if lg then write_pod (zlen d) else [].

(** The archive: the header, a block for every chunk, and the trailer of the LG format. *)
Lemma lz4_encode_archive lg p pieces :
  p <> [] -> zlen (p ++ concat pieces) < 2 ^ 32 ->
  exists cs bs, lz4_encode oc compress lg (p :: pieces) = Ok (write_pod LZ4_MAGIC ++ frames bs ++ trailer lg (p ++ concat pieces)) /\
    Forall2 block_of cs bs /\ concat cs = p ++ concat pieces.
Proof.
  intros Hne Hlen. unfold lz4_encode. cbn [encoder_copy].
  destruct (encoder_write_first lg p Hne) as (e & -> & He & Hlg); [rewrite length_app in Hlen; lia |]. cbn [mbind res_bind].
  destruct (encoder_copy_more pieces e p He Hlen) as (e' & -> & He' & Hlg'). cbn [mbind res_bind].
  destruct He' as (cs & bs & Hw & Hbs & Hd & [[_ Hsz] HBS] & Ht & _). unfold encoder_finish. cbn [get_available].
  rewrite Hlg', Hlg, Ht. set (d := p ++ concat pieces) in *. destruct (chunk (chunker e')) as [|x ch] eqn:Hch; cbn [is_empty mbind res_bind].
  - exists cs, bs. rewrite app_nil_r in Hd. split_and!; [| done | done]. rewrite Hw. unfold trailer.
    destruct lg; by rewrite ?app_nil_r, ?app_assoc.
  - destruct (encode_block_frame (write e') (x :: ch)) as (b & Hb & ->); [rewrite <- HBS; simpl in *; lia |]. cbn [mbind res_bind].
    exists (cs ++ [x :: ch]), (bs ++ [b]). split_and!; [| by apply Forall2_app; [| constructor] | rewrite concat_app, Hd; cbn [concat]; by rewrite app_nil_r].
    rewrite Hw, frames_app, frames_one. unfold trailer. destruct lg; by rewrite ?app_nil_r, <- !app_assoc.
Qed.

(** ** Decoding *)

(** A frame at the front of the data that is still to be read. *)
Lemma block_read c b segs rest r0 ib ob op :
  block_of c b -> concat segs = b ++ rest ->
  read_u32 r0 = (Ok (zlen b), map Data segs) \/
    (exists r1, read_u32 r0 = (Ok LZ4_MAGIC, r1) /\ read_u32 r1 = (Ok (zlen b), map Data segs)) ->
  exists segs' ib', next_block decompress compress_bound uninit (mkDecoder r0 ib ob op) = Ok (mkDecoder (map Data segs') ib' c 0, true) /\
    concat segs' = rest.
Proof.
  intros (_ & Hlen & Hd & _) Hs Hr0. unfold next_block. cbn [read in_buf out_buf out_pos].
  assert ((let '(size, r) := read_u32 r0 in
           match size with Ok size => if size =? LZ4_MAGIC then read_u32 r else (Ok size, r) | _ => (size, r) end)
          = (Ok (zlen b), map Data segs) /\ exists z r, read_u32 r0 = (Ok z, r)) as [Hsz (z & r & Hz)].
  { destruct Hr0 as [-> | (r1 & -> & Hr1)]; [| by split; [| eauto]].
    split; [| by eauto]. rewrite (proj2 (Z.eqb_neq _ _)); [done |]. destruct Hlaw as [Hm _]. lia. }
  rewrite Hz in Hsz |- *. cbn beta iota zeta in Hsz |- *. rewrite Hsz. cbn [mbind res_bind].
  rewrite (proj2 (Z.ltb_ge _ _)) by lia.
  destruct (reader_read_data (zlen b) segs) as (b1 & segs1 & -> & Hne1 & Hl1 & Hs1); [lia | rewrite Hs; destruct b; [simpl in Hlen; lia | done] |].
  assert (exists rest1 segs2, (if zlen b1 =? zlen b then (Ok [], b1, map Data segs1)
            else let '(rest, r) := reader_read_exact (zlen b - zlen b1) (map Data segs1) in (rest, b1, r))
          = (Ok rest1 : io bytes, b1, map Data segs2) /\ b1 ++ rest1 = b /\ concat segs2 = rest) as (rest1 & segs2 & Hread & Hb & Hs2).
  { rewrite Hs in Hs1. destruct (zlen b1 =? zlen b) eqn:E.
    - apply Z.eqb_eq in E. exists [], segs1. rewrite app_nil_r. apply app_inj_1 in Hs1 as [? ?]; [by subst | lia].
    - apply Z.eqb_neq in E. assert (b = b1 ++ drop (length b1) b) as Hb.
      { rewrite <- (take_drop (length b1) b) at 1. f_equal. apply (f_equal (take (length b1))) in Hs1.
        rewrite take_app_le, take_app_length in Hs1 by lia. done. }
      assert (concat segs1 = drop (length b1) b ++ rest) as Hc1.
      { rewrite Hb, <- app_assoc in Hs1. by apply app_inv_head in Hs1. }
      destruct (reader_read_exact_data (zlen b - zlen b1) segs1) as (segs2 & -> & Hs2); [rewrite Hc1, length_app, length_drop; lia |].
      exists (drop (length b1) b), segs2. assert (Z.to_nat (zlen b - zlen b1) = length (drop (length b1) b)) as Hn by (rewrite length_drop; lia).
      rewrite Hc1, Hn, drop_app_length in Hs2. rewrite Hc1, Hn, take_app_length. done. }
  destruct b1 as [|y b1]; [done |]. rewrite Hread. cbn [mbind res_bind]. rewrite Hb.
  assert (buf_prefix uninit (zlen b) (overwrite b ib) = b) as ->.
  { unfold buf_prefix, overwrite. rewrite Nat2Z.id, take_app_length, length_app.
    replace (length b - _)%nat with 0%nat by lia. simpl. by rewrite app_nil_r. }
  rewrite Hd. eauto.
Qed.

Definition at_end (lg : bool) (t : Z) : bytes := if lg then write_pod t else [].

(** A trailer that is the magic number is taken for a header, and the size that should
    follow it is missing. *)
Lemma end_read lg t segs ib ob op :
  0 <= t < 2 ^ 32 -> concat segs = at_end lg t ->
  exists d, next_block decompress compress_bound uninit (mkDecoder (map Data segs) ib ob op) =
    if lg && (t =? LZ4_MAGIC) then Err UnexpectedEof else Ok (d, false).
Proof.
  intros Ht Hs. unfold next_block. cbn [read in_buf out_buf out_pos]. destruct lg; cbn [at_end andb] in *.
  - rewrite <- (app_nil_r (write_pod t)) in Hs. destruct (read_u32_data t segs [] Ht Hs) as (segs' & -> & Hs').
    destruct (t =? LZ4_MAGIC).
    { unfold read_u32. rewrite reader_read_exact_eof by (rewrite Hs'; simpl; lia). by exists (mkDecoder [] [] [] 0). }
    cbn [mbind res_bind]. destruct (compress_bound <? t); [by eexists |].
    pose proof (reader_read_end t segs' Hs') as Hr. destruct (reader_read t (map Data segs')) as [o r]. simpl in Hr. subst o. by eexists.
  - unfold read_u32. rewrite reader_read_exact_eof by (rewrite Hs; simpl; lia). by eexists.
Qed.

Definition final (lg : bool) (t : Z) (out : bytes) : io bytes := if lg && (t =? LZ4_MAGIC) then Err UnexpectedEof else Ok out.

(** What is left to decode: the rest of the current block, then the blocks of the reader,
    possibly with the header before them. *)
Definition pending (lg : bool) (t : Z) (d : Decoder) (cs : list bytes) : Prop :=
  exists segs bs pre, read d = map Data segs /\ concat segs = pre ++ frames bs ++ at_end lg t /\ Forall2 block_of cs bs /\
    (pre = [] \/ pre = write_pod LZ4_MAGIC /\ cs <> []) /\ 0 <= out_pos d <= zlen (out_buf d).

Definition unread (d : Decoder) : bytes := drop (Z.to_nat (out_pos d)) (out_buf d).

Lemma next_block_pending lg t d c cs :
  pending lg t d (c :: cs) ->
  exists d', next_block decompress compress_bound uninit d = Ok (d', true) /\ pending lg t d' cs /\ out_buf d' = c /\ out_pos d' = 0.
Proof.
  intros (segs & bs & pre & Hr & Hs & Hbs & Hpre & _). destruct d as [r ib ob op]. cbn [read] in Hr. subst r.
  apply Forall2_cons_inv_l in Hbs as (b & bs' & Hb & Hbs' & ->).
  unfold frames in Hs. cbn [map concat] in Hs. fold (frames bs') in Hs. unfold frame in Hs. rewrite <- !app_assoc in Hs.
  assert (0 <= zlen b < 2 ^ 32) as Hz.
  { destruct Hb as (_ & Hlen & _). destruct Hlaw as [Hm _]. unfold LZ4_MAGIC in Hm. lia. }
  assert (exists segs', concat segs' = b ++ frames bs' ++ at_end lg t /\
    (read_u32 (map Data segs) = (Ok (zlen b), map Data segs') \/
      (exists r1, read_u32 (map Data segs) = (Ok LZ4_MAGIC, r1) /\ read_u32 r1 = (Ok (zlen b), map Data segs')))) as (segs' & Hs' & Hread).
  { destruct Hpre as [-> | [-> _]].
    - destruct (read_u32_data _ segs _ Hz Hs) as (segs' & -> & Hs'). eauto.
    - destruct (read_u32_data LZ4_MAGIC segs _ ltac:(unfold LZ4_MAGIC; lia) Hs) as (segs1 & -> & Hs1).
      destruct (read_u32_data _ segs1 _ Hz Hs1) as (segs' & Hr & Hs'). eauto 6. }
  destruct (block_read c b segs' _ (map Data segs) ib ob op Hb Hs' Hread) as (segs2 & ib' & -> & Hs2).
  eexists. split; [done |]. split; [| done]. exists segs2, bs', []. cbn [read out_buf out_pos]. split_and!; try done; [by left | lia].
Qed.

Lemma decoder_copy_pending fuel n lg t d cs out :
  0 < n -> 0 <= t < 2 ^ 32 ->
  pending lg t d cs -> (length (unread d ++ concat cs) < fuel)%nat ->
  decoder_copy decompress compress_bound uninit fuel n d out = final lg t (out ++ unread d ++ concat cs).
Proof.
  intros Hn Ht. revert d cs out. induction fuel as [|fuel IH]; intros d cs out Hp Hf; [lia |].
  assert (forall d cs, pending lg t d cs -> unread d <> [] -> (length (unread d ++ concat cs) <= fuel)%nat ->
    decoder_copy decompress compress_bound uninit (S fuel) n d out = final lg t (out ++ unread d ++ concat cs)) as Hpiece.
  { clear d cs Hp Hf. intros d cs Hp Hne Hf. destruct Hp as (segs & bs & pre & Hr & Hs & Hbs & Hpre & Hpos).
    cbn [decoder_copy]. unfold decoder_read. rewrite (proj2 (Z.eqb_neq _ _)).
    2: { intros E. apply Hne. unfold unread. rewrite E, Nat2Z.id. apply drop_all. }
    cbn [mbind res_bind negb]. set (k := Z.min n _). assert (0 < k <= zlen (out_buf d) - out_pos d) as Hk.
    { assert (length (unread d) <> 0)%nat by (by destruct (unread d)). unfold unread in *. rewrite length_drop in *. lia. }
    assert (slice (out_buf d) (out_pos d) (out_pos d + k) = Ok (take (Z.to_nat k) (unread d)) :> io bytes) as ->.
    { apply slice_Ok. split_and!; [lia.. |]. unfold unread. f_equal. lia. }
    cbn [mbind res_bind]. destruct (take (Z.to_nat k) (unread d)) as [|x piece] eqn:Et; cbn [is_empty].
    { apply (f_equal length) in Et. unfold unread in Et. rewrite length_take, length_drop in Et. simpl in Et. lia. }
    set (d' := mkDecoder _ _ _ _). assert (unread d = (x :: piece) ++ unread d') as Hu.
    { rewrite <- Et. unfold unread at 3, d'. cbn [out_pos out_buf]. rewrite <- (take_drop (Z.to_nat k) (unread d)) at 1.
      f_equal. unfold unread. rewrite drop_drop. f_equal. lia. }
    rewrite (IH d' cs).
    - rewrite Hu. by rewrite <- !app_assoc.
    - exists segs, bs, pre. unfold d'. cbn [read out_buf out_pos]. split_and!; try done; lia.
    - rewrite Hu, <- app_assoc in Hf. simpl in Hf. rewrite length_app in Hf. lia. }
  destruct (decide (unread d = [])) as [Hu|Hu]; [| by apply Hpiece; [| | lia]].
  assert (out_pos d = zlen (out_buf d)) as Hpos.
  { destruct Hp as (_ & _ & _ & _ & _ & _ & _ & Hp). apply (f_equal length) in Hu. unfold unread in Hu. rewrite length_drop in Hu. simpl in Hu. lia. }
  rewrite Hu in Hf |- *. destruct cs as [|c cs].
  - destruct Hp as (segs & bs & pre & Hr & Hs & Hbs & Hpre & _). apply Forall2_nil_inv_l in Hbs as ->.
    destruct Hpre as [-> | [_ ?]]; [| done]. destruct d as [r ib ob op]. cbn [read] in Hr. subst r.
    destruct (end_read lg t segs ib ob op Ht Hs) as (d' & Hd'). cbn [decoder_copy]. unfold decoder_read, final.
    rewrite (proj2 (Z.eqb_eq _ _)) by done. rewrite Hd'. destruct (lg && _); [done |]. cbn [mbind res_bind negb is_empty]. by rewrite app_nil_r.
  - destruct (next_block_pending _ _ _ _ _ Hp) as (d' & Hd' & Hp' & Ho & Hop).
    assert (unread d' = c) as Hu' by (unfold unread; by rewrite Hop, Ho).
    assert (c <> []) as Hc by (destruct Hp as (? & ? & ? & ? & ? & Hbs & _); apply Forall2_cons_inv_l in Hbs as (? & ? & (_ & _ & _ & ?) & _); done).
    cbn [concat]. rewrite app_nil_l, <- Hu', <- (Hpiece d' cs); [| done | by rewrite Hu' | rewrite Hu'; cbn [concat] in Hf; simpl in Hf; lia].
    cbn [decoder_copy]. unfold decoder_read. rewrite (proj2 (Z.eqb_eq _ _)) by done. rewrite Hd'. cbn [mbind res_bind].
    rewrite (proj2 (Z.eqb_neq _ _)); [done |]. rewrite Hop, Ho. destruct c; [done | simpl; lia].
Qed.

Lemma lz4_encode_total lg ps :
  Forall (fun p => p <> []) ps -> 0 < zlen (concat ps) < 2 ^ 32 -> exists out, lz4_encode oc compress lg ps = Ok out.
Proof.
  intros Hps Hlen. destruct ps as [|p ps]; [simpl in Hlen; lia |]. apply Forall_cons in Hps as [Hp _]. cbn [concat] in Hlen.
  destruct (lz4_encode_archive lg p ps Hp) as (cs & bs & He & _); [lia | by eauto].
Qed.

(** The blocks are decoded to what was encoded, however both streams are cut into pieces. *)
Lemma lz4_decode_encode lg ps segs n out fuel :
  Forall (fun p => p <> []) ps -> 0 < zlen (concat ps) < 2 ^ 32 -> 0 < n -> (length (concat ps) < fuel)%nat ->
  lz4_encode oc compress lg ps = Ok out -> concat segs = out ->
  lz4_decode decompress compress_bound uninit fuel n (map Data segs) = final lg (zlen (concat ps)) (concat ps).
Proof.
  intros Hps Hlen Hn Hf He Hs. destruct ps as [|p ps]; [simpl in Hlen; lia |]. apply Forall_cons in Hps as [Hp _]. cbn [concat] in *.
  destruct (lz4_encode_archive lg p ps Hp) as (cs & bs & He' & Hbs & Hcs); [lia |]. rewrite He' in He. apply Ok_inj in He. subst out.
  unfold lz4_decode. rewrite (decoder_copy_pending fuel n lg (zlen (p ++ concat ps)) (Decoder_new (map Data segs)) cs []); try done; [by rewrite Hcs | lia | |  by rewrite Hcs].
  exists segs, bs, (write_pod LZ4_MAGIC). cbn [read Decoder_new out_pos out_buf]. split_and!; try done. right. split; [done |].
  intros ->. cbn [concat] in Hcs. rewrite <- Hcs in Hlen. simpl in Hlen. lia.
Qed.
End Lz4Roundtrip.

(** C23: whatever is written to the LZ4 block encoder, piece by piece, is encoded, and the
    decoder returns it, however the archive is cut by the reads and whatever the size of
    the buffer: the header, the short last block and, in the LG format, the trailer are
    told apart.  The only exception is an LG archive of exactly as many bytes as the magic
    number: its trailer is taken for a header and the end of the archive for an error. *)
Theorem lz4_archive_roundtrip oc compress decompress compress_bound uninit lg ps :
  block_law compress decompress compress_bound ->
  Forall (fun p => p <> []) ps -> 0 < zlen (concat ps) < 2 ^ 32 ->
  exists out, lz4_encode oc compress lg ps = Ok out /\
    forall segs n fuel, concat segs = out -> 0 < n -> (length (concat ps) < fuel)%nat ->
      lz4_decode decompress compress_bound uninit fuel n (map Data segs) =
        if lg && (zlen (concat ps) =? LZ4_MAGIC) then Err UnexpectedEof else Ok (concat ps).
Proof.
  intros Hlaw Hps Hlen. destruct (lz4_encode_total oc compress decompress compress_bound Hlaw lg ps Hps Hlen) as (out & He).
  exists out. split; [exact He |]. intros segs n fuel Hs Hn Hf. by eapply lz4_decode_encode.
Qed.

(** A coder for the examples: blocks are stored as they are. *)
Definition store : bytes -> option bytes := Some.

Lemma store_law : block_law store store LZ4_BLOCK_SIZE.
Proof. split; [done |]. intros c Hc. by exists c. Qed.

Lemma lz4_archive_roundtrip_witness :
  exists out, lz4_encode true store true [ #"ab"; #"c"] = Ok out /\
    forall segs n fuel, concat segs = out -> 0 < n -> (3 < fuel)%nat ->
      lz4_decode store LZ4_BLOCK_SIZE (fun _ => bof 0) fuel n (map Data segs) = Ok #"abc".
Proof.
  destruct (lz4_archive_roundtrip true store store LZ4_BLOCK_SIZE (fun _ => bof 0) true [ #"ab"; #"c"]) as (out & He & Hd).
  - exact store_law.
  - repeat constructor; done.
  - split; reflexivity.
  - exists out. split; [exact He |]. intros segs n fuel Hs Hn Hf. exact (Hd segs n fuel Hs Hn Hf).
Defined.

(** * The commands *)

Lemma rsplit_once_app c a b : c ∉ b -> rsplit_once c (a ++ c :: b) = Some (a, b).
Proof.
  intros Hb. unfold rsplit_once. replace (rev (a ++ c :: b)) with (rev b ++ c :: rev a) by (by rewrite rev_app_distr; simpl; rewrite <- app_assoc).
  rewrite split_once_app by (by rewrite list_elem_of_In, <- in_rev, <- list_elem_of_In). by rewrite !rev_involutive.
Qed.

Lemma pieces_concat n s : 0 < n -> concat (pieces n s) = s /\ Forall (fun p => p <> []) (pieces n s).
Proof.
  intros Hn. unfold pieces. assert (length s <= length s)%nat as Hl by done. revert Hl. generalize (length s) at 2 3 4 as fuel. intros fuel.
  revert s. induction fuel as [|fuel IH]; intros [|c s] Hl; [done | simpl in Hl; lia | done |]. cbn [pieces_go concat].
  destruct (IH (drop (Z.to_nat n) (c :: s))) as [-> Hf]; [rewrite length_drop; simpl in *; lia |].
  split; [apply take_drop |]. constructor; [| done]. destruct (Z.to_nat n) eqn:E; [lia | done].
Qed.

(** What the commands rely on of the crates and of the detection of formats: an encoder
    accepts its input, its output is recognised as a format with the same extension, and
    the decoder of that format restores the input.  For the LZ4 block formats only the
    recognition is assumed. *)
Definition is_block (f : FileFormat) : bool := match f with LZ4_LEGACY | LZ4_LG => true | _ => false end.

Record coders_law (oc : bool) (compress : bytes -> option bytes) (crate_encode : FileFormat -> list bytes -> io bytes)
    (crate_decode : FileFormat -> list Event -> io bytes) (check_fmt : bytes -> FileFormat) : Prop := {
  recognised f ps out : is_compressed f = true -> Forall (fun p => p <> []) ps -> 0 < zlen (concat ps) < 2 ^ 32 -> encode oc compress crate_encode f ps = Ok out ->
    is_compressed (check_fmt (take 4096 out)) = true /\ ext (check_fmt (take 4096 out)) = ext f /\
    is_block (check_fmt (take 4096 out)) = is_block f;
  crates_decode f ps : is_compressed f = true -> is_block f = false -> concat ps <> [] ->
    exists out, crate_encode f ps = Ok out /\
      forall segs, concat segs = out -> crate_decode (check_fmt (take 4096 out)) (map Data segs) = Ok (concat ps)
}.

Section CommandsRoundtrip.
Context (oc : bool) (compress decompress : bytes -> option bytes) (compress_bound : Z) (uninit : nat -> byte).
Context (crate_encode : FileFormat -> list bytes -> io bytes) (crate_decode : FileFormat -> list Event -> io bytes).
Context (check_fmt : bytes -> FileFormat) (buf_size : Z) (fuel : nat).
Context (Hblock : block_law compress decompress compress_bound) (Hcoders : coders_law oc compress crate_encode crate_decode check_fmt).
Context (Hbuf : 0 < buf_size).

Lemma format_decode_encode f data :
  is_compressed f = true -> 0 < zlen data < 2 ^ 32 -> (f = LZ4_LG -> zlen data <> LZ4_MAGIC) -> (length data < fuel)%nat ->
  exists out, encode oc compress crate_encode f (pieces buf_size data) = Ok out /\
    let g := check_fmt (take 4096 out) in is_compressed g = true /\ ext g = ext f /\
    forall segs, concat segs = out -> decode decompress compress_bound uninit crate_decode buf_size fuel g (map Data segs) = Ok data.
Proof.
  intros Hc Hlen Hm Hf. destruct (pieces_concat buf_size data Hbuf) as [Hcat Hne].
  assert (concat (pieces buf_size data) <> []) as Hne' by (rewrite Hcat; intros ->; simpl in Hlen; lia).
  assert (exists out, encode oc compress crate_encode f (pieces buf_size data) = Ok out /\
    (is_block f = true -> forall segs, concat segs = out -> lz4_decode decompress compress_bound uninit fuel buf_size (map Data segs) = Ok data) /\
    (is_block f = false -> forall segs, concat segs = out -> crate_decode (check_fmt (take 4096 out)) (map Data segs) = Ok data))
    as (out & He & Hb & Hcr).
  { destruct (is_block f) eqn:E.
    - rewrite <- Hcat in Hlen, Hf. destruct (lz4_encode_total oc compress decompress compress_bound Hblock (bool_decide (f = LZ4_LG)) _ Hne Hlen) as (out & He).
      exists out. split; [destruct f; done || exact He |]. split; [| done]. intros _ segs Hs.
      rewrite (lz4_decode_encode oc compress decompress compress_bound uninit Hblock (bool_decide (f = LZ4_LG)) _ segs buf_size out fuel Hne Hlen Hbuf Hf He Hs).
      unfold final. rewrite Hcat. case_bool_decide as Hl; [| done]. by rewrite (proj2 (Z.eqb_neq _ _)) by auto.
    - destruct (crates_decode _ _ _ _ _ Hcoders f (pieces buf_size data) Hc E Hne') as (out & He & Hd). exists out.
      split; [by destruct f |]. split; [done |]. intros _ segs Hs. rewrite <- Hcat. by apply Hd. }
  exists out. rewrite <- Hcat in Hlen. destruct (recognised _ _ _ _ _ Hcoders f _ out Hc Hne Hlen He) as (Hg & Hext & Hbl). split; [done |].
  cbv zeta. split_and!; [done | done |]. intros segs Hs. destruct (is_block f) eqn:E.
  - destruct (check_fmt (take 4096 out)) eqn:Hg'; try done; by apply Hb.
  - rewrite <- (Hcr eq_refl segs Hs). destruct (check_fmt (take 4096 out)) eqn:Hg'; done.
Qed.
End CommandsRoundtrip.

Lemma dot_ext f : "."%char ∉ ext f.
Proof. destruct f; vm_compute; set_solver. Qed.

(** magiskboot compress of a file, without an output name, replaces it by the compressed
    file with the extension of the format, and decompress of that file puts the original
    contents back under the original name and leaves nothing else behind, for every format. *)
Theorem compress_decompress_cmd oc compress decompress compress_bound uninit crate_encode crate_decode check_fmt
    creatable removable buf_size fuel partial w f infile data :
  block_law compress decompress compress_bound -> coders_law oc compress crate_encode crate_decode check_fmt -> 0 < buf_size ->
  is_compressed f = true -> infile <> #"-" -> files w !! infile = Some data -> 0 < zlen data < 2 ^ 32 ->
  (f = LZ4_LG -> zlen data <> LZ4_MAGIC) -> (length data < fuel)%nat -> (forall p, creatable p = true) -> (forall p, removable p = true) ->
  exists out,
    let packed := infile ++ #"." ++ ext f in
    let w1 := mkWorld (<[packed := out]> (delete infile (files w))) (stdin w) (stdout w) in
    compress_cmd oc compress crate_encode creatable removable buf_size partial w f infile None = (w1, Ok tt) /\
    decompress_cmd decompress compress_bound uninit crate_decode check_fmt creatable removable buf_size fuel partial w1 packed None =
      (mkWorld (delete packed (files w)) (stdin w) (stdout w), Ok tt).
Proof.
  intros Hblock Hcoders Hbuf Hc Hin Hw Hlen Hm Hf Hcr Hrm.
  destruct (format_decode_encode oc compress decompress compress_bound uninit crate_encode crate_decode check_fmt buf_size fuel Hblock Hcoders Hbuf f data Hc Hlen Hm Hf)
    as (out & He & Hg & Hext & Hd). exists out. set (packed := infile ++ #"." ++ ext f). cbv zeta.
  assert (packed <> infile) as Hne.
  { intros H%(f_equal length). unfold packed in H. rewrite !length_app in H. change (length #".") with 1%nat in H. lia. }
  assert (packed <> #"-") as Hne2.
  { intros H. unfold packed in H. destruct infile as [|x [|y l]]; [done | | done]. injection H as -> H. done. }
  assert (rsplit_once "."%char packed = Some (infile, ext f)) as Hsplit by apply rsplit_once_app, dot_ext.
  split.
  - unfold compress_cmd, open_input. rewrite bool_decide_eq_false_2 by done. rewrite Hw. cbn [of_option].
    unfold run_coder, open_output. fold packed. rewrite Hcr, He. unfold put_output, remove_input. cbn [files stdin stdout negb]. rewrite Hrm.
    by rewrite insert_insert_eq, delete_insert_ne.
  - unfold decompress_cmd, open_input. rewrite bool_decide_eq_false_2 by done. cbn [files stdin stdout]. rewrite lookup_insert_eq. cbn [of_option].
    rewrite Hg. cbn [negb]. rewrite Hsplit.
    rewrite bool_decide_eq_true_2 by done. unfold run_coder, open_output. rewrite Hcr.
    change [Data (take 4096 out); Data (drop 4096 out)] with (map Data [take 4096 out; drop 4096 out]).
    rewrite Hd by (simpl; by rewrite app_nil_r, take_drop). unfold put_output, remove_input. cbn [files stdin stdout negb]. rewrite Hrm.
    do 2 f_equal. apply map_eq. intros k. clearbody packed.
    destruct (decide (k = packed)) as [-> | ?]; [| destruct (decide (k = infile)) as [-> | ?]]; by simplify_map_eq.
Qed.

(** Coders for the example: the data behind a byte that names the format. *)
Definition demo_tag (f : FileFormat) : byte :=
  bof (match f with GZIP => 10 | ZOPFLI => 11 | XZ => 12 | LZMA => 13 | BZIP2 => 14 | LZ4 => 15 | _ => 0 end).
Definition demo_encode (f : FileFormat) (ps : list bytes) : io bytes := Ok (demo_tag f :: concat ps).
Definition demo_decode (f : FileFormat) (r : list Event) : io bytes :=
  Ok (drop 1 (concat (map (fun e => match e with Data b => b | Fail _ => [] end) r))).
Definition demo_check (b : bytes) : FileFormat :=
  match b with
  | c :: _ => if bval c =? 2 then LZ4_LEGACY else if bval c =? 10 then GZIP else if bval c =? 11 then ZOPFLI else if bval c =? 12 then XZ
              else if bval c =? 13 then LZMA else if bval c =? 14 then BZIP2 else if bval c =? 15 then LZ4 else UNKNOWN
  | [] => UNKNOWN
  end.

Lemma demo_coders_law oc : coders_law oc store demo_encode demo_decode demo_check.
Proof.
  split.
  - intros f ps out Hc Hps Hlen He. destruct (is_block f) eqn:E.
    + assert (exists lg, lz4_encode oc store lg ps = Ok out) as (lg & He') by (destruct f; try done; eauto).
      destruct ps as [|p ps]; [simpl in Hlen; lia |]. apply Forall_cons in Hps as [Hp _]. cbn [concat] in Hlen.
      destruct (lz4_encode_archive oc store store LZ4_BLOCK_SIZE store_law lg p ps Hp) as (cs & bs & He2 & _); [lia |].
      rewrite He2 in He'. apply Ok_inj in He'. subst out. destruct f; done.
    + destruct f; try done; apply Ok_inj in He; subst out; done.
  - intros f ps Hc Hb Hne. exists (demo_tag f :: concat ps). split; [done |]. intros segs Hs. unfold demo_decode.
    by rewrite map_map, map_id, Hs.
Qed.

Lemma compress_decompress_cmd_witness :
  exists out,
    compress_cmd true store demo_encode (fun _ => true) (fun _ => true) 4 (fun _ b => b) (mkWorld {[ #"boot" := #"hello, world" ]} [] []) LZ4_LG #"boot" None =
      (mkWorld {[ #"boot.lz4" := out ]} [] [], Ok tt) /\
    decompress_cmd store LZ4_BLOCK_SIZE (fun _ => bof 0) demo_decode demo_check (fun _ => true) (fun _ => true) 4 20 (fun _ b => b)
      (mkWorld {[ #"boot.lz4" := out ]} [] []) #"boot.lz4" None = (mkWorld {[ #"boot" := #"hello, world" ]} [] [], Ok tt).
Proof.
  destruct (compress_decompress_cmd true store store LZ4_BLOCK_SIZE (fun _ => bof 0) demo_encode demo_decode demo_check (fun _ => true) (fun _ => true)
    4 20 (fun _ b => b) (mkWorld {[ #"boot" := #"hello, world" ]} [] []) LZ4_LG #"boot" #"hello, world") as (out & H1 & H2);
    [exact store_law | apply demo_coders_law | done | done | done | done | split; reflexivity | done | vm_compute; lia | done | done |].
  exists out. cbn [files stdin stdout] in H1, H2. split; [exact H1 | exact H2].
Defined.

(** * Names of formats *)

Lemma format_names_roundtrip f : is_compressed f = true <-> format_from_str (format_name f) = Some f.
Proof. destruct f; vm_compute; split; done. Qed.

(** * Where the coders surprise *)

(** An error of the reader in the middle of a block is not reported: the block is decoded
    from what the buffer held before. *)
Lemma read_error_ignored :
  lz4_decode store LZ4_BLOCK_SIZE (fun _ => "?"%char) 10 8
    [Data (write_pod LZ4_MAGIC ++ write_pod 3 ++ #"abc" ++ write_pod 3); Fail OtherIo; Data (write_pod 2 ++ #"de")]
  = Ok #"abcabcde".
Proof. vm_compute. reflexivity. Qed.

(** An empty file is compressed to an empty file, which decompress does not accept. *)
Lemma empty_archive_unsupported oc decompress bound uninit crate_decode creatable removable n fuel partial w check_fmt :
  files w !! #"a.lz4" = Some [] -> is_compressed (check_fmt []) = false ->
  lz4_encode oc store false [] = Ok [] /\
  decompress_cmd decompress bound uninit crate_decode check_fmt creatable removable n fuel partial w #"a.lz4" None = (w, Err Unsupported).
Proof.
  intros Hw Hc. split; [done |]. unfold decompress_cmd, open_input. rewrite bool_decide_eq_false_2 by done. rewrite Hw. cbn [of_option].
  cbn [take]. by rewrite Hc.
Qed.

(** An empty piece before the first byte makes the header appear twice, and everything is lost. *)
Lemma empty_piece_loses_data :
  match lz4_encode true store false [ []; #"abc" ] with
  | Ok out => lz4_decode store LZ4_BLOCK_SIZE (fun _ => bof 0) 10 8 [Data out] | r => r end = Ok [].
Proof. vm_compute. reflexivity. Qed.
End Compress.
