(* ===== verification/Dtb.v ===== *)
(** boot/dtb.rs: the device tree blobs of a file: printing them, testing the fstab node,
    and patching boot arguments and fstab flags in place.

    The blobs are parsed by the crate fdt, the argument [Fdt_new]; the values of
    properties are ranges of the blob, as the code changes them in the mapped file. *)

From S2P Require Import Prelude Text Numeric Patch.

Module Dtb.
Import Patch.

(** * Blobs *)

(** A property: its name, and the range of its value from the start of the blob. *)
Record NodeProperty := mkProperty { prop_name : bytes; prop_off : Z; prop_len : Z }.

Inductive FdtNode := mkNode (name : bytes) (properties : list NodeProperty) (children : list FdtNode).

Definition name (n : FdtNode) : bytes := match n with mkNode x _ _ => x end.
Definition properties (n : FdtNode) : list NodeProperty := match n with mkNode _ x _ => x end.
Definition children (n : FdtNode) : list FdtNode := match n with mkNode _ _ x => x end.

Definition property (n : FdtNode) (key : bytes) : option NodeProperty :=
  List.find (fun p => bool_decide (prop_name p = key)) (properties n).

(** What [Fdt] offers: [total_size], [all_nodes] and [find_node("/")]. *)
Record Fdt := mkFdt { total_size : Z; all_nodes : list FdtNode; root : option FdtNode }.

Inductive FdtError := BufferTooSmall | BadFdt.

(** A blob that starts at [base] of the file [buf]. *)
Definition value (buf : bytes) (base : Z) (p : NodeProperty) : bytes :=
  take (Z.to_nat (prop_len p)) (drop (Z.to_nat (base + prop_off p)) buf).

(** [copy_from_slice] to the range of [n] bytes at [off] aborts unless the lengths agree. *)
Definition copy_from_slice {E} (buf : bytes) (off n : Z) (src : bytes) : res E bytes :=
  if zlen src =? n then Ok (take (Z.to_nat off) buf ++ src ++ drop (Z.to_nat (off + n)) buf) else Panic.

(** * Printing *)

Definition MAX_PRINT_LEN : Z := 32.

Fixpoint pretty_node (depth_set : list bool) : bytes :=
  match depth_set with
  | [] => []
  | depth :: rest =>
      (if depth : bool then if is_empty rest then #"├── " else #"│   " else if is_empty rest then #"└── " else #"    ") ++ pretty_node rest
  end.

Fixpoint pretty_prop (depth_set : list bool) : bytes :=
  match depth_set with
  | [] => []
  | depth :: rest =>
      (if depth : bool then if is_empty rest then #"│  " else #"│   " else if is_empty rest then #"└─ " else #"    ") ++ pretty_prop rest
  end.

Definition is_str (v : bytes) : bool :=
  negb ((1 <? zlen v) && match v with c :: _ => bval c =? 0 | [] => false end)
  && match last v with Some c => bval c =? 0 | None => true end
  && forallb (fun c => (bval c =? 0) || ((32 <=? bval c) && (bval c <? 127))) v.

(** [{:02x?}] of a slice. *)
Definition hex_debug (v : bytes) : bytes :=
  #"[" ++ join #", " (map (fun c => zero_pad 2 (print_radix 16 (bval c))) v) ++ #"]".

Definition println (s : bytes) : bytes := s ++ [newline].

Definition quote : byte := bof 34.

Definition print_prop (buf : bytes) (base : Z) (depth_set : list bool) (p : NodeProperty) : bytes :=
  let v := value buf base p in
  pretty_prop depth_set ++
  println (if is_str v then #"[" ++ prop_name p ++ #"]: [" ++ [quote] ++ removelast v ++ [quote] ++ #"]"
           else if MAX_PRINT_LEN <? zlen v then #"[" ++ prop_name p ++ #"]: <bytes>(" ++ fmt_dec (zlen v) ++ #")"
           else #"[" ++ prop_name p ++ #"]: " ++ hex_debug v).

(** [if depth_set[depth] && <nothing follows> { depth_set[depth] = false; }] *)
Definition close_level (depth : nat) (last : bool) (depth_set : list bool) : list bool :=
  if default false (depth_set !! depth) && last then <[depth := false]> depth_set else depth_set.

(** The loop over the properties: what is printed and the flags. *)
Fixpoint print_props (buf : bytes) (base : Z) (depth : nat) (no_children : bool) (ps : list NodeProperty) (depth_set : list bool) : bytes * list bool :=
  match ps with
  | [] => ([], depth_set)
  | p :: ps =>
      let depth_set := close_level depth (is_empty ps && no_children) depth_set in
      let '(out, depth_set') := print_props buf base depth no_children ps depth_set in
      (print_prop buf base depth_set p ++ out, depth_set')
  end.

Fixpoint do_print_node (buf : bytes) (base : Z) (n : FdtNode) (depth_set : list bool) : bytes * list bool :=
  match n with
  | mkNode name properties children =>
      let line := pretty_node depth_set ++ println name in
      let depth := length depth_set in
      let '(props, depth_set) := print_props buf base depth (is_empty children) properties (depth_set ++ [true]) in
      let '(subs, depth_set) :=
        (fix print_children children depth_set :=
           match children with
           | [] => ([], depth_set)
           | child :: children =>
               let depth_set := close_level depth (is_empty children) depth_set in
               let '(out, depth_set) := do_print_node buf base child depth_set in
               let '(rest, depth_set) := print_children children depth_set in (out ++ rest, depth_set)
           end) children depth_set in
      (line ++ props ++ subs, removelast depth_set)
  end.

Definition print_node (buf : bytes) (base : Z) (n : FdtNode) : bytes := (do_print_node buf base n []).1.

(** * The blobs of a file *)

Definition FDT_MAGIC : bytes := [bof 0xd0; bof 0x0d; bof 0xfe; bof 0xed].

Section ForEach.
Context (Fdt_new : bytes -> res FdtError Fdt).

(** The loop of [for_each_fdt]: [buf] is the mapped file and [pos] where the next slice
    starts; the closure gets the number and the position of a blob and changes the file and
    its own captures. *)
Fixpoint for_each_loop {A} (f : Z -> Z -> Fdt -> bytes * A -> logged (bytes * A)) (fuel : nat) (dtb_num pos : Z) (st : bytes * A) : logged (bytes * A) :=
  match fuel with
  | O => Panic
  | S fuel =>
      let slice := drop (Z.to_nat pos) st.1 in
      match find slice FDT_MAGIC with
      | None => Ok st
      | Some i =>
          let base := pos + i in
          let slice := drop (Z.to_nat base) st.1 in
          if zlen slice <? 40 then Ok st else
          match Fdt_new slice with
          | Err BufferTooSmall => Ok st
          | Err BadFdt => Err tt
          | Panic => Panic
          | Ok fdt =>
              st ← f dtb_num base fdt st;
              if total_size fdt <=? zlen slice then for_each_loop f fuel (dtb_num + 1) (base + total_size fdt) st else Panic
          end
      end
  end.

(** Every blob takes at least a byte; with a blob of no bytes the loop would not end. *)
Definition for_each_fdt {A} (file : bytes) (f : Z -> Z -> Fdt -> bytes * A -> logged (bytes * A)) (a : A) : logged (bytes * A) :=
  for_each_loop f (S (length file)) 0 0 (file, a).

Definition find_fstab (fdt : Fdt) : option FdtNode := List.find (fun n => bool_decide (name n = #"fstab")) (all_nodes fdt).

(** What is printed to standard output. *)
Definition dtb_print (file : bytes) (fstab : bool) : logged bytes :=
  snd <$> for_each_fdt file (fun _ base fdt st =>
    Ok (st.1, st.2 ++
      if fstab : bool then match find_fstab fdt with Some fstab => print_node st.1 base fstab | None => [] end
      else match root fdt with
           | Some (mkNode n ps cs) => print_node st.1 base (mkNode (if is_empty n then #"/" else n) ps cs)
           | None => []
           end)) [].

Definition NUL : byte := bof 0.

(** The children of an fstab node, until the first that is mounted at /system_root. *)
Definition test_child (buf : bytes) (base : Z) (child : FdtNode) : bool :=
  if negb (bool_decide (name child = #"system")) then false else
  match property child #"mnt_point" with
  | Some p => bool_decide (value buf base p = #"/system_root" ++ [NUL])
  | None => false
  end.

Definition dtb_test (file : bytes) : logged bool :=
  snd <$> for_each_fdt file (fun _ base fdt st =>
    Ok (st.1, match find_fstab fdt with
              | Some fstab => if existsb (test_child st.1 base) (children fstab) then false else st.2
              | None => st.2
              end)) true.

(** [windows(14).for_each(..)]: windows are compared in the file as it has been changed. *)
Fixpoint patch_windows (fuel : nat) (off : Z) (st : bytes * bool) : logged (bytes * bool) :=
  match fuel with
  | O => Ok st
  | S fuel =>
      let w := take 14 (drop (Z.to_nat off) st.1) in
      if bool_decide (w = #"skip_initramfs") then
        (* w[..=4].copy_from_slice(b"want") *)
        buf ← copy_from_slice st.1 off (4 - 0 + 1) #"want";
        patch_windows fuel (off + 1) (buf, true)
      else patch_windows fuel (off + 1) st
  end.

Definition patch_chosen (base : Z) (st : bytes * bool) (node : FdtNode) : logged (bytes * bool) :=
  if negb (bool_decide (name node = #"chosen")) then Ok st else
  match property node #"bootargs" with
  | Some p => patch_windows (Z.to_nat (prop_len p - 13)) (base + prop_off p) st
  | None => Ok st
  end.

Fixpoint patch_all_chosen (base : Z) (nodes : list FdtNode) (st : bytes * bool) : logged (bytes * bool) :=
  match nodes with
  | [] => Ok st
  | n :: nodes => st ← patch_chosen base st n; patch_all_chosen base nodes st
  end.

Definition put_value (buf : bytes) (base : Z) (p : NodeProperty) (v : bytes) : bytes :=
  take (Z.to_nat (base + prop_off p)) buf ++ v ++ drop (Z.to_nat (base + prop_off p + prop_len p)) buf.

Definition patch_child (base : Z) (st : bytes * bool) (child : FdtNode) : bytes * bool :=
  match property child #"fsmgr_flags" with
  | Some p =>
      let flags := value st.1 base p in
      let '(flags', n) := patch_verity flags in
      (put_value st.1 base p flags', if n =? zlen flags then st.2 else true)
  | None => st
  end.

Definition dtb_patch (keep_verity : bool) (file : bytes) : logged (bytes * bool) :=
  for_each_fdt file (fun _ base fdt st =>
    st ← patch_all_chosen base (all_nodes fdt) st;
    if keep_verity then Ok st else
    match find_fstab fdt with
    | Some fstab => Ok (fold_left (patch_child base) (children fstab) st)
    | None => Ok st
    end) false.

Inductive DtbAction := Print (fstab : bool) | Patch | Test.

(** The file after the command, what is printed, and the result; with an error the file may
    be changed up to the blob with the error. *)
Definition dtb_commands (keep_verity : bool) (file : bytes) (action : DtbAction) : logged (bytes * bytes * bool) :=
  match action with
  | Print fstab => out ← dtb_print file fstab; Ok (file, out, true)
  | Test => b ← dtb_test file; Ok (file, [], b)
  | Patch => '(file, b) ← dtb_patch keep_verity file; Ok (file, [], b)
  end.

(** * The blobs, enumerated *)

(** What is relied on of the crate: a blob that is accepted lies in the slice, and the values
    of its properties lie in it.  It may say that it has no bytes. *)
Definition range_in (size : Z) (p : NodeProperty) : Prop := 0 <= prop_off p /\ 0 <= prop_len p /\ prop_off p + prop_len p <= size.

Definition fdt_law : Prop :=
  forall slice, match Fdt_new slice with
  | Ok fdt => 0 <= total_size fdt <= zlen slice /\
      (forall n, n ∈ all_nodes fdt -> Forall (range_in (total_size fdt)) (properties n) /\
        Forall (fun c => Forall (range_in (total_size fdt)) (properties c)) (children n))
  | Err _ => True
  | Panic => False
  end.

(** The blobs with their numbers and positions. *)
Fixpoint blobs_loop (fuel : nat) (num pos : Z) (buf : bytes) : logged (list (Z * Z * Fdt)) :=
  match fuel with
  | O => Panic
  | S fuel =>
      match find (drop (Z.to_nat pos) buf) FDT_MAGIC with
      | None => Ok []
      | Some i =>
          let base := pos + i in
          if zlen (drop (Z.to_nat base) buf) <? 40 then Ok [] else
          match Fdt_new (drop (Z.to_nat base) buf) with
          | Err BufferTooSmall => Ok []
          | Err BadFdt => Err tt
          | Panic => Panic
          | Ok fdt => bs ← blobs_loop fuel (num + 1) (base + total_size fdt) buf; Ok ((num, base, fdt) :: bs)
          end
      end
  end.
Definition blobs (file : bytes) : logged (list (Z * Z * Fdt)) := blobs_loop (S (length file)) 0 0 file.

Fixpoint run {A} (f : Z -> Z -> Fdt -> bytes * A -> logged (bytes * A)) (bs : list (Z * Z * Fdt)) (st : bytes * A) : logged (bytes * A) :=
  match bs with
  | [] => Ok st
  | (num, base, fdt) :: bs => st ← f num base fdt st; run f bs st
  end.

(** The blobs follow each other in the file. *)
Fixpoint laid_out (size pos : Z) (bs : list (Z * Z * Fdt)) : Prop :=
  match bs with
  | [] => True
  | (_, base, fdt) :: bs => pos <= base /\ 0 <= total_size fdt /\ base + total_size fdt <= size /\
      (forall n, n ∈ all_nodes fdt -> Forall (range_in (total_size fdt)) (properties n) /\
        Forall (fun c => Forall (range_in (total_size fdt)) (properties c)) (children n)) /\
      laid_out size (base + total_size fdt) bs
  end.

Lemma find_range s n i : find s n = Some i -> 0 <= i /\ i + zlen n <= zlen s.
Proof.
  revert i. induction s as [|c s IH]; intros i; cbn [find].
  - destruct (starts_with [] n) eqn:E; [| done]. intros [= <-]. apply starts_with_length in E. simpl in *. lia.
  - destruct (starts_with (c :: s) n) eqn:E.
    + intros [= <-]. apply starts_with_length in E. lia.
    + destruct (find s n) as [j|]; [| done]. intros [= <-]. destruct (IH j eq_refl). rewrite length_cons. lia.
Qed.

Section Law.
Context (Hlaw : fdt_law).

Lemma blobs_laid_out fuel num pos buf bs :
  0 <= pos <= zlen buf -> blobs_loop fuel num pos buf = Ok bs -> laid_out (zlen buf) pos bs.
Proof.
  revert num pos bs. induction fuel as [|fuel IH]; intros num pos bs Hpos; cbn [blobs_loop]; [done |].
  destruct (find _ FDT_MAGIC) as [i|] eqn:Ei; [| by intros [= <-]]. apply find_range in Ei. rewrite length_drop in Ei.
  change (zlen FDT_MAGIC) with 4 in Ei. destruct (_ <? 40); [by intros [= <-] |].
  pose proof (Hlaw (drop (Z.to_nat (pos + i)) buf)) as HL. destruct (Fdt_new _) as [fdt|[]|]; [| by intros [= <-] | done | done].
  destruct HL as [Hsz Hr]. rewrite length_drop in Hsz. intros (bs' & Hbs & [= <-])%res_bind_Ok. cbn [laid_out].
  split_and!; [lia | lia | lia | done |]. apply (IH (num + 1)); [lia | done].
Qed.

(** The loop ends, if no blob says that it has no bytes. *)
Definition sized : Prop := forall slice fdt, Fdt_new slice = Ok fdt -> 0 < total_size fdt.

Lemma blobs_total fuel num pos buf :
  sized -> 0 <= pos <= zlen buf -> (length buf - Z.to_nat pos < fuel)%nat -> blobs_loop fuel num pos buf <> Panic.
Proof.
  intros Hz. revert num pos. induction fuel as [|fuel IH]; intros num pos Hpos Hf; [lia |]. cbn [blobs_loop].
  destruct (find _ FDT_MAGIC) as [i|] eqn:Ei; [| done]. apply find_range in Ei. rewrite length_drop in Ei.
  change (zlen FDT_MAGIC) with 4 in Ei. destruct (_ <? 40); [done |].
  pose proof (Hlaw (drop (Z.to_nat (pos + i)) buf)) as HL. destruct (Fdt_new _) as [fdt|[]|] eqn:Ef; [| done | done | done].
  apply Hz in Ef. destruct HL as [Hsz _]. rewrite length_drop in Hsz. intros Hp. apply (IH (num + 1) (pos + i + total_size fdt)); [lia | lia |].
  by destruct (blobs_loop fuel _ _ buf).
Qed.

(** A closure that leaves what is behind its blob as it is. *)
Definition local_to_blob {A} (f : Z -> Z -> Fdt -> bytes * A -> logged (bytes * A)) : Prop :=
  forall num base fdt st st', laid_out (zlen st.1) base [(num, base, fdt)] -> 0 <= base -> f num base fdt st = Ok st' ->
    length st'.1 = length st.1 /\ drop (Z.to_nat (base + total_size fdt)) st'.1 = drop (Z.to_nat (base + total_size fdt)) st.1.

Lemma drop_eq_later {A} (i j : Z) (l k : list A) : 0 <= i <= j -> drop (Z.to_nat i) l = drop (Z.to_nat i) k -> drop (Z.to_nat j) l = drop (Z.to_nat j) k.
Proof.
  intros Hij H. replace (Z.to_nat j) with (Z.to_nat i + Z.to_nat (j - i))%nat by lia. by rewrite <- !drop_drop, H.
Qed.

Lemma for_each_run {A} (f : Z -> Z -> Fdt -> bytes * A -> logged (bytes * A)) fuel num pos buf bs st :
  local_to_blob f -> 0 <= pos <= zlen buf -> length st.1 = length buf -> drop (Z.to_nat pos) st.1 = drop (Z.to_nat pos) buf ->
  blobs_loop fuel num pos buf = Ok bs -> for_each_loop f fuel num pos st = run f bs st.
Proof.
  intros Hf. revert num pos bs st. induction fuel as [|fuel IH]; intros num pos bs st Hpos Hlen Hd Hbs; [done |].
  pose proof (blobs_laid_out _ _ _ _ _ Hpos Hbs) as Hlay. cbn [blobs_loop for_each_loop] in *. cbv zeta in *. rewrite Hd.
  destruct (find _ FDT_MAGIC) as [i|] eqn:Ei; [| by injection Hbs as <-]. apply find_range in Ei. rewrite length_drop in Ei.
  change (zlen FDT_MAGIC) with 4 in Ei. rewrite (drop_eq_later pos (pos + i) st.1 buf) by (done || lia).
  destruct (_ <? 40); [by injection Hbs as <- |]. destruct (Fdt_new _) as [fdt|[]|]; [| by injection Hbs as <- | done | done].
  apply res_bind_Ok in Hbs as (bs' & Hbs' & [= <-]). cbn [run]. cbn [laid_out] in Hlay. destruct Hlay as (H1 & H2 & H3 & H4 & H5).
  destruct (f num (pos + i) fdt st) as [st'|e|] eqn:Ef; cbn [mbind res_bind]; [| done | done].
  destruct (Hf num (pos + i) fdt st st') as [Hl' Hd']; [cbn [laid_out]; rewrite Hlen; split_and!; try done; lia | lia | done |].
  rewrite length_drop. rewrite (proj2 (Z.leb_le _ _)) by lia. apply IH; [lia | congruence | | done].
  rewrite Hd'. apply (drop_eq_later pos); [lia | done].
Qed.

Lemma for_each_fdt_run {A} (f : Z -> Z -> Fdt -> bytes * A -> logged (bytes * A)) file bs a :
  local_to_blob f -> blobs file = Ok bs -> for_each_fdt file f a = run f bs (file, a).
Proof. intros Hf Hbs. unfold for_each_fdt. eapply for_each_run; eauto. simpl. lia. Qed.
End Law.
End ForEach.

(** * Boot arguments *)

(** The windows of a value are searched; the first hit aborts, as four bytes are copied to
    five. *)
Lemma patch_windows_spec fuel off st :
  0 <= off -> (fuel + 13 + Z.to_nat off <= length st.1)%nat ->
  patch_windows fuel off st =
    if contains (take (fuel + 13) (drop (Z.to_nat off) st.1)) #"skip_initramfs" then Panic else Ok st.
Proof.
  revert off. induction fuel as [|fuel IH]; intros off Hoff Hlen.
  { cbn [patch_windows]. assert (contains (take (0 + 13) (drop (Z.to_nat off) st.1)) #"skip_initramfs" = false) as ->; [| done].
    unfold contains. destruct (find _ _) eqn:E; [| done]. apply find_range in E. rewrite length_take in E.
    change (zlen #"skip_initramfs") with 14 in E. lia. }
  cbn [patch_windows]. set (v := drop (Z.to_nat off) st.1) in *.
  destruct v as [|c v'] eqn:Ev.
  { apply (f_equal length) in Ev. subst v. rewrite length_drop in Ev. simpl in Ev. lia. }
  assert (drop (Z.to_nat (off + 1)) st.1 = v') as Hv'.
  { replace (Z.to_nat (off + 1)) with (Z.to_nat off + 1)%nat by lia. rewrite <- drop_drop. subst v. by rewrite Ev. }
  assert (13 + fuel <= length v')%nat as Hl by (rewrite <- Hv', length_drop; lia).
  assert (contains (take (S fuel + 13) (c :: v')) #"skip_initramfs" =
    (starts_with (c :: v') #"skip_initramfs" || contains (take (fuel + 13) v') #"skip_initramfs")) as Hc.
  { unfold contains. cbn [Nat.add take find].
    assert (starts_with (c :: take (fuel + 13) v') #"skip_initramfs" = starts_with (c :: v') #"skip_initramfs") as ->.
    { apply eq_true_iff_eq. rewrite !starts_with_spec. change (c :: take (fuel + 13) v') with (take (S fuel + 13) (c :: v')).
      split; intros [r Hr].
      - exists (r ++ drop (S fuel + 13) (c :: v')). rewrite app_assoc, <- Hr. by rewrite take_drop.
      - exists (take (S fuel + 13 - 14) r). rewrite Hr, take_app_ge by (change (length #"skip_initramfs") with 14%nat; lia). done. }
    destruct (starts_with (c :: v') _); [done |]. by destruct (find (take (fuel + 13) v') _). }
  rewrite Hc. case_bool_decide as Hw.
  - assert (starts_with (c :: v') #"skip_initramfs" = true) as ->; [| done].
    apply starts_with_spec. exists (drop 14 (c :: v')). by rewrite <- Hw, take_drop.
  - assert (starts_with (c :: v') #"skip_initramfs" = false) as ->.
    { destruct (starts_with _ _) eqn:E; [| done]. apply starts_with_spec in E as [r Hr]. exfalso. apply Hw. rewrite Hr.
      by rewrite take_app_length' by done. }
    cbn [orb]. rewrite IH by (try done; lia). by rewrite Hv'.
Qed.

Definition chosen_args (n : FdtNode) : option NodeProperty :=
  if bool_decide (name n = #"chosen") then property n #"bootargs" else None.

(** Some node named chosen of the blob at [base] has the argument. *)
Definition has_skip (buf : bytes) (base : Z) (nodes : list FdtNode) : bool :=
  existsb (fun n => match chosen_args n with Some p => contains (value buf base p) #"skip_initramfs" | None => false end) nodes.

Lemma property_in n key p : property n key = Some p -> p ∈ properties n.
Proof. intros [H _]%find_some. by rewrite list_elem_of_In. Qed.

Lemma patch_chosen_spec base st n size :
  0 <= base -> base + size <= zlen st.1 -> Forall (range_in size) (properties n) ->
  patch_chosen base st n =
    if match chosen_args n with Some p => contains (value st.1 base p) #"skip_initramfs" | None => false end then Panic else Ok st.
Proof.
  intros Hb Hsz Hr. unfold patch_chosen, chosen_args. case_bool_decide; cbn [negb]; [| done].
  destruct (property n #"bootargs") as [p|] eqn:Ep; [| done]. apply property_in in Ep. rewrite Forall_forall in Hr.
  destruct (Hr p Ep) as (H1 & H2 & H3). destruct (decide (prop_len p < 14)) as [Hl|Hl].
  - replace (Z.to_nat (prop_len p - 13)) with 0%nat by lia. cbn [patch_windows].
    assert (contains (value st.1 base p) #"skip_initramfs" = false) as ->; [| done].
    unfold contains. destruct (find _ _) eqn:E; [| done]. apply find_range in E. unfold value in E. rewrite length_take in E.
    change (zlen #"skip_initramfs") with 14 in E. lia.
  - rewrite patch_windows_spec by lia. unfold value. by replace (Z.to_nat (prop_len p - 13) + 13)%nat with (Z.to_nat (prop_len p)) by lia.
Qed.

Lemma patch_all_chosen_spec base st nodes size :
  0 <= base -> base + size <= zlen st.1 -> (forall n, n ∈ nodes -> Forall (range_in size) (properties n)) ->
  patch_all_chosen base nodes st = if has_skip st.1 base nodes then Panic else Ok st.
Proof.
  intros Hb Hsz. induction nodes as [|n nodes IH]; intros Hr; [done |]. cbn [patch_all_chosen has_skip existsb].
  rewrite (patch_chosen_spec base st n size) by (done || apply Hr; set_solver). destruct (match chosen_args n with Some _ => _ | None => _ end); [done |].
  cbn [mbind res_bind orb]. apply IH. intros m Hm. apply Hr. set_solver.
Qed.

(** * Flags of the fstab *)

Definition child_flags (base : Z) (cs : list FdtNode) : list (Z * NodeProperty) :=
  omap (fun c => (fun p => (base, p)) <$> property c #"fsmgr_flags") cs.
Definition blob_flags (b : Z * Z * Fdt) : list (Z * NodeProperty) :=
  match find_fstab b.2 with Some fstab => child_flags b.1.2 (children fstab) | None => [] end.

Definition patch_flag (st : bytes * bool) (r : Z * NodeProperty) : bytes * bool :=
  let flags := value st.1 r.1 r.2 in
  let '(flags', n) := patch_verity flags in
  (put_value st.1 r.1 r.2 flags', if n =? zlen flags then st.2 else true).

Lemma patch_children_flags base cs st : fold_left (patch_child base) cs st = fold_left patch_flag (child_flags base cs) st.
Proof.
  revert st. induction cs as [|c cs IH]; intros st; [done |]. cbn [fold_left]. rewrite IH. unfold child_flags at 2. cbn [omap list_omap].
  unfold patch_child at 1. by destruct (property c #"fsmgr_flags") as [p|].
Qed.

Definition range_lo (r : Z * NodeProperty) : Z := r.1 + prop_off r.2.
Definition range_hi (r : Z * NodeProperty) : Z := r.1 + prop_off r.2 + prop_len r.2.
Definition range_ok (size : Z) (r : Z * NodeProperty) : Prop := 0 <= range_lo r /\ 0 <= prop_len r.2 /\ range_hi r <= size.
Definition covers (r : Z * NodeProperty) (i : nat) : Prop := range_lo r <= Z.of_nat i < range_hi r.
Definition apart (r s : Z * NodeProperty) : Prop := range_hi r <= range_lo s \/ range_hi s <= range_lo r.

(** What is left of flags, and the zeros behind it. *)
Definition stripped (v : bytes) : bytes :=
  let s := strip (match_patterns verity_patterns) v in s ++ replicate (length v - length s) (bof 0).
Definition shrinks (v : bytes) : bool := negb (zlen (strip (match_patterns verity_patterns) v) =? zlen v).

Lemma stripped_length v : length (stripped v) = length v.
Proof. unfold stripped. rewrite length_app, length_replicate. pose proof (strip_length (match_patterns verity_patterns) v). lia. Qed.

Lemma patch_flag_eq st r : patch_flag st r = (put_value st.1 r.1 r.2 (stripped (value st.1 r.1 r.2)), st.2 || shrinks (value st.1 r.1 r.2)).
Proof.
  unfold patch_flag. unfold patch_verity. rewrite remove_pattern_eq by apply verity_matcher_ok. unfold stripped, shrinks. f_equal.
  destruct (_ =? _); cbn [negb]; [by rewrite orb_false_r | by rewrite orb_true_r].
Qed.

Lemma put_value_length buf r v :
  range_ok (zlen buf) r -> zlen v = prop_len r.2 -> length (put_value buf r.1 r.2 v) = length buf.
Proof.
  intros (H1 & H2 & H3) Hv. unfold range_lo, range_hi in *. unfold put_value. rewrite !length_app, length_take, length_drop. lia.
Qed.

Lemma put_value_outside buf r v i :
  range_ok (zlen buf) r -> zlen v = prop_len r.2 -> ~ covers r i -> put_value buf r.1 r.2 v !! i = buf !! i.
Proof.
  intros (H1 & H2 & H3) Hv Hi. unfold covers, range_lo, range_hi in *. unfold put_value.
  destruct (decide (Z.of_nat i < r.1 + prop_off r.2)).
  - rewrite lookup_app_l by (rewrite length_take; lia). apply lookup_take_lt. lia.
  - rewrite lookup_app_r by (rewrite length_take; lia). rewrite lookup_app_r by (rewrite length_take; lia).
    rewrite lookup_drop, length_take. f_equal. lia.
Qed.

Lemma value_length buf r : range_ok (zlen buf) r -> zlen (value buf r.1 r.2) = prop_len r.2.
Proof. intros (H1 & H2 & H3). unfold range_lo, range_hi in *. unfold value. rewrite length_take, length_drop. lia. Qed.

Lemma value_put_value buf r v :
  range_ok (zlen buf) r -> zlen v = prop_len r.2 -> value (put_value buf r.1 r.2 v) r.1 r.2 = v.
Proof.
  intros (H1 & H2 & H3) Hv. unfold range_lo, range_hi in *. unfold value, put_value.
  rewrite drop_app_length' by (rewrite length_take; lia). by rewrite take_app_length' by lia.
Qed.

(** A value depends on its range only. *)
Lemma value_ext buf buf' r :
  0 <= range_lo r -> 0 <= prop_len r.2 -> (forall i, covers r i -> buf' !! i = buf !! i) -> value buf' r.1 r.2 = value buf r.1 r.2.
Proof.
  intros H1 H2 H. unfold value. apply list_eq. intros i. destruct (decide (i < Z.to_nat (prop_len r.2))%nat).
  - rewrite !lookup_take_lt by done. rewrite !lookup_drop. apply H. unfold covers, range_lo, range_hi in *. lia.
  - rewrite !lookup_take_ge by lia. done.
Qed.

Lemma fold_flags_frame rs st :
  Forall (range_ok (zlen st.1)) rs ->
  let res := fold_left patch_flag rs st in
  length res.1 = length st.1 /\ forall i, Forall (fun r => ~ covers r i) rs -> res.1 !! i = st.1 !! i.
Proof.
  revert st. induction rs as [|r rs IH]; intros st Hok; cbn [fold_left]; [done |]. apply Forall_cons in Hok as [Hr Hok].
  rewrite patch_flag_eq. set (v := stripped (value st.1 r.1 r.2)).
  assert (zlen v = prop_len r.2) as Hv by (unfold v; rewrite stripped_length; by apply value_length).
  set (st1 := (_, _)). assert (length st1.1 = length st.1) as Hl by by apply put_value_length.
  destruct (IH st1) as [H1 H2]; [by rewrite Hl |]. split; [congruence |]. intros i Hi. apply Forall_cons in Hi as [Hi Hi'].
  rewrite H2 by done. by apply put_value_outside.
Qed.

Lemma fold_flags_spec rs buf b :
  Forall (range_ok (zlen buf)) rs -> ForallOrdPairs apart rs ->
  let res := fold_left patch_flag rs (buf, b) in
  Forall (fun r => value res.1 r.1 r.2 = stripped (value buf r.1 r.2)) rs /\
  res.2 = b || existsb (fun r => shrinks (value buf r.1 r.2)) rs.
Proof.
  revert buf b. induction rs as [|r rs IH]; intros buf b Hok Hap; cbn [fold_left].
  { split; [constructor | by rewrite orb_false_r]. }
  apply Forall_cons in Hok as [Hr Hok]. inversion Hap as [|? ? Har Hap']; subst. rewrite patch_flag_eq. cbn [fst snd].
  set (v := stripped (value buf r.1 r.2)). assert (zlen v = prop_len r.2) as Hv by (unfold v; rewrite stripped_length; by apply value_length).
  set (buf1 := put_value buf r.1 r.2 v). assert (length buf1 = length buf) as Hl by by apply put_value_length.
  rewrite <- Hl in Hok. destruct (IH buf1 (b || shrinks (value buf r.1 r.2))) as (H3 & H4); [done | done |].
  pose proof (proj2 (fold_flags_frame rs (buf1, b || shrinks (value buf r.1 r.2)) Hok)) as H2. cbv zeta in *.
  assert (forall s, s ∈ rs -> value buf1 s.1 s.2 = value buf s.1 s.2) as Hs.
  { intros s Hs. rewrite Forall_forall in Hok, Har. destruct (Hok s Hs) as (? & ? & ?). apply value_ext; [done | done |].
    intros i Hi. apply put_value_outside; [done | done |]. destruct (Har s Hs); unfold covers in *; lia. }
  split; [constructor |].
  - transitivity (value buf1 r.1 r.2); [| by apply value_put_value]. destruct Hr as (? & ? & ?). apply value_ext; [done | done |].
    intros i Hi. apply H2. rewrite Forall_forall in Har |- *. intros s Hs' Hc. destruct (Har s Hs'); unfold covers in *; lia.
  - rewrite Forall_forall in H3 |- *. intros s Hs'. rewrite H3 by done. by rewrite Hs.
  - rewrite H4. cbn [existsb]. rewrite <- orb_assoc. do 2 f_equal.
    clear -Hs. induction rs as [|s rs IH]; [done |]. cbn [existsb]. rewrite Hs by set_solver. f_equal. apply IH. intros u Hu. apply Hs. set_solver.
Qed.

(** * Patching all the blobs *)

Definition patch_blob (keep_verity : bool) (_ base : Z) (fdt : Fdt) (st : bytes * bool) : logged (bytes * bool) :=
  st ← patch_all_chosen base (all_nodes fdt) st;
  if keep_verity then Ok st else
  match find_fstab fdt with
  | Some fstab => Ok (fold_left (patch_child base) (children fstab) st)
  | None => Ok st
  end.

(** The flags that are patched, over all the blobs, and whether an argument is found. *)
Definition all_flags (bs : list (Z * Z * Fdt)) : list (Z * NodeProperty) := concat (map blob_flags bs).
Definition any_skip (buf : bytes) (bs : list (Z * Z * Fdt)) : bool := existsb (fun b => has_skip buf b.1.2 (all_nodes b.2)) bs.

Lemma blob_flags_in size num base fdt :
  0 <= base -> laid_out size base [(num, base, fdt)] ->
  Forall (fun r => range_ok size r /\ base <= range_lo r /\ range_hi r <= base + total_size fdt) (blob_flags (num, base, fdt)).
Proof.
  intros Hb (_ & _ & Hsz & Hr & _). unfold blob_flags. cbn [fst snd]. destruct (find_fstab fdt) as [fstab|] eqn:E; [| constructor].
  apply find_some in E as [E _]. rewrite <- list_elem_of_In in E. destruct (Hr _ E) as [_ Hc].
  rewrite Forall_forall. intros r Hin. unfold child_flags in Hin. apply list_elem_of_omap in Hin as (c & Hcin & Hp).
  destruct (property c #"fsmgr_flags") as [p|] eqn:Ep; [| done]. injection Hp as <-. rewrite Forall_forall in Hc.
  specialize (Hc c Hcin). rewrite Forall_forall in Hc. destruct (Hc p (property_in _ _ _ Ep)) as (? & ? & ?).
  unfold range_ok, range_lo, range_hi. cbn [fst snd]. lia.
Qed.

Lemma patch_blob_spec keep num base fdt st :
  0 <= base -> laid_out (zlen st.1) base [(num, base, fdt)] ->
  patch_blob keep num base fdt st =
    if has_skip st.1 base (all_nodes fdt) then Panic else Ok (if keep then st else fold_left patch_flag (blob_flags (num, base, fdt)) st).
Proof.
  intros Hb (_ & _ & Hsz & Hr & _). unfold patch_blob. rewrite (patch_all_chosen_spec base st _ (total_size fdt)) by (done || intros n Hn; by apply Hr).
  destruct (has_skip _ _ _); [done |]. cbn [mbind res_bind]. destruct keep; [done |]. unfold blob_flags. cbn [fst snd].
  destruct (find_fstab fdt); [| done]. by rewrite patch_children_flags.
Qed.

(** Patching a blob leaves the rest of the file as it is. *)
Lemma patch_flags_behind num base fdt st :
  0 <= base -> laid_out (zlen st.1) base [(num, base, fdt)] ->
  let st' := fold_left patch_flag (blob_flags (num, base, fdt)) st in
  length st'.1 = length st.1 /\ forall i, base + total_size fdt <= Z.of_nat i -> st'.1 !! i = st.1 !! i.
Proof.
  intros Hb Hl. pose proof (blob_flags_in _ _ _ _ Hb Hl) as Hf.
  destruct (fold_flags_frame (blob_flags (num, base, fdt)) st) as [H1 H2].
  { eapply Forall_impl; [exact Hf |]. intros r H; apply H. }
  split; [done |]. intros i Hi. apply H2. eapply Forall_impl; [exact Hf |]. intros r (_ & _ & H) Hc. unfold covers in Hc. lia.
Qed.

Lemma patch_blob_local keep : local_to_blob (patch_blob keep).
Proof.
  intros num base fdt st st' Hl Hb. rewrite patch_blob_spec by done. destruct (has_skip _ _ _); [done |]. destruct keep; intros [= <-]; [done |].
  destruct (patch_flags_behind num base fdt st Hb Hl) as [H1 H2]. split; [done |]. apply list_eq. intros i. rewrite !lookup_drop. apply H2. lia.
Qed.

Lemma has_skip_ext buf buf' base fdt size :
  0 <= base -> laid_out size base [(0, base, fdt)] -> (forall i, base <= Z.of_nat i -> buf' !! i = buf !! i) ->
  has_skip buf' base (all_nodes fdt) = has_skip buf base (all_nodes fdt).
Proof.
  intros Hb (_ & _ & _ & Hr & _) H. unfold has_skip. induction (all_nodes fdt) as [|n nodes IH]; [done |]. cbn [existsb].
  rewrite IH by (intros m Hm; apply Hr; set_solver). f_equal. unfold chosen_args. case_bool_decide; [| done].
  destruct (property n #"bootargs") as [p|] eqn:Ep; [| done]. destruct (Hr n ltac:(set_solver)) as [Hp _]. rewrite Forall_forall in Hp.
  destruct (Hp p (property_in _ _ _ Ep)) as (? & ? & ?). f_equal. apply (value_ext buf buf' (base, p)); unfold covers, range_lo, range_hi; cbn [fst snd]; [lia | lia |].
  intros i Hi. apply H. lia.
Qed.

Lemma run_patch keep bs pos buf st :
  0 <= pos -> laid_out (zlen buf) pos bs -> length st.1 = length buf -> (forall i, pos <= Z.of_nat i -> st.1 !! i = buf !! i) ->
  run (patch_blob keep) bs st = if any_skip buf bs then Panic else Ok (if keep then st else fold_left patch_flag (all_flags bs) st).
Proof.
  revert pos st. induction bs as [|[[num base] fdt] bs IH]; intros pos st Hpos Hl Hlen Heq; [by destruct keep |].
  cbn [laid_out] in Hl. destruct Hl as (H1 & H2 & H3 & H4 & H5).
  assert (laid_out (zlen st.1) base [(num, base, fdt)]) as Hl1 by (rewrite Hlen; cbn [laid_out]; done || split_and!; done || lia).
  cbn [run any_skip existsb fst snd]. rewrite patch_blob_spec by (done || lia).
  assert (laid_out (zlen buf) base [(0, base, fdt)]) as Hl0 by (cbn [laid_out]; split_and!; done || lia).
  rewrite (has_skip_ext buf st.1 base fdt (zlen buf)); [| lia | done | intros i Hi; apply Heq; lia].
  destruct (has_skip buf base (all_nodes fdt)); [done |]. cbn [mbind res_bind orb]. fold (any_skip buf bs).
  destruct keep.
  - apply (IH (base + total_size fdt)); [lia | done | done |]. intros i Hi. apply Heq. lia.
  - destruct (patch_flags_behind num base fdt st ltac:(lia) Hl1) as [G1 G2]. cbv zeta in *. unfold all_flags. cbn [map concat]. rewrite fold_left_app.
    apply (IH (base + total_size fdt)); [lia | done | congruence |]. intros i Hi. rewrite G2 by done. apply Heq. lia.
Qed.

Lemma all_flags_ok size pos bs : 0 <= pos -> laid_out size pos bs -> Forall (range_ok size) (all_flags bs).
Proof.
  revert pos. induction bs as [|[[num base] fdt] bs IH]; intros pos Hpos Hl; [constructor |]. cbn [laid_out] in Hl.
  destruct Hl as (H1 & H2 & H3 & H4 & H5). unfold all_flags. cbn [map concat]. apply Forall_app. split; [| by apply (IH (base + total_size fdt)); [lia |]].
  eapply Forall_impl; [apply (blob_flags_in size num base fdt); [lia |]; cbn [laid_out]; split_and!; done || lia |]. intros r Hr. apply Hr.
Qed.

(** C30: patching the blobs of a file, when the loop over them ends, as it does if none says
    that it has no bytes, and the flags of no two children share bytes, keeps the length of
    the file and changes at most the fsmgr_flags of the children of the fstab nodes: from
    each, the verity flags are removed as in an fstab, a flag with its value, which goes up
    to the next blank and so takes the rest of a list with commas along, and the rest is
    filled with zeros; the result says whether something was removed.  With KEEPVERITY the
    file stays as it is, and a blob whose boot arguments contain skip_initramfs makes the
    command abort. *)
Theorem dtb_patch_spec Fdt_new keep_verity file bs :
  fdt_law Fdt_new -> blobs Fdt_new file = Ok bs -> ForallOrdPairs apart (all_flags bs) ->
  if any_skip file bs then dtb_patch Fdt_new keep_verity file = Panic else
  if keep_verity then dtb_patch Fdt_new keep_verity file = Ok (file, false) else
  exists file', dtb_patch Fdt_new keep_verity file = Ok (file', existsb (fun r => shrinks (value file r.1 r.2)) (all_flags bs)) /\
    length file' = length file /\
    (forall i, Forall (fun r => ~ covers r i) (all_flags bs) -> file' !! i = file !! i) /\
    Forall (fun r => value file' r.1 r.2 = stripped (value file r.1 r.2)) (all_flags bs).
Proof.
  intros Hlaw Hbs Hap. pose proof (blobs_laid_out Fdt_new Hlaw (S (length file)) 0 0 file bs ltac:(lia) Hbs) as Hl.
  assert (dtb_patch Fdt_new keep_verity file = run (patch_blob keep_verity) bs (file, false)) as ->.
  { apply (for_each_fdt_run Fdt_new Hlaw (patch_blob keep_verity)); [apply patch_blob_local | done]. }
  rewrite (run_patch keep_verity bs 0 file) by done. destruct (any_skip file bs); [done |]. destruct keep_verity; [done |].
  pose proof (all_flags_ok (zlen file) 0 bs ltac:(lia) Hl) as Hok. destruct (fold_flags_frame (all_flags bs) (file, false) Hok) as [H1 H2].
  destruct (fold_flags_spec (all_flags bs) file false Hok Hap) as [H3 H4]. cbv zeta in *.
  destruct (fold_left patch_flag (all_flags bs) (file, false)) as [file' b] eqn:E. cbn [fst snd] in *. exists file'. by rewrite H4.
Qed.

(** A parser for the examples: a blob of 48 bytes with an fstab whose flags are at 8, and
    boot arguments at 24. *)
Definition demo_fdt : Fdt :=
  let system := mkNode #"system" [mkProperty #"fsmgr_flags" 8 12] [] in
  mkFdt 48 [mkNode [] [] []; mkNode #"chosen" [mkProperty #"bootargs" 24 20] []; mkNode #"fstab" [] [system]; system] None.
Definition demo_new (s : bytes) : res FdtError Fdt := if zlen s <? 48 then Err BufferTooSmall else Ok demo_fdt.
Definition demo_blob (args : bytes) : bytes := FDT_MAGIC ++ #"...." ++ #"wait,verify." ++ #"----" ++ args ++ replicate (24 - length args) (bof 0).

Lemma demo_law : fdt_law demo_new.
Proof.
  intros s. unfold demo_new. destruct (_ <? 48) eqn:E; [done |]. apply Z.ltb_ge in E. split; [simpl; lia |].
  unfold demo_fdt, range_in. cbn [all_nodes total_size]. intros n Hn. rewrite !elem_of_cons, elem_of_nil in Hn.
  destruct_or?; subst; repeat constructor; simpl; lia.
Qed.

Lemma dtb_patch_spec_witness :
  (exists file', dtb_patch demo_new false (#"junk" ++ demo_blob #"quiet") = Ok (file', true) /\ length file' = 52%nat) /\
  dtb_patch demo_new false (demo_blob #"skip_initramfs") = Panic.
Proof.
  split.
  - pose proof (dtb_patch_spec demo_new false (#"junk" ++ demo_blob #"quiet") [(0, 4, demo_fdt)]) as H.
    destruct H as (file' & H1 & H2 & _); [exact demo_law | vm_compute; reflexivity | repeat constructor |].
    exists file'. split; [rewrite H1; vm_compute; reflexivity | rewrite H2; vm_compute; reflexivity].
  - pose proof (dtb_patch_spec demo_new false (demo_blob #"skip_initramfs") [(0, 0, demo_fdt)]) as H.
    apply H; [exact demo_law | vm_compute; reflexivity | repeat constructor].
Defined.

(** * The other commands *)

Lemma run_pure {A} (g : Z -> Fdt -> bytes * A -> A) bs st :
  run (fun _ base fdt st => Ok (st.1, g base fdt st)) bs st = Ok (st.1, fold_left (fun a b => g b.1.2 b.2 (st.1, a)) bs st.2).
Proof.
  revert st. induction bs as [|[[num base] fdt] bs IH]; intros [buf a]; [done |]. cbn [run mbind res_bind fold_left fst snd]. by rewrite IH.
Qed.

Definition system_root (file : bytes) (b : Z * Z * Fdt) : bool :=
  match find_fstab b.2 with Some fstab => existsb (test_child file b.1.2) (children fstab) | None => false end.

(** The test fails exactly if the fstab of some blob mounts system at /system_root. *)
Lemma dtb_test_spec Fdt_new file bs :
  fdt_law Fdt_new -> blobs Fdt_new file = Ok bs -> dtb_test Fdt_new file = Ok (negb (existsb (system_root file) bs)).
Proof.
  intros Hlaw Hbs. unfold dtb_test. rewrite (for_each_fdt_run Fdt_new Hlaw _ file bs); [| | done].
  2: { intros num base fdt st st' _ _ [= <-]. done. }
  rewrite run_pure. cbn [fmap res_fmap fst snd]. f_equal.
  assert (forall b, fold_left (fun a b0 => match find_fstab b0.2 with
    | Some fstab => if existsb (test_child file b0.1.2) (children fstab) then false else a | None => a end) bs b
    = b && negb (existsb (system_root file) bs)) as H; [| by rewrite H].
  clear Hbs. induction bs as [|x bs IH]; intros b; cbn [fold_left existsb negb]; [by rewrite andb_true_r |]. rewrite IH. unfold system_root at 2.
  destruct (find_fstab x.2) as [fstab|]; [| done]. destruct (existsb _ (children fstab)); [| done]. cbn [orb negb andb]. by rewrite andb_false_r.
Qed.

(** Printing a node leaves the flags of the levels above it as they were. *)
Lemma print_props_flags buf base depth nc ps ds :
  (depth < length ds)%nat -> exists b, (print_props buf base depth nc ps ds).2 = ds \/ (print_props buf base depth nc ps ds).2 = <[depth := b]> ds.
Proof.
  revert ds. induction ps as [|p ps IH]; intros ds Hd; cbn [print_props]; [exists true; by left |].
  unfold close_level. destruct (default false (ds !! depth) && (is_empty ps && nc)).
  - destruct (IH (<[depth := false]> ds)) as [b Hb]; [by rewrite length_insert |].
    destruct (print_props buf base depth nc ps _) as [out ds'] eqn:E. cbn [snd] in *. destruct Hb as [-> | ->].
    + exists false. by right.
    + exists b. right. by rewrite list_insert_insert_eq.
  - destruct (IH ds Hd) as [b Hb]. destruct (print_props buf base depth nc ps _) as [out ds'] eqn:E. exists b. done.
Qed.

Lemma insert_snoc (ds : list bool) b c : <[length ds := c]> (ds ++ [b]) = ds ++ [c].
Proof. rewrite insert_app_r_alt by lia. by rewrite Nat.sub_diag. Qed.

Lemma do_print_node_flags buf base n ds : (do_print_node buf base n ds).2 = ds.
Proof.
  revert n ds. fix IH 1. intros [name ps cs] ds. cbn [do_print_node].
  destruct (print_props buf base (length ds) (is_empty cs) ps (ds ++ [true])) as [props ds1] eqn:E.
  assert (exists b, ds1 = ds ++ [b]) as H1.
  { destruct (print_props_flags buf base (length ds) (is_empty cs) ps (ds ++ [true])) as [b Hb]; [rewrite length_app; simpl; lia |].
    rewrite E in Hb. cbn [snd] in Hb. destruct Hb as [-> | ->]; [by eauto | rewrite insert_snoc; by eauto]. }
  clear E. match goal with |- (let '(_, _) := ?go cs ds1 in _).2 = _ => assert (forall ds1, (exists b, ds1 = ds ++ [b]) -> exists b, (go cs ds1).2 = ds ++ [b]) as Hgo end.
  { clear ds1 H1. induction cs as [|c cs IHcs]; intros ds1 [b ->]; [by eauto |].
    assert (exists b', close_level (length ds) (is_empty cs) (ds ++ [b]) = ds ++ [b']) as [b' ->].
    { unfold close_level. destruct (_ && _); [rewrite insert_snoc |]; by eauto. }
    specialize (IH c (ds ++ [b'])). destruct (do_print_node buf base c (ds ++ [b'])) as [out ds2]. cbn [snd] in IH. subst ds2.
    destruct (IHcs (ds ++ [b'])) as [b2 Hb2]; [by eauto |].
    match goal with |- context [let '(_, _) := ?x in _] => destruct x as [rest ds3] end. cbn [snd] in *. by eauto. }
  destruct (Hgo ds1 H1) as [b Hb]. match goal with |- (let '(_, _) := ?x in _).2 = _ => destruct x as [subs ds3] end. cbn [snd] in *. subst ds3. apply removelast_last.
Qed.

(** * The end of the loop *)

(** The loop over the blobs ends, if no blob says that it has no bytes. *)
Lemma for_each_ends Fdt_new file : fdt_law Fdt_new -> sized Fdt_new -> blobs Fdt_new file <> Panic.
Proof. intros Hlaw Hz. apply blobs_total; [done | done | lia | lia]. Qed.

(** A blob that says it has no bytes is read again and again. *)
Lemma zero_size_diverges {A} Fdt_new (f : Z -> Z -> Fdt -> bytes * A -> logged (bytes * A)) file fdt fuel num st :
  starts_with file FDT_MAGIC = true -> 40 <= zlen file -> Fdt_new file = Ok fdt -> total_size fdt = 0 ->
  st.1 = file -> (forall num base st, match f num base fdt st with Ok st' => st'.1 = st.1 | _ => False end) ->
  for_each_loop Fdt_new f fuel num 0 st = Panic.
Proof.
  intros Hm Hl Hn Hz Hst Hf. revert num st Hst. induction fuel as [|fuel IH]; intros num st Hst; [done |]. cbn [for_each_loop].
  rewrite Hst, drop_0. assert (find file FDT_MAGIC = Some 0) as -> by (destruct file; cbn [find]; by rewrite Hm). cbn [Z.add].
  change (Z.to_nat (0 + 0)) with 0%nat. rewrite drop_0, (proj2 (Z.ltb_ge _ _)) by lia. rewrite Hn. specialize (Hf num 0 st).
  change (0 + 0) with 0. destruct (f num 0 fdt st) as [st'| |]; [| done | done]. cbn [mbind res_bind]. rewrite Hz. rewrite (proj2 (Z.leb_le _ _)) by lia. apply IH. congruence.
Qed.
End Dtb.
