(* ===== verification/BootCli.v ===== *)
(** boot/cli.rs: the program magiskboot, from its command line to the exit code.

    The commands are the operations of the other components and of the C++ code, the record
    [Ops], on a state of files [W]; here it is shown which of them a command line runs, with
    which arguments, and what becomes of its result. *)

From S2P Require Import Prelude Text Numeric Args Compress Dtb CpioCli.

Module BootCli.
Import Args.

(** * Actions *)

Inductive Action :=
| Unpack (no_decompress dump_header : bool) (img : bytes)
| Repack (no_compress : bool) (img : bytes) (out : option bytes)
| Verify (img : bytes) (cert : option bytes)
| Sign (img : bytes) (name cert key : option bytes)
| Extract (payload : bytes) (partition outfile : option bytes)
| HexPatch (file src dest : bytes)
| Cpio (file : bytes) (cmds : list bytes)
| Dtb (file : bytes) (action : Dtb.DtbAction)
| Split (no_decompress : bool) (file : bytes)
| Sha1 (file : bytes)
| Cleanup
| Compress (format : Compress.FileFormat) (file : bytes) (out : option bytes)
| Decompress (file : bytes) (out : option bytes).

Inductive Val := VStr (s : bytes) | VDtb (a : Dtb.DtbAction).

Definition str_value (v : bytes) : res bytes Val := Ok (VStr v).
Definition switch {V} (name short : bytes) (parse : bytes -> res bytes V) : Field V := mkField name (Switch TBool) (Some short) (Some None) None parse.
Definition pos (name : bytes) : Field Val := mkField name (Positional Required false) None None None str_value.
Definition opt (name : bytes) : Field Val := mkField name (Positional Optional false) None None None str_value.

(** The actions of "dtb". *)
Definition dtb_fields_of (cmd : bytes) : list (Field Val) := if bool_decide (cmd = #"print") then [switch #"fstab" #"f" str_value] else [].

Definition dtb_action_of (cmd : bytes) (l : list (Slot Val)) : res EarlyExit Val :=
  match l with
  | [FlagBool b] => Ok (VDtb (Dtb.Print b))
  | [] => Ok (VDtb (if bool_decide (cmd = #"patch") then Dtb.Patch else Dtb.Test))
  | _ => Panic
  end.

Definition DTB_COMMANDS : list bytes := [ #"print"; #"patch"; #"test"].

Definition dtb_variant (cmd : bytes) : bytes * (list bytes -> list bytes -> res EarlyExit Val) :=
  (cmd, fun cmd_name args => l ← from_args (dtb_fields_of cmd) [] cmd_name args; dtb_action_of cmd l).

Definition dtb_fields : list (Field Val) :=
  [pos #"file"; mkField #"action" (SubCommand false DTB_COMMANDS (from_args_enum (map dtb_variant DTB_COMMANDS))) None None None (fun _ => Err [])].

Definition cpio_fields : list (Field Val) := [pos #"file"; mkField #"cmds" (Positional Repeating false) None None None str_value].

Definition fields_of (cmd : bytes) : list (Field Val) :=
  if bool_decide (cmd = #"unpack") then [switch #"no_decompress" #"n" str_value; switch #"dump_header" #"h" str_value; pos #"img"]
  else if bool_decide (cmd = #"repack") then [switch #"no_compress" #"n" str_value; pos #"img"; opt #"out"]
  else if bool_decide (cmd = #"verify") then [pos #"img"; opt #"cert"]
  else if bool_decide (cmd = #"sign") then [pos #"img"; opt #"name"; opt #"cert"; opt #"key"]
  else if bool_decide (cmd = #"extract") then [pos #"payload"; opt #"partition"; opt #"outfile"]
  else if bool_decide (cmd = #"hexpatch") then [pos #"file"; pos #"src"; pos #"dest"]
  else if bool_decide (cmd = #"cpio") then cpio_fields
  else if bool_decide (cmd = #"dtb") then dtb_fields
  else if bool_decide (cmd = #"split") then [switch #"no_decompress" #"n" str_value; pos #"file"]
  else if bool_decide (cmd = #"sha1") then [pos #"file"]
  else if bool_decide (cmd = #"decompress") then [pos #"file"; opt #"out"]
  else [].

(** A field of type [Option<Utf8CString>]. *)
Definition text (o : option Val) : option bytes := match o with Some (VStr s) => Some s | _ => None end.
Definition texts (l : list Val) : list bytes := omap (fun v => text (Some v)) l.

(** The variant that is built from the fields of a command. *)
Definition action_of (cmd : bytes) (l : list (Slot Val)) : res EarlyExit Action :=
  match l with
  | [FlagBool n; FlagBool h; One (Some (VStr img))] => Ok (Unpack n h img)
  | [FlagBool n; One (Some (VStr img)); One out] => Ok (Repack n img (text out))
  | [FlagBool n; One (Some (VStr file))] => Ok (Split n file)
  | [One (Some (VStr file)); Sub (Some (VDtb a))] => Ok (Dtb file a)
  | [One (Some (VStr file)); Many cmds] => Ok (Cpio file (texts cmds))
  | [One (Some (VStr x)); One o] => if bool_decide (cmd = #"verify") then Ok (Verify x (text o)) else Ok (Decompress x (text o))
  | [One (Some (VStr x)); One o; One p] =>
      if bool_decide (cmd = #"extract") then Ok (Extract x (text o) (text p))
      else match text o, text p with Some src, Some dest => Ok (HexPatch x src dest) | _, _ => Panic end
  | [One (Some (VStr x)); One o; One p; One q] => Ok (Sign x (text o) (text p) (text q))
  | [One (Some (VStr x))] => Ok (Sha1 x)
  | [] => Ok Cleanup
  | _ => Panic
  end.

(** [PositionalArgParser]. *)
Definition missing_positional {A} (field_name : bytes) : res EarlyExit A :=
  match err_on_any (mkMissing [] None [field_name]) with Err m => Err (early_exit m) | _ => Panic end.

Definition required (field_name : bytes) (args : list bytes) : res EarlyExit (bytes * list bytes) :=
  match args with x :: args => Ok (x, args) | [] => missing_positional field_name end.

Definition ensure_end (args : list bytes) : res EarlyExit unit :=
  match args with [] => Ok tt | s :: _ => Err (early_exit (#"Unrecognized argument: " ++ s ++ [newline])) end.

Definition last_optional (args : list bytes) : res EarlyExit (option bytes) :=
  match args with [] => Ok None | x :: args => _ ← ensure_end args; Ok (Some x) end.

(** [Compress::from_args]. *)
Definition Compress_from_args (command_name args : list bytes) : res EarlyExit Action :=
  let cmd := default [] (last command_name) in
  let fmt := default #"gzip" (strip_prefix cmd #"compress=") in
  match Compress.format_from_str fmt with
  | None => Err (early_exit (#"Unsupported or unknown compression format: " ++ fmt ++ [newline]))
  | Some format =>
      '(file, args) ← required #"infile" args;
      out ← last_optional args;
      Ok (Compress format file out)
  end.

Definition COMMANDS : list bytes :=
  [ #"unpack"; #"repack"; #"verify"; #"sign"; #"extract"; #"hexpatch"; #"cpio"; #"dtb"; #"split"; #"sha1"; #"cleanup"; #"compress"; #"decompress"].

Definition variant (cmd : bytes) : bytes * (list bytes -> list bytes -> res EarlyExit Action) :=
  (cmd, if bool_decide (cmd = #"compress") then Compress_from_args
        else fun cmd_name args => l ← from_args (fields_of cmd) [] cmd_name args; action_of cmd l).

Definition Cli_fields : list (Field Action) :=
  [mkField #"action" (SubCommand false COMMANDS (from_args_enum (map variant COMMANDS))) None None None (fun _ => Err [])].

Definition Cli (cmd_name args : list bytes) : res EarlyExit Action :=
  l ← from_args Cli_fields top_level_triggers cmd_name args;
  match l with [Sub (Some a)] => Ok a | _ => Panic end.

(** * Running *)

(** The operations, on the state of the files; a [logged] result that is [Panic] aborts. *)
Record Ops (W : Type) := mkOps {
  unpack : bytes -> bool -> bool -> W -> W * Z;
  repack : bytes -> bytes -> bool -> W -> W;
  verify_cmd : bytes -> option bytes -> W -> bool;
  sign_cmd : bytes -> option bytes -> option bytes -> option bytes -> W -> W * logged unit;
  extract_boot_from_payload : bytes -> option bytes -> option bytes -> W -> W * logged unit;
  hexpatch : bytes -> bytes -> bytes -> W -> W * logged bool;
  cpio_commands : bytes -> list bytes -> W -> W * CpioCli.Outcome;
  dtb_commands : bytes -> Dtb.DtbAction -> W -> W * logged bool;
  split_image_dtb : bytes -> bool -> W -> W * Z;
  sha1_of_file : bytes -> W -> option bytes;
  cleanup : W -> W;
  decompress_cmd : bytes -> option bytes -> W -> W * logged unit;
  compress_cmd : Compress.FileFormat -> bytes -> option bytes -> W -> W * logged unit }.
Arguments unpack {W}. Arguments repack {W}. Arguments verify_cmd {W}. Arguments sign_cmd {W}. Arguments extract_boot_from_payload {W}.
Arguments hexpatch {W}. Arguments cpio_commands {W}. Arguments dtb_commands {W}. Arguments split_image_dtb {W}. Arguments sha1_of_file {W}.
Arguments cleanup {W}. Arguments decompress_cmd {W}. Arguments compress_cmd {W}.

Inductive Usage := DtbUsage | CpioUsage | MainUsage.

(** The exit code, the files, the line on the standard output, and the usage text. *)
Record Ran (W : Type) := mkRan { code : Z; world : W; out : option bytes; usage_text : option Usage }.
Arguments mkRan {W}. Arguments code {W}. Arguments world {W}. Arguments out {W}. Arguments usage_text {W}.

Section Main.
Context {W : Type} (ops : Ops W).

Definition of_unit (r : W * logged unit) : option (Ran W) :=
  match r.2 with Ok _ => Some (mkRan 0 r.1 None None) | Err _ => Some (mkRan 1 r.1 None None) | Panic => None end.

Definition of_bool (r : W * logged bool) : option (Ran W) :=
  match r.2 with Ok b => Some (mkRan (if b : bool then 0 else 1) r.1 None None) | Err _ => Some (mkRan 1 r.1 None None) | Panic => None end.

Definition hex_lower (d : Z) : byte := bof (if d <? 10 then 48 + d else 87 + d).
Definition hex_02x (c : byte) : bytes := [hex_lower (bval c / 16); hex_lower (bval c mod 16)].

(** The part of [boot_main] after the command line was read, and [main]: an error is the
    exit code 1. *)
Definition exec (a : Action) (w : W) : option (Ran W) :=
  match a with
  | Unpack no_decompress dump_header img => let '(w, c) := unpack ops img no_decompress dump_header w in Some (mkRan c w None None)
  | Repack no_compress img out => Some (mkRan 0 (repack ops img (default #"new-boot.img" out) no_compress w) None None)
  | Verify img cert => Some (mkRan (if verify_cmd ops img cert w then 0 else 1) w None None)
  | Sign img name cert key => of_unit (sign_cmd ops img name cert key w)
  | Extract payload partition outfile => of_unit (extract_boot_from_payload ops payload partition outfile w)
  | HexPatch file src dest => of_bool (hexpatch ops file src dest w)
  | Cpio file cmds =>
      match cpio_commands ops file cmds w with
      | (w, CpioCli.Returned r) => of_unit (w, r)
      | (w, CpioCli.Exited c) => Some (mkRan c w None None)
      end
  | Dtb file action => of_bool (dtb_commands ops file action w)
  | Split no_decompress file => let '(w, c) := split_image_dtb ops file no_decompress w in Some (mkRan c w None None)
  | Sha1 file =>
      match sha1_of_file ops file w with
      | Some h => Some (mkRan 0 w (Some (concat (map hex_02x h))) None)
      | None => Some (mkRan 1 w None None)
      end
  | Cleanup => Some (mkRan 0 (cleanup ops w) None None)
  | Decompress file out => of_unit (decompress_cmd ops file out w)
  | Compress format file out => of_unit (compress_cmd ops format file out w)
  end.

(** [boot_main] and [main]; [None] aborts. *)
Definition boot_main (argv : list bytes) (w : W) : option (Ran W) :=
  match argv with
  | prog :: cmd :: args =>
      let cmd := if starts_with cmd #"--" then drop 2 cmd else cmd in
      let cli := if starts_with cmd #"compress=" then Compress_from_args [prog; cmd] args else Cli [prog] (cmd :: args) in
      match cli with
      | Ok a => exec a w
      | Err e =>
          let usage := if bool_decide (cmd = #"dtb") then DtbUsage else if bool_decide (cmd = #"cpio") then CpioUsage else MainUsage in
          Some (mkRan (if is_help e then 0 else 1) w None (Some usage))
      | Panic => None
      end
  | _ => Some (mkRan 1 w None (Some MainUsage))
  end.
End Main.

(** * The usage text *)

(** An operand does not look like an option. *)
Definition operand_ok (x : bytes) : Prop := starts_with x #"-" = false.

Definition flag (b : bool) (name : bytes) : list bytes := if b then [name] else [].
Definition operand (o : option bytes) : list bytes := match o with Some x => [x] | None => [] end.
Definition optional_ok (o : option bytes) : Prop := match o with Some x => operand_ok x | None => True end.

(** What each line of the usage text means; an optional operand is only given with those
    before it.  [std] holds of the operands for which it says that "-" can be given, and [dtb]
    of the file of "dtb". *)
Inductive lines (std dtb : bytes -> Prop) : list bytes -> Action -> Prop :=
| u_unpack n h img : operand_ok img -> lines std dtb (#"unpack" :: flag n #"-n" ++ flag h #"-h" ++ [img]) (Unpack n h img)
| u_repack n img out : operand_ok img -> optional_ok out -> lines std dtb (#"repack" :: flag n #"-n" ++ img :: operand out) (Repack n img out)
| u_verify img cert : operand_ok img -> optional_ok cert -> lines std dtb (#"verify" :: img :: operand cert) (Verify img cert)
| u_sign img name : operand_ok img -> optional_ok name -> lines std dtb (#"sign" :: img :: operand name) (Sign img name None None)
| u_sign_key img name cert key :
    operand_ok img -> operand_ok name -> operand_ok cert -> operand_ok key -> lines std dtb [ #"sign"; img; name; cert; key] (Sign img (Some name) (Some cert) (Some key))
| u_extract payload partition : std payload -> optional_ok partition -> lines std dtb (#"extract" :: payload :: operand partition) (Extract payload partition None)
| u_extract_to payload partition out :
    std payload -> operand_ok partition -> operand_ok out -> lines std dtb [ #"extract"; payload; partition; out] (Extract payload (Some partition) (Some out))
| u_hexpatch file src dest : operand_ok file -> operand_ok src -> operand_ok dest -> lines std dtb [ #"hexpatch"; file; src; dest] (HexPatch file src dest)
| u_cpio file cmds : operand_ok file -> Forall operand_ok cmds -> lines std dtb (#"cpio" :: file :: cmds) (Cpio file cmds)
| u_dtb_print file f : operand_ok file -> dtb file -> lines std dtb ([ #"dtb"; file; #"print"] ++ flag f #"-f") (Dtb file (Dtb.Print f))
| u_dtb_patch file : operand_ok file -> dtb file -> lines std dtb [ #"dtb"; file; #"patch"] (Dtb file Dtb.Patch)
| u_dtb_test file : operand_ok file -> dtb file -> lines std dtb [ #"dtb"; file; #"test"] (Dtb file Dtb.Test)
| u_split n file : operand_ok file -> lines std dtb (#"split" :: flag n #"-n" ++ [file]) (Split n file)
| u_sha1 file : operand_ok file -> lines std dtb [ #"sha1"; file] (Sha1 file)
| u_cleanup : lines std dtb [ #"cleanup"] Cleanup
| u_compress file out : lines std dtb (#"compress" :: file :: operand out) (Compress Compress.GZIP file out)
| u_compress_as name f file out : Compress.format_from_str name = Some f -> lines std dtb ((#"compress=" ++ name) :: file :: operand out) (Compress f file out)
| u_decompress file out : std file -> from_option std True out -> lines std dtb (#"decompress" :: file :: operand out) (Decompress file out).

(** The command lines of the usage text. *)
Definition usage : list bytes -> Action -> Prop := lines (fun x => operand_ok x \/ x = #"-") (fun _ => True).

(** Those that are read. *)
Definition usage_read : list bytes -> Action -> Prop := lines operand_ok (fun file => file ∉ DTB_COMMANDS).

(** Those that are not: "-" of "extract" and "decompress", and a file of "dtb" with the name of
    one of its actions. *)
Definition refused (args : list bytes) : bool :=
  match args with
  | cmd :: x :: rest =>
      bool_decide (cmd = #"extract") && bool_decide (x = #"-") || bool_decide (cmd = #"decompress") && bool_decide (#"-" ∈ x :: rest) ||
      bool_decide (cmd = #"dtb") && bool_decide (x ∈ DTB_COMMANDS)
  | _ => false
  end.

Lemma boot_subcommand prog name args :
  name ∈ COMMANDS -> Cli [prog] (name :: args) = snd (variant name) [prog; name] args.
Proof.
  intros Hin. unfold Cli, from_args at 1, parse_struct_args. cbn [length parse_loop].
  assert (bool_decide (name ∈ top_level_triggers) = false /\ starts_with name #"-" = false) as [-> ->].
  { unfold COMMANDS in Hin. rewrite !elem_of_cons, elem_of_nil in Hin. repeat (destruct Hin as [-> | Hin]; [split; reflexivity |]). done. }
  cbn [andb]. unfold parse_subcommand.
  change (subcommand_field Cli_fields) with (Some (0%nat, mkField #"action" (SubCommand false COMMANDS (from_args_enum (map variant COMMANDS))) None None None (fun _ => Err []))).
  cbn [kind help]. rewrite (bool_decide_eq_true_2 (name ∈ COMMANDS)) by done. change ([prog] ++ [name]) with [prog; name].
  assert (from_args_enum (map variant COMMANDS) [prog; name] args = snd (variant name) [prog; name] args) as ->.
  { unfold from_args_enum. cbn [last]. unfold COMMANDS in Hin. rewrite !elem_of_cons, elem_of_nil in Hin. repeat (destruct Hin as [-> | Hin]; [done |]). done. }
  by destruct (snd (variant name) [prog; name] args).
Qed.

(** One round of the loop, on an operand and on an option. *)
Lemma loop_operand {V} (fields : list (Field V)) fuel cmd_name x args st :
  operand_ok x ->
  parse_loop fields [] (S fuel) cmd_name (x :: args) st =
  (sub ← parse_subcommand fields (help st) cmd_name x args (slots st);
   match sub with
   | Some s => Ok (mkPState s false (positional_index st) (options_ended st))
   | None => '(s, index, ended) ← parse_positional fields (positional_index st) x (slots st);
             parse_loop fields [] fuel cmd_name args (mkPState s (help st) index (options_ended st || ended))
   end).
Proof. intros Hx. cbn [parse_loop]. rewrite (bool_decide_eq_false_2 (x ∈ [])) by set_solver. by rewrite Hx. Qed.

Lemma loop_switch {V} (fields : list (Field V)) fuel cmd_name x args s i :
  starts_with x #"-" && negb (bool_decide (x = #"--")) = true ->
  parse_loop fields [] (S fuel) cmd_name (x :: args) (mkPState s false i false) =
  ('(s, args) ← parse_option fields [] x args s; parse_loop fields [] fuel cmd_name args (mkPState s false i false)).
Proof.
  intros [Hx Hn%negb_true_iff]%andb_true_iff. cbn [parse_loop]. rewrite (bool_decide_eq_false_2 (x ∈ [])) by set_solver. by rewrite Hx, Hn.
Qed.

Ltac operand_ H := cbn [length app]; rewrite loop_operand by exact H; cbn -[parse_loop].
Ltac round :=
  cbn [length app map init_slot kind switch pos opt]; rewrite loop_switch by reflexivity;
  match goal with |- context [parse_option ?f ?h ?x ?a ?s] => let r := eval vm_compute in (parse_option f h x a s) in change (parse_option f h x a s) with r end;
  cbn [mbind res_bind].
Ltac command :=
  cbn [app]; rewrite boot_subcommand by (apply (bool_decide_eq_true (_ ∈ _)); vm_compute; reflexivity);
  cbn [variant snd]; match goal with |- context [bool_decide (?x = #"compress")] => rewrite (bool_decide_eq_false_2 (x = #"compress")) by done end;
  unfold from_args, parse_struct_args.

Lemma repeating_rest cmd_name l args fuel f0 :
  Forall operand_ok args -> (length args <= fuel)%nat ->
  parse_loop cpio_fields [] fuel cmd_name args (mkPState [One (Some f0); Many l] false 1 false) =
  Ok (mkPState [One (Some f0); Many (l ++ map VStr args)] false 1 false).
Proof.
  intros Hargs. revert l fuel. induction Hargs as [|x args Hx Hargs IH]; intros l fuel Hf; [destruct fuel; cbn [parse_loop map]; by rewrite app_nil_r |].
  destruct fuel as [|fuel]; [simpl in Hf; lia |]. operand_ Hx.
  refine (eq_trans (IH (l ++ [VStr x]) fuel _) _); [simpl in Hf; lia |]. cbn [map]. by rewrite <- app_assoc.
Qed.

Lemma texts_map l : texts (map VStr l) = l.
Proof. unfold texts. induction l as [|x l IH]; [done |]. cbn. by f_equal. Qed.

Lemma format_gzip : Compress.format_from_str #"gzip" = Some Compress.GZIP.
Proof. reflexivity. Qed.

Lemma compress_operands prog cmd f file out :
  Compress.format_from_str (default #"gzip" (strip_prefix cmd #"compress=")) = Some f ->
  Compress_from_args [prog; cmd] (file :: operand out) = Ok (Compress f file out).
Proof.
  intros H. unfold Compress_from_args. change (default [] (last [prog; cmd])) with cmd. cbv zeta. rewrite H. by destruct out.
Qed.

(** Every one that is read, but those of "compress=", is read as its action. *)
Lemma usage_parsed_cli prog args a :
  usage_read args a -> match args with cmd :: _ => starts_with cmd #"compress=" = false | [] => True end -> Cli [prog] args = Ok a.
Proof.
  intros H Hc. destruct H as [n h img Hi|n img out Hi Ho|img cert Hi Ho|img name Hi Ho|img name cert key H1 H2 H3 H4|pl part H1 H2|pl part out H1 H2 H3|file src dest H1 H2 H3
    |file cmds H1 H2|file f H1 H2|file H1 H2|file H1 H2|n file H1|file H1| |file out|name f file out H1|file out H1 H2].
  - command. change (fields_of #"unpack") with [switch #"no_decompress" #"n" str_value; switch #"dump_header" #"h" str_value; pos #"img"].
    destruct n, h; cbn [flag]; [round; round | round | round |]; operand_ Hi; reflexivity.
  - command. change (fields_of #"repack") with [switch #"no_compress" #"n" str_value; pos #"img"; opt #"out"].
    destruct n, out as [o|]; cbn [flag operand optional_ok] in *; [round | round | |]; operand_ Hi; try operand_ Ho; reflexivity.
  - command. change (fields_of #"verify") with [pos #"img"; opt #"cert"]. destruct cert as [o|]; cbn [operand optional_ok] in *; operand_ Hi; try operand_ Ho; reflexivity.
  - command. change (fields_of #"sign") with [pos #"img"; opt #"name"; opt #"cert"; opt #"key"]. destruct name as [o|]; cbn [operand optional_ok] in *; operand_ Hi; try operand_ Ho; reflexivity.
  - command. change (fields_of #"sign") with [pos #"img"; opt #"name"; opt #"cert"; opt #"key"]. operand_ H1. operand_ H2. operand_ H3. operand_ H4. reflexivity.
  - command. change (fields_of #"extract") with [pos #"payload"; opt #"partition"; opt #"outfile"]. destruct part as [o|]; cbn [operand optional_ok] in *; operand_ H1; try operand_ H2; reflexivity.
  - command. change (fields_of #"extract") with [pos #"payload"; opt #"partition"; opt #"outfile"]. operand_ H1. operand_ H2. operand_ H3. reflexivity.
  - command. change (fields_of #"hexpatch") with [pos #"file"; pos #"src"; pos #"dest"]. operand_ H1. operand_ H2. operand_ H3. reflexivity.
  - command. change (fields_of #"cpio") with cpio_fields. operand_ H1.
    match goal with |- context [parse_loop ?f ?h ?n ?c ?a ?st] => rewrite (repeating_rest c [] a n (VStr file) H2 ltac:(done) : parse_loop f h n c a st = _) end.
    cbn. by rewrite texts_map.
  - command. change (fields_of #"dtb") with dtb_fields. operand_ H1. rewrite (bool_decide_eq_false_2 (file ∈ _)) by done. cbn -[parse_loop]. destruct f; reflexivity.
  - command. change (fields_of #"dtb") with dtb_fields. operand_ H1. rewrite (bool_decide_eq_false_2 (file ∈ _)) by done. reflexivity.
  - command. change (fields_of #"dtb") with dtb_fields. operand_ H1. rewrite (bool_decide_eq_false_2 (file ∈ _)) by done. reflexivity.
  - command. change (fields_of #"split") with [switch #"no_decompress" #"n" str_value; pos #"file"]. destruct n; cbn [flag]; [round |]; operand_ H1; reflexivity.
  - command. change (fields_of #"sha1") with [pos #"file"]. operand_ H1. reflexivity.
  - command. reflexivity.
  - rewrite boot_subcommand by (apply (bool_decide_eq_true (_ ∈ _)); vm_compute; reflexivity). cbn [variant snd]. rewrite (bool_decide_eq_true_2 (#"compress" = _)) by done. by apply compress_operands.
  - by rewrite starts_with_app in Hc.
  - command. change (fields_of #"decompress") with [pos #"file"; opt #"out"]. destruct out as [o|]; cbn [operand from_option] in *; operand_ H1; try operand_ H2; reflexivity.
Qed.

(** An action may be written with two dashes before it. *)
Definition dashed (b : bool) (args : list bytes) : list bytes :=
  match args with cmd :: args => (if b then #"--" ++ cmd else cmd) :: args | [] => [] end.

Lemma usage_cmd std dtb args a : lines std dtb args a -> exists cmd rest, args = cmd :: rest /\ starts_with cmd #"--" = false.
Proof. intros H. destruct H; eexists _, _; (split; [reflexivity |]); reflexivity. Qed.

Lemma refused_extract x rest : refused (#"extract" :: x :: rest) = bool_decide (x = #"-").
Proof. unfold refused. destruct (bool_decide (x = #"-")); reflexivity. Qed.
Lemma refused_decompress x rest : refused (#"decompress" :: x :: rest) = bool_decide (#"-" ∈ x :: rest).
Proof. unfold refused. destruct (bool_decide (#"-" ∈ x :: rest)); reflexivity. Qed.
Lemma refused_dtb x rest : refused (#"dtb" :: x :: rest) = bool_decide (x ∈ DTB_COMMANDS).
Proof. unfold refused. destruct (bool_decide (x ∈ DTB_COMMANDS)); reflexivity. Qed.

Lemma usage_cases args a : usage args a -> refused args = false -> usage_read args a.
Proof.
  intros H E. unfold usage, usage_read in *. assert (forall x, operand_ok x \/ x = #"-" -> x <> #"-" -> operand_ok x) as Hd by (intros x [?| ->] Hx; done).
  destruct H as [| | | | |pl part H1 H2|pl part out H1 H2 H3| | |file f H1 H2|file H1 H2|file H1 H2| | | | | |file out H1 H2]; try (constructor; done).
  - rewrite refused_extract in E. apply bool_decide_eq_false_1 in E. constructor; auto.
  - rewrite refused_extract in E. apply bool_decide_eq_false_1 in E. constructor; auto.
  - cbn [app] in *. rewrite refused_dtb in E. apply bool_decide_eq_false_1 in E. by apply (u_dtb_print _ _ file f).
  - rewrite refused_dtb in E. apply bool_decide_eq_false_1 in E. by constructor.
  - rewrite refused_dtb in E. apply bool_decide_eq_false_1 in E. by constructor.
  - rewrite refused_decompress in E. apply bool_decide_eq_false_1 in E. constructor; [apply Hd; set_solver |].
    destruct out as [o|]; cbn in *; [apply Hd; [done | set_solver] | done].
Qed.

(** Which usage text an error prints. *)
Definition usage_text_of (args : list bytes) : Usage := match args with cmd :: _ => if bool_decide (cmd = #"dtb") then DtbUsage else MainUsage | [] => MainUsage end.

Lemma refused_cmd cmd rest : refused (cmd :: rest) = true -> bool_decide (cmd ∈ [ #"extract"; #"decompress"; #"dtb"]) = true.
Proof.
  destruct rest as [|x rest]; [done |]. unfold refused. intros E. apply bool_decide_eq_true_2.
  apply orb_true_iff in E as [[E|E]%orb_true_iff|E]; apply andb_true_iff in E as [->%bool_decide_eq_true_1 _]; set_solver.
Qed.

Lemma dtb_refused prog file action : file ∈ DTB_COMMANDS -> action ∈ [ [ #"print"; #"-f"]; [ #"print"]; [ #"patch"]; [ #"test"] ] ->
  exists e, Cli [prog] (#"dtb" :: file :: action) = Err e /\ is_help e = false.
Proof.
  intros Hf Ha. unfold DTB_COMMANDS in Hf. rewrite !elem_of_cons, elem_of_nil in Hf. rewrite !elem_of_cons, elem_of_nil in Ha.
  repeat (destruct Hf as [-> | Hf]; [repeat (destruct Ha as [-> | Ha]; [eexists; split; vm_compute; reflexivity |]); done |]). done.
Qed.

Lemma refused_cli prog args a : usage args a -> refused args = true -> exists e, Cli [prog] args = Err e /\ is_help e = false.
Proof.
  intros H E. unfold usage in *.
  destruct H as [| | | | |pl part H1 H2|pl part out H1 H2 H3| | |file f H1 H2|file H1 H2|file H1 H2| | | | |name f file out H1|file out H1 H2]; try (apply refused_cmd in E; discriminate E).
  - rewrite refused_extract in E. apply bool_decide_eq_true_1 in E as ->. command. destruct part; eexists; split; reflexivity.
  - rewrite refused_extract in E. apply bool_decide_eq_true_1 in E as ->. command. eexists; split; reflexivity.
  - cbn [app] in *. rewrite refused_dtb in E. apply bool_decide_eq_true_1 in E. apply dtb_refused; [done | destruct f; set_solver].
  - rewrite refused_dtb in E. apply bool_decide_eq_true_1 in E. apply dtb_refused; [done | set_solver].
  - rewrite refused_dtb in E. apply bool_decide_eq_true_1 in E. apply dtb_refused; [done | set_solver].
  - rewrite refused_decompress in E. apply bool_decide_eq_true_1 in E. destruct (decide (file = #"-")) as [->|Hf]; [command; destruct out; eexists; split; reflexivity |].
    destruct out as [o|]; cbn [operand from_option] in *; [| set_solver]. assert (o = #"-") as -> by set_solver. destruct H1 as [H1|]; [| done].
    command. change (fields_of #"decompress") with [pos #"file"; opt #"out"]. operand_ H1. eexists; split; reflexivity.
Qed.

(** C29: every command line of the usage text, with or without the two dashes before the
    action, runs the operation it describes with the operands and options given, the
    documented defaults where they are left out, and what the program returns is the result
    of that operation; but "-", which the usage text allows for the files of "extract" and
    "decompress", and a file of "dtb" that is called like one of its actions are refused:
    nothing is run, the usage is printed and the program fails.  Other operands are names
    that do not begin with a dash.  A program without arguments, or with a command that does
    not exist, runs nothing and fails. *)
Theorem boot_main_usage {W} (ops : Ops W) prog w :
  (forall args a dashes, usage args a ->
     boot_main ops (prog :: dashed dashes args) w = if refused args then Some (mkRan 1 w None (Some (usage_text_of args))) else exec ops a w) /\
  boot_main ops [prog] w = Some (mkRan 1 w None (Some MainUsage)) /\
  (forall cmd args, cmd ∉ COMMANDS -> starts_with cmd #"-" = false -> starts_with cmd #"compress=" = false ->
    boot_main ops (prog :: cmd :: args) w = Some (mkRan 1 w None (Some MainUsage))).
Proof.
  split; [| split; [done |]].
  - intros args a dashes Hu. destruct (usage_cmd _ _ args a Hu) as (cmd & rest & -> & Hd). unfold boot_main, dashed.
    replace (if starts_with (if dashes then #"--" ++ cmd else cmd) #"--" then drop 2 (if dashes then #"--" ++ cmd else cmd) else (if dashes then #"--" ++ cmd else cmd)) with cmd
      by (destruct dashes; cbv iota; [by rewrite starts_with_app | by rewrite Hd]).
    cbv zeta. destruct (refused (cmd :: rest)) eqn:Hr.
    { destruct (refused_cli prog _ a Hu Hr) as (e & He & Hh). pose proof (refused_cmd _ _ Hr) as Hc%bool_decide_eq_true_1. rewrite !elem_of_cons, elem_of_nil in Hc.
      destruct Hc as [-> | [-> | [-> | []]]]; 
        (match goal with |- context [if ?b then Compress_from_args _ _ else _] => change b with false end); cbv iota; rewrite He; cbv iota beta; rewrite Hh; reflexivity. }
    pose proof (usage_cases _ _ Hu Hr) as Hu'.
    destruct (starts_with cmd #"compress=") eqn:Hc; [| by rewrite (usage_parsed_cli prog (cmd :: rest) a Hu' Hc)].
    inversion Hu' as [| | | | | | | | | | | | | | | |name f file out Hf|]; subst; try discriminate Hc.
    rewrite (compress_operands prog _ f); [done |]. exact Hf.
  - intros cmd args Hin Hd Hc. unfold boot_main.
    assert (starts_with cmd #"--" = false) as ->.
    { destruct (starts_with cmd #"--") eqn:E; [| done]. apply starts_with_spec in E as [r ->]. discriminate Hd. }
    cbv zeta. rewrite Hc.
    assert (exists m, Cli [prog] (cmd :: args) = Err (early_exit m)) as [m ->].
    { unfold Cli, from_args, parse_struct_args. cbn [length parse_loop].
      rewrite (bool_decide_eq_false_2 (cmd ∈ top_level_triggers)) by (intros Ht; unfold top_level_triggers in Ht; rewrite !elem_of_cons, elem_of_nil in Ht; destruct Ht as [-> | [-> | []]]; discriminate Hd).
      rewrite Hd. cbn -[parse_loop parse_subcommand]. unfold parse_subcommand.
      change (subcommand_field Cli_fields) with (Some (0%nat, mkField #"action" (SubCommand false COMMANDS (from_args_enum (map variant COMMANDS))) None None None (fun _ => Err []))).
      cbn [kind]. rewrite (bool_decide_eq_false_2 (cmd ∈ COMMANDS)) by done. cbn. eauto. }
    cbn [early_exit is_help]. rewrite !bool_decide_eq_false_2; [done | |]; intros ->; apply Hin; apply (bool_decide_eq_true (_ ∈ _)); vm_compute; reflexivity.
Qed.

(** Operations that note their arguments. *)
Definition noting : Ops (list bytes) :=
  mkOps _ (fun img _ _ w => (img :: w, 2)) (fun img out _ w => img :: out :: w) (fun _ _ _ => true) (fun img _ _ _ w => (img :: w, Ok tt)) (fun p _ _ w => (p :: w, Err tt))
    (fun f _ _ w => (f :: w, Ok false)) (fun f cmds w => (f :: cmds ++ w, CpioCli.Returned (Ok tt))) (fun f _ w => (f :: w, Ok true)) (fun f _ w => (f :: w, 1))
    (fun f _ => Some f) (fun _ => []) (fun f _ w => (f :: w, Ok tt)) (fun _ f _ w => (f :: w, Ok tt)).

Lemma boot_main_usage_witness :
  boot_main noting [ #"magiskboot"; #"--repack"; #"-n"; #"boot.img"] [] = Some (mkRan 0 [ #"boot.img"; #"new-boot.img"] None None) /\
  boot_main noting [ #"magiskboot"; #"compress=xz"; #"-"] [] = Some (mkRan 0 [ #"-"] None None) /\
  boot_main noting [ #"magiskboot"; #"decompress"; #"-"; #"out"] [] = Some (mkRan 1 [] None (Some MainUsage)) /\
  boot_main noting [ #"magiskboot"; #"repair"] [] = Some (mkRan 1 [] None (Some MainUsage)).
Proof.
  destruct (boot_main_usage noting #"magiskboot" []) as (H1 & _ & H3). split_and!.
  - refine (eq_trans (H1 [ #"repack"; #"-n"; #"boot.img"] (Repack true #"boot.img" None) true _) _); [apply (u_repack _ _ true #"boot.img" None); reflexivity || exact I | reflexivity].
  - refine (eq_trans (H1 [ #"compress=xz"; #"-"] (Compress Compress.XZ #"-" None) false _) _); [apply (u_compress_as _ _ #"xz" Compress.XZ #"-" None); reflexivity | reflexivity].
  - refine (eq_trans (H1 [ #"decompress"; #"-"; #"out"] (Decompress #"-" (Some #"out")) false _) _); [apply (u_decompress _ _ #"-" (Some #"out")); [by right | by left] | reflexivity].
  - apply H3; [apply (bool_decide_eq_true (_ ∉ _)); vm_compute; reflexivity | reflexivity | reflexivity].
Defined.

(** The usage text says that "-" stands for the standard input of "decompress" and
    "extract"; the parser takes it for an option that does not exist. *)
Theorem dash_refused {W} (ops : Ops W) prog w :
  boot_main ops [prog; #"decompress"; #"-"; #"out"] w = Some (mkRan 1 w None (Some MainUsage)) /\
  boot_main ops [prog; #"extract"; #"-"] w = Some (mkRan 1 w None (Some MainUsage)) /\
  boot_main ops [prog; #"decompress"; #"--"; #"-"] w = exec ops (Decompress #"-" None) w.
Proof. split_and!; vm_compute; reflexivity. Qed.

(** A file that is called like an action of "dtb" cannot be its operand. *)
Theorem dtb_file_named_test {W} (ops : Ops W) prog w :
  boot_main ops [prog; #"dtb"; #"test"; #"print"] w = Some (mkRan 1 w None (Some DtbUsage)).
Proof. vm_compute. reflexivity. Qed.
End BootCli.
