(* ===== verification/Apk.v ===== *)
(** core/package.rs, [read_certificate]: the first certificate of the first signer
    in the v2 signing block of an APK.

    The file is read through its offset, so the model threads an open file.  The
    loop over the id-value pairs may not end ([pair_loop_diverges]): its fuel is an
    argument, and running out of it is [None]. *)

From S2P Require Import Prelude Text Numeric Files.

Module Apk.
Import Files.

Definition EOCD_MAGIC : Z := 0x06054B50.
Definition APK_SIGNING_BLOCK_MAGIC : bytes := #"APK Sig Block 42".
Definition SIGNATURE_SCHEME_V2_MAGIC : Z := 0x7109871A.

Definition bad_apk {A} (msg : bytes) : io A := Err (InvalidData (#"cert: " ++ msg)).

(** [for i in 0u16..]: scan back from the end of the file; [i] is the length the
    comment would have, and the last one ends the scan. *)
Fixpoint eocd_loop (n : nat) (i : Z) (f : File) : io File :=
  match n with
  | O => Panic
  | S n =>
      f ← seek (End_ (- 2 - i)) f;
      '(comment_sz, f) ← read_pod 2 f;
      let next f := if i =? 0xffff then bad_apk #"invalid APK format" else eocd_loop n (i + 1) f in
      if comment_sz =? i then
        f ← seek (Current (-22)) f;
        '(magic, f) ← read_pod 4 f;
        if magic =? EOCD_MAGIC then Ok f else next f
      else next f
  end.

Definition find_eocd (f : File) : io File := eocd_loop (Z.to_nat 0x10000) 0 f.

(** The version code in the comment: its first [versionCode] property. *)
Definition comment_version (comment : bytes) : Z :=
  for_each_prop (fun k v apk_ver =>
    if bool_decide (k = #"versionCode") then (default 0 (parse_sint 32 10 v), false)
    else (apk_ver, true)) comment 0.

Definition check_version (version : Z) (f : File) : io File :=
  if 0 <=? version then
    '(comment_sz, f) ← read_pod 2 f;
    '(comment, f) ← read_exact comment_sz f;
    if comment_version comment <? version then bad_apk #"APK version too low" else Ok f
  else Ok f.

(** From the file's position behind the pair's id: the first certificate. *)
Definition read_v2_cert (f : File) : io bytes :=
  f ← seek (Current 12) f;
  '(digests, f) ← read_pod 4 f;
  f ← seek (Current digests) f;
  f ← seek (Current 4) f;
  '(cert_len, f) ← read_pod 4 f;
  '(cert, f) ← read_exact cert_len f;
  Ok cert.

(** One round of the loop over the pairs: a result, or the file at the next pair. *)
Definition pair_step (oc : bool) (signing_blk_sz : Z) (f : File) : io (bytes + File) :=
  '(len, f) ← read_pod 8 f;
  if len =? signing_blk_sz then bad_apk #"cannot find certificate" else
  '(id, f) ← read_pod 4 f;
  if id =? SIGNATURE_SCHEME_V2_MAGIC then
    cert ← read_v2_cert f; Ok (inl cert)
  else
    d ← s_arith oc 64 (swrap 64 len - 4);
    f ← seek (Current d) f; Ok (inr f).

Fixpoint pair_loop (fuel : nat) (oc : bool) (signing_blk_sz : Z) (f : File) : option (io bytes) :=
  match fuel with
  | O => None
  | S fuel =>
      match pair_step oc signing_blk_sz f with
      | Ok (inl cert) => Some (Ok cert)
      | Ok (inr f) => pair_loop fuel oc signing_blk_sz f
      | Err e => Some (Err e)
      | Panic => Some Panic
      end
  end.

(** Up to the first id-value pair: the block's size and the file there. *)
Definition find_signing_block (oc : bool) (version : Z) (f : File) : io (Z * File) :=
  f ← find_eocd f;
  f ← seek (Current 12) f;
  '(central_dir_off, f) ← read_pod 4 f;
  f ← check_version version f;
  off ← u_arith oc 32 (central_dir_off - 24);
  f ← seek (Start off) f;
  '(block_sz, f) ← read_pod 8 f;
  '(magic, f) ← read_exact 16 f;
  if negb (bool_decide (magic = APK_SIGNING_BLOCK_MAGIC)) then bad_apk #"invalid signing block magic" else
  neg ← s_arith oc 64 (- swrap 64 block_sz);
  d ← s_arith oc 64 (neg - 8);
  f ← seek (Current d) f;
  '(signing_blk_sz, f) ← read_pod 8 f;
  if negb (signing_blk_sz =? block_sz) then bad_apk #"invalid signing block size" else
  Ok (signing_blk_sz, f).

(** The whole function: an error is logged and becomes the empty certificate. *)
Definition read_certificate (fuel : nat) (oc : bool) (apk : File) (version : Z) : option (res unit bytes) :=
  match find_signing_block oc version apk with
  | Ok (sz, f) =>
      match pair_loop fuel oc sz f with
      | Some (Ok cert) => Some (Ok cert)
      | Some (Err _) => Some (Ok [])
      | Some Panic => Some Panic
      | None => None
      end
  | Err _ => Some (Ok [])
  | Panic => Some Panic
  end.

(** * A signed APK *)

Record Pair := mkPair { pair_id : Z; pair_value : bytes }.

Definition pair_len (p : Pair) : Z := 4 + zlen (pair_value p).
Definition enc_pair (p : Pair) : bytes :=
  to_le 8 (pair_len p) ++ to_le 4 (pair_id p) ++ pair_value p.

(** The value of the v2 pair: lengths the reader skips, the digests, and the
    certificates, the first one [cert]. *)
Record V2Block := mkV2 { v2_head : bytes; v2_digests : bytes; v2_certs_len : bytes; v2_cert : bytes; v2_rest : bytes }.

Definition enc_v2 (b : V2Block) : bytes :=
  v2_head b ++ to_le 4 (zlen (v2_digests b)) ++ v2_digests b ++ v2_certs_len b ++
  to_le 4 (zlen (v2_cert b)) ++ v2_cert b ++ v2_rest b.

Record Signed := mkSigned {
  zip_content : bytes;
  pairs_before : list Pair;      (** other signature schemes *)
  v2 : V2Block;
  pairs_after : bytes;
  central_dir : bytes;
  eocd_head : bytes;             (** the EOCD between its magic and the offset *)
  comment : bytes
}.

Definition v2_pair (a : Signed) : Pair := mkPair SIGNATURE_SCHEME_V2_MAGIC (enc_v2 (v2 a)).
Definition block_pairs (a : Signed) : bytes :=
  concat (map enc_pair (pairs_before a)) ++ enc_pair (v2_pair a) ++ pairs_after a.
Definition block_size (a : Signed) : Z := zlen (block_pairs a) + 24.
Definition central_off (a : Signed) : Z := zlen (zip_content a) + 8 + block_size a.

Definition apk_body (a : Signed) : bytes :=
  zip_content a ++ to_le 8 (block_size a) ++ block_pairs a ++
  to_le 8 (block_size a) ++ APK_SIGNING_BLOCK_MAGIC ++ central_dir a.
Definition eocd (a : Signed) : bytes :=
  to_le 4 EOCD_MAGIC ++ eocd_head a ++ to_le 4 (central_off a) ++ to_le 2 (zlen (comment a)) ++ comment a.
Definition apk_bytes (a : Signed) : bytes := apk_body a ++ eocd a.

(** [i] bytes before the end there is something that reads as an EOCD. *)
Definition eocd_at (s : bytes) (i : Z) : bool :=
  let n := zlen s in
  (of_le (take 2 (drop (Z.to_nat (n - 2 - i)) s)) =? i) &&
  (of_le (take 4 (drop (Z.to_nat (n - 22 - i)) s)) =? EOCD_MAGIC).

Definition signed_wf (a : Signed) : Prop :=
  length (eocd_head a) = 12%nat /\ zlen (comment a) < 2 ^ 16 /\
  length (v2_head (v2 a)) = 12%nat /\ length (v2_certs_len (v2 a)) = 4%nat /\
  zlen (apk_bytes a) < 2 ^ 32 /\
  Forall (fun p => 0 <= pair_id p < 2 ^ 32 /\ pair_id p <> SIGNATURE_SCHEME_V2_MAGIC) (pairs_before a) /\
  forall i, 0 <= i < zlen (comment a) -> eocd_at (apk_bytes a) i = false.

(** * Reading it *)

(** Go on to the next field of the layout. *)
Ltac next_field H :=
  apply at_off_tail in H; rewrite ?to_le_length in H;
  try change (Z.of_nat 4) with 4 in H; try change (Z.of_nat 8) with 8 in H; try change (Z.of_nat 2) with 2 in H.

(** The scan passes every length at which there is no EOCD, and stops at one. *)
Lemma eocd_loop_finds n i s o m :
  zlen s < 2 ^ 32 -> 0 <= i <= m -> m < 0x10000 -> 22 + m <= zlen s -> (Z.to_nat (m - i) < n)%nat ->
  (forall j, i <= j < m -> eocd_at s j = false) -> eocd_at s m = true ->
  eocd_loop n i (mkFile s o) = Ok (mkFile s (zlen s - 22 - m + 4)).
Proof.
  intros Hs. revert i o. induction n as [|n IH]; intros i o Hi Hm Hl Hn Hno Hyes; [lia |].
  cbn [eocd_loop]. rewrite (seek_ok _ _ (zlen s - 2 - i)) by (cbn; lia).
  cbn [mbind res_bind contents]. unfold read_pod. rewrite read_exact_range by lia.
  cbn [mbind res_bind]. change (Z.to_nat 2) with 2%nat.
  assert (i < m -> forall f, f = mkFile s (zlen s - 2 - i + 2) \/ f = mkFile s (zlen s - 22 - i + 4) ->
    (if i =? 65535 then bad_apk #"invalid APK format" else eocd_loop n (i + 1) f) =
    Ok (mkFile s (zlen s - 22 - m + 4))) as Hnext.
  { intros Hlt f Hf. rewrite (proj2 (Z.eqb_neq _ _)) by lia.
    destruct Hf as [-> | ->]; apply IH; try lia; try done; intros j Hj; apply Hno; lia. }
  assert (eocd_at s i = bool_decide (i = m)) as Hat.
  { destruct (decide (i = m)) as [->|]; [by rewrite bool_decide_true |].
    rewrite bool_decide_false by done. apply Hno. lia. }
  unfold eocd_at in Hat. destruct (of_le (take 2 (drop (Z.to_nat (zlen s - 2 - i)) s)) =? i); cbn [andb] in Hat.
  - rewrite (seek_ok _ _ (zlen s - 22 - i)) by (cbn; lia). cbn [mbind res_bind contents].
    rewrite read_exact_range by lia. cbn [mbind res_bind]. change (Z.to_nat 4) with 4%nat.
    rewrite Hat. case_bool_decide; [by subst | apply Hnext; [lia | by right]].
  - symmetry in Hat. apply bool_decide_eq_false in Hat. apply Hnext; [lia | by left].
Qed.

(** Reading the certificate of the v2 value that starts at [o]. *)
Lemma read_v2_cert_ok s o b :
  zlen s < 2 ^ 32 -> length (v2_head b) = 12%nat -> length (v2_certs_len b) = 4%nat ->
  at_off s o (enc_v2 b) -> read_v2_cert (mkFile s o) = Ok (v2_cert b).
Proof.
  intros Hs Hh Hc Ha. pose proof (at_off_bound _ _ _ Ha) as Hb. unfold enc_v2 in *.
  rewrite !length_app, !to_le_length in Hb. unfold read_v2_cert.
  rewrite (seek_ok _ _ (o + 12)) by (cbn; lia). cbn [mbind res_bind contents].
  next_field Ha. rewrite Hh in Ha. change (Z.of_nat 12) with 12 in Ha.
  rewrite (read_pod_at s (o + 12) 4 _ (at_off_head _ _ _ _ Ha)) by (change (256 ^ 4) with (2 ^ 32); lia).
  cbn [mbind res_bind]. next_field Ha.
  rewrite (seek_ok _ _ (o + 12 + 4 + zlen (v2_digests b))) by (cbn [offset]; lia). cbn [mbind res_bind contents].
  rewrite (seek_ok _ _ (o + 12 + 4 + zlen (v2_digests b) + 4)) by (cbn [offset]; lia).
  cbn [mbind res_bind contents].
  apply at_off_tail, at_off_tail in Ha. rewrite Hc in Ha. change (Z.of_nat 4) with 4 in Ha.
  rewrite (read_pod_at s _ 4 _ (at_off_head _ _ _ _ Ha)) by (change (256 ^ 4) with (2 ^ 32); lia).
  cbn [mbind res_bind]. next_field Ha.
  by rewrite (read_exact_at s _ _ _ (at_off_head _ _ _ _ Ha)) by done.
Qed.

Lemma enc_pair_length p : zlen (enc_pair p) = 8 + pair_len p.
Proof. unfold enc_pair, pair_len. rewrite !length_app, !to_le_length. lia. Qed.

Lemma pair_step_skip oc sz s o p rest :
  zlen s < 2 ^ 32 -> pair_len p < sz -> 0 <= pair_id p < 2 ^ 32 -> pair_id p <> SIGNATURE_SCHEME_V2_MAGIC ->
  at_off s o (enc_pair p ++ rest) ->
  pair_step oc sz (mkFile s o) = Ok (inr (mkFile s (o + zlen (enc_pair p)))).
Proof.
  intros Hs Hsz Hid Hne Ha. pose proof (at_off_bound _ _ _ Ha) as Hb.
  rewrite length_app, Nat2Z.inj_add, enc_pair_length in Hb. rewrite enc_pair_length.
  apply at_off_head in Ha. unfold enc_pair in Ha. unfold pair_step, pair_len in *.
  rewrite (read_pod_at s o 8 _ (at_off_head _ _ _ _ Ha)) by (change (256 ^ 8) with (2 ^ 64); lia).
  cbn [mbind res_bind]. rewrite (proj2 (Z.eqb_neq _ _)) by lia.
  next_field Ha.
  rewrite (read_pod_at s _ 4 _ (at_off_head _ _ _ _ Ha)) by done. cbn [mbind res_bind].
  rewrite (proj2 (Z.eqb_neq _ _)) by done. rewrite swrap_small by lia.
  rewrite s_arith_small by lia. cbn [mbind res_bind].
  erewrite seek_ok; [| reflexivity |]; cbn [offset contents mbind res_bind]; [| lia]. do 3 f_equal. lia.
Qed.

Lemma pair_step_v2 oc sz s o b rest :
  zlen s < 2 ^ 32 -> length (v2_head b) = 12%nat -> length (v2_certs_len b) = 4%nat ->
  pair_len (mkPair SIGNATURE_SCHEME_V2_MAGIC (enc_v2 b)) < sz ->
  at_off s o (enc_pair (mkPair SIGNATURE_SCHEME_V2_MAGIC (enc_v2 b)) ++ rest) ->
  pair_step oc sz (mkFile s o) = Ok (inl (v2_cert b)).
Proof.
  intros Hs Hh Hc Hsz Ha. pose proof (at_off_bound _ _ _ Ha) as Hb.
  rewrite length_app, Nat2Z.inj_add, enc_pair_length in Hb.
  apply at_off_head in Ha. unfold enc_pair in Ha. unfold pair_step, pair_len in *. cbn [pair_id pair_value] in *.
  rewrite (read_pod_at s o 8 _ (at_off_head _ _ _ _ Ha)) by (change (256 ^ 8) with (2 ^ 64); lia).
  cbn [mbind res_bind]. rewrite (proj2 (Z.eqb_neq _ _)) by lia.
  next_field Ha.
  rewrite (read_pod_at s _ 4 _ (at_off_head _ _ _ _ Ha)) by done. cbn [mbind res_bind].
  rewrite Z.eqb_refl. next_field Ha.
  by rewrite (read_v2_cert_ok _ _ b).
Qed.

Lemma pair_loop_finds fuel oc sz s o ps b rest :
  zlen s < 2 ^ 32 -> length (v2_head b) = 12%nat -> length (v2_certs_len b) = 4%nat ->
  Forall (fun p => 0 <= pair_id p < 2 ^ 32 /\ pair_id p <> SIGNATURE_SCHEME_V2_MAGIC) ps ->
  let body := concat (map enc_pair ps) ++ enc_pair (mkPair SIGNATURE_SCHEME_V2_MAGIC (enc_v2 b)) ++ rest in
  zlen body <= sz -> (length ps < fuel)%nat -> at_off s o body ->
  pair_loop fuel oc sz (mkFile s o) = Some (Ok (v2_cert b)).
Proof.
  intros Hs Hh Hc Hps. revert fuel o. induction Hps as [|p ps [Hid Hne] _ IH]; intros fuel o body Hsz Hf Ha; subst body.
  - destruct fuel as [|fuel]; [simpl in Hf; lia |]. cbn [pair_loop]. cbn [map concat app] in *.
    rewrite length_app, Nat2Z.inj_add, enc_pair_length in Hsz.
    rewrite (pair_step_v2 _ _ _ _ b rest) by (done || lia). done.
  - destruct fuel as [|fuel]; [simpl in Hf; lia |]. cbn [pair_loop].
    cbn [map concat] in *. rewrite <- app_assoc in *. pose proof (enc_pair_length p) as Hl.
    rewrite length_app, Nat2Z.inj_add, Hl in Hsz.
    rewrite (pair_step_skip oc sz s o p _ ltac:(done) ltac:(lia) ltac:(done) ltac:(done) Ha).
    apply at_off_tail in Ha. apply IH; [unfold pair_len in *; lia | simpl in Hf; lia | done].
Qed.

Section Layout.
Context (a : Signed) (Hwf : signed_wf a).
Let s := apk_bytes a.
Let B := zlen (apk_body a).

Lemma eocd_length : zlen (eocd a) = 22 + zlen (comment a).
Proof using Hwf. destruct Hwf as (Hh & _). unfold eocd. rewrite !length_app, !to_le_length, Hh. lia. Qed.

Lemma apk_length : zlen s = B + 22 + zlen (comment a).
Proof using Hwf. unfold s, apk_bytes. rewrite length_app, Nat2Z.inj_add, eocd_length. subst B. lia. Qed.

Lemma body_length :
  B = zlen (zip_content a) + 8 + block_size a + zlen (central_dir a).
Proof using.
  subst B. unfold apk_body, block_size. rewrite !length_app, !to_le_length.
  change (length APK_SIGNING_BLOCK_MAGIC) with 16%nat. lia.
Qed.

Lemma eocd_off : at_off s B (eocd a).
Proof using. pose proof (at_off_self s) as H. unfold s, apk_bytes in *. apply at_off_tail in H. by rewrite Z.add_0_l in H. Qed.

Lemma eocd_here : eocd_at s (zlen (comment a)) = true.
Proof using Hwf.
  pose proof eocd_off as He. pose proof apk_length as Hl. destruct Hwf as (Hh & Hc & _).
  unfold eocd_at. apply andb_true_intro. unfold eocd in He. split; apply Z.eqb_eq.
  - next_field He. next_field He. rewrite Hh in He. next_field He.
    apply at_off_head, at_off_take in He. rewrite to_le_length in He.
    replace (zlen s - 2 - zlen (comment a)) with (B + 4 + Z.of_nat 12 + 4) by lia.
    rewrite He, of_to_le. apply Z.mod_small. change (256 ^ Z.of_nat 2) with (2 ^ 16). lia.
  - apply at_off_head, at_off_take in He. rewrite to_le_length in He.
    replace (zlen s - 22 - zlen (comment a)) with B by lia. by rewrite He, of_to_le.
Qed.

Lemma find_eocd_ok : find_eocd (mkFile s 0) = Ok (mkFile s (B + 4)).
Proof using Hwf.
  pose proof apk_length as Hl. pose proof eocd_here as He. pose proof (Zle_0_nat (length (apk_body a))).
  destruct Hwf as (_ & Hc & _ & _ & Hs & _ & Hno).
  unfold find_eocd. rewrite (eocd_loop_finds _ 0 s 0 (zlen (comment a))); try done; try lia.
  do 2 f_equal. lia.
Qed.

Lemma check_version_ok version :
  version <= comment_version (comment a) \/ version < 0 ->
  exists o, check_version version (mkFile s (B + 20)) = Ok (mkFile s o).
Proof using Hwf.
  intros Hv. unfold check_version. destruct (Z.leb_spec 0 version); [| eauto].
  pose proof eocd_off as He. destruct Hwf as (Hh & Hc & _). unfold eocd in He.
  next_field He. next_field He. rewrite Hh in He. next_field He.
  replace (B + 4 + Z.of_nat 12 + 4) with (B + 20) in He by lia.
  rewrite (read_pod_at s _ 2 _ (at_off_head _ _ _ _ He)) by (change (256 ^ 2) with (2 ^ 16); lia).
  cbn [mbind res_bind]. next_field He. rewrite (read_exact_at s _ _ _ He) by done. cbn [mbind res_bind].
  rewrite (proj2 (Z.ltb_ge _ _)) by lia. eauto.
Qed.

Lemma find_signing_block_ok oc version :
  version <= comment_version (comment a) \/ version < 0 ->
  find_signing_block oc version (mkFile s 0) = Ok (block_size a, mkFile s (zlen (zip_content a) + 8)).
Proof using Hwf.
  intros Hv. pose proof apk_length as Hl. pose proof body_length as Hbl. pose proof eocd_off as He.
  destruct Hwf as (Hh & _ & _ & _ & Hs & _). fold s in Hs.
  assert (0 <= block_size a - 24) as Hbs by (unfold block_size; lia).
  unfold find_signing_block. rewrite find_eocd_ok. cbn [mbind res_bind].
  rewrite (seek_ok _ _ (B + 16)) by (cbn; lia). cbn [mbind res_bind contents].
  unfold eocd in He. next_field He. next_field He. rewrite Hh in He. replace (B + 4 + Z.of_nat 12) with (B + 16) in He by lia.
  rewrite (read_pod_at s _ 4 _ (at_off_head _ _ _ _ He)) by (change (256 ^ 4) with (2 ^ 32); unfold central_off; lia).
  cbn [mbind res_bind]. replace (B + 16 + 4) with (B + 20) by lia.
  destruct (check_version_ok version Hv) as [o ->]. cbn [mbind res_bind].
  rewrite u_arith_small by (unfold central_off; lia). cbn [mbind res_bind].
  rewrite (seek_ok _ _ (central_off a - 24)) by (unfold central_off; lia). cbn [mbind res_bind contents].
  assert (at_off s (zlen (zip_content a)) (to_le 8 (block_size a) ++ block_pairs a ++
    to_le 8 (block_size a) ++ APK_SIGNING_BLOCK_MAGIC ++ central_dir a)) as Hb.
  { pose proof (at_off_self s) as H. unfold s, apk_bytes, apk_body in *. apply at_off_head, at_off_tail in H. by rewrite Z.add_0_l in H. }
  pose proof Hb as Hb0. apply at_off_head in Hb0. next_field Hb. next_field Hb.
  replace (zlen (zip_content a) + 8 + zlen (block_pairs a)) with (central_off a - 24) in Hb
    by (unfold central_off, block_size; lia).
  rewrite (read_pod_at s _ 8 _ (at_off_head _ _ _ _ Hb)) by (change (256 ^ 8) with (2 ^ 64); lia).
  cbn [mbind res_bind]. next_field Hb.
  rewrite (read_exact_at s _ _ 16 (at_off_head _ _ _ _ Hb)) by done. cbn [mbind res_bind].
  rewrite bool_decide_true by done. cbn [negb].
  rewrite swrap_small, !s_arith_small by lia. cbn [mbind res_bind]. rewrite s_arith_small by lia. cbn [mbind res_bind].
  rewrite (seek_ok _ _ (zlen (zip_content a))) by (cbn [offset]; unfold central_off; lia). cbn [mbind res_bind contents].
  rewrite (read_pod_at s _ 8 _ Hb0) by (change (256 ^ 8) with (2 ^ 64); lia).
  cbn [mbind res_bind]. by rewrite Z.eqb_refl.
Qed.
End Layout.

(** C35: on an APK laid out as the format says, with any other signature schemes
    before the v2 block, the reader returns the first certificate of the v2 block,
    whatever the overflow checks; a version bound is met when the comment's
    versionCode is at least it. *)
Theorem read_certificate_finds a fuel oc version :
  signed_wf a -> (length (pairs_before a) < fuel)%nat ->
  version <= comment_version (comment a) \/ version < 0 ->
  read_certificate fuel oc (mkFile (apk_bytes a) 0) version = Some (Ok (v2_cert (v2 a))).
Proof.
  intros Hwf Hf Hv. unfold read_certificate. rewrite find_signing_block_ok by done.
  destruct Hwf as (_ & _ & Hh & Hc & Hs & Hp & _).
  rewrite (pair_loop_finds fuel oc (block_size a) _ _ (pairs_before a) (v2 a) (pairs_after a)); try done.
  - unfold block_size, block_pairs, v2_pair. lia.
  - pose proof (at_off_self (apk_bytes a) : at_off (apk_bytes a) 0 (apk_body a ++ eocd a)) as H.
    apply at_off_head in H. unfold apk_body in H. apply at_off_tail in H. next_field H. rewrite Z.add_0_l in H. by apply at_off_head in H.
Qed.

Definition demo_apk : Signed :=
  mkSigned #"PKzip" [mkPair 0x42726577 #"pad"]
    (mkV2 (replicate 12 (bof 1)) #"digest" (to_le 4 9) #"CERT" #"more") #"tail"
    #"PKcentral" (replicate 12 (bof 0)) #"versionCode=29001".

Lemma read_certificate_finds_witness :
  read_certificate 5 true (mkFile (apk_bytes demo_apk) 0) 29000 = Some (Ok #"CERT").
Proof.
  apply (read_certificate_finds demo_apk 5 true 29000).
  - split_and!; try done.
    + constructor; [split; [cbn; lia | done] | constructor].
    + intros i Hi. change (zlen (comment demo_apk)) with 17 in Hi.
      assert (exists n, i = Z.of_nat n /\ (n < 17)%nat) as (n & -> & Hn) by (exists (Z.to_nat i); lia).
      do 17 (destruct n as [|n]; [vm_compute; reflexivity |]). lia.
  - cbn. lia.
  - left. vm_compute. done.
Defined.

(** * Termination *)

(** The length field of an id-value pair, where there is one. *)
Definition len_at (s : bytes) (o : Z) : Z := of_le (take 8 (drop (Z.to_nat o) s)).

Lemma read_pod_inv n f v f' :
  0 < n -> 0 <= offset f -> read_pod n f = Ok (v, f') ->
  contents f' = contents f /\ offset f' = offset f + n /\ offset f + n <= zlen (contents f) /\
  v = of_le (take (Z.to_nat n) (drop (Z.to_nat (offset f)) (contents f))).
Proof.
  intros Hn Ho. unfold read_pod. intros ([b f1] & Hr & [= <- <-])%res_bind_Ok.
  pose proof (read_exact_inv n f b f1 ltac:(lia) Hr) as (Hc & Hof & Hle & _).
  unfold read_exact in Hr. destruct (n <=? _); [| done]. injection Hr as <- _. split_and!; [done | lia | | done].
  specialize (Hle Ho). lia.
Qed.

(** A pair that is skipped moves the file forward, unless its length does not fit
    an [i64]. *)
Lemma pair_step_forward oc sz f f' :
  0 <= offset f -> pair_step oc sz f = Ok (inr f') ->
  contents f' = contents f /\ offset f + 8 <= zlen (contents f) /\
  (len_at (contents f) (offset f) < 2 ^ 63 -> offset f + 8 <= offset f').
Proof.
  intros Ho. unfold pair_step. intros ([len f1] & H1 & H)%res_bind_Ok.
  apply read_pod_inv in H1 as (Hc1 & Ho1 & Hb1 & Hlen); [| lia | done].
  destruct (len =? sz); [done |]. apply res_bind_Ok in H as ([id f2] & H2 & H).
  apply read_pod_inv in H2 as (Hc2 & Ho2 & Hb2 & _); [| lia | lia].
  destruct (id =? _); [by apply res_bind_Ok in H as (? & _ & ?) |].
  apply res_bind_Ok in H as (d & Hd & H). apply res_bind_Ok in H as (f3 & H3 & [= ->]).
  unfold seek in H3. destruct ((0 <=? offset f2 + d) && (offset f2 + d <? 2 ^ 63)) eqn:Hr; [| done].
  injection H3 as <-. cbn [contents offset]. split_and!; [congruence | lia |].
  unfold len_at. change (Z.to_nat 8) with 8%nat in Hlen. rewrite <- Hlen. intros Hlt.
  assert (0 <= len) by (rewrite Hlen; apply of_le_range).
  rewrite swrap_small in Hd by lia. rewrite s_arith_small in Hd by lia. injection Hd as <-. lia.
Qed.

Lemma pair_loop_ends fuel oc sz f :
  0 <= offset f -> (Z.to_nat (zlen (contents f) - offset f) < fuel)%nat ->
  pair_loop fuel oc sz f = None ->
  exists o, offset f <= o /\ o + 8 <= zlen (contents f) /\ 2 ^ 63 <= len_at (contents f) o.
Proof.
  revert f. induction fuel as [|fuel IH]; intros f Ho Hf; [lia |]. cbn [pair_loop].
  destruct (pair_step oc sz f) as [[c|f']| |] eqn:E; try done.
  apply pair_step_forward in E as (Hc & Hb & Hfw); [| done]. intros Hn.
  destruct (decide (len_at (contents f) (offset f) < 2 ^ 63)) as [Hlt|]; [| exists (offset f); lia].
  specialize (Hfw Hlt). apply IH in Hn as (o & ? & ? & ?); rewrite ?Hc in *; [| lia | lia].
  exists o. lia.
Qed.

(** Reading and seeking leave the contents alone. *)
Lemma read_exact_contents n f b f' : read_exact n f = Ok (b, f') -> contents f' = contents f /\ offset f' = offset f + n.
Proof. unfold read_exact. destruct (n <=? _); [| done]. by intros [= _ <-]. Qed.

Lemma read_pod_contents n f v f' : read_pod n f = Ok (v, f') -> contents f' = contents f /\ offset f' = offset f + n.
Proof. unfold read_pod. intros ([b f1] & H & [= _ <-])%res_bind_Ok. by apply read_exact_contents in H. Qed.

Lemma seek_contents s f f' : seek s f = Ok f' -> contents f' = contents f /\ 0 <= offset f'.
Proof. unfold seek. destruct (_ && _) eqn:E; [| done]. intros [= <-]. split; [done | simpl; lia]. Qed.

Lemma eocd_loop_contents n i f f' : eocd_loop n i f = Ok f' -> contents f' = contents f.
Proof.
  revert i f. induction n as [|n IH]; intros i f; [done |]. cbn [eocd_loop].
  intros (f1 & [H1 _]%seek_contents & H)%res_bind_Ok.
  apply res_bind_Ok in H as ([c f2] & [H2 _]%read_pod_contents & H). rewrite <- H1, <- H2.
  destruct (c =? i).
  - apply res_bind_Ok in H as (f3 & [H3 _]%seek_contents & H).
    apply res_bind_Ok in H as ([m f4] & [H4 _]%read_pod_contents & H). rewrite <- H3, <- H4.
    destruct (m =? _); [by injection H as <- |]. destruct (i =? _); [done | eauto].
  - destruct (i =? _); [done | eauto].
Qed.

Lemma find_eocd_contents f f' : find_eocd f = Ok f' -> contents f' = contents f.
Proof. unfold find_eocd. generalize (Z.to_nat 0x10000). intros n. apply eocd_loop_contents. Qed.

Lemma check_version_contents v f f' : check_version v f = Ok f' -> contents f' = contents f.
Proof.
  unfold check_version. destruct (0 <=? v); [| by intros [= ->]].
  intros ([c f1] & [H1 _]%read_pod_contents & H)%res_bind_Ok.
  apply res_bind_Ok in H as ([b f2] & [H2 _]%read_exact_contents & H).
  destruct (_ <? _); [done |]. injection H as <-. congruence.
Qed.

Lemma find_signing_block_inv oc version f sz f' :
  find_signing_block oc version f = Ok (sz, f') -> contents f' = contents f /\ 0 <= offset f'.
Proof.
  unfold find_signing_block. intros (f1 & H1%find_eocd_contents & H)%res_bind_Ok.
  apply res_bind_Ok in H as (f2 & [H2 _]%seek_contents & H).
  apply res_bind_Ok in H as ([off f3] & [H3 _]%read_pod_contents & H).
  apply res_bind_Ok in H as (f4 & H4%check_version_contents & H).
  apply res_bind_Ok in H as (o & _ & H).
  apply res_bind_Ok in H as (f5 & [H5 _]%seek_contents & H).
  apply res_bind_Ok in H as ([b f6] & [H6 _]%read_pod_contents & H).
  apply res_bind_Ok in H as ([m f7] & [H7 _]%read_exact_contents & H).
  destruct (negb _); [done |]. apply res_bind_Ok in H as (neg & _ & H). apply res_bind_Ok in H as (d & _ & H).
  apply res_bind_Ok in H as (f8 & [H8 Ho]%seek_contents & H).
  apply res_bind_Ok in H as ([sz' f9] & [H9 Ho9]%read_pod_contents & H).
  destruct (negb _); [done |]. injection H as <- <-. split; [congruence | lia].
Qed.

(** the reader ends on every file, within as many rounds as the file has bytes,
    unless the file has a pair length of 2^63 or more. *)
Theorem read_certificate_terminates fuel oc f version :
  (length (contents f) < fuel)%nat ->
  (forall o, 0 <= o -> o + 8 <= zlen (contents f) -> len_at (contents f) o < 2 ^ 63) ->
  exists r, read_certificate fuel oc f version = Some r.
Proof.
  intros Hf Hsmall. unfold read_certificate.
  destruct (find_signing_block oc version f) as [[sz f']| |] eqn:E; [| eauto | eauto].
  apply find_signing_block_inv in E as [Hc Ho].
  destruct (pair_loop fuel oc sz f') as [[?|?|]|] eqn:El; [eauto.. |]. exfalso.
  apply pair_loop_ends in El as (o & Hge & Hle & Hbig); rewrite ?Hc in *; [| lia | lia].
  specialize (Hsmall o ltac:(lia) ltac:(lia)). lia.
Qed.

Lemma read_certificate_terminates_witness :
  exists r, read_certificate 40 true (mkFile (replicate 30 (bof 7)) 0) 1 = Some r.
Proof.
  apply read_certificate_terminates; [cbn; lia |]. cbn [contents]. intros o Ho Hle.
  rewrite length_replicate in Hle.
  assert (exists n, o = Z.of_nat n /\ (n < 23)%nat) as (n & -> & Hn) by (exists (Z.to_nat o); lia).
  do 23 (destruct n as [|n]; [vm_compute; reflexivity |]). lia.
Defined.

(** A signing block whose only pair claims the length 2^64 - 8. *)
Definition evil_block : bytes :=
  to_le 8 36 ++ to_le 8 (2 ^ 64 - 8) ++ to_le 4 0 ++ to_le 8 36 ++ APK_SIGNING_BLOCK_MAGIC.
Definition evil_apk : bytes :=
  evil_block ++ to_le 4 EOCD_MAGIC ++ replicate 12 (bof 0) ++ to_le 4 44 ++ to_le 2 0.

(** An APK whose first pair has the length 2^64-8 is never finished: the
    length is cast to -8, the seek by -8-4 undoes the twelve bytes just read, and
    the loop reads the same pair again for ever. *)
Theorem read_certificate_diverges fuel oc :
  read_certificate fuel oc (mkFile evil_apk 0) (-1) = None.
Proof.
  unfold read_certificate.
  assert (find_signing_block oc (-1) (mkFile evil_apk 0) = Ok (36, mkFile evil_apk 8)) as ->
    by (destruct oc; vm_compute; reflexivity).
  assert (pair_step oc 36 (mkFile evil_apk 8) = Ok (inr (mkFile evil_apk 8))) as Hstep
    by (destruct oc; vm_compute; reflexivity).
  assert (pair_loop fuel oc 36 (mkFile evil_apk 8) = None) as ->; [| done].
  induction fuel as [|fuel IH]; [done |]. cbn [pair_loop]. by rewrite Hstep.
Qed.

End Apk.
