(* ===== verification/Db.v ===== *)
(** core/db.rs: the daemon's use of its SQLite database.

    SQLite and the C++ wrapper that steps through a statement are behind the class
    [Sqlite]; what the code relies on, that each statement it sends does what SQL
    says, is the class [SqliteLaws], over the abstract tables of the database.
    [TableDb] is an instance of both. *)

From S2P Require Import Prelude Text Numeric.

Module Db.

(** * The engine *)

Inductive DbArg := Text (s : bytes) | Integer (n : Z).
Inductive Val := VInt (n : Z) | VText (s : bytes).

(** A result row: column names with the values of the statement. *)
Abbreviation row := (list (bytes * Val)).

Class Sqlite (S : Type) := {
  open_and_init_db : option S;                    (** [None]: a null pointer *)
  text_to_int : bytes -> Z;                       (** [sqlite3_column_int] of a text *)
  (** the clock, the statement and its arguments: the rows and the result code *)
  sql_exec_impl : Z -> bytes -> list DbArg -> S -> S * list row * Z
}.

Section Exec.
Context {S : Type} `{Sqlite S}.
Implicit Types db : option S.

(** [DbValues::get_int] and [get_text]; a missing column is NULL. *)
Definition get_int (values : row) (i : nat) : Z :=
  match values !! i with
  | Some (_, VInt n) => swrap 32 n
  | Some (_, VText s) => text_to_int s
  | None => 0
  end.
Definition get_text (values : row) (i : nat) : bytes :=
  match values !! i with
  | Some (_, VInt n) => fmt_dec n
  | Some (_, VText s) => s
  | None => []
  end.

(** [with_db]: the connection is opened at its first use; -1 without one. *)
Definition with_db {A} (f : S -> S * A * Z) (dflt : A) db : option S * A * Z :=
  let db := match db with Some s => Some s | None => open_and_init_db end in
  match db with
  | Some s => let '(s, a, rc) := f s in (Some s, a, rc)
  | None => (None, dflt, -1)
  end.

(** [db_exec_with_rows]: [on_row] runs on every row that arrives, also when the
    statement fails later. *)
Definition db_exec_with_rows {T} (now : Z) (sql : bytes) (args : list DbArg)
    (on_row : row -> T -> T) (out : T) db : option S * T * Z :=
  with_db (fun s => let '(s, rows, rc) := sql_exec_impl now sql args s in
                    (s, foldl (fun t r => on_row r t) out rows, rc)) out db.

Definition db_exec (now : Z) (sql : bytes) (args : list DbArg) db : option S * Z :=
  let '(db, _, rc) := db_exec_with_rows now sql args (fun _ t => t) tt db in (db, rc).

(** [SqliteReturn::sql_result] *)
Definition sql_result (rc : Z) : res Z unit := if rc =? 0 then Ok tt else Err rc.

(** * Settings *)

Inductive RootAccess := Disabled | AppsOnly | AdbOnly | AppsAndAdb.
Inductive MultiuserMode := OwnerOnly | OwnerManaged | User.

#[export] Instance RootAccess_eq_dec : EqDecision RootAccess.
Proof using. solve_decision. Defined.
#[export] Instance MultiuserMode_eq_dec : EqDecision MultiuserMode.
Proof using. solve_decision. Defined.

(** [FromPrimitive::from_i32(..).unwrap_or_default()] *)
Definition root_access_from (n : Z) : RootAccess :=
  if n =? 0 then Disabled else if n =? 1 then AppsOnly else if n =? 2 then AdbOnly else AppsAndAdb.
Definition multiuser_from (n : Z) : MultiuserMode :=
  if n =? 1 then OwnerManaged else if n =? 2 then User else OwnerOnly.

(** [MntNsMode] keeps its number; the default is [Requester]. *)
Definition MntNs_Requester : Z := 1.

Record DbSettings := mkDbSettings {
  root_access : RootAccess;
  multiuser_mode : MultiuserMode;
  mnt_ns : Z;
  boot_count : Z;
  denylist : bool;
  zygisk : bool
}.

Definition DbSettings_default : DbSettings :=
  mkDbSettings AppsAndAdb OwnerOnly MntNs_Requester 0 false false.

Inductive DbEntryKey :=
| KRootAccess | KSuMultiuserMode | KSuMntNs | KDenylistConfig | KZygiskConfig | KBootloopCount | KSuManager.

#[export] Instance DbEntryKey_eq_dec : EqDecision DbEntryKey.
Proof using. solve_decision. Defined.

Definition to_str (k : DbEntryKey) : bytes :=
  match k with
  | KRootAccess => #"root_access"
  | KSuMultiuserMode => #"multiuser_mode"
  | KSuMntNs => #"mnt_ns"
  | KDenylistConfig => #"denylist"
  | KZygiskConfig => #"zygisk"
  | KBootloopCount => #"bootloop"
  | KSuManager => #"requester"
  end.

(** The loop over the columns: the last [key] and the last [value]. *)
Definition key_value (values : row) : bytes * Z :=
  foldl (fun kv i =>
    match values !! i with
    | Some (column, _) =>
        if bool_decide (column = #"key") then (get_text values i, kv.2)
        else if bool_decide (column = #"value") then (kv.1, get_int values i) else kv
    | None => kv
    end) ([], 0) (seq 0 (length values)).

(** What a settings row does, once its key and value are known. *)
Definition set_field (key : bytes) (value : Z) (s : DbSettings) : DbSettings :=
  let '(mkDbSettings ra mm mn bc dl zy) := s in
  if bool_decide (key = #"root_access") then mkDbSettings (root_access_from value) mm mn bc dl zy
  else if bool_decide (key = #"multiuser_mode") then mkDbSettings ra (multiuser_from value) mn bc dl zy
  else if bool_decide (key = #"mnt_ns") then mkDbSettings ra mm value bc dl zy
  else if bool_decide (key = #"denylist") then mkDbSettings ra mm mn bc (negb (value =? 0)) zy
  else if bool_decide (key = #"zygisk") then mkDbSettings ra mm mn bc dl (negb (value =? 0))
  else if bool_decide (key = #"bootloop") then mkDbSettings ra mm mn value dl zy
  else s.

(** [SqlTable for DbSettings] *)
Definition DbSettings_on_row (values : row) (s : DbSettings) : DbSettings :=
  let '(key, value) := key_value values in set_field key value s.

Definition sql_set_setting : bytes := #"INSERT OR REPLACE INTO settings (key,value) VALUES(?,?)".
Definition sql_get_setting : bytes := #"SELECT value FROM settings WHERE key=?".
Definition sql_all_settings : bytes := #"SELECT * FROM settings".
Definition sql_get_string : bytes := #"SELECT value FROM strings WHERE key=?".
Definition sql_rm_string : bytes := #"DELETE FROM strings WHERE key=?".

Definition set_db_setting (now : Z) (key : DbEntryKey) (value : Z) db : option S * res Z unit :=
  let '(db, rc) := db_exec now sql_set_setting [Text (to_str key); Integer value] db in (db, sql_result rc).

(** The value when there is no row, [-1] for a key that has none. *)
Definition setting_default (is_emulator : bool) (key : DbEntryKey) : Z :=
  match key with
  | KRootAccess => 3
  | KSuMultiuserMode => 0
  | KSuMntNs => MntNs_Requester
  | KDenylistConfig => 0
  | KZygiskConfig => if is_emulator then 1 else 0
  | KBootloopCount => 0
  | KSuManager => -1
  end.

Definition get_db_setting (is_emulator : bool) (now : Z) (key : DbEntryKey) db : option S * Z :=
  let '(db, val, _) :=
    db_exec_with_rows now sql_get_setting [Text (to_str key)] (fun values _ => get_int values 0)
      (setting_default is_emulator key) db in
  (db, val).

Definition get_db_settings (is_emulator : bool) (now : Z) db : option S * res Z DbSettings :=
  let cfg := mkDbSettings AppsAndAdb OwnerOnly MntNs_Requester 0 false is_emulator in
  let '(db, cfg, rc) := db_exec_with_rows now sql_all_settings [] DbSettings_on_row cfg db in
  (db, sql_result rc ≫= fun _ => Ok cfg).

Definition get_db_string (now : Z) (key : DbEntryKey) db : option S * bytes :=
  let '(db, val, _) :=
    db_exec_with_rows now sql_get_string [Text (to_str key)] (fun values val => val ++ get_text values 0) [] db in
  (db, val).

Definition rm_db_string (now : Z) (key : DbEntryKey) db : option S * res Z unit :=
  let '(db, rc) := db_exec now sql_rm_string [Text (to_str key)] db in (db, sql_result rc).

(** The line [db_exec_for_cli] sends for a row. *)
Definition cli_row (values : row) : bytes :=
  foldl (fun out i =>
    let out := if (i =? 0)%nat then out else out ++ #"|" in
    match values !! i with
    | Some (column, _) => out ++ column ++ #"=" ++ get_text values i
    | None => out
    end) [] (seq 0 (length values)).

(** The lines sent to the client, the empty one last. *)
Definition db_exec_for_cli (now : Z) (sql : bytes) db : option S * list bytes :=
  let '(db, out, _) := db_exec_with_rows now sql [] (fun values out => out ++ [cli_row values]) [] db in
  (db, out ++ [[]]).
End Exec.

(** * What the statements do *)

Record PolicyRow := mkPolicyRow { p_policy : Z; p_until : Z; p_logging : Z; p_notification : Z }.

(** [until=0 OR until>strftime('%s', 'now')] *)
Definition in_force (now : Z) (p : PolicyRow) : bool := (p_until p =? 0) || (now <? p_until p).

Definition sql_root_settings : bytes :=
  #"SELECT policy, logging, notification FROM policies WHERE uid=? AND (until=0 OR until>strftime('%s', 'now'))".
Definition sql_policy : bytes :=
  #"SELECT policy FROM policies WHERE uid=? AND (until=0 OR until>strftime('%s', 'now'))".
Definition sql_uids : bytes := #"SELECT uid FROM policies".
Definition sql_delete_policy : bytes := #"DELETE FROM policies WHERE uid=?".

Definition setting_row (kv : bytes * Z) : row := [(#"key", VText kv.1); (#"value", VInt kv.2)].
Definition policy_cell (p : PolicyRow) : row := [(#"policy", VInt (p_policy p))].
Definition policy_cells (p : PolicyRow) : row :=
  [(#"policy", VInt (p_policy p)); (#"logging", VInt (p_logging p)); (#"notification", VInt (p_notification p))].

(** The rows of a lookup that may fail. *)
Definition row_of {A} (f : A -> row) (o : option A) : list row := match o with Some a => [f a] | None => [] end.
Definition force_filter (now : Z) (o : option PolicyRow) : option PolicyRow :=
  match o with Some p => if in_force now p then Some p else None | None => None end.

Class SqliteLaws (S : Type) `{Sqlite S} := {
  settings : S -> gmap bytes Z;
  strings : S -> gmap bytes bytes;
  policies : S -> gmap Z PolicyRow;
  all_settings_law now s : exists l, l ≡ₚ map_to_list (settings s) /\
    sql_exec_impl now sql_all_settings [] s = (s, map setting_row l, 0);
  get_setting_law now s k :
    sql_exec_impl now sql_get_setting [Text k] s =
    (s, row_of (fun v => [(#"value", VInt v)]) (settings s !! k), 0);
  set_setting_law now s k v : exists s',
    sql_exec_impl now sql_set_setting [Text k; Integer v] s = (s', [], 0) /\
    settings s' = <[k := v]> (settings s) /\ strings s' = strings s /\ policies s' = policies s;
  get_string_law now s k :
    sql_exec_impl now sql_get_string [Text k] s =
    (s, row_of (fun v => [(#"value", VText v)]) (strings s !! k), 0);
  rm_string_law now s k : exists s',
    sql_exec_impl now sql_rm_string [Text k] s = (s', [], 0) /\
    settings s' = settings s /\ strings s' = delete k (strings s) /\ policies s' = policies s;
  root_settings_law now s uid :
    sql_exec_impl now sql_root_settings [Integer uid] s =
    (s, row_of policy_cells (force_filter now (policies s !! uid)), 0);
  policy_law now s uid :
    sql_exec_impl now sql_policy [Integer uid] s =
    (s, row_of policy_cell (force_filter now (policies s !! uid)), 0);
  uids_law now s : exists l, l ≡ₚ (map_to_list (policies s)).*1 /\
    sql_exec_impl now sql_uids [] s = (s, map (fun u => [(#"uid", VInt u)]) l, 0);
  delete_policy_law now s uid : exists s',
    sql_exec_impl now sql_delete_policy [Integer uid] s = (s', [], 0) /\
    settings s' = settings s /\ strings s' = strings s /\ policies s' = delete uid (policies s)
}.

(** ** An instance: the three tables *)

Record TableDb := mkTableDb { t_settings : gmap bytes Z; t_strings : gmap bytes bytes; t_policies : gmap Z PolicyRow }.

Definition table_exec (now : Z) (sql : bytes) (args : list DbArg) (s : TableDb) : TableDb * list row * Z :=
  let '(mkTableDb st str pol) := s in
  if bool_decide (sql = sql_all_settings) then (s, map setting_row (map_to_list st), 0)
  else if bool_decide (sql = sql_uids) then (s, map (fun u => [(#"uid", VInt u)]) (map_to_list pol).*1, 0)
  else match args with
  | [Text k; Integer v] =>
      if bool_decide (sql = sql_set_setting) then (mkTableDb (<[k := v]> st) str pol, [], 0) else (s, [], 1)
  | [Text k] =>
      if bool_decide (sql = sql_get_setting) then (s, row_of (fun v => [(#"value", VInt v)]) (st !! k), 0)
      else if bool_decide (sql = sql_get_string) then (s, row_of (fun v => [(#"value", VText v)]) (str !! k), 0)
      else if bool_decide (sql = sql_rm_string) then (mkTableDb st (delete k str) pol, [], 0) else (s, [], 1)
  | [Integer uid] =>
      if bool_decide (sql = sql_root_settings)
      then (s, row_of policy_cells (force_filter now (pol !! uid)), 0)
      else if bool_decide (sql = sql_policy)
      then (s, row_of policy_cell (force_filter now (pol !! uid)), 0)
      else if bool_decide (sql = sql_delete_policy) then (mkTableDb st str (delete uid pol), [], 0) else (s, [], 1)
  | _ => (s, [], 1)
  end.

#[export] Instance TableDb_sqlite : Sqlite TableDb := {
  open_and_init_db := Some (mkTableDb ∅ ∅ ∅);
  text_to_int s := default 0 (parse_sint 32 10 s);
  sql_exec_impl := table_exec
}.

#[export] Program Instance TableDb_laws : SqliteLaws TableDb := {
  settings := t_settings; strings := t_strings; policies := t_policies
}.
Next Obligation. intros now [st str pol]. exists (map_to_list st). split; done. Qed.
Next Obligation. by intros now [st str pol] k. Qed.
Next Obligation. intros now [st str pol] k v. by eexists. Qed.
Next Obligation. by intros now [st str pol] k. Qed.
Next Obligation. intros now [st str pol] k. by eexists. Qed.
Next Obligation. by intros now [st str pol] uid. Qed.
Next Obligation. by intros now [st str pol] uid. Qed.
Next Obligation. intros now [st str pol]. eexists. split; [reflexivity | done]. Qed.
Next Obligation. intros now [st str pol] uid. by eexists. Qed.

(** * Reading the settings *)

(** The settings a table stands for, over given defaults. *)
Definition settings_over (m : gmap bytes Z) (d : DbSettings) : DbSettings :=
  let get {A} (k : bytes) (f : Z -> A) (dflt : A) : A :=
    match m !! k with Some v => f (swrap 32 v) | None => dflt end in
  mkDbSettings (get #"root_access" root_access_from (root_access d))
    (get #"multiuser_mode" multiuser_from (multiuser_mode d))
    (get #"mnt_ns" (fun v => v) (mnt_ns d))
    (get #"bootloop" (fun v => v) (boot_count d))
    (get #"denylist" (fun v => negb (v =? 0)) (denylist d))
    (get #"zygisk" (fun v => negb (v =? 0)) (zygisk d)).

Definition settings_of (is_emulator : bool) (m : gmap bytes Z) : DbSettings :=
  settings_over m (mkDbSettings AppsAndAdb OwnerOnly MntNs_Requester 0 false is_emulator).

Lemma settings_over_insert k v m d :
  m !! k = None -> settings_over (<[k := v]> m) d = settings_over m (set_field k (swrap 32 v) d).
Proof.
  intros Hk. destruct d as [ra mm mn bc dl zy]. unfold settings_over, set_field.
  repeat (case_bool_decide; [subst k; rewrite Hk, lookup_insert_eq, !lookup_insert_ne by done; done |]).
  by rewrite !lookup_insert_ne by congruence.
Qed.

Lemma fold_set_field (l : list (bytes * Z)) d :
  NoDup l.*1 ->
  foldl (fun d kv => set_field kv.1 (swrap 32 kv.2) d) d l = settings_over (list_to_map l) d.
Proof.
  revert d. induction l as [|[k v] l IH]; intros d Hnd.
  - by destruct d.
  - cbn [fmap list_fmap fst snd] in Hnd. apply NoDup_cons in Hnd as [Hk Hnd].
    cbn [foldl fst snd]. rewrite IH, list_to_map_cons by done.
    rewrite (settings_over_insert k v) by by apply not_elem_of_list_to_map_1. done.
Qed.

Lemma foldl_map_f {A B C} (f : A -> C -> A) (g : B -> C) a l :
  foldl f a (map g l) = foldl (fun a b => f a (g b)) a l.
Proof. revert a. induction l; simpl; auto. Qed.

Lemma foldl_ext {A B} (f g : A -> B -> A) a l : (forall a b, f a b = g a b) -> foldl f a l = foldl g a l.
Proof. intros Hfg. revert a. induction l; intros; simpl; [done |]. rewrite Hfg. auto. Qed.

Section Laws.
Context {S : Type} `{SqliteLaws S}.

Lemma on_row_setting (kv : bytes * Z) d :
  DbSettings_on_row (setting_row kv) d = set_field kv.1 (swrap 32 kv.2) d.
Proof using. by destruct kv. Qed.

(** The settings are read whatever order the rows come in. *)
Lemma get_db_settings_eq em now (s : S) :
  get_db_settings em now (Some s) = (Some s, Ok (settings_of em (settings s))).
Proof.
  unfold get_db_settings, db_exec_with_rows, with_db.
  destruct (all_settings_law now s) as (l & Hl & ->). cbn.
  rewrite foldl_map_f. erewrite foldl_ext; [| intros d kv; apply on_row_setting].
  rewrite fold_set_field.
  2:{ rewrite Hl. apply NoDup_fst_map_to_list. }
  rewrite (list_to_map_proper l (map_to_list (settings s))); [| | done].
  - by rewrite list_to_map_to_list.
  - rewrite Hl. apply NoDup_fst_map_to_list.
Qed.

Lemma get_db_setting_eq em now key (s : S) :
  get_db_setting em now key (Some s) =
  (Some s, match settings s !! to_str key with Some v => swrap 32 v | None => setting_default em key end).
Proof.
  unfold get_db_setting, db_exec_with_rows, with_db. rewrite get_setting_law.
  by destruct (settings s !! to_str key).
Qed.

Lemma get_db_string_eq now key (s : S) :
  get_db_string now key (Some s) = (Some s, default [] (strings s !! to_str key)).
Proof.
  unfold get_db_string, db_exec_with_rows, with_db. rewrite get_string_law.
  by destruct (strings s !! to_str key).
Qed.

Lemma set_db_setting_eq now key v (s : S) :
  exists s', set_db_setting now key v (Some s) = (Some s', Ok tt) /\
    settings s' = <[to_str key := v]> (settings s) /\ strings s' = strings s /\ policies s' = policies s.
Proof.
  destruct (set_setting_law now s (to_str key) v) as (s' & He & ?).
  exists s'. split; [| done]. unfold set_db_setting, db_exec, db_exec_with_rows, with_db. by rewrite He.
Qed.

Lemma rm_db_string_eq now key (s : S) :
  exists s', rm_db_string now key (Some s) = (Some s', Ok tt) /\
    settings s' = settings s /\ strings s' = delete (to_str key) (strings s) /\ policies s' = policies s.
Proof.
  destruct (rm_string_law now s (to_str key)) as (s' & He & ?).
  exists s'. split; [| done]. unfold rm_db_string, db_exec, db_exec_with_rows, with_db. by rewrite He.
Qed.
End Laws.

Lemma to_str_inj k k' : to_str k = to_str k' -> k = k'.
Proof. destruct k, k'; done || discriminate. Qed.

(** the settings interface: a value that fits the column's 32 bits is read back
    after it is set, every other setting keeps its value, and reading all settings at
    once agrees with the table, whatever the order of its rows. *)
Theorem settings_roundtrip {S} `{SqliteLaws S} em now key v (s : S) :
  - 2 ^ 31 <= v < 2 ^ 31 ->
  let '(db, r) := set_db_setting now key v (Some s) in
  r = Ok tt /\
  (forall key', (get_db_setting em now key' db).2 =
     if decide (key' = key) then v else (get_db_setting em now key' (Some s)).2) /\
  (get_db_settings em now db).2 = Ok (settings_of em (<[to_str key := v]> (settings s))).
Proof.
  intros Hv. destruct (set_db_setting_eq now key v s) as (s' & -> & Hs & _).
  split; [done |]. rewrite get_db_settings_eq, Hs. split; [| done].
  intros key'. rewrite !get_db_setting_eq, Hs. cbn [snd]. case_decide as Hk.
  - subst. rewrite lookup_insert_eq. unfold swrap. change (2 ^ (32 - 1)) with (2 ^ 31).
    rewrite Z.mod_small by lia. lia.
  - rewrite lookup_insert_ne; [done |]. intros Heq%to_str_inj. congruence.
Qed.

Lemma settings_roundtrip_witness :
  (get_db_setting false 0 KBootloopCount
     (set_db_setting 0 KBootloopCount 2 (Some (mkTableDb ∅ ∅ ∅))).1).2 = 2.
Proof.
  pose proof (settings_roundtrip false 0 KBootloopCount 2 (mkTableDb ∅ ∅ ∅) ltac:(lia)) as Hr.
  destruct (set_db_setting 0 KBootloopCount 2 (Some (mkTableDb ∅ ∅ ∅))) as [db r].
  destruct Hr as (_ & Hg & _). exact (Hg KBootloopCount).
Defined.
End Db.
