(* ===== verification/SqlExec.v ===== *)
(** core/sqlite.cpp and core/db.rs: how a text of SQL with arguments is executed.  The text is
    prepared statement by statement; a callback binds the parameters of each, one after the
    other, from a cursor over the arguments; then the statement is stepped to its end.

    SQLite is the class [Engine]. *)

From S2P Require Import Prelude Text Numeric Db.

Module SqlExec.
Import Db.

Class Engine (S : Type) := {
  Stmt : Type;
  (** [sqlite3_prepare_v2]: an error code, or the statement (none for a comment) and the text after it *)
  prepare : S -> bytes -> Z + (option Stmt * bytes);
  parameter_count : Stmt -> nat;                             (** [sqlite3_bind_parameter_count] *)
  bind_rc : Stmt -> nat -> DbArg -> Z;                       (** [bind_text] and [bind_int64] *)
  (** [sqlite3_step] until it is no longer SQLITE_ROW: the rows, and nothing for SQLITE_DONE *)
  run : Z -> Stmt -> gmap nat DbArg -> S -> S * list row * option Z
}.

(** What the loop relies on: a statement is taken off a text that is not empty. *)
Class EngineLaws (S : Type) `{Engine S} := {
  prepare_advances s sql st tail : sql <> [] -> prepare s sql = inr (st, tail) -> (length tail < length sql)%nat
}.

Section Exec.
Context {S : Type} `{Engine S}.

(** [DbArgs] *)
Record DbArgs := mkDbArgs { args : list DbArg; curr : nat }.

(** [bind_arguments]: too many parameters stay NULL. *)
Definition bind_arguments (v : DbArgs) (idx : nat) (st : Stmt) (b : gmap nat DbArg) : DbArgs * gmap nat DbArg * Z :=
  match args v !! curr v with
  | Some arg =>
      let rc := bind_rc st idx arg in
      (mkDbArgs (args v) (curr v + 1), if rc =? 0 then <[idx := arg]> b else b, rc)
  | None => (v, b, 0)
  end.

(** [for (int i = 1; i <= count; ++i)] with [sql_chk]; [n] are left, the next is [i]. *)
Fixpoint bind_all (n i : nat) (st : Stmt) (v : DbArgs) (b : gmap nat DbArg) : Z + (DbArgs * gmap nat DbArg) :=
  match n with
  | O => inr (v, b)
  | Datatypes.S n =>
      let '(v, b, rc) := bind_arguments v i st b in
      if rc =? 0 then bind_all n (Datatypes.S i) st v b else inl rc
  end.

(** [sql_exec_impl]: nothing when the fuel is used up, else the database, the rows and the code. *)
Fixpoint sql_loop (fuel : nat) (now : Z) (sql : bytes) (bind_callback : option DbArgs) (s : S) (rows : list row) : option (S * list row * Z) :=
  match fuel, sql with
  | _, [] => Some (s, rows, 0)
  | O, _ => None
  | Datatypes.S fuel, _ =>
      match prepare s sql with
      | inl rc => Some (s, rows, rc)
      | inr (None, tail) => sql_loop fuel now tail bind_callback s rows
      | inr (Some st, tail) =>
          match match bind_callback with
                | Some v => match bind_all (parameter_count st) 1 st v ∅ with inl rc => inl rc | inr (v, b) => inr (Some v, b) end
                | None => inr (None, ∅)
                end with
          | inl rc => Some (s, rows, rc)
          | inr (bind_callback, b) =>
              let '(s, new, end_) := run now st b s in
              match end_ with
              | Some rc => Some (s, rows ++ new, rc)
              | None => sql_loop fuel now tail bind_callback s (rows ++ new)
              end
          end
      end
  end.
Definition sql_exec_impl (now : Z) (sql : bytes) (bind_callback : option DbArgs) (s : S) : option (S * list row * Z) :=
  sql_loop (length sql) now sql bind_callback s [].

(** [db_exec_impl]: no callback without arguments. *)
Definition db_exec_impl (now : Z) (sql : bytes) (l : list DbArg) (s : S) : option (S * list row * Z) :=
  sql_exec_impl now sql (if is_empty l then None else Some (mkDbArgs l 0)) s.

(** * The reference: every statement takes its parameters off the front of the arguments *)

Definition bound (n : nat) (l : list DbArg) : gmap nat DbArg := list_to_map (zip (seq 1 n) l).

(** The first error of binding. *)
Definition bind_error (i n : nat) (st : Stmt) (l : list DbArg) : option Z :=
  head (filter (fun rc => rc <> 0) (zip_with (bind_rc st) (seq i n) l)).

Inductive executes (now : Z) : bytes -> list DbArg -> S -> S -> list row -> Z -> Prop :=
| ex_end l s : executes now [] l s s [] 0
| ex_syntax sql l s rc : sql <> [] -> prepare s sql = inl rc -> executes now sql l s s [] rc
| ex_skip sql tail l s s' rows rc :
    sql <> [] -> prepare s sql = inr (None, tail) -> executes now tail l s s' rows rc -> executes now sql l s s' rows rc
| ex_bind sql st tail l s rc :
    sql <> [] -> prepare s sql = inr (Some st, tail) -> bind_error 1 (parameter_count st) st l = Some rc -> executes now sql l s s [] rc
| ex_fail sql st tail l s s' rows rc :
    sql <> [] -> prepare s sql = inr (Some st, tail) -> bind_error 1 (parameter_count st) st l = None ->
    run now st (bound (parameter_count st) l) s = (s', rows, Some rc) -> executes now sql l s s' rows rc
| ex_next sql st tail l s s1 s2 rows rows' rc :
    sql <> [] -> prepare s sql = inr (Some st, tail) -> bind_error 1 (parameter_count st) st l = None ->
    run now st (bound (parameter_count st) l) s = (s1, rows, None) ->
    executes now tail (drop (parameter_count st) l) s1 s2 rows' rc -> executes now sql l s s2 (rows ++ rows') rc.

(** ** The cursor *)

Lemma not_bound_before i n (l : list DbArg) : (list_to_map (zip (seq (Datatypes.S i) n) l) : gmap nat DbArg) !! i = None.
Proof.
  apply not_elem_of_list_to_map_1. intros ([k a] & -> & Hk)%list_elem_of_fmap. apply elem_of_zip_l, elem_of_seq in Hk. cbn in Hk. lia.
Qed.

Lemma bind_all_spec n i st v b :
  let l := drop (curr v) (args v) in
  match bind_error i n st l with
  | Some rc => bind_all n i st v b = inl rc
  | None => exists v', bind_all n i st v b = inr (v', list_to_map (zip (seq i n) l) ∪ b) /\ args v' = args v /\ drop (curr v') (args v) = drop n l
  end.
Proof.
  cbv zeta. revert i v b. induction n as [|n IH]; intros i v b.
  - exists v. cbn. by rewrite (left_id_L ∅ (∪)).
  - cbn [bind_all]. unfold bind_arguments. destruct (args v !! curr v) as [a|] eqn:Ea.
    + rewrite (drop_S _ _ _ Ea). unfold bind_error. cbn [seq zip_with]. rewrite filter_cons.
      destruct (Z.eqb_spec (bind_rc st i a) 0) as [E0|E0]; [rewrite decide_False by (intros Hn; by apply Hn) | by rewrite decide_True].
      specialize (IH (Datatypes.S i) (mkDbArgs (args v) (curr v + 1)) (<[i := a]> b)). cbn [args curr] in IH. rewrite Nat.add_1_r in *. unfold bind_error in IH.
      destruct (head _) as [rc|]; [exact IH |]. destruct IH as (v' & -> & Hv & Hd). exists v'. rewrite Hd. split_and!; [| done | done].
      do 2 f_equal. cbn [zip zip_with]. rewrite list_to_map_cons, <- insert_union_l. by rewrite (insert_union_r _ _ _ _ (not_bound_before i n _)).
    + assert (drop (curr v) (args v) = []) as Hl by (apply drop_ge; by apply lookup_ge_None). specialize (IH (Datatypes.S i) v b). rewrite Hl in *.
      unfold bind_error in *. rewrite !zip_with_nil_r in *. cbn in *. rewrite drop_nil in IH. exact IH.
Qed.

(** * Theorems *)

Lemma sql_loop_spec `{!EngineLaws S} fuel now sql v s rows :
  (length sql <= fuel)%nat ->
  exists s' rows' rc, sql_loop fuel now sql (Some v) s rows = Some (s', rows ++ rows', rc) /\ executes now sql (drop (curr v) (args v)) s s' rows' rc.
Proof.
  revert sql v s rows. induction fuel as [|fuel IH]; intros [|c sql] v s rows Hf; try (cbn in Hf; lia);
    try (by exists s, [], 0; cbn; rewrite app_nil_r; split; [| constructor]).
  set (text := c :: sql) in *. assert (text <> []) as Hne by done. cbn [sql_loop]. fold text.
  destruct (prepare s text) as [rc|[[st|] tail]] eqn:Ep.
  - exists s, [], rc. rewrite app_nil_r. split; [done | by apply ex_syntax].
  - pose proof (prepare_advances _ _ _ _ Hne Ep) as Hlt. pose proof (bind_all_spec (parameter_count st) 1 st v ∅) as Hb. cbv zeta in Hb.
    destruct (bind_error 1 _ st _) as [rc|] eqn:Ee; [rewrite Hb; exists s, [], rc; rewrite app_nil_r; split; [done | by eapply ex_bind] |].
    destruct Hb as (v' & -> & Hv & Hd). rewrite (right_id_L ∅ (∪)). fold (bound (parameter_count st) (drop (curr v) (args v))).
    destruct (run now st _ s) as [[s1 new] [rc|]] eqn:Er; [by exists s1, new, rc; split; [| by eapply ex_fail] |].
    destruct (IH tail v' s1 (rows ++ new) ltac:(lia)) as (s2 & rows' & rc & -> & He). exists s2, (new ++ rows'), rc. rewrite app_assoc. split; [done |].
    eapply ex_next; [done.. |]. by rewrite Hv, Hd in He.
  - pose proof (prepare_advances _ _ _ _ Hne Ep). destruct (IH tail v s rows ltac:(lia)) as (s2 & rows' & rc & -> & He). exists s2, rows', rc. split; [done | by eapply ex_skip].
Qed.

(** The loop over the statements ends, and gives the parameters of all of them, in order,
    the arguments in order; parameters without an argument are NULL.  The first error
    ends it, with the rows that were read before. *)
Theorem db_exec_impl_spec `{!EngineLaws S} now sql l s :
  l <> [] -> exists s' rows rc, db_exec_impl now sql l s = Some (s', rows, rc) /\ executes now sql l s s' rows rc.
Proof.
  intros Hl. unfold db_exec_impl, sql_exec_impl. destruct l as [|a l]; [done |]. cbn [is_empty].
  destruct (sql_loop_spec (length sql) now sql (mkDbArgs (a :: l) 0) s [] (Nat.le_refl _)) as (s' & rows & rc & -> & He). by exists s', rows, rc.
Qed.

End Exec.

(** * The tables of Db as an engine *)

Definition question : byte := bof 63.
Definition params (sql : bytes) : nat := length (filter (fun c => c = question) sql).

#[export] Instance table_engine : Engine TableDb := {
  Stmt := bytes;
  prepare _ sql := inr (Some sql, []);
  parameter_count := params;
  bind_rc _ _ _ := 0;
  run now sql b s :=
    let '(s, rows, rc) := table_exec now sql (omap (fun i => b !! i) (seq 1 (params sql))) s in
    (s, rows, if rc =? 0 then None else Some rc)
}.
#[export] Instance table_engine_laws : EngineLaws TableDb.
Proof. constructor. intros s sql st tail Hne [= <- <-]. destruct sql; [done | cbn; lia]. Qed.

Lemma bound_back i n (l : list DbArg) b :
  length l = n -> (forall k a, l !! k = Some a -> b !! (i + k)%nat = Some a) -> omap (fun i => (b : gmap nat DbArg) !! i) (seq i n) = l.
Proof.
  revert i l. induction n as [|n IH]; intros i [|a l] Hn Hb; try done. cbn. rewrite <- (Nat.add_0_r i) at 1. rewrite (Hb 0%nat a eq_refl). f_equal.
  apply IH; [by injection Hn |]. intros k x Hk. rewrite Nat.add_succ_comm. by apply Hb.
Qed.

Lemma bound_lookup n (l : list DbArg) k a : (length l <= n)%nat -> l !! k = Some a -> bound n l !! (1 + k)%nat = Some a.
Proof.
  intros Hn Hk. unfold bound. pose proof (lookup_lt_Some _ _ _ Hk). apply elem_of_list_to_map_1'.
  - intros a' [i [H1 H2]%lookup_zip_Some]%list_elem_of_lookup. cbn in *. apply lookup_seq in H1 as [? ?]. assert (i = k) as -> by lia. congruence.
  - apply list_elem_of_lookup. exists k. apply lookup_zip_Some. cbn. split; [apply lookup_seq; lia | done].
Qed.

Lemma table_binds i n (sql : bytes) l : bind_error i n sql l = None.
Proof. unfold bind_error. revert i l. induction n as [|n IH]; intros i [|a l]; try done. cbn. apply IH. Qed.

(** The layer below the interface that the daemon's theorems are proved against: a statement
    with as many parameters as arguments does what [sql_exec_impl] of [Sqlite] says, for
    the engine that holds the tables. *)
Theorem engine_refines now sql l (s : TableDb) :
  sql <> [] -> params sql = length l ->
  db_exec_impl now sql l s = Some (Db.sql_exec_impl now sql l s).
Proof.
  intros Hne Hp. assert (omap (fun i => bound (params sql) l !! i) (seq 1 (params sql)) = l) as Hb
    by (apply bound_back; [done |]; intros k a Hk; apply bound_lookup; [lia | done]).
  unfold db_exec_impl. destruct l as [|a l].
  - unfold sql_exec_impl. destruct sql as [|c sql]; [done |]. cbn [is_empty length sql_loop prepare table_engine]. cbn [run table_engine]. rewrite Hp. cbn [length seq omap list_omap].
    cbn [Db.sql_exec_impl TableDb_sqlite]. destruct (table_exec now (c :: sql) [] s) as [[s' rows] rc]. destruct (Z.eqb_spec rc 0) as [->|]; [by destruct (length sql) | done].
  - destruct (sql_loop_spec (length sql) now sql (mkDbArgs (a :: l) 0) s [] (Nat.le_refl _)) as (s' & rows & rc & He & Hx).
    cbn [is_empty]. unfold sql_exec_impl. rewrite He. cbn [app args curr] in *. rewrite drop_0 in Hx. f_equal. cbn [Db.sql_exec_impl TableDb_sqlite].
    inversion Hx as [| | |? ? ? ? ? ? Hn Hpr Hbe |? st tail ? ? ? ? ? Hn Hpr Hbe Hr |? st tail ? ? s1 ? rws ? ? Hn Hpr Hbe Hr Hrest]; subst; try done.
    + by rewrite table_binds in Hbe.
    + cbn [prepare table_engine] in Hpr. injection Hpr as <- <-. cbn [run parameter_count table_engine] in Hr. rewrite Hb in Hr.
      destruct (table_exec now sql (a :: l) s) as [[s2 r2] rc2]. destruct (Z.eqb_spec rc2 0); [done |]. by injection Hr as -> -> ->.
    + cbn [prepare table_engine] in Hpr. injection Hpr as <- <-. cbn [run parameter_count table_engine] in Hr. rewrite Hb in Hr.
      destruct (table_exec now sql (a :: l) s) as [[s2 r2] rc2]. destruct (Z.eqb_spec rc2 0) as [E|]; [| done]. injection Hr as -> ->. subst rc2.
      inversion Hrest; subst; try done. by rewrite app_nil_r.
Qed.

(** The statements of the daemon have as many parameters as it gives arguments. *)
Example daemon_parameters :
  map params [sql_set_setting; sql_get_setting; sql_all_settings; sql_get_string; sql_rm_string; sql_root_settings; sql_policy; sql_uids; sql_delete_policy] =
  [2; 1; 0; 1; 1; 1; 1; 0; 1]%nat.
Proof. by vm_compute. Qed.

Lemma db_exec_impl_spec_witness : exists s' rows rc, db_exec_impl 0 sql_set_setting [Text #"zygisk"; Integer 1] (mkTableDb ∅ ∅ ∅) = Some (s', rows, rc) /\
  executes 0 sql_set_setting [Text #"zygisk"; Integer 1] (mkTableDb ∅ ∅ ∅) s' rows rc.
Proof. apply (db_exec_impl_spec 0 sql_set_setting [Text #"zygisk"; Integer 1] (mkTableDb ∅ ∅ ∅)). discriminate. Defined.

Lemma engine_refines_witness :
  db_exec_impl 0 sql_set_setting [Text #"zygisk"; Integer 1] (mkTableDb ∅ ∅ ∅) = Some (mkTableDb {[ #"zygisk" := 1 ]} ∅ ∅, [], 0).
Proof. rewrite (engine_refines 0 sql_set_setting [Text #"zygisk"; Integer 1] (mkTableDb ∅ ∅ ∅)); [vm_compute; reflexivity | discriminate | vm_compute; reflexivity]. Defined.

End SqlExec.
