(* ===== verification/Dir.v ===== *)
(** base/dir.rs: directory walks and the recursive operations on directories.

    A directory is a tree whose entries are listed in the order [readdir] returns
    them.  The system calls on it are modelled where they act on the tree (rename,
    unlink, open); that a call fails for other reasons, such as permissions, is not. *)

From S2P Require Import Prelude Text.

#[local] Set Warnings "-register-all".

Module Dir.

Inductive node :=
| Reg (data : bytes)
| Lnk (target : bytes)
| Special (whiteout : bool)                 (** device, fifo or socket; a 0:0 character device *)
| Folder (entries : list (bytes * node)).

Abbreviation entries := (list (bytes * node)).

Definition is_dir (n : node) : bool := match n with Folder _ => true | _ => false end.

(** [Directory::read] skips names that are not UTF-8, ["."] and [".."]. *)
Definition hidden (name : bytes) : bool :=
  negb (utf8_valid name) || bool_decide (name = #".") || bool_decide (name = #"..").

Inductive WalkResult := Continue | Abort | Skip.

(** * Walks

    The closure sees the path of the entry, innermost name first, and the entry. *)

Section Walk.
Context {A : Type} (f : list bytes -> node -> A -> logged (A * WalkResult)).

(** [post_order_walk_impl]: the entries of a directory before the directory;
    [Skip] leaves out the rest of the directory it is returned in. *)
Fixpoint post_walk_node (p : list bytes) (n : node) (a : A) : logged (A * WalkResult) :=
  match n with
  | Folder es =>
      (fix go (es : entries) (a : A) : logged (A * WalkResult) :=
         match es with
         | [] => Ok (a, Continue)
         | (name, c) :: es =>
             if hidden name then go es a else
             '(a, w) ← (if is_dir c then post_walk_node (name :: p) c a else Ok (a, Continue));
             match w with
             | Abort => Ok (a, Abort)
             | _ =>
                 '(a, w) ← f (name :: p) c a;
                 match w with
                 | Abort => Ok (a, Abort)
                 | Skip => Ok (a, Continue)
                 | Continue => go es a
                 end
             end
         end) es a
  | _ => Ok (a, Continue)
  end.

(** [pre_order_walk_impl]: the directory before its entries; [Skip] does not
    descend into the entry it is returned for. *)
Fixpoint pre_walk_node (p : list bytes) (n : node) (a : A) : logged (A * WalkResult) :=
  match n with
  | Folder es =>
      (fix go (es : entries) (a : A) : logged (A * WalkResult) :=
         match es with
         | [] => Ok (a, Continue)
         | (name, c) :: es =>
             if hidden name then go es a else
             '(a, w) ← f (name :: p) c a;
             match w with
             | Abort => Ok (a, Abort)
             | Skip => go es a
             | Continue =>
                 '(a, w) ← (if is_dir c then pre_walk_node (name :: p) c a else Ok (a, Continue));
                 match w with Abort => Ok (a, Abort) | _ => go es a end
             end
         end) es a
  | _ => Ok (a, Continue)
  end.

Definition post_order_walk (es : entries) (a : A) : logged (A * WalkResult) := post_walk_node [] (Folder es) a.
Definition pre_order_walk (es : entries) (a : A) : logged (A * WalkResult) := pre_walk_node [] (Folder es) a.
End Walk.

(** [Directory::remove_all]: the paths in the order they are unlinked. *)
Definition remove_all (es : entries) : logged (list (list bytes)) :=
  '(log, _) ← post_order_walk (fun p _ log => Ok (log ++ [p], Continue)) es [];
  Ok log.

(** * Moving *)

Fixpoint lookup_entry (name : bytes) (es : entries) : option node :=
  match es with
  | [] => None
  | (k, n) :: es => if decide (k = name) then Some n else lookup_entry name es
  end.

(** Replace the entry in its place, or add it at the end. *)
Fixpoint put_entry (name : bytes) (n : node) (es : entries) : entries :=
  match es with
  | [] => [(name, n)]
  | (k, m) :: es => if decide (k = name) then (name, n) :: es else (k, m) :: put_entry name n es
  end.

(** [move_into]: what stays in the source, the destination, and the result.

    [kept] are the entries already passed over.  [rename] onto a directory fails
    for a file; an empty directory can be removed, others not.  A symbolic link in
    the destination is taken to lead nowhere. *)
Definition move_entries (move_node : node -> entries -> entries * entries * logged unit)
    : entries -> entries -> entries -> entries * entries * logged unit :=
  fix go (kept es dest : entries) : entries * entries * logged unit :=
    match es with
    | [] => (kept, dest, Ok tt)
    | (name, c) :: rest =>
        if hidden name then go (kept ++ [(name, c)]) rest dest else
        match is_dir c, lookup_entry name dest with
        | true, Some (Folder ds) =>
            let '(stay, ds, r) := move_node c ds in
            let dest := put_entry name (Folder ds) dest in
            match r with
            | Ok _ =>
                if is_empty stay then (kept ++ rest, dest, Ok tt)
                else (kept ++ (name, Folder stay) :: rest, dest, Err tt)
            | r => (kept ++ (name, Folder stay) :: rest, dest, r)
            end
        | true, Some _ => (kept ++ (name, c) :: rest, dest, Err tt)
        | false, Some (Folder _) => (kept ++ (name, c) :: rest, dest, Err tt)
        | _, _ => go kept rest (put_entry name c dest)
        end
    end.

Fixpoint move_node (n : node) (dest : entries) : entries * entries * logged unit :=
  match n with
  | Folder es => move_entries move_node [] es dest
  | _ => ([], dest, Ok tt)
  end.

Definition move_into (src dest : entries) : entries * entries * logged unit := move_node (Folder src) dest.

(** * Lemmas *)

Section NodeInd.
Context (P : node -> Prop).
Context (HReg : forall d, P (Reg d)) (HLnk : forall t, P (Lnk t)) (HSpecial : forall w, P (Special w)).
Context (HFolder : forall es, Forall (fun e => P e.2) es -> P (Folder es)).

Fixpoint node_induction (n : node) : P n :=
  match n with
  | Reg d => HReg d
  | Lnk t => HLnk t
  | Special w => HSpecial w
  | Folder es =>
      HFolder es ((fix go (es : entries) : Forall (fun e => P e.2) es :=
        match es with
        | [] => List.Forall_nil _
        | e :: es => List.Forall_cons _ e es (node_induction e.2) (go es)
        end) es)
  end.
End NodeInd.

(** The paths below [p], a directory after everything in it. *)
Fixpoint post_paths (p : list bytes) (n : node) : list (list bytes) :=
  match n with
  | Folder es =>
      concat (map (fun e => if hidden e.1 then [] else post_paths (e.1 :: p) e.2 ++ [e.1 :: p]) es)
  | _ => []
  end.

Lemma post_paths_leaf p n : is_dir n = false -> post_paths p n = [].
Proof. by destruct n. Qed.

Lemma remove_walk p n log :
  post_walk_node (fun p _ log => Ok (log ++ [p], Continue)) p n log = Ok (log ++ post_paths p n, Continue).
Proof.
  revert p log. induction n as [d|t|w|es IH] using node_induction; intros p log; try by rewrite app_nil_r.
  cbn [post_walk_node post_paths]. revert log.
  induction IH as [|[name c] es IHc _ IHes]; intros log; cbn [map concat fst snd].
  { by rewrite app_nil_r. }
  destruct (hidden name); [apply IHes |]. cbn [snd] in IHc.
  assert ((if is_dir c then post_walk_node (fun p _ log => Ok (log ++ [p], Continue)) (name :: p) c log
           else Ok (log, Continue)) = Ok (log ++ post_paths (name :: p) c, Continue)) as ->.
  { destruct (is_dir c) eqn:Ed; [apply IHc |]. by rewrite post_paths_leaf, app_nil_r. }
  cbn [mbind res_bind]. rewrite IHes. f_equal. f_equal. by rewrite <- !app_assoc.
Qed.

(** Names are unique in every directory. *)
Fixpoint uniq (n : node) : Prop :=
  match n with
  | Folder es => NoDup es.*1 /\ fold_right (fun e acc => uniq e.2 /\ acc) True es
  | _ => True
  end.

(** [q] is the path of something below the node, innermost name first. *)
Inductive below : node -> list bytes -> Prop :=
| below_here es name c : (name, c) ∈ es -> hidden name = false -> below (Folder es) [name]
| below_in es name c q :
    (name, c) ∈ es -> hidden name = false -> below c q -> below (Folder es) (q ++ [name]).

Lemma elem_of_concat_map {A B} (f : A -> list B) (l : list A) b :
  b ∈ concat (map f l) <-> exists a, a ∈ l /\ b ∈ f a.
Proof.
  induction l as [|a l IH]; simpl; [set_solver |]. rewrite elem_of_app, IH. set_solver.
Qed.

Lemma post_paths_elem n p q : q ∈ post_paths p n <-> exists r, below n r /\ q = r ++ p.
Proof.
  revert p q. induction n as [d|t|w|es IH] using node_induction; intros p q.
  1-3: split; [set_solver | intros (r & Hr & _); inversion Hr].
  cbn [post_paths]. rewrite elem_of_concat_map. rewrite Forall_forall in IH. split.
  - intros ([name c] & Hin & Hq). cbn [fst snd] in Hq. destruct (hidden name) eqn:Hh; [set_solver |].
    apply elem_of_app in Hq as [Hq | Hq].
    + apply (IH _ Hin) in Hq as (r & Hr & ->). exists (r ++ [name]). rewrite <- app_assoc.
      split; [by econstructor | done].
    + apply list_elem_of_singleton in Hq as ->. exists [name]. split; [by econstructor | done].
  - intros (r & Hr & ->). inversion Hr as [es' name c Hin Hh|es' name c r' Hin Hh Hr']; subst.
    + exists (name, c). split; [done |]. cbn [fst snd]. rewrite Hh. apply elem_of_app. right. by apply list_elem_of_singleton.
    + exists (name, c). split; [done |]. cbn [fst snd]. rewrite Hh. apply elem_of_app. left.
      apply (IH _ Hin). exists r'. by rewrite <- app_assoc.
Qed.

(** Nothing in [l2] lies below [q]. *)
Definition parents_last (l : list (list bytes)) : Prop :=
  forall l1 q l2 r s, l = l1 ++ q :: l2 -> r ∈ l2 -> s <> [] -> r <> s ++ q.

Lemma parents_last_app l k :
  parents_last l -> parents_last k ->
  (forall q r s, q ∈ l -> r ∈ k -> s <> [] -> r <> s ++ q) -> parents_last (l ++ k).
Proof.
  intros Hl Hk Hlk l1 q l2 r s Heq Hr Hs.
  apply app_eq_inv in Heq as [(m & -> & Hm) | (m & Hm & ->)].
  - destruct m as [|q' m]; simpl in Hm.
    + by eapply (Hk [] q l2 r s).
    + injection Hm as -> ->. apply elem_of_app in Hr as [Hr | Hr]; [by eapply Hl |].
      eapply Hlk; [| done | done]. set_solver.
  - by eapply (Hk m q l2 r s).
Qed.

Lemma app_cons_length_inv {A} (r s : list A) a b p : r ++ a :: p = s ++ b :: p -> a = b.
Proof.
  intros H. assert (length r = length s) as Hl by (apply (f_equal length) in H; rewrite !length_app in H; simpl in H; lia).
  apply app_inj_1 in H as [_ H]; [congruence | done].
Qed.

(** Everything that is listed for an entry lies at or below it. *)
Definition entry_paths (p : list bytes) (e : bytes * node) : list (list bytes) :=
  if hidden e.1 then [] else post_paths (e.1 :: p) e.2 ++ [e.1 :: p].

Lemma entry_paths_suffix p e q : q ∈ entry_paths p e -> exists r, q = r ++ e.1 :: p.
Proof.
  unfold entry_paths. destruct (hidden e.1); [set_solver |].
  intros [(r & _ & ->)%post_paths_elem | ->%list_elem_of_singleton]%elem_of_app; [eauto | by exists []].
Qed.

Lemma post_paths_order n p : uniq n -> parents_last (post_paths p n).
Proof.
  assert (forall A (l1 l2 : list A) x, [] = l1 ++ x :: l2 -> False) as Hnil by (by intros A [|? ?]).
  revert p. induction n as [d|t|w|es IH] using node_induction; intros p Hu.
  1-3: intros l1 q l2 r s H; by apply Hnil in H.
  cbn [uniq] in Hu. destruct Hu as [Hnd Hu]. cbn [post_paths].
  change (parents_last (concat (map (entry_paths p) es))).
  induction IH as [|[name c] es IHc _ IHes]; [intros l1 q l2 r s H; by apply Hnil in H |].
  cbn [fmap list_fmap fold_right fst snd] in *. apply NoDup_cons in Hnd as [Hname Hnd]. destruct Hu as [Huc Hu].
  cbn [map concat]. apply parents_last_app; [| by apply IHes |].
  - unfold entry_paths. cbn [fst snd]. destruct (hidden name); [intros l1 q l2 r s H; by apply Hnil in H |].
    apply parents_last_app; [by apply IHc | |].
    + intros [|q' l1] q l2 r s Heq; injection Heq as ? Hl2; [subst l2; set_solver | by apply Hnil in Hl2].
    + intros q r s (q' & _ & ->)%post_paths_elem ->%list_elem_of_singleton Hs Heq.
      apply (f_equal length) in Heq. rewrite !length_app in Heq. destruct s; [done |]. simpl in Heq. lia.
  - intros q r s (q' & ->)%entry_paths_suffix (e & He & (r' & ->)%entry_paths_suffix)%elem_of_concat_map _ Heq.
    cbn [fst] in Heq. rewrite app_assoc in Heq. apply app_cons_length_inv in Heq. apply Hname. rewrite <- Heq.
    by apply list_elem_of_fmap_2.
Qed.

(** removing a directory unlinks exactly what is in it, and everything in a
    subdirectory before the subdirectory, so no directory is removed while it still
    has entries. *)
Theorem remove_all_post_order es :
  uniq (Folder es) ->
  exists log, remove_all es = Ok log /\ (forall q, q ∈ log <-> below (Folder es) q) /\ parents_last log.
Proof.
  intros Hu. exists (post_paths [] (Folder es)). split_and!.
  - unfold remove_all, post_order_walk. by rewrite remove_walk.
  - intros q. rewrite post_paths_elem. split; [intros (r & Hr & ->); by rewrite app_nil_r | eauto using app_nil_r].
  - by apply post_paths_order.
Qed.

Definition demo_dir : entries :=
  [(#"a", Folder [(#"x", Reg []); (#"y", Folder [(#"z", Lnk #"/")])]); (#"b", Special false)].

Lemma remove_all_post_order_witness :
  exists log, remove_all demo_dir = Ok log /\ (forall q, q ∈ log <-> below (Folder demo_dir) q) /\ parents_last log.
Proof.
  apply remove_all_post_order. cbn. repeat split; try (apply (bool_decide_unpack _); vm_compute; exact I).
Defined.

(** ** Moving *)

Lemma lookup_put name n es k :
  lookup_entry k (put_entry name n es) = if decide (k = name) then Some n else lookup_entry k es.
Proof.
  induction es as [|[j m] es IH]; cbn [put_entry lookup_entry].
  - repeat case_decide; congruence.
  - destruct (decide (j = name)); cbn [lookup_entry]; [repeat case_decide; congruence |].
    destruct (decide (j = k)); [case_decide; congruence | done].
Qed.

Lemma lookup_entry_None name es : (name ∉ es.*1) -> lookup_entry name es = None.
Proof.
  induction es as [|[j m] es IH]; [done |]. cbn [fmap list_fmap fst lookup_entry]. intros H.
  rewrite decide_False by set_solver. apply IH. set_solver.
Qed.

Lemma lookup_entry_elem name n es : lookup_entry name es = Some n -> (name, n) ∈ es.
Proof.
  induction es as [|[j m] es IH]; [done |]. cbn [lookup_entry]. case_decide; [| set_solver].
  intros [= ->]. subst. set_solver.
Qed.

(** The entry can be renamed into the destination: nothing is in its way, or a file
    replaces something that is not a directory. *)
Definition no_conflict (dest : entries) (e : bytes * node) : Prop :=
  match lookup_entry e.1 dest with
  | None => True
  | Some d => is_dir e.2 = false /\ is_dir d = false
  end.

Lemma move_entries_step rec kept name c rest dest :
  hidden name = false -> no_conflict dest (name, c) ->
  move_entries rec kept ((name, c) :: rest) dest = move_entries rec kept rest (put_entry name c dest).
Proof.
  intros Hh Hc. cbn [move_entries]. rewrite Hh. unfold no_conflict in Hc. cbn [fst snd] in Hc.
  destruct (lookup_entry name dest) as [d|]; [| by destruct (is_dir c)].
  destruct Hc as [-> Hd]. by destruct d.
Qed.

Lemma no_conflict_put dest name c e : e.1 <> name -> no_conflict dest e -> no_conflict (put_entry name c dest) e.
Proof. intros Hne. unfold no_conflict. by rewrite lookup_put, decide_False. Qed.

(** The destination after all entries of [es] are renamed into it. *)
Definition put_all (es dest : entries) : entries := foldl (fun d e => put_entry e.1 e.2 d) dest es.

Lemma move_entries_prefix rec kept es rest dest :
  NoDup es.*1 -> Forall (fun e => hidden e.1 = false /\ no_conflict dest e) es ->
  move_entries rec kept (es ++ rest) dest = move_entries rec kept rest (put_all es dest).
Proof.
  revert dest. induction es as [|[name c] es IH]; intros dest Hnd Hall; [done |].
  cbn [fmap list_fmap fst] in Hnd. apply NoDup_cons in Hnd as [Hname Hnd].
  apply Forall_cons in Hall as [[Hh Hc] Hall]. cbn [app].
  rewrite move_entries_step by done. apply IH; [done |].
  rewrite Forall_forall in *. intros e He. destruct (Hall e He) as [? ?]. split; [done |].
  apply no_conflict_put; [| done]. intros <-. apply Hname. by apply list_elem_of_fmap_2.
Qed.

Lemma lookup_put_all es dest k :
  NoDup es.*1 ->
  lookup_entry k (put_all es dest) =
  match lookup_entry k es with Some n => Some n | None => lookup_entry k dest end.
Proof.
  revert dest. induction es as [|[name c] es IH]; intros dest Hnd; [done |].
  cbn [fmap list_fmap fst] in Hnd. apply NoDup_cons in Hnd as [Hname Hnd].
  cbn [put_all foldl fst snd]. unfold put_all in IH. rewrite IH by done. cbn [lookup_entry]. rewrite lookup_put.
  repeat case_decide; try congruence. subst.
  by rewrite lookup_entry_None.
Qed.

(** moving a directory into another one moves everything when no directory is
    in the way: the source is left empty and the destination has the entries of
    both, those of the source where they meet.  When a subdirectory exists on both
    sides, the loop returns right after merging that subdirectory: every entry that
    comes after it stays in the source, and the move still reports success. *)
Theorem move_into_spec src dest :
  NoDup src.*1 -> Forall (fun e => hidden e.1 = false /\ no_conflict dest e) src ->
  (exists dest', move_into src dest = ([], dest', Ok tt) /\
     forall k, lookup_entry k dest' =
       match lookup_entry k src with Some n => Some n | None => lookup_entry k dest end) /\
  (forall name sub rest ds ds', (name ∉ src.*1) -> hidden name = false ->
     lookup_entry name dest = Some (Folder ds) -> move_into sub ds = ([], ds', Ok tt) ->
     exists dest', move_into (src ++ (name, Folder sub) :: rest) dest = (rest, dest', Ok tt)).
Proof.
  intros Hnd Hall. unfold move_into. split.
  - exists (put_all src dest). split; [| by intros k; apply lookup_put_all].
    cbn [move_node]. rewrite <- (app_nil_r src) at 1. by rewrite move_entries_prefix.
  - intros name sub rest ds ds' Hname Hh Hd Hsub. eexists. cbn [move_node].
    rewrite move_entries_prefix by done. cbn [move_entries is_dir]. rewrite Hh.
    rewrite lookup_put_all by done.
    by rewrite lookup_entry_None, Hd, Hsub by done.
Qed.

Lemma move_into_spec_witness :
  exists dest', move_into [(#"a", Reg #"1"); (#"d", Folder [(#"x", Reg [])]); (#"z", Reg #"2")]
                          [(#"d", Folder [])] = ([(#"z", Reg #"2")], dest', Ok tt).
Proof.
  destruct (move_into_spec [(#"a", Reg #"1")] [(#"d", Folder [])]) as [_ H].
  - apply (bool_decide_unpack _). vm_compute. exact I.
  - constructor; [| constructor]. split; [vm_compute; reflexivity |]. exact I.
  - eapply (H #"d" [(#"x", Reg [])] [(#"z", Reg #"2")] []); try reflexivity.
    apply (bool_decide_unpack _). vm_compute. exact I.
Defined.
End Dir.
