(* ===== verification/FileTree.v ===== *)
(** base/files.rs and base/dir.rs: the attributes of files, and copying, linking, moving and
    removing whole trees.

    Directories form a tree; anything else is an inode of a table, so that hard links and the
    writes that are seen through them are part of the model.  The calls are made by root and
    do not run out of space; the paths fit into the buffers; the source and the destination
    do not lie in each other.  A symbolic link or a device that is in the way of a file or a
    directory is taken to lead nowhere: opening it fails. *)

From S2P Require Import Prelude Text Numeric CStr Dir.

#[local] Set Warnings "-register-all".

Module FileTree.
Import CStr.

(** * Attributes *)

Definition S_IFMT : Z := 61440.
Definition S_IFSOCK : Z := 49152.
Definition S_IFLNK : Z := 40960.
Definition S_IFREG : Z := 32768.
Definition S_IFBLK : Z := 24576.
Definition S_IFDIR : Z := 16384.
Definition S_IFCHR : Z := 8192.
Definition S_IFIFO : Z := 4096.

(** What the kernel keeps of a file: permissions, owner, and the extended attribute
    [security.selinux], with its terminator if it was stored with one. *)
Record Meta := mkMeta { perm : Z; uid : Z; gid : Z; xattr : option bytes }.

Inductive content :=
| Reg (data : bytes)
| Lnk (target : bytes)
| Blk (rdev : Z)
| Chr (rdev : Z)
| Fifo
| Sock.

Record inode := mkInode { meta : Meta; body : content }.

Inductive tree :=
| Dir (m : Meta) (es : list (bytes * tree))
| Leaf (i : N).

Abbreviation entries := (list (bytes * tree)).
Abbreviation Disk := (gmap N inode).

Definition type_bits (c : content) : Z :=
  match c with Reg _ => S_IFREG | Lnk _ => S_IFLNK | Blk _ => S_IFBLK | Chr _ => S_IFCHR | Fifo => S_IFIFO | Sock => S_IFSOCK end.
Definition rdev_of (c : content) : Z := match c with Blk r | Chr r => r | _ => 0 end.

(** [FileAttr] *)
Record FileAttr := mkFileAttr { st_mode : Z; st_uid : Z; st_gid : Z; st_rdev : Z; con : FixedBuf }.
Definition FileAttr_new : FileAttr := mkFileAttr 0 0 0 0 (FixedBuf_new 128).

Definition is_ (mode : Z) (a : FileAttr) : bool := Z.land (st_mode a) S_IFMT =? mode.
Definition is_dir : FileAttr -> bool := is_ S_IFDIR.
Definition is_file : FileAttr -> bool := is_ S_IFREG.
Definition is_symlink : FileAttr -> bool := is_ S_IFLNK.
Definition is_block_device : FileAttr -> bool := is_ S_IFBLK.
Definition is_char_device : FileAttr -> bool := is_ S_IFCHR.
Definition is_fifo : FileAttr -> bool := is_ S_IFIFO.
Definition is_socket : FileAttr -> bool := is_ S_IFSOCK.
Definition is_whiteout (a : FileAttr) : bool := is_char_device a && (st_rdev a =? 0).

(** [lgetxattr] fails when the value is longer than the buffer; [ENODATA] is no error. *)
Definition get_secontext (x : option bytes) (c : FixedBuf) : logged FixedBuf :=
  let c := clear c in
  match x with
  | None => Ok c
  | Some v =>
      if (length (buf c) <? length v)%nat then Err tt
      else Ok (rebuild (mkFixedBuf (used c) (v ++ drop (length v) (buf c)))).1
  end.
Definition set_secontext (c : bytes) (m : Meta) : Meta := mkMeta (perm m) (uid m) (gid m) (Some (c ++ [NUL])).

(** The file system as the calls on one entry see it: [lstat], and the context. *)
Definition lstat (m : Meta) (bits rdev : Z) : FileAttr :=
  mkFileAttr (Z.lor bits (perm m)) (uid m) (gid m) rdev (FixedBuf_new 128).
Definition get_attr_of (m : Meta) (bits rdev : Z) : logged FileAttr :=
  let attr := lstat m bits rdev in
  c ← get_secontext (xattr m) (con attr);
  Ok (mkFileAttr (st_mode attr) (st_uid attr) (st_gid attr) (st_rdev attr) c).

Definition get_attr (d : Disk) (t : tree) : logged FileAttr :=
  match t with
  | Dir m _ => get_attr_of m S_IFDIR 0
  | Leaf i => match d !! i with Some n => get_attr_of (meta n) (type_bits (body n)) (rdev_of (body n)) | None => Err tt end
  end.

Definition chmod (mode : Z) (m : Meta) : Meta := mkMeta mode (uid m) (gid m) (xattr m).
Definition chown (u g : Z) (m : Meta) : Meta := mkMeta (perm m) u g (xattr m).

(** The owner and the context, the part that [set_attr] and [fd_set_attr] share. *)
Definition set_owner (attr : FileAttr) (m : Meta) : Meta :=
  let m := chown (st_uid attr) (st_gid attr) m in
  if buf_is_empty (con attr) then m else set_secontext (as_str (con attr)) m.

Definition fd_set_attr (attr : FileAttr) (m : Meta) : Meta :=
  set_owner attr (chmod (Z.land (st_mode attr) 511) m).

(** On a path: the attributes of a link are not given to what it leads to, and those of
    anything else are not given to a link, whose [chmod] fails or changes its target. *)
Definition set_attr (attr : FileAttr) (m : Meta) (on_link : bool) : Meta :=
  set_owner attr (if is_symlink attr || on_link then m else chmod (Z.land (st_mode attr) 511) m).

(** [fclone_attr(a, b)]: the new attributes of [b]. *)
Definition fclone_attr (a b : Meta) (bits rdev : Z) : logged Meta :=
  attr ← get_attr_of a bits rdev; Ok (fd_set_attr attr b).

(** [clone_attr(a, b)] *)
Definition clone_attr (a b : inode) : logged inode :=
  attr ← get_attr_of (meta a) (type_bits (body a)) (rdev_of (body a));
  Ok (mkInode (set_attr attr (meta b) (bool_decide (type_bits (body b) = S_IFLNK))) (body b)).

(** * Entries *)

Fixpoint lookup_entry (name : bytes) (es : entries) : option tree :=
  match es with
  | [] => None
  | (k, t) :: es => if decide (k = name) then Some t else lookup_entry name es
  end.

Fixpoint put_entry (name : bytes) (t : tree) (es : entries) : entries :=
  match es with
  | [] => [(name, t)]
  | (k, u) :: es => if decide (k = name) then (name, t) :: es else (k, u) :: put_entry name t es
  end.

(** [read_link] into a buffer of [cap] bytes. *)
Definition read_link (cap : nat) (target : bytes) : bytes :=
  let t := take (cap - 1) target in
  as_str (rebuild (mkFixedBuf 0 (t ++ replicate (cap - length t) NUL))).1.

Section Copy.
(** What a file or directory is created with: the permissions of the process, its owner, and
    the context the policy gives. *)
Context (created : Meta).

(** [mkdirat] and [mkdir]: an entry that exists is no error, whatever it is. *)
Definition mkdir_at (name : bytes) (dest : entries) : entries :=
  match lookup_entry name dest with None => put_entry name (Dir created []) dest | Some _ => dest end.

Definition symlink_at (name target : bytes) (m : Meta) (dest : entries) (d : Disk) : Disk * entries * logged unit :=
  match lookup_entry name dest with
  | None =>
      if decide (target = []) then (d, dest, Err tt) else
      let j := fresh (dom d) in (<[j := mkInode m (Lnk target)]> d, put_entry name (Leaf j) dest, Ok tt)
  | Some _ => (d, dest, Err tt)
  end.

(** Opening with [O_WRONLY | O_CREAT | O_TRUNC]: a file that exists loses its data, under
    every name it has. *)
Definition create_at (name : bytes) (dest : entries) (d : Disk) : Disk * entries * logged N :=
  match lookup_entry name dest with
  | None => let j := fresh (dom d) in (<[j := mkInode created (Reg [])]> d, put_entry name (Leaf j) dest, Ok j)
  | Some (Leaf j) =>
      match d !! j with
      | Some (mkInode m (Reg _)) => (<[j := mkInode m (Reg [])]> d, dest, Ok j)
      | _ => (d, dest, Err tt)
      end
  | Some (Dir _ _) => (d, dest, Err tt)
  end.

(** [std::io::copy] from the inode [i] to the inode [j], then [fd_set_attr]. *)
Definition copy_data (i j : N) (attr : FileAttr) (d : Disk) : Disk :=
  match d !! i, d !! j with
  | Some (mkInode _ (Reg data)), Some (mkInode m (Reg old)) =>
      <[j := mkInode (fd_set_attr attr m) (Reg (if decide (i = j) then old else data))]> d
  | _, _ => d
  end.

(** One entry of [copy_into_impl]; [rec] copies the entries of a directory. *)
Definition copy_entry (rec : tree -> entries -> Disk -> Disk * entries * logged unit)
    (name : bytes) (c : tree) (dest : entries) (d : Disk) : Disk * entries * logged unit :=
  match get_attr d c with
  | Ok attr =>
      match c with
      | Dir _ _ =>
          let dest := mkdir_at name dest in
          match lookup_entry name dest with
          | Some (Dir m ds) =>
              let '(d, ds, r) := rec c ds d in
              match r with
              | Ok _ => (d, put_entry name (Dir (fd_set_attr attr m) ds) dest, Ok tt)
              | r => (d, put_entry name (Dir m ds) dest, r)
              end
          | _ => (d, dest, Err tt)
          end
      | Leaf i =>
          match body <$> d !! i with
          | Some (Reg _) =>
              let '(d, dest, r) := create_at name dest d in
              match r with Ok j => (copy_data i j attr d, dest, Ok tt) | Err e => (d, dest, Err e) | Panic => (d, dest, Panic) end
          | Some (Lnk target) => symlink_at name (read_link 4096 target) (set_attr attr created true) dest d
          | _ => (d, dest, Ok tt)
          end
      end
  | _ => (d, dest, Err tt)
  end.

(** The loop that [copy_into_impl] and [link_into_impl] share. *)
Definition each_entry (one : bytes -> tree -> entries -> Disk -> Disk * entries * logged unit)
    : entries -> entries -> Disk -> Disk * entries * logged unit :=
  fix go (es dest : entries) (d : Disk) : Disk * entries * logged unit :=
    match es with
    | [] => (d, dest, Ok tt)
    | (name, c) :: es =>
        if Dir.hidden name then go es dest d else
        let '(d, dest, r) := one name c dest d in
        match r with Ok _ => go es dest d | r => (d, dest, r) end
    end.

Fixpoint copy_into_impl (t : tree) (dest : entries) (d : Disk) : Disk * entries * logged unit :=
  match t with
  | Dir _ es => each_entry (copy_entry copy_into_impl) es dest d
  | Leaf _ => (d, dest, Ok tt)
  end.

(** One entry of [link_into_impl]. *)
Definition link_entry (rec : tree -> entries -> Disk -> Disk * entries * logged unit)
    (name : bytes) (c : tree) (dest : entries) (d : Disk) : Disk * entries * logged unit :=
  match c with
  | Dir _ _ =>
      let dest := mkdir_at name dest in
      match get_attr d c with
      | Ok attr =>
          match lookup_entry name dest with
          | Some (Dir m ds) =>
              let '(d, ds, r) := rec c ds d in
              match r with
              | Ok _ => (d, put_entry name (Dir (fd_set_attr attr m) ds) dest, Ok tt)
              | r => (d, put_entry name (Dir m ds) dest, r)
              end
          | _ => (d, dest, Err tt)
          end
      | _ => (d, dest, Err tt)
      end
  | Leaf i =>
      match lookup_entry name dest with
      | None => (d, put_entry name (Leaf i) dest, Ok tt)
      | Some _ => (d, dest, Err tt)
      end
  end.

Fixpoint link_into_impl (t : tree) (dest : entries) (d : Disk) : Disk * entries * logged unit :=
  match t with
  | Dir _ es => each_entry (link_entry link_into_impl) es dest d
  | Leaf _ => (d, dest, Ok tt)
  end.

(** * Paths

    [copy_to], [link_to] and [move_to] take what is at the path of the source and at the path
    of the destination. *)

(** [libc::remove]: a file, or a directory that is empty. *)
Definition remove (t : option tree) : option tree :=
  match t with Some (Dir m (e :: es)) => Some (Dir m (e :: es)) | _ => None end.

Definition copy_to (src dst : option tree) (d : Disk) : Disk * option tree * logged unit :=
  match src with
  | None => (d, dst, Err tt)
  | Some t =>
      match get_attr d t with
      | Ok attr =>
          match t with
          | Dir _ es =>
              match default (Dir created []) dst with
              | Dir m ds =>
                  let '(d, ds, r) := copy_into_impl t ds d in
                  match r with
                  | Ok _ => (d, Some (Dir (set_attr attr m false) ds), Ok tt)
                  | r => (d, Some (Dir m ds), r)
                  end
              | Leaf i => (d, Some (Leaf i), Err tt)
              end
          | Leaf i =>
              match remove dst, body <$> d !! i with
              | None, Some (Reg data) =>
                  let j := fresh (dom d) in
                  (<[j := mkInode (set_attr attr created false) (Reg data)]> d, Some (Leaf j), Ok tt)
              | None, Some (Lnk target) =>
                  let target := read_link 4096 target in
                  if decide (target = []) then (d, None, Err tt) else
                  let j := fresh (dom d) in
                  (<[j := mkInode (set_attr attr created true) (Lnk target)]> d, Some (Leaf j), Ok tt)
              | None, _ => (d, None, Err tt)
              | Some (Dir m ds), Some (Reg _ | Lnk _) => (d, Some (Dir m ds), Err tt)
              | Some (Dir m ds), _ => (d, Some (Dir (set_attr attr m false) ds), Ok tt)
              | Some t, _ => (d, Some t, Err tt)
              end
          end
      | _ => (d, dst, Err tt)
      end
  end.

Definition link_to (src dst : option tree) (d : Disk) : Disk * option tree * logged unit :=
  match src with
  | None => (d, dst, Err tt)
  | Some t =>
      match get_attr d t with
      | Ok attr =>
          match t with
          | Dir _ _ =>
              match default (Dir created []) dst with
              | Dir m ds =>
                  let '(d, ds, r) := link_into_impl t ds d in (d, Some (Dir (set_attr attr m false) ds), r)
              | Leaf i =>
                  (match d !! i with
                   | Some n => <[i := mkInode (set_attr attr (meta n) (bool_decide (type_bits (body n) = S_IFLNK))) (body n)]> d
                   | None => d
                   end, Some (Leaf i), Err tt)
              end
          | Leaf i => match dst with None => (d, Some (Leaf i), Ok tt) | Some t => (d, Some t, Err tt) end
          end
      | _ => (d, dst, Err tt)
      end
  end.
End Copy.

(** * Lemmas *)

Section TreeInd.
Context (P : tree -> Prop).
Context (HDir : forall m es, Forall (fun e => P e.2) es -> P (Dir m es)) (HLeaf : forall i, P (Leaf i)).

Fixpoint tree_induction (t : tree) : P t :=
  match t with
  | Leaf i => HLeaf i
  | Dir m es =>
      HDir m es ((fix go (es : entries) : Forall (fun e => P e.2) es :=
        match es with
        | [] => List.Forall_nil _
        | e :: es => List.Forall_cons _ e es (tree_induction e.2) (go es)
        end) es)
  end.
End TreeInd.

Lemma lookup_entry_absent name es : (name ∉ es.*1) -> lookup_entry name es = None.
Proof.
  induction es as [|[k t] es IH]; [done |]. cbn. intros Hn. rewrite decide_False by set_solver. apply IH. set_solver.
Qed.

Lemma put_entry_new name t es : (name ∉ es.*1) -> put_entry name t es = es ++ [(name, t)].
Proof.
  induction es as [|[k u] es IH]; [done |]. cbn. intros Hn. rewrite decide_False by set_solver. f_equal. apply IH. set_solver.
Qed.

Lemma lookup_entry_last name t es : (name ∉ es.*1) -> lookup_entry name (es ++ [(name, t)]) = Some t.
Proof.
  induction es as [|[k u] es IH]; cbn; intros Hn; [by rewrite decide_True |].
  rewrite decide_False by set_solver. apply IH. set_solver.
Qed.

Lemma put_entry_last name t u es : (name ∉ es.*1) -> put_entry name t (es ++ [(name, u)]) = es ++ [(name, t)].
Proof.
  induction es as [|[k v] es IH]; cbn; intros Hn; [by rewrite decide_True |].
  rewrite decide_False by set_solver. f_equal. apply IH. set_solver.
Qed.

(** A C string that a buffer of [N] bytes holds with its terminator. *)
Definition fits (N : nat) (s : bytes) : Prop := (NUL ∉ s) /\ utf8_valid s = true /\ (length s < N)%nat.

Lemma until_nul_fits N s r : fits N s -> from_bytes_until_nul (s ++ NUL :: r) = Ok s.
Proof.
  intros (Hn & Hu & _). unfold from_bytes_until_nul, cstr_from_bytes_until_nul.
  assert (split_once NUL (s ++ NUL :: r) = Some (s, r)) as -> by (by apply split_once_Some).
  cbn. unfold from_cstr. by rewrite Hu.
Qed.

Lemma rebuild_fits N n s r : fits N s -> as_str (rebuild (mkFixedBuf n (s ++ NUL :: r))).1 = s.
Proof.
  intros H. cbn [rebuild FixedBuf_buf]. unfold FixedBuf_rebuild. cbn [buf]. rewrite (until_nul_fits N) by done.
  cbn. apply take_app_length.
Qed.

Lemma read_link_fits N s : fits N s -> read_link N s = s.
Proof.
  intros H. destruct H as (Hn & Hu & Hl) eqn:E. unfold read_link. rewrite take_ge by lia.
  destruct (N - length s)%nat as [|k] eqn:Ek; [lia |]. cbn [replicate]. by apply (rebuild_fits N).
Qed.

(** The context of a file: none, or a text of less than 128 bytes and its terminator. *)
Definition readable (m : Meta) : Prop :=
  match xattr m with None => True | Some v => exists c, v = c ++ [NUL] /\ c <> [] /\ fits 128 c end.
Definition proper (m : Meta) : Prop := readable m /\ Z.land (perm m) S_IFMT = 0.

(** What is read of the context. *)
Definition context (m : Meta) : bytes := match xattr m with None => [] | Some v => take (length v - 1) v end.

Lemma get_secontext_reads m : readable m -> exists b, (get_secontext (xattr m) (FixedBuf_new 128) = Ok b) /\ (as_str b = context m).
Proof.
  unfold readable, get_secontext, context. destruct (xattr m) as [v|]; [| by eexists].
  intros (c & -> & Hc & Hf). pose proof Hf as (_ & _ & Hl). rewrite length_app. cbn [length].
  replace (_ <? _)%nat with false by (symmetry; apply Nat.ltb_ge; cbn; lia). eexists. split; [done |].
  rewrite <- app_assoc. cbn [app]. rewrite (rebuild_fits 128) by done.
  replace (length c + 1 - 1)%nat with (length c) by lia. by rewrite take_app_length.
Qed.

Lemma get_attr_reads m bits rdev :
  readable m -> exists a, get_attr_of m bits rdev = Ok a /\ st_mode a = Z.lor bits (perm m) /\
    st_uid a = uid m /\ st_gid a = gid m /\ st_rdev a = rdev /\ as_str (con a) = context m.
Proof.
  intros (b & Hb & Hs)%get_secontext_reads. unfold get_attr_of. cbn [con lstat]. rewrite Hb. eexists. by split_and!.
Qed.

(** The attributes of a copy: the permissions without set-user-id, set-group-id and sticky
    bit, the owner, and the context when there is one.  A link keeps the permissions it is
    created with. *)
Definition copied_meta (link : bool) (created m : Meta) : Meta :=
  mkMeta (if link then perm created else Z.land (perm m) 511) (uid m) (gid m)
         (match xattr m with None => xattr created | x => x end).

Lemma context_stored m : readable m -> match xattr m with None => context m = [] | Some v => context m <> [] /\ v = context m ++ [NUL] end.
Proof.
  unfold readable, context. destruct (xattr m) as [v|]; [| done]. intros (c & -> & Hc & _).
  rewrite length_app. cbn [length]. rewrite Nat.add_sub, take_app_length. done.
Qed.

Lemma set_owner_copied a m m0 :
  readable m -> st_uid a = uid m -> st_gid a = gid m -> as_str (con a) = context m ->
  set_owner a m0 = mkMeta (perm m0) (uid m) (gid m) (match xattr m with None => xattr m0 | x => x end).
Proof.
  intros Hr Hu Hg Hc. unfold set_owner, buf_is_empty, buf_len. rewrite Hu, Hg, Hc. apply context_stored in Hr.
  destruct (xattr m) as [v|]; [| by rewrite Hr]. destruct Hr as [Hne Hv].
  destruct (Z.eqb_spec (zlen (context m)) 0) as [E|E]; [by destruct (context m) |]. unfold set_secontext, chown. cbn. by rewrite <- Hv.
Qed.

Lemma mode_bits bits p mask : Z.land bits mask = 0 -> Z.land (Z.lor bits p) mask = Z.land p mask.
Proof. intros H. by rewrite Z.land_lor_distr_l, H, Z.lor_0_l. Qed.

Lemma type_bits_mask c : Z.land (type_bits c) 511 = 0.
Proof. by destruct c. Qed.

Lemma fd_set_attr_copied m m0 bits rdev a :
  readable m -> Z.land bits 511 = 0 -> get_attr_of m bits rdev = Ok a -> fd_set_attr a m0 = copied_meta false m0 m.
Proof.
  intros Hr Hb Ha. destruct (get_attr_reads m bits rdev Hr) as (a' & Ha' & Hm & Hu & Hg & _ & Hc).
  rewrite Ha in Ha'. injection Ha' as <-. unfold fd_set_attr. rewrite (set_owner_copied _ m) by done.
  unfold copied_meta. cbn. by rewrite Hm, mode_bits.
Qed.

Lemma set_attr_copied m m0 bits rdev a on_link :
  proper m -> Z.land bits 511 = 0 -> Z.land bits S_IFMT = bits -> get_attr_of m bits rdev = Ok a ->
  set_attr a m0 on_link = copied_meta (bool_decide (bits = S_IFLNK) || on_link) m0 m.
Proof.
  intros [Hr Hp] Hb Ht Ha. destruct (get_attr_reads m bits rdev Hr) as (a' & Ha' & Hm & Hu & Hg & _ & Hc).
  rewrite Ha in Ha'. injection Ha' as <-. unfold set_attr. rewrite (set_owner_copied _ m) by done.
  unfold copied_meta, is_symlink, is_. rewrite Hm, Z.land_lor_distr_l, Ht, Hp, Z.lor_0_r.
  replace (bits =? S_IFLNK) with (bool_decide (bits = S_IFLNK)).
  2:{ destruct (Z.eqb_spec bits S_IFLNK); [by apply bool_decide_eq_true_2 | by apply bool_decide_eq_false_2]. }
  destruct (_ || _); [done |]. cbn. by rewrite mode_bits.
Qed.

(** ** Views: what a process sees of a tree *)

Inductive view :=
| VDir (m : Meta) (es : list (bytes * view))
| VFile (m : Meta) (c : content)
| VNone.

Fixpoint show (d : Disk) (t : tree) : view :=
  match t with
  | Dir m es => VDir m (map (fun e => (e.1, show d e.2)) es)
  | Leaf i => match d !! i with Some n => VFile (meta n) (body n) | None => VNone end
  end.

(** The view of a copy, from the tree that is copied. *)
Fixpoint copy_view (created : Meta) (d : Disk) (t : tree) : view :=
  match t with
  | Dir m es => VDir (copied_meta false created m) (map (fun e => (e.1, copy_view created d e.2)) es)
  | Leaf i =>
      match d !! i with
      | Some n => VFile (copied_meta (match body n with Lnk _ => true | _ => false end) created (meta n)) (body n)
      | None => VNone
      end
  end.

Fixpoint leaves (t : tree) : list N :=
  match t with
  | Dir _ es => concat (map (fun e => leaves e.2) es)
  | Leaf i => [i]
  end.

(** Everything can be copied: names that are listed, readable contexts, regular files and
    links that lead to something. *)
Inductive copyable (d : Disk) : tree -> Prop :=
| copyable_Dir m es :
    proper m -> NoDup es.*1 -> Forall (fun e => Dir.hidden e.1 = false /\ copyable d e.2) es -> copyable d (Dir m es)
| copyable_Reg i m data : d !! i = Some (mkInode m (Reg data)) -> proper m -> copyable d (Leaf i)
| copyable_Lnk i m target :
    d !! i = Some (mkInode m (Lnk target)) -> proper m -> target <> [] -> fits 4096 target -> copyable d (Leaf i).

Lemma copyable_weaken d d' t : d ⊆ d' -> copyable d t -> copyable d' t.
Proof.
  intros Hd. induction t as [m es IH|i] using tree_induction; intros Hc.
  - inversion Hc as [? ? Hr Hnd Hes | |]; subst. constructor; [done.. |].
    rewrite Forall_forall in IH, Hes |- *. intros e He. split; [by apply Hes | by apply IH, Hes].
  - inversion Hc; subst; [eapply copyable_Reg | eapply copyable_Lnk]; eauto using lookup_weaken.
Qed.

Lemma copy_view_weaken created d d' t : d ⊆ d' -> copyable d t -> copy_view created d' t = copy_view created d t.
Proof.
  intros Hd. induction t as [m es IH|i] using tree_induction; intros Hc.
  - inversion Hc as [? ? Hr Hnd Hes | |]; subst. cbn. f_equal. apply map_ext_in. intros e He%list_elem_of_In.
    rewrite Forall_forall in IH, Hes. f_equal. apply IH; [done | by apply Hes].
  - cbn. inversion Hc as [|? ? ? Hi|? ? ? Hi]; subst; by rewrite Hi, (lookup_weaken _ _ _ _ Hi Hd).
Qed.

(** All files of the tree are in the second disk and none is in the first. *)
Definition new_in (d d' : Disk) (l : list N) : Prop := Forall (fun i => d !! i = None /\ is_Some (d' !! i)) l.

Lemma show_weaken d d0 d' t : d ⊆ d' -> new_in d0 d (leaves t) -> show d' t = show d t.
Proof.
  intros Hd. induction t as [m es IH|i] using tree_induction; intros Hn.
  - cbn. f_equal. apply map_ext_in. intros e He%list_elem_of_In. rewrite Forall_forall in IH. f_equal. apply IH; [done |].
    unfold new_in in *. rewrite Forall_forall in *. intros i Hi. apply Hn. cbn. apply Dir.elem_of_concat_map. eauto.
  - apply Forall_singleton in Hn as [_ [n Hi]]. cbn. by rewrite Hi, (lookup_weaken _ _ _ _ Hi Hd).
Qed.

Lemma new_in_weaken d d' d'' d0 l : d ⊆ d'' -> d' ⊆ d0 -> new_in d'' d' l -> new_in d d0 l.
Proof.
  intros H1 H2 Hl. eapply Forall_impl; [done |]. intros i [Hn [n Hi]]. split; [by eapply lookup_weaken_None | eauto using lookup_weaken].
Qed.

Lemma new_in_disjoint d d' d'' l k : new_in d d' l -> new_in d' d'' k -> forall i, i ∈ l -> i ∈ k -> False.
Proof.
  unfold new_in. rewrite !Forall_forall. intros Hl Hk i Hi Hj. destruct (Hl i Hi) as [_ [n Hn]], (Hk i Hj) as [Hnone _]. congruence.
Qed.

(** ** Copying *)

Section CopyLemmas.
Context (created : Meta).

Definition leaves_of (es : entries) : list N := concat (map (fun e => leaves e.2) es).

(** The entries [new] of the disk [d'] are a copy of the entries [src] of the disk [d], in
    files of their own, and nothing that was on [d] has changed. *)
Definition copy_of (d d' : Disk) (src new : entries) : Prop :=
  map (fun e => (e.1, show d' e.2)) new = map (fun e => (e.1, copy_view created d e.2)) src /\
  d ⊆ d' /\ NoDup (leaves_of new) /\ new_in d d' (leaves_of new).

Lemma copy_of_nil d : copy_of d d [] [].
Proof. split_and!; [done | done | apply NoDup_nil_2 | by apply Forall_nil]. Qed.

Lemma copy_of_cons d d' d'' e e' src new :
  Forall (fun e => copyable d e.2) src ->
  copy_of d d' [e] [e'] -> copy_of d' d'' src new -> copy_of d d'' (e :: src) (e' :: new).
Proof.
  unfold copy_of, leaves_of. cbn. rewrite app_nil_r. intros Hc (He & Hd & Hnd & Hn) (Hs & Hd' & Hnd' & Hn').
  split_and!.
  - f_equal.
    + injection He as -> <-. f_equal. by eapply show_weaken.
    + rewrite Hs. apply map_ext_in. intros x Hx%list_elem_of_In. f_equal. rewrite Forall_forall in Hc.
      apply copy_view_weaken; [done | by apply Hc].
  - by etrans.
  - apply NoDup_app. split_and!; [done | | done]. intros i Hi Hi'. by eapply (new_in_disjoint d d' d'').
  - apply Forall_app. split; [by eapply (new_in_weaken d d' d) | by eapply (new_in_weaken d d'' d')].
Qed.

(** What the copy of one entry must do. *)
Definition copies (one : bytes -> tree -> entries -> Disk -> Disk * entries * logged unit) (e : bytes * tree) : Prop :=
  forall d dest, copyable d e.2 -> (e.1 ∉ dest.*1) ->
  exists d' t, one e.1 e.2 dest d = (d', dest ++ [(e.1, t)], Ok tt) /\ copy_of d d' [e] [(e.1, t)].

Lemma each_entry_copies one es dest d :
  NoDup es.*1 -> (forall n, n ∈ es.*1 -> n ∉ dest.*1) ->
  Forall (fun e => Dir.hidden e.1 = false /\ copyable d e.2) es -> Forall (copies one) es ->
  exists d' new, each_entry one es dest d = (d', dest ++ new, Ok tt) /\ copy_of d d' es new.
Proof.
  intros Hnd Hdis Hes Hone. revert dest d Hdis Hes.
  induction Hone as [|[name c] es Hc _ IH]; intros dest d Hdis Hes.
  { exists d, []. rewrite app_nil_r. split; [done | apply copy_of_nil]. }
  apply NoDup_cons in Hnd as [Hname Hnd]. apply Forall_cons in Hes as [[Hh Hcc] Hes]. cbn [fst snd] in *.
  cbn [each_entry]. rewrite Hh. destruct (Hc d dest Hcc) as (d1 & t & Heq & Hco); [apply Hdis; set_solver |].
  cbn [fst snd] in Heq. rewrite Heq. pose proof Hco as (_ & Hd1 & _).
  destruct (IH Hnd (dest ++ [(name, t)]) d1) as (d2 & new & Heq2 & Hco2).
  - intros n Hn. rewrite fmap_app, elem_of_app. cbn. specialize (Hdis n). set_solver.
  - eapply Forall_impl; [exact Hes |]. intros e [? ?]. split; [done | by eapply copyable_weaken].
  - exists d2, ((name, t) :: new). rewrite <- app_assoc in Heq2. split; [done |].
    eapply copy_of_cons; [| done | done]. eapply Forall_impl; [exact Hes |]. by intros e [_ ?].
Qed.

Lemma insert_fresh_subseteq (d : Disk) n : d ⊆ <[fresh (dom d) := n]> d.
Proof. apply insert_subseteq, not_elem_of_dom, is_fresh. Qed.

Lemma copy_of_leaf d name i n :
  VFile (meta n) (body n) = copy_view created d (Leaf i) ->
  copy_of d (<[fresh (dom d) := n]> d) [(name, Leaf i)] [(name, Leaf (fresh (dom d)))].
Proof.
  intros Hv. unfold copy_of, leaves_of. cbn -[copy_view]. rewrite lookup_insert_eq, Hv. split_and!; [done | | |].
  - apply insert_fresh_subseteq.
  - apply NoDup_singleton.
  - apply Forall_singleton. rewrite lookup_insert_eq. split; [apply not_elem_of_dom, is_fresh | eauto].
Qed.

Lemma copy_entry_copies_Reg rec name i d dest m data :
  d !! i = Some (mkInode m (Reg data)) -> readable m -> (name ∉ dest.*1) ->
  exists d' t, copy_entry created rec name (Leaf i) dest d = (d', dest ++ [(name, t)], Ok tt) /\
    copy_of d d' [(name, Leaf i)] [(name, t)].
Proof.
  intros Hi Hr Hn. destruct (get_attr_reads m S_IFREG 0 Hr) as (a & Ha & _).
  unfold copy_entry, get_attr. rewrite Hi. cbn [meta body type_bits rdev_of]. rewrite Ha. cbn [fmap option_fmap option_map body].
  unfold create_at. rewrite lookup_entry_absent, put_entry_new by done.
  assert (i <> fresh (dom d)) as Hne.
  { intros ->. apply (is_fresh (dom d)). apply elem_of_dom. eauto. }
  unfold copy_data. rewrite lookup_insert_ne, Hi, lookup_insert_eq, decide_False, insert_insert_eq by done.
  do 2 eexists. split; [done |]. apply copy_of_leaf. cbn. rewrite Hi. cbn. f_equal.
  by eapply (fd_set_attr_copied m created S_IFREG 0).
Qed.

Lemma copy_entry_copies_Lnk rec name i d dest m target :
  d !! i = Some (mkInode m (Lnk target)) -> proper m -> target <> [] -> fits 4096 target -> (name ∉ dest.*1) ->
  exists d' t, copy_entry created rec name (Leaf i) dest d = (d', dest ++ [(name, t)], Ok tt) /\
    copy_of d d' [(name, Leaf i)] [(name, t)].
Proof.
  intros Hi Hr Hne Hf Hn. destruct (get_attr_reads m S_IFLNK 0 (proj1 Hr)) as (a & Ha & _).
  unfold copy_entry, get_attr. rewrite Hi. cbn [meta body type_bits rdev_of]. rewrite Ha. cbn [fmap option_fmap option_map body].
  unfold symlink_at. rewrite lookup_entry_absent, put_entry_new, read_link_fits, decide_False by done.
  do 2 eexists. split; [done |]. apply copy_of_leaf. cbn. rewrite Hi. cbn. f_equal.
  by eapply (set_attr_copied m created S_IFLNK 0).
Qed.

Lemma copy_into_copies t : forall d dest,
  copyable d t -> match t with Dir _ es => forall n, n ∈ es.*1 -> n ∉ dest.*1 | Leaf _ => False end ->
  exists d' new, copy_into_impl created t dest d = (d', dest ++ new, Ok tt) /\
    copy_of d d' (match t with Dir _ es => es | Leaf _ => [] end) new.
Proof.
  induction t as [m es IH|i] using tree_induction; intros d dest Hc Hdis; [| done].
  inversion Hc as [? ? Hr Hnd Hes | |]; subst. cbn [copy_into_impl]. apply each_entry_copies; [done.. |].
  eapply Forall_impl; [exact IH |]. clear. intros [name c] IH d dest Hc Hn. cbn [fst snd] in *.
  inversion Hc as [m es Hr Hnd Hes | i m data Hi Hr | i m target Hi Hr Hne Hf]; subst.
  2: by eapply copy_entry_copies_Reg; [done | apply Hr | done]. 2: by eapply copy_entry_copies_Lnk.
  destruct (get_attr_reads m S_IFDIR 0 (proj1 Hr)) as (a & Ha & _).
  unfold copy_entry, get_attr. rewrite Ha. unfold mkdir_at. rewrite (lookup_entry_absent name dest), put_entry_new, lookup_entry_last by done.
  destruct (IH d [] Hc) as (d' & new & Heq & Hco); [set_solver |]. rewrite Heq. cbn [app].
  rewrite put_entry_last by done. exists d', (Dir (fd_set_attr a created) new). split; [done |].
  destruct Hco as (Hs & Hd & Hn1 & Hn2). unfold copy_of, leaves_of. cbn. rewrite app_nil_r, Hs. split_and!; [| done..].
  do 3 f_equal. by eapply (fd_set_attr_copied m created S_IFDIR 0); [apply Hr | |].
Qed.
End CopyLemmas.

Lemma copy_to_copies created d t :
  copyable d t ->
  exists d' t', copy_to created (Some t) None d = (d', Some t', Ok tt) /\ copy_of created d d' [([], t)] [([], t')].
Proof.
  intros Hc. pose proof Hc as Hc'. unfold copy_to.
  inversion Hc' as [m es Hr Hnd Hes | i m data Hi Hr | i m target Hi Hr Hne Hf]; subst.
  - destruct (get_attr_reads m S_IFDIR 0 (proj1 Hr)) as (a & Ha & _). cbn [get_attr]. rewrite Ha. cbn [default].
    destruct (copy_into_copies created _ d [] Hc) as (d' & new & -> & Hs & Hd & Hn1 & Hn2); [set_solver |].
    do 2 eexists. split; [done |]. unfold copy_of, leaves_of in *. cbn in *. rewrite app_nil_r, Hs. split_and!; [| done..].
    do 3 f_equal. by eapply (set_attr_copied m created S_IFDIR 0).
  - destruct (get_attr_reads m S_IFREG 0 (proj1 Hr)) as (a & Ha & _).
    unfold get_attr. rewrite Hi. cbn [meta body type_bits rdev_of]. rewrite Ha. cbn [remove fmap option_fmap option_map body].
    do 2 eexists. split; [done |]. apply copy_of_leaf. cbn. rewrite Hi. cbn. f_equal.
    by eapply (set_attr_copied m created S_IFREG 0).
  - destruct (get_attr_reads m S_IFLNK 0 (proj1 Hr)) as (a & Ha & _).
    unfold get_attr. rewrite Hi. cbn [meta body type_bits rdev_of]. rewrite Ha. cbn [remove fmap option_fmap option_map body].
    rewrite read_link_fits, decide_False by done. do 2 eexists. split; [done |]. apply copy_of_leaf. cbn. rewrite Hi. cbn. f_equal.
    by eapply (set_attr_copied m created S_IFLNK 0).
Qed.

Lemma copy_of_single created d d' t t' :
  copy_of created d d' [([], t)] [([], t')] ->
  show d' t' = copy_view created d t /\ d ⊆ d' /\ NoDup (leaves t') /\ forall i, i ∈ leaves t' -> d !! i = None.
Proof.
  intros (Hs & Hd & Hnd & Hn). unfold leaves_of in *. cbn [map concat snd fst] in *. rewrite app_nil_r in *. injection Hs as Hs.
  split_and!; [done.. |]. unfold new_in in Hn. rewrite Forall_forall in Hn. intros i Hi. by apply Hn.
Qed.

(** C28: [copy_to] makes a copy: where nothing is at the destination, it succeeds and leaves
    there the same names, the same data and the same link targets, every file and directory
    with the permissions, the owner and the context of the original (the set-user-id,
    set-group-id and sticky bits are dropped, and what has no context gets that of a new
    file).  Nothing that was on the disk changes, and every file of the copy is a new one, so
    that no later write to the copy is seen in the original. *)
Theorem copy_to_spec created d t :
  copyable d t ->
  exists d' t', copy_to created (Some t) None d = (d', Some t', Ok tt) /\ show d' t' = copy_view created d t /\
    d ⊆ d' /\ NoDup (leaves t') /\ forall i, i ∈ leaves t' -> d !! i = None.
Proof. intros (d' & t' & H & Hc%copy_of_single)%(copy_to_copies created). by exists d', t'. Qed.

(** No name anywhere in the tree is one that [read] does not report. *)
Fixpoint tree_listed (t : tree) : bool :=
  match t with
  | Dir _ es => forallb (fun e => negb (Dir.hidden e.1) && tree_listed e.2) es
  | Leaf _ => true
  end.

(** ** Copies of copies *)

Lemma show_copyable d d' t : d ⊆ d' -> copyable d t -> show d' t = show d t.
Proof.
  intros Hd. induction t as [m es IH|i] using tree_induction; intros Hc.
  - inversion Hc as [? ? Hr Hnd Hes | |]; subst. cbn. f_equal. apply map_ext_in. intros e He%list_elem_of_In.
    rewrite Forall_forall in IH, Hes. f_equal. apply IH; [done | by apply Hes].
  - cbn. inversion Hc as [|? ? ? Hi|? ? ? Hi]; subst; by rewrite Hi, (lookup_weaken _ _ _ _ Hi Hd).
Qed.

Lemma copied_meta_proper link created m : proper created -> proper m -> proper (copied_meta link created m).
Proof.
  intros [Hr Hp] [Hr' Hp']. split.
  - unfold readable, copied_meta in *. cbn [xattr]. by destruct (xattr m).
  - cbn [perm copied_meta]. destruct link; [done |]. by rewrite <- Z.land_assoc, Z.land_0_r.
Qed.

Lemma copy_copyable created d d' t t' :
  proper created -> copyable d t -> show d' t' = copy_view created d t -> copyable d' t'.
Proof.
  intros Hcr. revert t'. induction t as [m es IH|i] using tree_induction; intros t' Hc Hs.
  - inversion Hc as [? ? Hr Hnd Hes | |]; subst. destruct t' as [m' es'|j]; cbn in Hs; [| by destruct (d' !! j)].
    injection Hs as Hm Hes'. subst m'.
    assert (es'.*1 = es.*1) as Hnames.
    { transitivity (map fst (map (fun e => (e.1, show d' e.2)) es')); [by rewrite map_map | rewrite Hes'; by rewrite map_map]. }
    apply copyable_Dir; [by apply copied_meta_proper | by rewrite Hnames |].
    clear Hc Hr Hnd Hnames. revert es' Hes'. induction IH as [|[nm c] es IHc _ IHes]; intros [|[nm' c'] es'] Heq; try discriminate Heq; [constructor |].
    cbn in Heq. injection Heq as -> Hsc Hrest. apply Forall_cons in Hes as [[Hh Hcc] Hes].
    constructor; [split; [done | by apply IHc] | by apply IHes].
  - destruct t' as [m' es'|j]; [cbn in Hs; by destruct (d !! i) |]. cbn in Hs.
    inversion Hc as [|? m data Hi Hr|? m target Hi Hr Hne Hf]; subst; rewrite Hi in Hs; destruct (d' !! j) as [[m' b]|] eqn:Hj; try discriminate Hs;
      cbn in Hs; injection Hs as -> ->.
    + eapply copyable_Reg; [done | by apply copied_meta_proper].
    + eapply copyable_Lnk; [done | by apply copied_meta_proper | done | done].
Qed.

Lemma copyable_listed d t : copyable d t -> tree_listed t = true.
Proof.
  induction t as [m es IH|i] using tree_induction; [| done]. inversion 1 as [? ? Hr Hnd Hes | |]; subst. cbn.
  apply forallb_forall. intros e He%list_elem_of_In. rewrite Forall_forall in IH, Hes. destruct (Hes e He) as [-> Hc]. cbn. by apply IH.
Qed.

Definition demo_created : Meta := mkMeta 511 0 0 (Some (#"u:object_r:tmpfs:s0" ++ [NUL])).
Definition demo_meta (p : Z) : Meta := mkMeta p 0 2000 (Some (#"u:object_r:adb_data_file:s0" ++ [NUL])).
Definition demo_disk : Disk :=
  {[ 1%N := mkInode (demo_meta 2541) (Reg #"elf"); 2%N := mkInode (demo_meta 511) (Lnk #"./magisk") ]}.
Definition demo_tree : tree :=
  Dir (demo_meta 493) [(#"magisk", Leaf 1); (#"bin", Dir (mkMeta 448 0 0 None) [(#"su", Leaf 2)])].

Lemma fits_by_computation N s : bool_decide (NUL ∉ s) && utf8_valid s && (length s <? N)%nat = true -> fits N s.
Proof. rewrite !andb_true_iff. intros [[H1%bool_decide_eq_true ?] ?%Nat.ltb_lt]. done. Qed.

Lemma demo_meta_proper p : Z.land p S_IFMT = 0 -> proper (demo_meta p).
Proof.
  intros Hp. split; [| done]. exists #"u:object_r:adb_data_file:s0".
  split_and!; [done | done | by apply fits_by_computation; vm_compute].
Qed.

Lemma demo_copyable : copyable demo_disk demo_tree.
Proof.
  apply copyable_Dir; [by apply demo_meta_proper | apply (bool_decide_unpack _); vm_compute; exact I |].
  constructor; [| constructor; [| constructor]]; (split; [by vm_compute |]).
  - eapply copyable_Reg; [by vm_compute | by apply demo_meta_proper].
  - apply copyable_Dir; [by split | apply (bool_decide_unpack _); vm_compute; exact I |].
    constructor; [| constructor]. split; [by vm_compute |].
    eapply copyable_Lnk; [by vm_compute | by apply demo_meta_proper | done | by apply fits_by_computation; vm_compute].
Qed.

Lemma copy_to_spec_witness :
  exists d' t', copy_to demo_created (Some demo_tree) None demo_disk = (d', Some t', Ok tt) /\
    show d' t' = VDir (demo_meta 493)
      [(#"magisk", VFile (demo_meta 493) (Reg #"elf"));
       (#"bin", VDir (mkMeta 448 0 0 (Some (#"u:object_r:tmpfs:s0" ++ [NUL])))
          [(#"su", VFile (demo_meta 511) (Lnk #"./magisk"))])].
Proof.
  destruct (copy_to_spec demo_created demo_disk demo_tree demo_copyable) as (d' & t' & H & Hs & _).
  exists d', t'. split; [exact H |]. rewrite Hs. vm_compute. reflexivity.
Defined.

(** ** Linking *)

Inductive linkable (d : Disk) : tree -> Prop :=
| linkable_Dir m es :
    proper m -> NoDup es.*1 -> Forall (fun e => Dir.hidden e.1 = false /\ linkable d e.2) es -> linkable d (Dir m es)
| linkable_Leaf i n : d !! i = Some n -> readable (meta n) -> linkable d (Leaf i).

(** New directories with the attributes of the old ones, and the same files. *)
Fixpoint linked (created : Meta) (t : tree) : tree :=
  match t with
  | Dir m es => Dir (copied_meta false created m) (map (fun e => (e.1, linked created e.2)) es)
  | Leaf i => Leaf i
  end.

Lemma each_entry_links created one es dest d :
  NoDup es.*1 -> (forall n, n ∈ es.*1 -> n ∉ dest.*1) -> Forall (fun e => Dir.hidden e.1 = false /\ linkable d e.2) es ->
  Forall (fun e => forall dest, linkable d e.2 -> (e.1 ∉ dest.*1) ->
    one e.1 e.2 dest d = (d, dest ++ [(e.1, linked created e.2)], Ok tt)) es ->
  each_entry one es dest d = (d, dest ++ map (fun e => (e.1, linked created e.2)) es, Ok tt).
Proof.
  intros Hnd Hdis Hes Hone. revert dest Hdis. induction Hone as [|[name c] es Hc _ IH]; intros dest Hdis.
  { by rewrite app_nil_r. }
  apply NoDup_cons in Hnd as [Hname Hnd]. apply Forall_cons in Hes as [[Hh Hcc] Hes]. cbn [fst snd] in *.
  cbn [each_entry]. rewrite Hh, Hc; [| done | apply Hdis; set_solver]. rewrite IH; [by rewrite <- app_assoc | done | done |].
  intros n Hn. rewrite fmap_app, elem_of_app. cbn. specialize (Hdis n). set_solver.
Qed.

Lemma link_into_links created d t : forall dest,
  linkable d t -> match t with Dir _ es => forall n, n ∈ es.*1 -> n ∉ dest.*1 | Leaf _ => False end ->
  link_into_impl created t dest d =
    (d, dest ++ (match t with Dir _ es => map (fun e => (e.1, linked created e.2)) es | Leaf _ => [] end), Ok tt).
Proof.
  induction t as [m es IH|i] using tree_induction; intros dest Hl Hdis; [| done].
  inversion Hl as [? ? Hr Hnd Hes |]; subst. cbn [link_into_impl]. apply each_entry_links; [done.. |].
  eapply Forall_impl; [exact IH |]. clear. intros [name c] IH dest Hl Hn. cbn [fst snd] in *.
  inversion Hl as [m es Hr Hnd Hes | i n Hi Hr]; subst; unfold link_entry.
  2: by rewrite lookup_entry_absent, put_entry_new.
  destruct (get_attr_reads m S_IFDIR 0 (proj1 Hr)) as (a & Ha & _). cbn [get_attr]. rewrite Ha. unfold mkdir_at.
  rewrite (lookup_entry_absent name dest), put_entry_new, lookup_entry_last by done.
  rewrite (IH [] Hl) by set_solver. cbn [app]. rewrite put_entry_last by done. 
  by rewrite (fd_set_attr_copied m created S_IFDIR 0 a) by (done || apply Hr).
Qed.

(** [link_to] makes new directories and gives every file a second name: the disk is
    unchanged, so that a write through one name is seen through the other. *)
Theorem link_to_spec created d t :
  linkable d t -> link_to created (Some t) None d = (d, Some (linked created t), Ok tt).
Proof.
  intros Hl. unfold link_to. pose proof Hl as Hl'. inversion Hl' as [m es Hr Hnd Hes | i n Hi Hr]; subst.
  - destruct (get_attr_reads m S_IFDIR 0 (proj1 Hr)) as (a & Ha & _). cbn [get_attr]. rewrite Ha. cbn [default].
    rewrite link_into_links by (done || set_solver). cbn [app linked].
    by rewrite (set_attr_copied m created S_IFDIR 0 a) by done.
  - destruct (get_attr_reads (meta n) (type_bits (body n)) (rdev_of (body n)) Hr) as (a & Ha & _).
    unfold get_attr. by rewrite Hi, Ha.
Qed.

Lemma link_to_spec_witness :
  link_to demo_created (Some demo_tree) None demo_disk = (demo_disk, Some (linked demo_created demo_tree), Ok tt).
Proof.
  apply link_to_spec. apply linkable_Dir; [by apply demo_meta_proper | apply (bool_decide_unpack _); vm_compute; exact I |].
  constructor; [| constructor; [| constructor]]; (split; [by vm_compute |]).
  - eapply linkable_Leaf; [by vm_compute |]. by apply (demo_meta_proper 493).
  - apply linkable_Dir; [by split | apply (bool_decide_unpack _); vm_compute; exact I |].
    constructor; [| constructor]. split; [by vm_compute |]. eapply linkable_Leaf; [by vm_compute |]. by apply (demo_meta_proper 511).
Defined.

(** ** What is in the way *)

(** A file that is copied into a directory where its name is a hard link to the file itself
    is emptied first, and the copy of nothing succeeds: the data is lost.  [copy_to] removes
    the destination first and does not lose it. *)
Theorem copy_into_own_link created d name i m data ds :
  d !! i = Some (mkInode m (Reg data)) -> readable m -> Dir.hidden name = false -> lookup_entry name ds = Some (Leaf i) ->
  forall m0, exists d', copy_into_impl created (Dir m0 [(name, Leaf i)]) ds d = (d', ds, Ok tt) /\ body <$> d' !! i = Some (Reg []).
Proof.
  intros Hi Hr Hh Hl m0. destruct (get_attr_reads m S_IFREG 0 Hr) as (a & Ha & _).
  cbn [copy_into_impl each_entry]. rewrite Hh. unfold copy_entry, get_attr. rewrite Hi. cbn [meta body type_bits rdev_of].
  rewrite Ha. cbn [fmap option_fmap option_map body]. unfold create_at. rewrite Hl, Hi. unfold copy_data.
  rewrite lookup_insert_eq, decide_True, insert_insert_eq by done. eexists. split; [done |]. by rewrite lookup_insert_eq.
Qed.

Lemma copy_into_own_link_witness :
  exists d', copy_into_impl demo_created (Dir (demo_meta 493) [(#"magisk", Leaf 1)]) [(#"magisk", Leaf 1)] demo_disk
    = (d', [(#"magisk", Leaf 1)], Ok tt) /\ body <$> d' !! 1%N = Some (Reg []).
Proof.
  apply (copy_into_own_link demo_created demo_disk #"magisk" 1 (demo_meta 2541) #"elf"); [by vm_compute | | by vm_compute | by vm_compute].
  by apply (demo_meta_proper 493).
Defined.

(** A tree with a link cannot be copied over its copy: the link exists. *)
Example copy_again_fails :
  let '(d, t, r) := copy_to demo_created (Some demo_tree) None demo_disk in
  r = Ok tt /\ (copy_to demo_created (Some demo_tree) t d).2 = Err tt.
Proof. by vm_compute. Qed.

(** A device, a fifo or a socket is left out of a copied directory without an error; as the
    source of [copy_to] it is an error, after the destination has been removed. *)
Theorem special_files_not_copied created d i n m name t :
  d !! i = Some n -> readable (meta n) -> (match body n with Reg _ | Lnk _ => False | _ => True end) ->
  Dir.hidden name = false ->
  copy_into_impl created (Dir m [(name, Leaf i)]) [] d = (d, [], Ok tt) /\
  copy_to created (Some (Leaf i)) (Some (Leaf t)) d = (d, None, Err tt).
Proof.
  intros Hi Hr Hb Hh. destruct (get_attr_reads (meta n) (type_bits (body n)) (rdev_of (body n)) Hr) as (a & Ha & _).
  cbn [copy_into_impl each_entry]. rewrite Hh. unfold copy_to, copy_entry, get_attr. rewrite Hi, Ha. cbn [fmap option_fmap option_map remove].
  by destruct (body n).
Qed.

(** [is_dir] and the rest tell the kinds of files apart. *)
Theorem file_attr_kinds d i n a :
  d !! i = Some n -> proper (meta n) -> get_attr d (Leaf i) = Ok a ->
  is_dir a = false /\ (is_file a = true <-> exists x, body n = Reg x) /\ (is_symlink a = true <-> exists x, body n = Lnk x) /\
  (is_whiteout a = true <-> body n = Chr 0).
Proof.
  intros Hi [Hr Hp] Ha. unfold get_attr in Ha. rewrite Hi in Ha.
  destruct (get_attr_reads (meta n) (type_bits (body n)) (rdev_of (body n)) Hr) as (a' & Ha' & Hm & _ & _ & Hd & _).
  rewrite Ha in Ha'. injection Ha' as <-. unfold is_dir, is_file, is_symlink, is_whiteout, is_char_device, is_.
  rewrite Hm, Hd, Z.land_lor_distr_l, Hp, Z.lor_0_r. destruct (body n) as [x|x|r|r| |]; cbn; split_and!; try naive_solver.
  split; [intros ->%Z.eqb_eq; done | by intros [= ->]].
Qed.

Lemma file_attr_kinds_witness :
  exists a, get_attr demo_disk (Leaf 2) = Ok a /\ is_symlink a = true.
Proof.
  eexists. split; [vm_compute; reflexivity |].
  apply (file_attr_kinds demo_disk 2 (mkInode (demo_meta 511) (Lnk #"./magisk"))); [by vm_compute | by apply demo_meta_proper | by vm_compute | eauto].
Defined.

(** * Removing and moving at paths *)

(** The entries that are left, and whether every call succeeded: [post_order_walk] with
    [unlink], which fails for a directory that is not empty. *)
Definition unlink_entries {T} (is_dir : T -> bool) (with_entries : T -> list (bytes * T) -> T)
    (unlink_all : T -> list (bytes * T) * logged unit) : list (bytes * T) -> list (bytes * T) * logged unit :=
  fix go es :=
    match es with
    | [] => ([], Ok tt)
    | (name, c) :: es =>
        if Dir.hidden name then let '(stay, r) := go es in ((name, c) :: stay, r) else
        if is_dir c then
          let '(stay, r) := unlink_all c in
          match r, stay with
          | Ok _, [] => go es
          | Ok _, _ => ((name, with_entries c stay) :: es, Err tt)
          | r, _ => ((name, with_entries c stay) :: es, r)
          end
        else go es
    end.

(** [Utf8CStr::remove_all]: what is left at the path. *)
Definition remove_all {T} (is_dir : T -> bool) (with_entries : T -> list (bytes * T) -> T)
    (unlink_all : T -> list (bytes * T) * logged unit) (t : option T) : option T * logged unit :=
  match t with
  | None => (None, Ok tt)
  | Some t =>
      if is_dir t then
        let '(stay, r) := unlink_all t in
        match r, stay with
        | Ok _, [] => (None, Ok tt)
        | Ok _, _ => (Some (with_entries t stay), Err tt)
        | r, _ => (Some (with_entries t stay), r)
        end
      else (None, Ok tt)
  end.

(** On the trees with attributes, and on those of Dir. *)
Definition is_Dir (t : tree) : bool := match t with Dir _ _ => true | Leaf _ => false end.
Definition with_entries (t : tree) (es : entries) : tree := match t with Dir m _ => Dir m es | t => t end.
Fixpoint unlink_tree (t : tree) : entries * logged unit :=
  match t with Dir _ es => unlink_entries is_Dir with_entries unlink_tree es | Leaf _ => ([], Ok tt) end.
Definition remove_tree : option tree -> option tree * logged unit := remove_all is_Dir with_entries unlink_tree.

Fixpoint unlink_node (n : Dir.node) : list (bytes * Dir.node) * logged unit :=
  match n with Dir.Folder es => unlink_entries Dir.is_dir (fun _ => Dir.Folder) unlink_node es | _ => ([], Ok tt) end.
Definition remove_node : option Dir.node -> option Dir.node * logged unit := remove_all Dir.is_dir (fun _ => Dir.Folder) unlink_node.

(** [move_to]: what is left at the source, and what is at the destination.  A directory at
    the destination is moved into; anything else there is removed before the rename. *)
Definition move_to (src dst : option Dir.node) : option Dir.node * option Dir.node * logged unit :=
  match dst with
  | Some (Dir.Folder ds) =>
      match src with
      | Some (Dir.Folder es) =>
          let '(stay, ds, r) := Dir.move_into es ds in (Some (Dir.Folder stay), Some (Dir.Folder ds), r)
      | _ => (src, dst, Err tt)
      end
  | _ =>
      match src with
      | Some n => (None, Some n, Ok tt)
      | None => (None, None, Err tt)
      end
  end.

(** The same on the trees of Dir. *)
Fixpoint all_listed (n : Dir.node) : bool :=
  match n with
  | Dir.Folder es => forallb (fun e => negb (Dir.hidden e.1) && all_listed e.2) es
  | _ => true
  end.

Section Unlink.
Context {T : Type} (is_dir : T -> bool) (put : T -> list (bytes * T) -> T) (unlink : T -> list (bytes * T) * logged unit).
Context (listed : T -> bool).
Hypothesis files_listed : forall c, is_dir c = false -> listed c = true.

(** The entries of the tree are all removed exactly when all its names are listed. *)
Definition unlinks (t : T) : Prop :=
  (listed t = true -> unlink t = ([], Ok tt)) /\ (listed t = false -> unlink t <> ([], Ok tt)).

Lemma unlink_entries_listed es :
  Forall (fun e => unlinks e.2) es ->
  let all := forallb (fun e => negb (Dir.hidden e.1) && listed e.2) es in
  (all = true -> unlink_entries is_dir put unlink es = ([], Ok tt)) /\
  (all = false -> unlink_entries is_dir put unlink es <> ([], Ok tt)).
Proof using files_listed.
  induction 1 as [|[name c] es [IHt IHf] _ [IHt' IHf']]; [done |]. cbn [forallb fst snd unlink_entries] in *.
  destruct (Dir.hidden name); cbn [negb andb].
  - split; [done |]. intros _. by destruct (unlink_entries _ _ _ es).
  - destruct (is_dir c) eqn:Ed; [| rewrite files_listed by done; by split].
    destruct (listed c); cbn [andb].
    + rewrite IHt by done. by split.
    + split; [done |]. intros _. specialize (IHf eq_refl). by destruct (unlink c) as [[|? ?] [[]|[]|]].
Qed.

Lemma remove_all_listed t :
  (forall t, unlinks t) -> remove_all is_dir put unlink t = (None, Ok tt) <-> (forall c, t = Some c -> listed c = true).
Proof using files_listed.
  intros Hu. destruct t as [t|]; cbn [remove_all]; [| by split]. destruct (is_dir t) eqn:Ed.
  2:{ split; [intros _ ? [= <-]; by apply files_listed | done]. }
  destruct (Hu t) as [Ht Hf]. destruct (listed t) eqn:E; split.
  - by intros _ ? [= <-].
  - by rewrite Ht.
  - specialize (Hf eq_refl). by destruct (unlink t) as [[|? ?] [[]|[]|]].
  - intros H. specialize (H _ eq_refl). congruence.
Qed.
End Unlink.

Lemma unlink_node_listed n : unlinks unlink_node all_listed n.
Proof.
  induction n as [d|t|w|es IH] using Dir.node_induction; try done. apply unlink_entries_listed; [| done]. by intros [].
Qed.

Lemma unlink_tree_listed t : unlinks unlink_tree tree_listed t.
Proof.
  induction t as [m es IH|i] using tree_induction; try done. apply unlink_entries_listed; [| done]. by intros [].
Qed.

(** [remove_all] removes what is at a path exactly when every name in it can be listed: a
    name that is not UTF-8 is never unlinked, its directory is not empty, and the call fails. *)
Theorem remove_tree_spec t : remove_tree t = (None, Ok tt) <-> (forall c, t = Some c -> tree_listed c = true).
Proof. apply remove_all_listed; [by intros [] | apply unlink_tree_listed]. Qed.

Theorem remove_node_spec n : remove_node n = (None, Ok tt) <-> (forall c, n = Some c -> all_listed c = true).
Proof. apply remove_all_listed; [by intros [] | apply unlink_node_listed]. Qed.

(** [move_to] onto a path where no directory is always ends with the source there; when the
    source does not exist, what was at the destination is gone all the same.  A file cannot
    be moved onto a directory, and a directory that is moved into one stays behind. *)
Theorem move_to_spec src dst :
  match dst, src with
  | Some (Dir.Folder ds), Some (Dir.Folder es) => exists stay, (move_to src dst).1.1 = Some (Dir.Folder stay)
  | Some (Dir.Folder ds), _ => move_to src dst = (src, dst, Err tt)
  | _, Some n => move_to src dst = (None, Some n, Ok tt)
  | _, None => move_to src dst = (None, None, Err tt)
  end.
Proof.
  destruct dst as [[| | |ds]|], src as [[| | |es]|]; try done. unfold move_to. destruct (Dir.move_into es ds) as [[stay ds'] r]. by exists stay.
Qed.

End FileTree.
