(* ===== verification/Attr.v ===== *)
(** base/files.rs: attributes and contexts of files by path, by path through links
    ([FsPathFollow]), and by descriptor, with the errors they report.

    Files are known by number; how the kernel resolves a path or a descriptor, and which
    calls it refuses, are arguments. *)

From S2P Require Import Prelude Text Numeric CStr ErrorLog FileTree.

Module Attr.
Import CStr ErrorLog FileTree.

Record Node := mkNode { n_meta : Meta; n_bits : Z; n_rdev : Z }.
Abbreviation Nodes := (gmap N Node).

(** [Utf8CStr], [FsPathFollow], and a descriptor. *)
Inductive Target := Path (p : bytes) | Follow (p : bytes) | Fd (fd : Z).

Section Attr.
Context (lres fres : bytes -> Z + N) (fdres : Z -> Z + N) (fault : bytes -> option Z) (ENOENT ENODATA ERANGE : Z).

Definition M (A : Type) : Type := Nodes -> Nodes * (OsError + A).
#[local] Instance M_ret : MRet M := fun A a d => (d, inr a).
#[local] Instance M_bind : MBind M := fun A B f m d => match m d with (d, inr a) => f a d | (d, inl e) => (d, inl e) end.
Definition fail {A} (e : OsError) : M A := fun d => (d, inl e).

Definition resolve (t : Target) : Z + N := match t with Path p => lres p | Follow p => fres p | Fd fd => fdres fd end.
Definition arg (t : Target) : option bytes := match t with Path p | Follow p => Some p | Fd _ => None end.

(** The system call [sys] on the file of [t]; [label] is what an error is reported as. *)
Definition syscall {A} (sys : bytes) (t : Target) (f : Node -> Node * (Z + A)) : Nodes -> Nodes * (Z + A) := fun d =>
  match fault sys with
  | Some e => (d, inl e)
  | None =>
      match resolve t with
      | inl e => (d, inl e)
      | inr i => match d !! i with Some n => let '(n, r) := f n in (<[i := n]> d, r) | None => (d, inl ENOENT) end
      end
  end.
Definition checked {A} (label : bytes) (a1 a2 : option bytes) (m : Nodes -> Nodes * (Z + A)) : M A := fun d =>
  let '(d, r) := m d in (d, match r with inl e => inl (mkOsError e label a1 a2) | inr a => inr a end).

(** ** Contexts *)

Definition getxattr (cap : nat) (n : Node) : Node * (Z + bytes) :=
  (n, match xattr (n_meta n) with None => inl ENODATA | Some v => if (cap <? length v)%nat then inl ERANGE else inr v end).
Definition setxattr (c : bytes) (n : Node) : Node * (Z + unit) := (mkNode (FileTree.set_secontext c (n_meta n)) (n_bits n) (n_rdev n), inr tt).

Definition getxattr_name (t : Target) : bytes := match t with Path _ => #"lgetxattr" | Follow _ => #"getxattr" | Fd _ => #"fgetxattr" end.
Definition setxattr_name (t : Target) : bytes := match t with Path _ => #"lsetxattr" | Follow _ => #"setxattr" | Fd _ => #"fsetxattr" end.

Definition get_secontext (t : Target) (c : FixedBuf) : M FixedBuf := fun d =>
  let c := clear c in
  match syscall (getxattr_name t) t (getxattr (length (buf c))) d with
  | (d, inr v) => (d, inr (rebuild (mkFixedBuf (used c) (v ++ drop (length v) (buf c)))).1)
  | (d, inl e) => if e =? ENODATA then (d, inr c) else (d, inl (mkOsError e (getxattr_name t) (arg t) None))
  end.
Definition set_secontext (t : Target) (c : bytes) : M unit :=
  match t with
  | Fd _ => checked (setxattr_name t) (Some c) None (syscall (setxattr_name t) t (setxattr c))
  | _ => checked (setxattr_name t) (arg t) (Some c) (syscall (setxattr_name t) t (setxattr c))
  end.

(** ** Attributes *)

Definition stat_name (t : Target) : bytes := match t with Path _ => #"lstat" | Follow _ => #"stat" | Fd _ => #"fstat" end.
(** [FsPathFollow::get_attr] calls [stat] and reports [lstat]. *)
Definition stat_label (t : Target) : bytes := match t with Path _ | Follow _ => #"lstat" | Fd _ => #"fstat" end.

Definition get_attr (t : Target) : M FileAttr :=
  st ← checked (stat_label t) (arg t) None (syscall (stat_name t) t (fun n => (n, inr n)));
  let attr := lstat (n_meta st) (n_bits st) (n_rdev st) in
  c ← get_secontext t (con attr);
  mret (mkFileAttr (st_mode attr) (st_uid attr) (st_gid attr) (st_rdev attr) c).

Definition change (f : Meta -> Meta) (n : Node) : Node * (Z + unit) := (mkNode (f (n_meta n)) (n_bits n) (n_rdev n), inr tt).

(** [FsPathFollow::chmod], and [fchmod] of a descriptor. *)
Definition chmod (t : Target) (mode : Z) : M unit :=
  let label := match t with Fd _ => #"fchmod" | _ => #"chmod" end in
  checked label (arg t) None (syscall label t (change (FileTree.chmod mode))).
Definition chown (t : Target) (u g : Z) : M unit :=
  let label := match t with Path _ => #"lchown" | Follow _ => #"chown" | Fd _ => #"fchown" end in
  checked label (arg t) None (syscall label t (change (FileTree.chown u g))).

(** The owner and the context, at the end of the three functions. *)
Definition set_rest (t : Target) (attr : FileAttr) : M unit :=
  _ ← chown t (st_uid attr) (st_gid attr);
  if buf_is_empty (con attr) then mret tt else set_secontext t (as_str (con attr)).

Definition set_attr (t : Target) (attr : FileAttr) : M unit :=
  match t with
  | Path p => fun d =>
      if is_symlink attr then set_rest t attr d else
      match chmod (Follow p) (Z.land (st_mode attr) 511) d with
      | (d, inr _) => set_rest t attr d
      | (d, inl e) =>
          (** check again that it is a link before the error is reported *)
          (self_attr ← get_attr t; if is_symlink self_attr then set_rest t attr else fail e) d
      end
  | _ => _ ← chmod t (Z.land (st_mode attr) 511); set_rest t attr
  end.

(** The functions by their names. *)
Definition fd_get_secontext (fd : Z) := get_secontext (Fd fd).
Definition fd_set_secontext (fd : Z) := set_secontext (Fd fd).
Definition fd_get_attr (fd : Z) := get_attr (Fd fd).
Definition fd_set_attr (fd : Z) := set_attr (Fd fd).
Definition follow_get_attr (p : bytes) := get_attr (Follow p).
Definition follow_set_attr (p : bytes) := set_attr (Follow p).
Definition follow_get_secontext (p : bytes) := get_secontext (Follow p).
Definition follow_set_secontext (p : bytes) := set_secontext (Follow p).

Definition with_args {A} (a1 : option bytes) (m : M A) : M A := fun d =>
  let '(d, r) := m d in (d, match r with inl e => inl (set_args a1 None e) | inr a => inr a end).

Definition clone_attr (a b : bytes) : M unit :=
  attr ← with_args (Some a) (get_attr (Path a)); with_args (Some b) (set_attr (Path b) attr).
Definition fclone_attr (a b : Z) : M unit :=
  attr ← fd_get_attr a; with_args None (fd_set_attr b attr).

(** [exists]: [lstat], and [access] through links. *)
Definition exists_ (t : Target) (d : Nodes) : bool :=
  let sys := match t with Follow _ => #"access" | _ => #"lstat" end in
  match (syscall sys t (fun n => (n, inr tt)) d).2 with inr _ => true | inl _ => false end.

(** * Theorems *)

Lemma syscall_ok {A} sys t (f : Node -> Node * (Z + A)) d i n :
  fault sys = None -> resolve t = inr i -> d !! i = Some n -> syscall sys t f d = (<[i := (f n).1]> d, (f n).2).
Proof. intros Hf Hr Hd. unfold syscall. rewrite Hf, Hr, Hd. by destruct (f n). Qed.

Definition err_of {A} (t : Target) (r : logged A) : OsError + A :=
  match r with Ok a => inr a | _ => inl (mkOsError ERANGE (getxattr_name t) (arg t) None) end.

(** Reading attributes is [get_attr_of] of FileTree, in all three ways, and changes nothing;
    a context that does not fit is the only error. *)
Theorem get_attr_refines t d i n :
  (forall sys, fault sys = None) -> resolve t = inr i -> d !! i = Some n -> ERANGE <> ENODATA ->
  get_attr t d = (d, err_of t (get_attr_of (n_meta n) (n_bits n) (n_rdev n))).
Proof.
  intros Hf Hr Hd Hne. unfold get_attr, checked, mbind, M_bind. rewrite (syscall_ok _ _ _ _ _ _ (Hf _) Hr Hd). cbn [fst snd]. rewrite insert_id by done.
  unfold get_secontext. rewrite (syscall_ok _ _ _ _ _ _ (Hf _) Hr Hd). cbn [getxattr fst snd]. rewrite insert_id by done.
  unfold get_attr_of, FileTree.get_secontext. destruct (xattr (n_meta n)) as [v|] eqn:Ex; rewrite ?Ex; cbv zeta; [| by rewrite Z.eqb_refl].
  destruct (_ <? length v)%nat; [| done]. cbn. by destruct (Z.eqb_spec ERANGE ENODATA).
Qed.

Lemma change_ok sys t f d i n :
  fault sys = None -> resolve t = inr i -> d !! i = Some n ->
  syscall sys t (change f) d = (<[i := mkNode (f (n_meta n)) (n_bits n) (n_rdev n)]> d, inr tt).
Proof. intros Hf Hr Hd. by rewrite (syscall_ok _ _ _ _ _ _ Hf Hr Hd). Qed.

Lemma set_rest_ok t attr d i n :
  (forall sys, fault sys = None) -> resolve t = inr i -> d !! i = Some n ->
  set_rest t attr d = (<[i := mkNode (set_owner attr (n_meta n)) (n_bits n) (n_rdev n)]> d, inr tt).
Proof.
  intros Hf Hr Hd. unfold set_rest, chown, checked, mbind, M_bind. rewrite (change_ok _ _ _ _ _ _ (Hf _) Hr Hd). unfold set_owner.
  destruct (buf_is_empty (con attr)); [done |]. set (n' := mkNode _ _ _).
  assert (<[i := n']> d !! i = Some n') as Hd' by apply lookup_insert_eq.
  unfold set_secontext, checked. destruct t; rewrite (syscall_ok _ _ _ _ _ _ (Hf _) Hr Hd'); cbn [setxattr fst snd]; rewrite insert_insert_eq; done.
Qed.

(** Setting attributes is [fd_set_attr] of FileTree through links and on descriptors, and
    [set_attr] on a path that is no link: the one file changes, and no other. *)
Theorem set_attr_refines t attr d i n :
  (forall sys, fault sys = None) -> resolve t = inr i -> d !! i = Some n ->
  match t with Path p => fres p = inr i | _ => True end ->
  set_attr t attr d =
  (<[i := mkNode (match t with Path _ => FileTree.set_attr attr (n_meta n) false | _ => FileTree.fd_set_attr attr (n_meta n) end) (n_bits n) (n_rdev n)]> d, inr tt).
Proof.
  intros Hf Hr Hd Hp. set (n' := mkNode (FileTree.chmod (Z.land (st_mode attr) 511) (n_meta n)) (n_bits n) (n_rdev n)).
  assert (<[i := n']> d !! i = Some n') as Hd' by apply lookup_insert_eq.
  assert (forall t', resolve t' = inr i -> chmod t' (Z.land (st_mode attr) 511) d = (<[i := n']> d, inr tt)) as Hc.
  { intros t' Ht'. unfold chmod, checked. by rewrite (change_ok _ _ _ _ _ _ (Hf _) Ht' Hd). }
  assert (set_rest t attr (<[i := n']> d) = (<[i := mkNode (FileTree.fd_set_attr attr (n_meta n)) (n_bits n) (n_rdev n)]> d, inr tt)) as Hs.
  { rewrite (set_rest_ok _ _ _ _ _ Hf Hr Hd'). by rewrite insert_insert_eq. }
  destruct t as [p|p|fd]; cbn [set_attr].
  - unfold FileTree.set_attr. destruct (is_symlink attr); cbn [orb]; [by apply set_rest_ok |]. by rewrite (Hc (Follow p) Hp), Hs.
  - unfold mbind, M_bind. by rewrite (Hc (Follow p) Hr), Hs.
  - unfold mbind, M_bind. by rewrite (Hc (Fd fd) Hr), Hs.
Qed.

(** Giving the attributes of a file to a path that is a link changes the permissions of the
    file the link leads to, which is otherwise left alone. *)
Theorem set_attr_through_link p attr d i j n m :
  (forall sys, fault sys = None) -> lres p = inr i -> fres p = inr j -> i <> j -> d !! i = Some n -> d !! j = Some m -> is_symlink attr = false ->
  exists d', set_attr (Path p) attr d = (d', inr tt) /\
    d' !! j = Some (mkNode (FileTree.chmod (Z.land (st_mode attr) 511) (n_meta m)) (n_bits m) (n_rdev m)) /\
    d' !! i = Some (mkNode (set_owner attr (n_meta n)) (n_bits n) (n_rdev n)).
Proof.
  intros Hf Hi Hj Hne Hn Hm Ha. unfold set_attr. rewrite Ha. unfold chmod, checked. rewrite (change_ok _ (Follow p) _ _ _ _ (Hf _) Hj Hm).
  set (d1 := <[j := _]> d). assert (d1 !! i = Some n) as Hd1 by (unfold d1; by rewrite lookup_insert_ne).
  rewrite (set_rest_ok (Path p) attr d1 i n Hf Hi Hd1). eexists. split; [done |].
  split; [rewrite lookup_insert_ne by done; apply lookup_insert_eq | apply lookup_insert_eq].
Qed.

(** An error of [stat] through links is reported as one of [lstat]. *)
Theorem follow_reports_lstat p e d :
  fault #"stat" = Some e -> get_attr (Follow p) d = (d, inl (mkOsError e #"lstat" (Some p) None)).
Proof. intros He. unfold get_attr, checked, syscall, mbind, M_bind. cbn [stat_name]. by rewrite He. Qed.

(** Cloning goes through: afterwards the attributes of the second file are a copy of those
    of the first, as FileTree has it. *)
Theorem fclone_attr_refines a b d i j n m :
  (forall sys, fault sys = None) -> fdres a = inr i -> fdres b = inr j -> d !! i = Some n -> d !! j = Some m -> ERANGE <> ENODATA ->
  fclone_attr a b d =
  match FileTree.fclone_attr (n_meta n) (n_meta m) (n_bits n) (n_rdev n) with
  | Ok meta => (<[j := mkNode meta (n_bits m) (n_rdev m)]> d, inr tt)
  | _ => (d, inl (mkOsError ERANGE #"fgetxattr" None None))
  end.
Proof.
  intros Hf Hi Hj Hn Hm Hne. unfold fclone_attr, fd_get_attr, fd_set_attr, FileTree.fclone_attr, mbind, M_bind. rewrite (get_attr_refines (Fd a) d i n Hf Hi Hn Hne).
  destruct (get_attr_of _ _ _) as [attr| |]; cbn [err_of getxattr_name arg res_bind]; [| done..]. unfold with_args. by rewrite (set_attr_refines (Fd b) attr d j m Hf Hj Hm I).
Qed.

End Attr.

Definition demo_nodes : Nodes := {[ 1%N := mkNode (mkMeta 420 0 0 (Some (#"u:object_r:x:s0" ++ [NUL]))) S_IFREG 0; 2%N := mkNode (mkMeta 384 7 7 None) S_IFREG 0 ]}.

(** Reading, copying and reading again. *)
Example clone_example :
  let res p := if bool_decide (p = #"a") then inr 1%N else inr 2%N in
  let d := (clone_attr res res (fun _ => inl 9) (fun _ => None) 2 61 34 #"a" #"b" demo_nodes).1 in
  n_meta <$> d !! 2%N = n_meta <$> demo_nodes !! 1%N.
Proof. vm_compute. reflexivity. Qed.

End Attr.
