(* ===== verification/DirFd.v ===== *)
(** base/dir.rs: the file descriptors of [Directory].  A directory is open from where it is
    opened until it goes out of scope, also when an operation fails; the theorems bound the
    descriptors of every operation on a tree, and show that all of them are closed.

    Which system call succeeds is an argument: the [n]-th call is [sys n], the [n]-th
    [fdopendir] is [fdopendir n], and what the callback of a walk answers is [answer n]. *)

From S2P Require Import Prelude.

Module DirFd.

(** What [readdir] finds, by [d_type]. *)
Inductive Entry := File | Symlink | Other | Dir (children : list Entry).

Inductive WalkResult := Continue | Abort | Skip.

(** Open descriptors now, those that nobody will close, the most that were ever open, and
    the number of calls so far. *)
Record Fds := mkFds { opened : nat; leaked : nat; peak : nat; calls : nat }.

(** A call fails, and is logged, or returns a value. *)
Definition R (A : Type) : Type := Fds -> Fds * option A.
#[export] Instance R_ret : MRet R := fun A a st => (st, Some a).
#[export] Instance R_bind : MBind R := fun A B f m st => match m st with (st, Some a) => f a st | (st, None) => (st, None) end.

Section Calls.
Context (sys fdopendir : nat -> bool) (answer : nat -> option WalkResult).

Definition tick (st : Fds) : Fds := mkFds (opened st) (leaked st) (peak st) (S (calls st)).
Definition more (st : Fds) : Fds := mkFds (S (opened st)) (leaked st) (Nat.max (peak st) (S (opened st))) (calls st).
Definition less (st : Fds) : Fds := mkFds (opened st - 1) (leaked st) (peak st) (calls st).
Definition leak (st : Fds) : Fds := mkFds (opened st) (S (leaked st)) (peak st) (calls st).

(** A call that opens nothing. *)
Definition call : R unit := fun st => (tick st, if sys (calls st) then Some tt else None).

(** [OwnedFd] and [File]: open, use, close at the end of the scope. *)
Definition scoped {A} (k : R A) : R A := fun st =>
  if sys (calls st) then let '(st, r) := k (more (tick st)) in (less st, r) else (tick st, None).

(** [TryFrom<OwnedFd>]: the descriptor is given up before [fdopendir], and is not closed when
    that fails.  [Drop] closes the directory. *)
Definition try_from {A} (k : R A) : R A := fun st =>
  if fdopendir (calls st) then let '(st, r) := k (tick st) in (less st, r) else (leak (tick st), None).

Definition open_as_dir_at {A} (k : R A) : R A := fun st =>
  if sys (calls st) then try_from k (more (tick st)) else (tick st, None).

(** [DirEntry::open_as_dir] and [open_as_file], with the type [readdir] gave. *)
Definition is_dir (e : Entry) : bool := match e with Dir _ => true | _ => false end.
Definition open_as_dir {A} (e : Entry) (k : R A) : R A := if is_dir e then open_as_dir_at k else fun st => (st, None).
Definition open_as_file {A} (e : Entry) (k : R A) : R A := if is_dir e then fun st => (st, None) else scoped k.

(** The callback of a walk. *)
Definition callback : R WalkResult := fun st => (tick st, answer (calls st)).

(** A loop over the entries, until one stops it; every [read] may fail. *)
Section Loop.
Context {A B : Type} (body : A -> R (option B)) (done_ : B).
Fixpoint each_entry (l : list A) : R B :=
  _ ← call;
  match l with
  | [] => mret done_
  | e :: l => s ← body e; match s with Some r => mret r | None => each_entry l end
  end.
End Loop.

(** ** Walks *)

Definition after_post (w : WalkResult) : option WalkResult := match w with Abort => Some Abort | Skip => Some Continue | Continue => None end.

Fixpoint post_entry (e : Entry) : R (option WalkResult) :=
  match e with
  | Dir ch =>
      r ← open_as_dir (Dir ch) (each_entry post_entry Continue ch);
      match r with Abort => mret (Some Abort) | _ => w ← callback; mret (after_post w) end
  | _ => w ← callback; mret (after_post w)
  end.
Definition post_order_walk (l : list Entry) : R WalkResult := each_entry post_entry Continue l.

Fixpoint pre_entry (e : Entry) : R (option WalkResult) :=
  w ← callback;
  match w with
  | Abort => mret (Some Abort)
  | Skip => mret None
  | Continue =>
      match e with
      | Dir ch => r ← open_as_dir (Dir ch) (each_entry pre_entry Continue ch); mret (match r with Abort => Some Abort | _ => None end)
      | _ => mret None
      end
  end.
Definition pre_order_walk (l : list Entry) : R WalkResult := each_entry pre_entry Continue l.

(** [remove_all]: the callback unlinks. *)
Fixpoint remove_entry (e : Entry) : R (option unit) :=
  _ ← match e with Dir ch => open_as_dir (Dir ch) (each_entry remove_entry tt ch) | _ => mret tt end;
  _ ← call; mret None.
(** [self] is owned: it is open when the call begins and is closed when it returns. *)
Definition owned {A} (k : R A) : R A := fun st => let '(st, r) := k st in (less st, r).
Definition remove_all (l : list Entry) : R unit := owned (each_entry remove_entry tt l).

(** ** Copying, linking and moving into another directory *)

Fixpoint copy_entry (e : Entry) : R (option unit) :=
  _ ← call; _ ← call;
  match e with
  | Dir ch =>
      _ ← call;
      open_as_dir (Dir ch) (open_as_dir_at (_ ← each_entry copy_entry tt ch; _ ← call; mret None))
  | File => open_as_file File (scoped (_ ← call; _ ← call; mret None))
  | Symlink => _ ← call; _ ← call; _ ← call; _ ← call; mret None
  | Other => mret None
  end.
Definition copy_into (l : list Entry) : R unit := each_entry copy_entry tt l.

Fixpoint link_entry (e : Entry) : R (option unit) :=
  match e with
  | Dir ch =>
      _ ← call; _ ← call; _ ← call;
      open_as_dir (Dir ch) (open_as_dir_at (_ ← each_entry link_entry tt ch; _ ← call; mret None))
  | _ => _ ← call; mret None
  end.
Definition link_into (l : list Entry) : R unit := each_entry link_entry tt l.

(** A directory that the destination has too is moved entry by entry, and ends the loop. *)
Fixpoint move_entry (e : Entry) : R (option unit) :=
  match e with
  | Dir ch => fun st =>
      if sys (calls st) then (_ ← open_as_dir (Dir ch) (open_as_dir_at (each_entry move_entry tt ch)); _ ← call; mret (Some tt)) (tick st)
      else (_ ← call; mret None) (tick st)
  | _ => _ ← call; mret None
  end.
Definition move_into (l : list Entry) : R unit := each_entry move_entry tt l.

(** * Bounds *)

(** How deep directories are nested. *)
Fixpoint depth (e : Entry) : nat := match e with Dir ch => S (foldr (fun e n => Nat.max (depth e) n) 0%nat ch) | _ => 0 end.
Definition depths (l : list Entry) : nat := foldr (fun e n => Nat.max (depth e) n) 0%nat l.

(** At most [d] descriptors more, and afterwards as many as before but for the leaks. *)
Definition within (d : nat) {A} (m : R A) : Prop := forall st,
  let st' := (m st).1 in
  (leaked st <= leaked st')%nat /\ (opened st' = opened st + (leaked st' - leaked st))%nat /\
  (peak st' <= Nat.max (peak st) (opened st' + d))%nat /\ ((forall n, fdopendir n = true) -> leaked st' = leaked st).

Lemma within_ret d {A} (a : A) : within d (mret a).
Proof. intros st. cbn. split_and!; try done; lia. Qed.

Lemma within_bind d {A B} (m : R A) (f : A -> R B) : within d m -> (forall a, within d (f a)) -> within d (m ≫= f).
Proof.
  intros Hm Hf st. pose proof (Hm st) as H. unfold mbind, R_bind. destruct (m st) as [st1 [a|]] eqn:E; cbn [fst] in H; [| exact H].
  pose proof (Hf a st1) as H'. destruct (f a st1) as [st2 b]. cbn [fst] in *. destruct H as (H1 & H2 & H3 & H4), H' as (K1 & K2 & K3 & K4).
  split_and!; [lia | lia | lia |]. intros Hfd. by rewrite (K4 Hfd), (H4 Hfd).
Qed.

Lemma within_call d : within d call.
Proof. intros st. cbn. split_and!; try done; lia. Qed.
Lemma within_callback d : within d callback.
Proof. intros st. cbn. split_and!; try done; lia. Qed.
Lemma within_fail d {A} : within d (fun st => (st, None : option A)).
Proof. intros st. cbn. split_and!; try done; lia. Qed.

Lemma within_scoped d {A} (k : R A) : within d k -> within (S d) (scoped k).
Proof.
  intros Hk st. unfold scoped. destruct (sys (calls st)); [| cbn; split_and!; try done; lia].
  pose proof (Hk (more (tick st))) as H. destruct (k (more (tick st))) as [st' r]. cbn in *. destruct H as (H1 & H2 & H3 & H4). split_and!; try done; lia.
Qed.

Lemma within_open d {A} (k : R A) : within d k -> within (S d) (open_as_dir_at k).
Proof.
  intros Hk st. unfold open_as_dir_at, try_from. destruct (sys (calls st)); [| cbn; split_and!; try done; lia]. cbv zeta.
  destruct (fdopendir (calls (more (tick st)))) eqn:Ef.
  - pose proof (Hk (tick (more (tick st)))) as H. destruct (k (tick (more (tick st)))) as [st' r]. cbn in *. destruct H as (H1 & H2 & H3 & H4). split_and!; try done; lia.
  - cbn in *. split_and!; [lia | lia | lia |]. intros Hfd. by rewrite Hfd in Ef.
Qed.

Lemma within_mono d d' {A} (m : R A) : (d <= d')%nat -> within d m -> within d' m.
Proof. intros Hd Hm st. destruct (Hm st) as (H1 & H2 & H3 & H4). split_and!; try done. lia. Qed.

Lemma within_each d {A B} (body : A -> R (option B)) (b : B) l : Forall (fun x => within d (body x)) l -> within d (each_entry body b l).
Proof.
  induction 1 as [|x l Hx _ IH]; cbn [each_entry]; apply within_bind; try apply within_call; intros _; [apply within_ret |].
  apply within_bind; [exact Hx |]. intros [r|]; [apply within_ret | exact IH].
Qed.

Lemma depth_child e l : e ∈ l -> (depth e <= depths l)%nat.
Proof. induction l as [|x l IH]; [by intros ?%not_elem_of_nil |]. intros [->|H]%elem_of_cons; cbn; [lia | specialize (IH H); unfold depths in IH; lia]. Qed.

(** Steps that open nothing, and the parts of the others. *)
Ltac parts := repeat first
  [ apply within_ret | apply within_call | apply within_callback | apply within_fail
  | apply within_bind; [| intros ?] | match goal with |- within _ (match ?x with _ => _ end) => destruct x end ].

(** The children of a directory, by induction on the depth. *)
Lemma by_depth (bound : nat -> nat) {B} (f : Entry -> R (option B)) :
  (forall n, (bound n <= bound (S n))%nat) ->
  (forall e, is_dir e = false -> within (bound 0%nat) (f e)) ->
  (forall n ch, Forall (fun e => within (bound n) (f e)) ch -> within (bound (S n)) (f (Dir ch))) ->
  forall n e, (depth e <= n)%nat -> within (bound n) (f e).
Proof.
  intros Hb Hleaf Hdir n. assert (forall n, (bound 0 <= bound n)%nat) as H0 by (intros k; induction k as [|k IHk]; [done |]; specialize (Hb k); lia).
  induction n as [|n IH]; intros e He; destruct (is_dir e) eqn:Ed.
  - destruct e; try done. cbn in He. lia.
  - by apply Hleaf.
  - destruct e as [| | |ch]; try done. apply Hdir. apply Forall_forall. intros x Hx. apply IH. apply depth_child in Hx. cbn in He. unfold depths in Hx. lia.
  - eapply within_mono; [apply H0 | by apply Hleaf].
Qed.

Lemma each_depth (bound : nat -> nat) {B} (f : Entry -> R (option B)) b l :
  (forall n e, (depth e <= n)%nat -> within (bound n) (f e)) -> within (bound (depths l)) (each_entry f b l).
Proof. intros H. apply within_each, Forall_forall. intros e He. by apply H, depth_child. Qed.

Lemma post_within n e : (depth e <= n)%nat -> within n (post_entry e).
Proof.
  apply (by_depth (fun n => n)); [lia | by intros [| | |ch] H; try done; cbn [post_entry]; parts |].
  intros k ch Hch. cbn [post_entry]. parts. by apply within_open, within_each.
Qed.

Lemma pre_within n e : (depth e <= n)%nat -> within n (pre_entry e).
Proof.
  apply (by_depth (fun n => n)); [lia | by intros [| | |ch] H; try done; cbn [pre_entry]; parts |].
  intros k ch Hch. cbn [pre_entry]. parts. by apply within_open, within_each.
Qed.

Lemma remove_within n e : (depth e <= n)%nat -> within n (remove_entry e).
Proof.
  apply (by_depth (fun n => n)); [lia | by intros [| | |ch] H; try done; cbn [remove_entry]; parts |].
  intros k ch Hch. cbn [remove_entry]. parts. by apply within_open, within_each.
Qed.

Lemma copy_within n e : (depth e <= n)%nat -> within (2 * n + 2) (copy_entry e).
Proof.
  apply (by_depth (fun n => (2 * n + 2)%nat)); [lia | |].
  - intros [| | |ch] H; try done; cbn [copy_entry]; parts. apply within_scoped, within_scoped. parts.
  - intros k ch Hch. cbn [copy_entry]. parts. replace (2 * S k + 2)%nat with (S (S (2 * k + 2))) by lia. apply within_open, within_open. parts. by apply within_each.
Qed.

Lemma link_within n e : (depth e <= n)%nat -> within (2 * n) (link_entry e).
Proof.
  apply (by_depth (fun n => (2 * n)%nat)); [lia | by intros [| | |ch] H; try done; cbn [link_entry]; parts |].
  intros k ch Hch. cbn [link_entry]. parts. replace (2 * S k)%nat with (S (S (2 * k))) by lia. apply within_open, within_open. parts. by apply within_each.
Qed.

(** Whether the destination has the name is one call more. *)
Lemma within_branch d {A} (m1 m2 : R A) : within d m1 -> within d m2 -> within d (fun st => if sys (calls st) then m1 (tick st) else m2 (tick st)).
Proof. intros H1 H2 st. cbn zeta. destruct (sys (calls st)); [apply (H1 (tick st)) | apply (H2 (tick st))]. Qed.

Lemma move_within n e : (depth e <= n)%nat -> within (2 * n) (move_entry e).
Proof.
  apply (by_depth (fun n => (2 * n)%nat)); [lia | by intros [| | |ch] H; try done; cbn [move_entry]; parts |].
  intros k ch Hch. cbn [move_entry]. apply within_branch; [| parts]. parts. replace (2 * S k)%nat with (S (S (2 * k))) by lia.
  apply within_open, within_open. by apply within_each.
Qed.

(** C36: Whichever system calls fail and whatever the callback answers, every operation on a tree
    closes the descriptors it opens, and has at most one open for each level of the
    tree, or two when there is a destination (and two for a file that is copied);
    [remove_all] also closes the directory it is given, which has just been opened.  If
    [fdopendir] fails, its descriptor stays open. *)
Theorem descriptors_bounded l st :
  let ok (d : nat) (st' : Fds) :=
    (opened st' = opened st + (leaked st' - leaked st))%nat /\ (peak st' <= Nat.max (peak st) (opened st' + d))%nat /\
    ((forall n, fdopendir n = true) -> opened st' = opened st) in
  ok (depths l) (post_order_walk l st).1 /\ ok (depths l) (pre_order_walk l st).1 /\ ok (S (depths l)) (remove_all l (more st)).1 /\
  ok (2 * depths l + 2)%nat (copy_into l st).1 /\ ok (2 * depths l)%nat (link_into l st).1 /\ ok (2 * depths l)%nat (move_into l st).1.
Proof.
  intros ok. assert (forall d A (m : R A), within d m -> ok d (m st).1) as H.
  { intros d A m Hm. destruct (Hm st) as (H1 & H2 & H3 & H4). split_and!; [done | done |]. intros Hf. rewrite H2, (H4 Hf). lia. }
  split_and!; [apply H | apply H | | apply H..].
  - apply (each_depth (fun n => n)), post_within.
  - apply (each_depth (fun n => n)), pre_within.
  - destruct (each_depth (fun n => n) remove_entry tt l remove_within (more st)) as (H1 & H2 & H3 & H4). unfold remove_all, owned.
    destruct (each_entry remove_entry tt l (more st)) as [st' r]. cbn in *. unfold ok. cbn. split_and!; [lia | lia |]. intros Hf. specialize (H4 Hf). lia.
  - apply (each_depth (fun n => (2 * n + 2)%nat)), copy_within.
  - apply (each_depth (fun n => (2 * n)%nat)), link_within.
  - apply (each_depth (fun n => (2 * n)%nat)), move_within.
Qed.

End Calls.

(** A directory that is no directory any more when it is opened costs a descriptor. *)
Theorem fdopendir_leaks :
  let st := (remove_all (fun _ => true) (fun _ => false) [Dir []] (mkFds 4 0 4 0)).1 in opened st = 4%nat /\ leaked st = 1%nat.
Proof. done. Qed.

(** The bound is reached. *)
Example copy_peak :
  peak (copy_into (fun _ => true) (fun _ => true) [Dir [Dir [File]]; File] (mkFds 0 0 0 0)).1 = 6%nat.
Proof. reflexivity. Qed.
End DirFd.
