(* ===== verification/Contexts.v ===== *)
(** core/selinux.rs and init/rootdir.rs: the SELinux contexts of Magisk's files, and the
    overlay of the root directory.

    Directories are trees whose nodes carry their context and owner; which calls fail is an
    argument, by the path they are called with. *)

From S2P Require Import Prelude Text Files Dir.

Module Contexts.
Import Dir.

(** * Labelled trees *)

Inductive Kind := KFile | KSymlink | KSpecial.

Record Label := mkLabel { con : bytes; owner : Z * Z }.

Inductive Tree :=
| Leaf (k : Kind) (l : Label)
| Branch (l : Label) (es : list (bytes * Tree)).

Definition label (t : Tree) : Label := match t with Leaf _ l | Branch l _ => l end.
Definition set_label (l : Label) (t : Tree) : Tree := match t with Leaf k _ => Leaf k l | Branch _ es => Branch l es end.
Definition with_con (c : bytes) (l : Label) : Label := mkLabel c (owner l).

Definition UNLABEL_CON : bytes := #"u:object_r:unlabeled:s0".
Definition SYSTEM_CON : bytes := #"u:object_r:system_file:s0".
Definition ADB_CON : bytes := #"u:object_r:adb_data_file:s0".
Definition ROOT_CON : bytes := #"u:object_r:rootfs:s0".
Definition MAGISK_LOG_CON : bytes := #"u:object_r:magisk_log_file:s0".

Definition child_path (path name : bytes) : bytes := path ++ #"/" ++ name.

(** [e.is_file() || e.is_symlink()]. *)
Definition labelled (k : Kind) : bool := match k with KSpecial => false | _ => true end.

Section Restore.
(** Whether a context can be read, whether it can be set, and whether a directory can be
    opened. *)
Context (get_ok set_ok open_ok : bytes -> bool).

(** The walk that both functions are: the label of a directory, then its entries; [visit]
    changes a label or fails, and the first error ends the walk. *)
Section Walk.
Context (visit : bytes -> Label -> Label * bool).

Definition walk_entries (walk : bytes -> Tree -> Tree * bool) (path : bytes) : list (bytes * Tree) -> list (bytes * Tree) * bool :=
  fix go (es : list (bytes * Tree)) : list (bytes * Tree) * bool :=
    match es with
    | [] => ([], true)
    | (name, c) :: es =>
        if hidden name then let '(es, ok) := go es in ((name, c) :: es, ok) else
        let '(c, ok) :=
          match c with
          | Branch _ _ => walk (child_path path name) c
          | Leaf k l => if labelled k then let '(l, ok) := visit (child_path path name) l in (Leaf k l, ok) else (c, true)
          end in
        if negb ok then ((name, c) :: es, false) else
        let '(es, ok) := go es in ((name, c) :: es, ok)
    end.

(** The node after the walk, and whether it succeeded; what is not a directory cannot be
    opened as one. *)
Fixpoint walk (path : bytes) (t : Tree) : Tree * bool :=
  match t with
  | Leaf k l => (Leaf k (visit path l).1, false)
  | Branch l es =>
      let '(l, ok) := visit path l in
      if negb (ok && open_ok path) then (Branch l es, false) else
      let '(es, ok) := walk_entries walk path es in (Branch l es, ok)
  end.
End Walk.

(** [if path.get_secontext(con).log().is_ok() && con == UNLABEL_CON { path.set_secontext(SYSTEM_CON)? }] *)
Definition fix_label (path : bytes) (l : Label) : Label * bool :=
  if get_ok path && bool_decide (con l = UNLABEL_CON) then
    if set_ok path then (with_con SYSTEM_CON l, true) else (l, false)
  else (l, true).

Definition restore_syscon_from_unlabeled (path : bytes) (t : Tree) : Tree * bool := walk fix_label path t.

(** [set_secontext(SYSTEM_CON)?] and [lchown]. *)
Definition own_label (path : bytes) (l : Label) : Label * bool := if set_ok path then (mkLabel SYSTEM_CON (0, 0), true) else (l, false).

Definition restore_syscon (path : bytes) (t : Tree) : Tree * bool := walk own_label path t.

Definition SECURE_DIR : bytes := #"/data/adb".
Definition MODULEROOT : bytes := #"/data/adb/modules".
Definition DATABIN : bytes := #"/data/adb/magisk".
Definition MAGISKDB : bytes := #"/data/adb/magisk.db".
Definition LOG_PIPE : bytes := #".magisk/device/log".

(** [restorecon]: the label of /data/adb, the modules, the binaries, and the mode of the
    database; [context_ok]: the kernel accepts the context of /data/adb. *)
Definition restorecon (context_ok : bool) (secure : Label) (modules databin : Tree) (db_mode : Z) : Label * Tree * Tree * Z :=
  let secure := if context_ok && set_ok SECURE_DIR then with_con ADB_CON secure else secure in
  let modules := if set_ok MODULEROOT then set_label (with_con SYSTEM_CON (label modules)) modules else modules in
  let modules := (restore_syscon_from_unlabeled MODULEROOT modules).1 in
  (secure, modules, (restore_syscon DATABIN databin).1, 0).

(** [restore_tmpcon]: the entries of the directory of Magisk but the links, then the log;
    [pipe]: the label of the log.  457 is the mode 0o711. *)
Definition restore_tmpcon (tmp : bytes) (t : Tree) (mode : Z) (pipe : Label) : Tree * Z * Label * bool :=
  let '(t, mode, ok) :=
    if bool_decide (tmp = #"/sbin") then
      if set_ok tmp then (set_label (with_con ROOT_CON (label t)) t, mode, true) else (t, mode, false)
    else (t, 457, true) in
  if negb ok then (t, mode, pipe, false) else
  match t with
  | Leaf _ _ => (t, mode, pipe, false)
  | Branch l es =>
      if negb (open_ok tmp) then (t, mode, pipe, false) else
      let relabel (e : bytes * Tree) :=
        if hidden e.1 then e else
        match e.2 with
        | Leaf KSymlink _ => e
        | c => if set_ok (child_path tmp e.1) then (e.1, set_label (with_con SYSTEM_CON (label c)) c) else e
        end in
      let t := Branch l (map relabel es) in
      if set_ok (child_path tmp LOG_PIPE) then (t, mode, with_con MAGISK_LOG_CON pipe, true) else (t, mode, pipe, false)
  end.
End Restore.

(** * What the walks do *)

Section TreeInd.
Context (P : Tree -> Prop).
Context (Hleaf : forall k l, P (Leaf k l)) (Hbranch : forall l es, Forall (fun e => P e.2) es -> P (Branch l es)).

Fixpoint Tree_ind' (t : Tree) : P t :=
  match t with
  | Leaf k l => Hleaf k l
  | Branch l es =>
      Hbranch l es ((fix go (es : list (bytes * Tree)) : Forall (fun e => P e.2) es :=
        match es with [] => Forall_nil_2 _ | e :: es => Forall_cons_2 _ e es (Tree_ind' e.2) (go es) end) es)
  end.
End TreeInd.

(** A change of every label that the walks come to: not those of special files, nor what is
    in entries whose name is not read. *)
Fixpoint relabel (f : Label -> Label) (t : Tree) : Tree :=
  match t with
  | Leaf k l => if labelled k then Leaf k (f l) else t
  | Branch l es => Branch (f l) (map (fun e => if hidden e.1 then e else (e.1, relabel f e.2)) es)
  end.

(** The same tree, in which a label is what it was or what the change makes of it. *)
Inductive partly (f : Label -> Label) : Tree -> Tree -> Prop :=
| p_leaf k l l' : l' = l \/ l' = f l -> partly f (Leaf k l) (Leaf k l')
| p_branch l l' es es' : l' = l \/ l' = f l -> Forall2 (fun e e' => e'.1 = e.1 /\ partly f e.2 e'.2) es es' -> partly f (Branch l es) (Branch l' es').

Lemma partly_refl f t : partly f t t.
Proof.
  induction t as [k l | l es IH] using Tree_ind'; constructor; auto. induction IH as [|e es He _ IHes]; constructor; auto.
Qed.

Section Spec.
Context (open_ok : bytes -> bool) (visit : bytes -> Label -> Label * bool) (f : Label -> Label).

(** Whichever calls fail. *)
Lemma walk_partly path t : (forall p l, (visit p l).1 = l \/ (visit p l).1 = f l) -> partly f t (walk open_ok visit path t).1.
Proof.
  intros Hv. revert path. induction t as [k l | l es IH] using Tree_ind'; intros path; cbn [walk]; [by constructor |].
  pose proof (Hv path l) as Hl. destruct (visit path l) as [l' ok]. cbn [fst] in Hl.
  destruct (ok && open_ok path); cbn [negb]; [| constructor; [done |]; clear IH; induction es; constructor; auto using partly_refl].
  assert (Forall2 (fun e e' => e'.1 = e.1 /\ partly f e.2 e'.2) es (walk_entries visit (walk open_ok visit) path es).1) as H; [| destruct (walk_entries _ _ path es) as [es' ok']; by constructor].
  induction IH as [|[nm c] es He _ IHes]; [constructor |]. cbn [walk_entries]. fold (walk_entries visit (walk open_ok visit) path).
  assert (forall xs : list (bytes * Tree), Forall2 (fun e e' => e'.1 = e.1 /\ partly f e.2 e'.2) xs xs) as Hrefl
    by (intros xs; induction xs; constructor; auto using partly_refl).
  destruct (hidden nm); [destruct (walk_entries _ _ path es) as [es' ok']; constructor; auto using partly_refl |].
  match goal with |- context [let '(_, _) := ?x in _] => set (r := x) end.
  assert (partly f c r.1) as Hr.
  { unfold r. destruct c as [k lc | lc ec]; [| apply He]. destruct (labelled k); [| apply partly_refl].
    pose proof (Hv (child_path path nm) lc) as Hc. destruct (visit _ lc). by constructor. }
  clearbody r. destruct r as [c' [|]]; cbn [negb fst] in *; [destruct (walk_entries _ _ path es) |]; constructor; auto.
Qed.

(** If no call fails. *)
Lemma walk_all path l es : (forall p l, visit p l = (f l, true)) -> (forall p, open_ok p = true) -> walk open_ok visit path (Branch l es) = (relabel f (Branch l es), true).
Proof.
  intros Hv Ho. remember (Branch l es) as t eqn:Et. revert path l es Et. induction t as [k l0 | l0 es0 IH] using Tree_ind'; intros path l es [= -> ->]. cbn [walk relabel].
  rewrite Hv, Ho. cbn [andb negb].
  assert (walk_entries visit (walk open_ok visit) path es = (map (fun e => if hidden e.1 then e else (e.1, relabel f e.2)) es, true)) as ->; [| done].
  induction IH as [|[nm c] es He _ IHes]; [done |]. cbn [walk_entries map fst snd]. fold (walk_entries visit (walk open_ok visit) path). rewrite IHes.
  destruct (hidden nm); [done |]. destruct c as [k lc | lc ec]; [| by rewrite (He _ lc ec eq_refl)]. cbn [relabel]. destruct (labelled k); [| done]. by rewrite Hv.
Qed.
End Spec.

Definition system_label (l : Label) : Label := if bool_decide (con l = UNLABEL_CON) then with_con SYSTEM_CON l else l.
Definition own (l : Label) : Label := mkLabel SYSTEM_CON (0, 0).

Definition is_branch (t : Tree) : bool := match t with Branch _ _ => true | _ => false end.

(** restoring the contexts gives every unlabeled directory, file and link of the modules
    the context of system files and leaves the labels of all others as they are, and it gives
    everything in the directory of the binaries that context and to root; whichever calls
    fail, no other context is ever set, and no entry appears or disappears. *)
Theorem restorecon_labels get_ok set_ok open_ok context_ok secure modules databin db_mode :
  let '(_, modules', databin', mode') := restorecon get_ok set_ok open_ok context_ok secure modules databin db_mode in
  let root := if set_ok MODULEROOT then set_label (with_con SYSTEM_CON (label modules)) modules else modules in
  partly system_label root modules' /\ partly own databin databin' /\ mode' = 0 /\
  ((forall p, get_ok p = true) -> (forall p, set_ok p = true) -> (forall p, open_ok p = true) -> is_branch modules = true -> is_branch databin = true ->
    modules' = relabel system_label root /\ databin' = relabel own databin).
Proof.
  unfold restorecon, restore_syscon_from_unlabeled, restore_syscon. split_and!; [| | done |].
  - apply walk_partly. intros p l. unfold fix_label, system_label. destruct (get_ok p), (bool_decide (con l = UNLABEL_CON)), (set_ok p); auto.
  - apply walk_partly. intros p l. unfold own_label. destruct (set_ok p); auto.
  - intros Hg Hs Ho Hm Hd. rewrite Hs. destruct modules as [|lm em]; [done |]. destruct databin as [|ld ed]; [done |]. cbn [set_label label]. split.
    + rewrite (walk_all open_ok _ system_label); [done | | done]. intros p l. unfold fix_label, system_label. rewrite Hg, Hs. by destruct (bool_decide _).
    + rewrite (walk_all open_ok _ own); [done | | done]. intros p l. unfold own_label. by rewrite Hs.
Qed.

Definition demo_label (c : bytes) : Label := mkLabel c (2000, 2000).
Definition demo_modules : Tree :=
  Branch (demo_label UNLABEL_CON) [(#"m", Branch (demo_label UNLABEL_CON) [(#"f", Leaf KFile (demo_label UNLABEL_CON)); (#"p", Leaf KSpecial (demo_label UNLABEL_CON)); (#"g", Leaf KFile (demo_label ADB_CON))])].

Lemma restorecon_labels_witness :
  let '(_, modules', databin', _) := restorecon (fun _ => true) (fun _ => true) (fun _ => true) true (demo_label []) demo_modules demo_modules 420 in
  modules' = Branch (demo_label SYSTEM_CON) [(#"m", Branch (demo_label SYSTEM_CON) [(#"f", Leaf KFile (demo_label SYSTEM_CON)); (#"p", Leaf KSpecial (demo_label UNLABEL_CON)); (#"g", Leaf KFile (demo_label ADB_CON))])] /\
  databin' = relabel own demo_modules.
Proof.
  pose proof (restorecon_labels (fun _ => true) (fun _ => true) (fun _ => true) true (demo_label []) demo_modules demo_modules 420) as H.
  destruct (restorecon _ _ _ _ _ _ _ _) as [[[se m] d] mode]. destruct H as (_ & _ & _ & H). destruct (H ltac:(done) ltac:(done) ltac:(done) eq_refl eq_refl) as [-> ->]. split; reflexivity.
Defined.

(** * The overlay of the root directory *)

(** The contexts of the files that exist, by path, the mounts, and the state of the mounting:
    [OverlayAttr]s and the list of mount points. *)
Record Root := mkRoot { cons : gmap bytes bytes; mounts : list (bytes * bytes); overlay_con : list (bytes * bytes); mount_list : bytes }.

Section Overlay.
(** Whether a call on a file of the overlay succeeds, and whether a directory of it can be
    opened. *)
Context (call_ok open_ok : bytes -> bool).

(** [clone_attr], [get_secontext] and [bind_mount_to] of one file. *)
Definition mount_file (src dest : bytes) (r : Root) : Root * bool :=
  match cons r !! dest with
  | Some c =>
      if call_ok src then
        (mkRoot (<[src := c]> (cons r)) (mounts r ++ [(dest, src)]) (overlay_con r ++ [(dest, c)]) (mount_list r ++ dest ++ [newline]), true)
      else (r, false)
  | None => (r, true)
  end.

Definition mount_entries (mount_impl : bytes -> bytes -> Tree -> Root -> Root * bool) (src_dir dest_dir : bytes) : list (bytes * Tree) -> Root -> Root * bool :=
  fix go (es : list (bytes * Tree)) (r : Root) : Root * bool :=
    match es with
    | [] => (r, true)
    | (name, c) :: es =>
        if hidden name then go es r else
        let src := child_path src_dir name in
        let dest := child_path dest_dir name in
        let '(r, ok) :=
          match c with
          | Branch _ _ => if bool_decide (is_Some (cons r !! dest)) then mount_impl src dest c r else (r, true)
          | Leaf _ _ => mount_file src dest r
          end in
        if ok : bool then go es r else (r, false)
    end.

Fixpoint mount_impl (src_dir dest_dir : bytes) (t : Tree) (r : Root) : Root * bool :=
  match t with
  | Leaf _ _ => (r, false)
  | Branch _ es => if open_ok src_dir then mount_entries mount_impl src_dir dest_dir es r else (r, false)
  end.

Definition ROOTOVL : bytes := #".magisk/rootdir".

(** [mount_overlay]; the list is written to .magisk/rootdir/.mount_list. *)
Definition mount_overlay (dest : bytes) (t : Tree) (cons : gmap bytes bytes) : Root * bytes :=
  let r := (mount_impl ROOTOVL dest t (mkRoot cons [] [] [])).1 in (r, mount_list r).

(** The context that is seen at a path, and setting it there. *)
Definition top_mount (p : bytes) (r : Root) : option bytes := snd <$> List.find (fun m => bool_decide (m.1 = p)) (rev (mounts r)).
Definition seen_con (p : bytes) (r : Root) : option bytes := cons r !! default p (top_mount p r).
Definition set_con (a : bytes * bytes) (r : Root) : Root :=
  mkRoot (<[default a.1 (top_mount a.1 r) := a.2]> (cons r)) (mounts r) (overlay_con r) (mount_list r).

Definition restore_overlay_contexts (r : Root) : Root := fold_left (fun r a => set_con a r) (overlay_con r) r.

(** [parse_config_file]: the device for the preinit directory. *)
Definition parse_config_file (config : option bytes) (preinit_dev : bytes) : bytes :=
  match config with
  | Some text => Files.for_each_prop (fun key val dev => if bool_decide (key = #"PREINITDEVICE") then (val, false) else (dev, true)) text preinit_dev
  | None => preinit_dev
  end.

(** [inject_magisk_rc]. *)
Definition inject_magisk_rc (tmp_dir : bytes) : bytes :=
  let exec stage := #"    exec u:r:magisk:s0 0 0 -- " ++ tmp_dir ++ #"/magisk --" ++ stage ++ [newline] in
  [newline] ++ #"on post-fs-data" ++ [newline] ++ exec #"post-fs-data" ++
  [newline] ++ #"on property:vold.decrypt=trigger_restart_framework" ++ [newline] ++ exec #"service" ++
  [newline] ++ #"on nonencrypted" ++ [newline] ++ exec #"service" ++
  [newline] ++ #"on property:sys.boot_completed=1" ++ [newline] ++ exec #"boot-complete".

(** The files of the overlay that have a counterpart, in the order they are read: its path,
    below the given directories. *)
Fixpoint counterparts (exists_ : bytes -> bool) (src_dir dest_dir : bytes) (t : Tree) : list (bytes * bytes) :=
  match t with
  | Leaf _ _ => []
  | Branch _ es =>
      concat (map (fun e =>
        if hidden e.1 || negb (exists_ (child_path dest_dir e.1)) then [] else
        match e.2 with
        | Leaf _ _ => [(child_path dest_dir e.1, child_path src_dir e.1)]
        | Branch _ _ => counterparts exists_ (child_path src_dir e.1) (child_path dest_dir e.1) e.2
        end) es)
  end.

(** ** What is mounted *)

Section OverlaySpec.
Context (root : bytes) (c0 : gmap bytes bytes).
Hypothesis calls_ok : forall p, call_ok p = true.
Hypothesis opens_ok : forall p, open_ok p = true.

Definition below_root (p : bytes) : bool := starts_with p (root ++ #"/").
Definition there (p : bytes) : bool := bool_decide (is_Some (c0 !! p)).
Definition agrees (r : Root) : Prop := forall p, below_root p = false -> cons r !! p = c0 !! p.

(** Directories of the overlay, and directories that are not in it. *)
Definition in_overlay (src : bytes) : Prop := forall x, below_root (child_path src x) = true.
Definition outside (dest : bytes) : Prop := forall x, below_root (child_path dest x) = false.

Lemma in_overlay_child src name : in_overlay src -> in_overlay (child_path src name).
Proof. intros H x. unfold child_path in *. rewrite <- !app_assoc. apply (H (name ++ #"/" ++ x)). Qed.

Lemma outside_child dest name : outside dest -> outside (child_path dest name).
Proof. intros H x. unfold child_path in *. rewrite <- !app_assoc. apply (H (name ++ #"/" ++ x)). Qed.

Definition attr_of (m : bytes * bytes) : bytes * bytes := (m.1, default [] (c0 !! m.1)).
Definition adds_mounts (l : list (bytes * bytes)) (r r' : Root) : Prop :=
  agrees r' /\ mounts r' = mounts r ++ l /\ overlay_con r' = overlay_con r ++ map attr_of l /\ mount_list r' = mount_list r ++ concat (map (fun m => m.1 ++ [newline]) l).

Lemma adds_mounts_nil r : agrees r -> adds_mounts [] r r.
Proof. intros H. split_and!; [done | cbn; by rewrite app_nil_r..]. Qed.

Lemma adds_mounts_app l1 l2 r1 r2 r3 : adds_mounts l1 r1 r2 -> adds_mounts l2 r2 r3 -> adds_mounts (l1 ++ l2) r1 r3.
Proof.
  intros (_ & M1 & O1 & L1) (A & M2 & O2 & L2). split; [done |]. rewrite map_app, M2, M1, O2, O1, L2, L1, map_app, concat_app, !app_assoc. done.
Qed.

Lemma mount_file_spec src dest r :
  agrees r -> below_root src = true -> below_root dest = false ->
  (mount_file src dest r).2 = true /\ adds_mounts (if there dest then [(dest, src)] else []) r (mount_file src dest r).1.
Proof.
  intros Ha Hs Hd. unfold mount_file, there. rewrite (Ha dest Hd). destruct (c0 !! dest) as [c|] eqn:Ec.
  - rewrite calls_ok, bool_decide_eq_true_2 by eauto. split; [done |]. split_and!; cbn [fst cons mounts overlay_con mount_list map concat]; [| done | unfold attr_of; cbn [fst]; by rewrite Ec | by rewrite app_nil_r].
    intros p Hp. cbn [cons]. rewrite lookup_insert_ne by congruence. by apply Ha.
  - rewrite bool_decide_eq_false_2 by (intros [? [=]]). split; [done |]. by apply adds_mounts_nil.
Qed.

Lemma mount_impl_spec src dest l es r :
  agrees r -> in_overlay src -> outside dest ->
  (mount_impl src dest (Branch l es) r).2 = true /\ adds_mounts (counterparts there src dest (Branch l es)) r (mount_impl src dest (Branch l es) r).1.
Proof.
  remember (Branch l es) as t eqn:Et. revert src dest l es r Et. induction t as [k l0 | l0 es0 IH] using Tree_ind'; intros src dest l es r [= -> ->] Ha Hs Hd.
  cbn [mount_impl counterparts]. rewrite opens_ok. revert r Ha. induction IH as [|[nm c] es He _ IHes]; intros r Ha; [split; [done | by apply adds_mounts_nil] |].
  cbn [mount_entries map concat fst snd]. fold (mount_entries mount_impl src dest). destruct (hidden nm); cbn [orb app]; [by apply IHes |].
  match goal with |- context [let '(_, _) := ?x in _] => set (step := x) end.
  assert (step.2 = true /\ adds_mounts (if negb (there (child_path dest nm)) then [] else match c with Leaf _ _ => [(child_path dest nm, child_path src nm)]
      | Branch _ _ => counterparts there (child_path src nm) (child_path dest nm) c end) r step.1) as [Hok Hadd].
  { unfold step. destruct c as [k lc | lc ec].
    - destruct (mount_file_spec (child_path src nm) (child_path dest nm) r Ha (Hs nm) (Hd nm)) as [H1 H2]. split; [done |]. by destruct (there _).
    - fold (there (child_path dest nm)). replace (bool_decide (is_Some (cons r !! child_path dest nm))) with (there (child_path dest nm)) by (unfold there; by rewrite (Ha _ (Hd nm))).
      destruct (there (child_path dest nm)); cbn [negb]; [| split; [done | by apply adds_mounts_nil]].
      apply (He _ _ lc ec); [done | done | by apply in_overlay_child | by apply outside_child]. }
  clearbody step. destruct step as [r1 ok]. cbn [fst snd] in *. subst ok.
  destruct (IHes r1 (proj1 Hadd)) as [H1 H2]. split; [done |]. eapply adds_mounts_app; [exact Hadd | done].
Qed.
End OverlaySpec.
End Overlay.

(** If no call fails, exactly the files of the overlay that have a counterpart below the
    directory are mounted over it, the contexts that are restored later are those the
    counterparts had before, and the list names the mount points, one on a line. *)
Theorem mount_overlay_spec call_ok open_ok dest l es cons0 :
  (forall p, call_ok p = true) -> (forall p, open_ok p = true) -> outside ROOTOVL dest ->
  let cps := counterparts (there cons0) ROOTOVL dest (Branch l es) in
  let '(r, listing) := mount_overlay call_ok open_ok dest (Branch l es) cons0 in
  mounts r = cps /\ overlay_con r = map (fun m => (m.1, default [] (cons0 !! m.1))) cps /\ listing = concat (map (fun m => m.1 ++ [newline]) cps).
Proof.
  intros Hc Ho Hout. cbv zeta. unfold mount_overlay.
  destruct (mount_impl_spec call_ok open_ok ROOTOVL cons0 Hc Ho ROOTOVL dest l es (mkRoot cons0 [] [] [])) as [_ (_ & H1 & H2 & H3)]; [done | | done |].
  - intros x. unfold below_root, child_path. rewrite app_assoc. apply starts_with_app.
  - cbn [mounts overlay_con mount_list app] in *. done.
Qed.
End Contexts.
