(* ===== verification/Package.v ===== *)
(** core/package.rs: finding the manager app and checking that it is the one to trust.

    The file system and the certificate reader (file Apk) are arguments: a call sees
    one state of the file system, and two calls may see different ones.  A reader
    that does not return is outside of this file. *)

From S2P Require Import Prelude Text Numeric CStr Dir Db.

Module Package.
Import CStr Dir Db.

Definition AID_ROOT : Z := 0.
Definition AID_SHELL : Z := 2000.
Definition AID_APP_START : Z := 10000.
Definition AID_APP_END : Z := 19999.
Definition AID_USER_OFFSET : Z := 100000.

(** Rust's [%] and [/] round to zero. *)
Definition to_app_id (uid : Z) : Z := Z.rem uid AID_USER_OFFSET.
Definition to_user_id (uid : Z) : Z := Z.quot uid AID_USER_OFFSET.

Definition APP_PACKAGE_NAME : bytes := #"com.topjohnwu.magisk".
Definition PACKAGES_XML : bytes := #"/data/system/packages.xml".

(** * The file system a call sees *)

Record Attr := mkAttr { st_uid : Z; st_ctime : Z * Z }.

Record Fs := mkFs {
  get_attr : bytes -> option Attr;                  (** [lstat] *)
  open_file : bytes -> option (bytes * option Z);   (** contents, owner by [fstat] *)
  data_app : option entries;                        (** /data/app *)
  user_dirs : option (list (option (list (option Z))))
    (** the app data directory: users, their packages' owners; [None] for what
        cannot be opened *)
}.

(** * Paths *)

(** [cstr::buf::default()] *)
Definition PATH_MAX : nat := N.to_nat 4096.
Arguments PATH_MAX : simpl never.
Definition buf_default : FixedBuf := FixedBuf_new PATH_MAX.

Definition join_path (p : bytes) (b : FixedBuf) : FixedBuf := append_path p b.
Definition join_path_fmt (p : bytes) (b : FixedBuf) : FixedBuf := append_path_fmt p b.

Definition app_data_dir (sdk_int : Z) : bytes :=
  if 24 <=? sdk_int then #"/data/user_de" else #"/data/user".

Definition user_path (sdk_int user : Z) (pkg : bytes) : FixedBuf :=
  join_path pkg (join_path_fmt (fmt_dec user) (join_path (app_data_dir sdk_int) buf_default)).

(** [DirEntry::resolve_path]: the directory's path, then the name. *)
Definition resolve_path (base : bytes) (p : list bytes) : FixedBuf :=
  match p with
  | [] => (push_str base buf_default).1
  | name :: outer => join_path name (push_str (join [slash] (base :: rev outer)) buf_default).1
  end.

(** The closure of [find_apk_path]. *)
Definition apk_visit (pkg : bytes) (p : list bytes) (n : node) (buf : FixedBuf) : logged (FixedBuf * WalkResult) :=
  if negb (is_dir n) then Ok (buf, Skip) else
  let name := hd [] p in
  found ← (if starts_with name pkg then
             match name !! length pkg with
             | Some c => Ok (bool_decide (c = bof 45))
             | None => Panic                        (** index out of bounds *)
             end
           else Ok false);
  if (found : bool) then Ok (resolve_path #"/data/app" p, Abort)
  else if starts_with name #"~~" then Ok (buf, Continue) else Ok (buf, Skip).

Definition find_apk_path (fs : Fs) (pkg : bytes) : logged bytes :=
  match data_app fs with
  | None => Err tt
  | Some es =>
      '(buf, _) ← pre_order_walk (apk_visit pkg) es buf_default;
      Ok (if buf_is_empty buf then as_str buf else as_str (push_str #"/base.apk" buf).1)
  end.

(** * Manager state *)

Inductive Status := Installed | NotInstalled | CertMismatch.

Record TrackedFile := mkTracked { path : bytes; timestamp : Z * Z }.
#[export] Instance TrackedFile_eq_dec : EqDecision TrackedFile.
Proof. solve_decision. Defined.

Definition TrackedFile_default : TrackedFile := mkTracked [] (0, 0).
Definition TrackedFile_new (fs : Fs) (p : bytes) : TrackedFile :=
  match get_attr fs p with
  | Some attr => mkTracked p (st_ctime attr)
  | None => TrackedFile_default
  end.
Definition is_same (fs : Fs) (f : TrackedFile) : bool :=
  if is_empty (path f) then false else
  match get_attr fs (path f) with
  | Some attr => bool_decide (st_ctime attr = timestamp f)
  | None => false
  end.

Record ManagerInfo := mkManagerInfo {
  stub_apk : option bytes;
  trusted_cert : bytes;
  repackaged_app_id : Z;
  repackaged_pkg : bytes;
  repackaged_cert : bytes;
  tracked_files : gmap Z TrackedFile
}.

Definition ManagerInfo_default : ManagerInfo := mkManagerInfo None [] (-1) [] [] ∅.

(** What the daemon asks the package manager to do. *)
Inductive Effect := UninstallPkg (arg : bytes) | InstallApk (apk : bytes).

Definition track (user : Z) (f : TrackedFile) (m : ManagerInfo) : ManagerInfo :=
  mkManagerInfo (stub_apk m) (trusted_cert m) (repackaged_app_id m) (repackaged_pkg m) (repackaged_cert m)
    (<[user := f]> (tracked_files m)).
Definition untrack (user : Z) (m : ManagerInfo) : ManagerInfo :=
  mkManagerInfo (stub_apk m) (trusted_cert m) (repackaged_app_id m) (repackaged_pkg m) (repackaged_cert m)
    (delete user (tracked_files m)).
Definition set_app_id (id : Z) (m : ManagerInfo) : ManagerInfo :=
  mkManagerInfo (stub_apk m) (trusted_cert m) id (repackaged_pkg m) (repackaged_cert m) (tracked_files m).
Definition set_repackaged (pkg cert : bytes) (m : ManagerInfo) : ManagerInfo :=
  mkManagerInfo (stub_apk m) (trusted_cert m) (repackaged_app_id m) pkg cert (tracked_files m).

(** * Checks *)

Section Manager.
Context {S : Type} `{Sqlite S}.
(** [read_certificate], and the daemon's constants: [check_signature] is the
    feature together with a release build. *)
Context (read_certificate : bytes -> Z -> bytes).
Context (MAGISK_VER_CODE : Z) (check_signature : bool) (sdk_int : Z) (is_emulator : bool).

(** The mutable parts a call works on: the manager info behind its lock, the
    database connection, and the requests to the package manager so far. *)
Record St := mkSt { info : ManagerInfo; db : option S; effects : list Effect }.

Definition upd (f : ManagerInfo -> ManagerInfo) (s : St) : St := mkSt (f (info s)) (db s) (effects s).
Definition emit (e : Effect) (s : St) : St := mkSt (info s) (db s) (effects s ++ [e]).

Definition dyn_path (user : Z) (pkg : bytes) : bytes :=
  as_str (join_path #"current.apk" (join_path #"dyn" (user_path sdk_int user pkg))).

Definition check_dyn (fs : Fs) (user : Z) (pkg : bytes) (s : St) : St * Status :=
  let apk := dyn_path user pkg in
  match open_file fs apk with
  | None => (s, NotInstalled)
  | Some (data, owner) =>
      let uid := default (-1) owner in
      let cert := read_certificate data MAGISK_VER_CODE in
      if (is_empty cert || negb (bool_decide (cert = trusted_cert (info s)))) && check_signature
      then (s, CertMismatch)
      else (upd (fun m => track user (TrackedFile_new fs apk) (set_app_id (to_app_id uid) m)) s, Installed)
  end.

Definition check_stub (fs : Fs) (user : Z) (pkg : bytes) (s : St) : logged (St * Status) :=
  match find_apk_path fs pkg with
  | Panic => Panic
  | Err _ => Ok (s, NotInstalled)
  | Ok apk =>
      match open_file fs apk with
      | None => Ok (s, NotInstalled)
      | Some (data, _) =>
          let cert := read_certificate data (-1) in
          if is_empty cert ||
             (bool_decide (pkg = repackaged_pkg (info s)) && negb (bool_decide (cert = repackaged_cert (info s))))
          then Ok (emit (UninstallPkg apk) s, CertMismatch)
          else Ok (upd (fun m => track user (TrackedFile_new fs apk) (set_repackaged pkg cert m)) s, Installed)
      end
  end.

Definition check_orig (fs : Fs) (user : Z) (s : St) : logged (St * Status) :=
  match find_apk_path fs APP_PACKAGE_NAME with
  | Panic => Panic
  | Err _ => Ok (s, NotInstalled)
  | Ok apk =>
      match open_file fs apk with
      | None => Ok (s, NotInstalled)
      | Some (data, _) =>
          let cert := read_certificate data MAGISK_VER_CODE in
          if (is_empty cert || negb (bool_decide (cert = trusted_cert (info s)))) && check_signature
          then Ok (emit (UninstallPkg APP_PACKAGE_NAME) s, CertMismatch)
          else Ok (upd (track user (TrackedFile_new fs apk)) s, Installed)
      end
  end.

(** [install_stub]; copying the stub is taken to succeed. *)
Definition install_stub (s : St) : St :=
  match stub_apk (info s) with
  | Some apk => emit (InstallApk apk) s
  | None => s
  end.

Definition get_package_uid (fs : Fs) (user : Z) (pkg : bytes) : Z :=
  match get_attr fs (as_str (user_path sdk_int user pkg)) with
  | Some attr => st_uid attr
  | None => -1
  end.

(** The manager is the original app: its uid, when its data directory exists. *)
Definition orig_result (fs : Fs) (user : Z) : Z * bytes :=
  let uid := get_package_uid fs user APP_PACKAGE_NAME in
  if uid <? 0 then (-1, []) else (uid, APP_PACKAGE_NAME).

(** The manager is the repackaged app, if its dyn APK checks out. *)
Definition dyn_result (user : Z) (s : St) : Z * bytes :=
  (user * AID_USER_OFFSET + repackaged_app_id (info s), repackaged_pkg (info s)).

Definition try_dyn (fs : Fs) (user : Z) (pkg : bytes) (s : St) : St * (Z * bytes) :=
  let '(s, st) := check_dyn fs user pkg s in
  match st with Installed => (s, dyn_result user s) | _ => (s, (-1, [])) end.

Definition maybe_install (install : bool) (s : St) : St :=
  if install && negb is_emulator then install_stub s else s.

(** The tracked file has not changed since it was checked. *)
Definition get_tracked (fs : Fs) (user : Z) (install : bool) (file : TrackedFile) (s : St) : St * (Z * bytes) :=
  if bool_decide (path file = PACKAGES_XML) then (maybe_install install s, (-1, []))
  else if starts_with (path file) (app_data_dir sdk_int) then (s, dyn_result user s)
  else if negb (is_empty (repackaged_pkg (info s))) then try_dyn fs user (repackaged_pkg (info s)) s
  else (s, orig_result fs user).

(** No usable record: check the original app, and watch for new packages. *)
Definition get_orig (fs : Fs) (user : Z) (install : bool) (s : St) : logged (St * (Z * bytes)) :=
  let s := upd (set_repackaged [] []) s in
  '(s, st) ← check_orig fs user s;
  match st with
  | Installed => Ok (s, orig_result fs user)
  | _ =>
      let install := match st with CertMismatch => true | _ => install end in
      let s := upd (track user (TrackedFile_new fs PACKAGES_XML)) s in
      Ok (maybe_install install s, (-1, []))
  end.

Definition rm_manager (now : Z) (s : St) : St := mkSt (info s) (rm_db_string now KSuManager (db s)).1 (effects s).

Definition get_manager (fs : Fs) (now user : Z) (install : bool) (s : St) : logged (St * (Z * bytes)) :=
  let '(db, db_pkg) := get_db_string now KSuManager (db s) in
  let s := mkSt (info s) db (effects s) in
  let s := if bool_decide (db_pkg = repackaged_pkg (info s)) then s else upd (untrack user) s in
  let fresh :=
    if is_empty db_pkg then get_orig fs user install s else
    '(s, st) ← check_stub fs user db_pkg s;
    match st with
    | Installed => Ok (try_dyn fs user db_pkg s)
    | NotInstalled => get_orig fs user install (rm_manager now s)
    | CertMismatch => get_orig fs user true (rm_manager now s)
    end in
  match tracked_files (info s) !! user with
  | Some file => if is_same fs file then Ok (get_tracked fs user install file s) else fresh
  | None => fresh
  end.

(** [preserve_stub_apk]: the certificate of the bundled stub is the one to trust. *)
Definition preserve_stub_apk (stub : option bytes) (s : St) : St :=
  match stub with
  | Some apk =>
      upd (fun m => mkManagerInfo (Some apk) (read_certificate apk MAGISK_VER_CODE) (repackaged_app_id m)
                      (repackaged_pkg m) (repackaged_cert m) (tracked_files m)) s
  | None => s
  end.

Definition get_manager_uid (fs : Fs) (now user : Z) (s : St) : logged (St * Z) :=
  '(s, (uid, _)) ← get_manager fs now user false s; Ok (s, uid).

Definition ensure_manager (fs : Fs) (now : Z) (s : St) : logged St :=
  '(s, _) ← get_manager fs now 0 true s; Ok s.
End Manager.

(** * Installed apps *)

Fixpoint app_nos (owners : list (option Z)) (acc : gset Z) : gset Z * bool :=
  match owners with
  | [] => (acc, true)
  | None :: _ => (acc, false)                (** [?]: the rest is not looked at *)
  | Some uid :: owners =>
      let app_id := to_app_id uid in
      app_nos owners (if (AID_APP_START <=? app_id) && (app_id <=? AID_APP_END)
                      then {[app_id - AID_APP_START]} ∪ acc else acc)
  end.

Fixpoint users_app_nos (users : list (option (list (option Z)))) (acc : gset Z) : gset Z :=
  match users with
  | [] => acc
  | None :: users => users_app_nos users acc
  | Some owners :: users =>
      let '(acc, go) := app_nos owners acc in
      if (go : bool) then users_app_nos users acc else acc
  end.

(** [get_app_no_list] *)
Definition get_app_no_list (fs : Fs) : gset Z :=
  match user_dirs fs with None => ∅ | Some users => users_app_nos users ∅ end.

(** * Finding the APK *)

Lemma PATH_MAX_pos : (0 < PATH_MAX)%nat.
Proof. unfold PATH_MAX. lia. Qed.

Lemma buf_default_wf : FixedBuf_wf buf_default.
Proof. apply lookup_replicate_2, PATH_MAX_pos. Qed.

Lemma push_default s :
  (length s < PATH_MAX)%nat ->
  let b := (push_str s buf_default).1 in
  FixedBuf_wf b /\ length (buf b) = PATH_MAX /\ as_str b = s.
Proof.
  intros Hs. assert (length (buf buf_default) = PATH_MAX) as Hd by apply length_replicate.
  destruct (FixedBuf_push_fits buf_default s buf_default_wf) as (Hw & Hl & Ha).
  - rewrite Hd. done.
  - rewrite Hd in Hl. split_and!; [done | done |]. rewrite Ha. done.
Qed.

(** A directory path: not empty, no slash at its end. *)
Definition dir_path (base : bytes) : Prop := base <> [] /\ ends_with base [slash] = false.

(** The path of an entry in the directory [base]. *)
Lemma join_entry base name :
  dir_path base -> starts_with name [slash] = false ->
  (length base + length name + 1 < PATH_MAX)%nat ->
  let b := join_path name (push_str base buf_default).1 in
  FixedBuf_wf b /\ length (buf b) = PATH_MAX /\ as_str b = base ++ slash :: name.
Proof.
  intros [Hne Hlast] Hrel Hlen. unfold join_path, append_path. rewrite Hrel.
  destruct (push_default base) as (Hw & Hl & Ha); [lia |].
  set (b := (push_str base buf_default).1) in *. clearbody b.
  rewrite Ha, Hlast.
  assert (buf_is_empty b = false) as ->.
  { unfold buf_is_empty, buf_len. rewrite Ha. destruct base; [done |]. simpl. lia. }
  cbn [negb andb].
  destruct (FixedBuf_push_fits b [slash] Hw) as (Hw1 & Hl1 & Ha1); [rewrite Ha, Hl; simpl; lia |].
  destruct (FixedBuf_push_fits _ name Hw1) as (Hw2 & Hl2 & Ha2).
  { rewrite Ha1, Ha, Hl1, Hl, length_app. simpl. lia. }
  split_and!; [done | congruence |]. by rewrite Ha2, Ha1, Ha, <- app_assoc.
Qed.

(** Entries the search passes over: files, and directories of other packages. *)
Definition passed (pkg : bytes) (e : bytes * node) : Prop :=
  hidden e.1 = true \/ is_dir e.2 = false \/
  starts_with e.1 pkg = false /\ starts_with e.1 #"~~" = false.

Lemma visit_passed pkg p e b :
  passed pkg e -> hidden e.1 = false -> apk_visit pkg (e.1 :: p) e.2 b = Ok (b, Skip).
Proof.
  unfold passed, apk_visit. cbn zeta. cbn [hd]. intros [Hp | [-> | [-> ->]]] Hh; [congruence | done |].
  by destruct (is_dir e.2).
Qed.

Lemma walk_passed pkg p es rest b :
  Forall (passed pkg) es ->
  pre_walk_node (apk_visit pkg) p (Folder (es ++ rest)) b = pre_walk_node (apk_visit pkg) p (Folder rest) b.
Proof.
  induction 1 as [|[name c] es Hp _ IH]; [done |]. cbn [app pre_walk_node].
  destruct (hidden name) eqn:Hh; [exact IH |].
  rewrite (visit_passed pkg p (name, c) b Hp Hh : apk_visit pkg (name :: p) c b = _). exact IH.
Qed.

Lemma visit_hit pkg p name c x b :
  is_dir c = true -> name = pkg ++ bof 45 :: x ->
  apk_visit pkg (name :: p) c b = Ok (resolve_path #"/data/app" (name :: p), Abort).
Proof.
  intros Hc ->. unfold apk_visit. cbn zeta. cbn [hd]. rewrite Hc, starts_with_app, lookup_app_r, Nat.sub_diag by lia. done.
Qed.

Lemma walk_hit pkg p name c x rest b :
  hidden name = false -> is_dir c = true -> name = pkg ++ bof 45 :: x ->
  pre_walk_node (apk_visit pkg) p (Folder ((name, c) :: rest)) b =
  Ok (resolve_path #"/data/app" (name :: p), Abort).
Proof. intros Hh Hc Hn. cbn [pre_walk_node]. rewrite Hh, (visit_hit pkg p name c x) by done. done. Qed.

(** A hit further down ends the walk. *)
Lemma walk_descend {A} (f : list bytes -> node -> A -> logged (A * WalkResult)) p name d rest a a' :
  hidden name = false -> is_dir d = true -> f (name :: p) d a = Ok (a, Continue) ->
  pre_walk_node f (name :: p) d a = Ok (a', Abort) ->
  pre_walk_node f p (Folder ((name, d) :: rest)) a = Ok (a', Abort).
Proof. intros Hh Hd Hf Hw. cbn [pre_walk_node]. rewrite Hh, Hf. cbn [mbind res_bind]. by rewrite Hd, Hw. Qed.

Lemma find_result b q :
  FixedBuf_wf b -> length (buf b) = PATH_MAX -> as_str b = q -> q <> [] ->
  (length q + 9 < PATH_MAX)%nat ->
  (if buf_is_empty b then as_str b else as_str (push_str #"/base.apk" b).1) = q ++ #"/base.apk".
Proof.
  intros Hw Hl Ha Hne Hlen. assert (buf_is_empty b = false) as ->.
  { unfold buf_is_empty, buf_len. rewrite Ha. destruct q; [done |]. simpl. lia. }
  destruct (FixedBuf_push_fits b #"/base.apk" Hw) as (_ & _ & ->); [| by rewrite Ha].
  rewrite Ha, Hl. change (length #"/base.apk") with 9%nat. lia.
Qed.

Lemma data_app_dir : dir_path #"/data/app".
Proof. done. Qed.

(** the search for an app finds its directory, both directly under /data/app
    and under the randomized directory of newer systems, past any entries of other
    apps; a directory named exactly like the package, with nothing after the name,
    makes it read past the end of the name and abort the daemon. *)
Theorem find_apk_path_spec fs pkg pre rest name c x :
  Forall (passed pkg) pre -> is_dir c = true -> pkg <> [] ->
  starts_with pkg [slash] = false -> starts_with pkg #"~~" = false ->
  name = pkg ++ bof 45 :: x -> hidden name = false -> (length name < 255)%nat ->
  (data_app fs = Some (pre ++ (name, c) :: rest) ->
     find_apk_path fs pkg = Ok (#"/data/app/" ++ name ++ #"/base.apk")) /\
  (forall rnd pre' rest', hidden (#"~~" ++ rnd) = false -> (length rnd < 255)%nat ->
     starts_with (#"~~" ++ rnd) pkg = false -> ends_with (#"~~" ++ rnd) [slash] = false ->
     Forall (passed pkg) pre' ->
     data_app fs = Some (pre ++ (#"~~" ++ rnd, Folder (pre' ++ (name, c) :: rest')) :: rest) ->
     find_apk_path fs pkg = Ok (#"/data/app/~~" ++ rnd ++ #"/" ++ name ++ #"/base.apk")) /\
  (hidden pkg = false -> data_app fs = Some (pre ++ (pkg, c) :: rest) -> find_apk_path fs pkg = Panic).
Proof.
  intros Hpre Hc Hne Hsl Htil Hname Hh Hlen. assert (256 < PATH_MAX)%nat as HPM by (unfold PATH_MAX; lia).
  assert (4095 < PATH_MAX)%nat as HPM' by (unfold PATH_MAX; lia).
  assert (starts_with name [slash] = false) as Hrel by (subst name; destruct pkg; done).
  unfold find_apk_path, pre_order_walk. split_and!.
  - intros ->. rewrite walk_passed, (walk_hit pkg [] name c x) by done. cbn [mbind res_bind].
    cbn [resolve_path rev join].
    destruct (join_entry #"/data/app" name data_app_dir Hrel) as (Hw & Hl & Ha); [change (length #"/data/app") with 9%nat; lia |].
    rewrite (find_result _ (#"/data/app" ++ slash :: name)); [by rewrite <- app_assoc | done.. |].
    rewrite length_app. simpl. lia.
  - intros rnd pre' rest' Hh' Hl' Hs' He' Hpre' ->. rewrite walk_passed by done.
    erewrite (walk_descend _ _ (#"~~" ++ rnd)); [| done | done | |].
    2:{ unfold apk_visit. cbn zeta. cbn [hd is_dir negb]. by rewrite Hs'. }
    2:{ rewrite (walk_passed pkg _ pre') by done. by apply (walk_hit pkg _ name c x). }
    cbn [mbind res_bind resolve_path rev app join].
    destruct (join_entry (#"/data/app" ++ slash :: #"~~" ++ rnd) name) as (Hw & Hl & Ha).
    + split; [done |]. rewrite ends_with_app_r by done.
      by rewrite (ends_with_app_r [slash] (#"~~" ++ rnd)).
    + done.
    + rewrite !length_app. simpl. lia.
    + rewrite (find_result _ _ Hw Hl Ha).
      * rewrite <- !app_assoc. simpl. by rewrite <- ?app_assoc.
      * done.
      * rewrite !length_app. simpl. lia.
  - intros Hhp ->. rewrite walk_passed by done. cbn [pre_walk_node]. rewrite Hhp.
    assert (apk_visit pkg [pkg] c buf_default = Panic) as ->; [| done].
    unfold apk_visit. cbn zeta. cbn [hd]. rewrite Hc, starts_with_refl, lookup_ge_None_2 by lia. done.
Qed.

Definition demo_fs (es : entries) : Fs :=
  mkFs (fun _ => None) (fun _ => None) (Some es) None.

Lemma find_apk_path_spec_witness :
  find_apk_path (demo_fs [(#"other-1", Folder []);
      (#"~~rnd==", Folder [(#"com.topjohnwu.magisk-abc==", Folder [])])]) APP_PACKAGE_NAME =
    Ok #"/data/app/~~rnd==/com.topjohnwu.magisk-abc==/base.apk" /\
  find_apk_path (demo_fs [(#"other-1", Folder []); (APP_PACKAGE_NAME, Folder [])]) APP_PACKAGE_NAME = Panic.
Proof.
  assert (Forall (passed APP_PACKAGE_NAME) [(#"other-1", Folder [])]) as Hp.
  { apply List.Forall_cons; [right; right; split; reflexivity | apply List.Forall_nil]. }
  split.
  - pose proof (find_apk_path_spec (demo_fs [(#"other-1", Folder []);
      (#"~~rnd==", Folder [(#"com.topjohnwu.magisk-abc==", Folder [])])]) APP_PACKAGE_NAME
      [(#"other-1", Folder [])] [] #"com.topjohnwu.magisk-abc==" (Folder []) #"abc==" Hp eq_refl ltac:(done)
      eq_refl eq_refl eq_refl eq_refl ltac:(apply Nat.ltb_lt; vm_compute; reflexivity)) as (_ & H2 & _).
    apply (H2 #"rnd==" [] []); [reflexivity | apply Nat.ltb_lt; vm_compute; reflexivity | reflexivity | reflexivity | apply List.Forall_nil | reflexivity].
  - pose proof (find_apk_path_spec (demo_fs [(#"other-1", Folder []); (APP_PACKAGE_NAME, Folder [])])
      APP_PACKAGE_NAME [(#"other-1", Folder [])] [] #"com.topjohnwu.magisk-abc==" (Folder []) #"abc==" Hp eq_refl ltac:(done)
      eq_refl eq_refl eq_refl eq_refl ltac:(apply Nat.ltb_lt; vm_compute; reflexivity)) as (_ & _ & H3).
    by apply H3.
Defined.
End Package.
