(* ===== verification/Manager.v ===== *)
(** What the manager check of core/package.rs guarantees: the app it answers with
    has the trusted certificate, as long as the answer comes from a fresh check.
    The cached answers of several users can be confused. *)

From S2P Require Import Prelude Text Numeric CStr Dir Db Package.

Module Manager.
Import CStr Dir Db Package.

Section Trusted.
Context {S : Type} `{Sqlite S} (read_certificate : bytes -> Z -> bytes).
Context (MAGISK_VER_CODE sdk_int : Z) (is_emulator : bool).
Implicit Types s : St (S:=S).

Abbreviation check_dyn := (check_dyn read_certificate MAGISK_VER_CODE true sdk_int).
Abbreviation check_stub := (check_stub read_certificate).
Abbreviation check_orig := (check_orig read_certificate MAGISK_VER_CODE true).
Abbreviation get_manager := (get_manager read_certificate MAGISK_VER_CODE true sdk_int is_emulator).

(** The file at [apk] carries the certificate [cert]. *)
Definition signed_by (fs : Fs) (apk cert : bytes) (owner : option Z) : Prop :=
  cert <> [] /\ exists data, open_file fs apk = Some (data, owner) /\ read_certificate data MAGISK_VER_CODE = cert.

Lemma cert_check_passes (cert t : bytes) : (is_empty cert || negb (bool_decide (cert = t))) && true = false -> cert <> [] /\ cert = t.
Proof. rewrite andb_true_r. intros [He Hb]%orb_false_iff. case_bool_decide; [| done]. by destruct cert. Qed.

Lemma check_dyn_installed fs user pkg s s' :
  check_dyn fs user pkg s = (s', Installed) ->
  exists owner, signed_by fs (dyn_path sdk_int user pkg) (trusted_cert (info s)) owner /\
    repackaged_app_id (info s') = to_app_id (default (-1) owner) /\
    repackaged_pkg (info s') = repackaged_pkg (info s).
Proof.
  unfold Package.check_dyn. destruct (open_file fs _) as [[data owner]|] eqn:Ho; [| done].
  destruct (_ && _) eqn:Hc; [done |]. intros [= <-]. apply cert_check_passes in Hc as [Hne Heq].
  exists owner. split; [| done]. split; [congruence |]. eauto.
Qed.

Lemma check_orig_installed fs user s s' :
  check_orig fs user s = Ok (s', Installed) ->
  exists apk owner, find_apk_path fs APP_PACKAGE_NAME = Ok apk /\ signed_by fs apk (trusted_cert (info s)) owner.
Proof.
  unfold Package.check_orig. destruct (find_apk_path fs _) as [apk| |]; try done.
  destruct (open_file fs apk) as [[data owner]|] eqn:Ho; [| done].
  destruct (_ && _) eqn:Hc; [done |]. intros _. apply cert_check_passes in Hc as [Hne Heq].
  exists apk, owner. split; [done |]. split; [congruence |]. eauto.
Qed.

Lemma check_stub_info fs user pkg s s' st :
  check_stub fs user pkg s = Ok (s', st) ->
  trusted_cert (info s') = trusted_cert (info s) /\ (st = Installed -> repackaged_pkg (info s') = pkg).
Proof.
  unfold Package.check_stub. destruct (find_apk_path fs pkg) as [apk| |]; [| by intros [= <- <-] | done].
  destruct (open_file fs apk) as [[data owner]|]; [| by intros [= <- <-]].
  destruct (_ || _); by intros [= <- <-].
Qed.

(** The answer names an app with the trusted certificate. *)
Definition trusted_answer (fs : Fs) (user : Z) (cert : bytes) (r : Z * bytes) : Prop :=
  (exists apk owner, find_apk_path fs APP_PACKAGE_NAME = Ok apk /\ signed_by fs apk cert owner /\
     r = (get_package_uid sdk_int fs user APP_PACKAGE_NAME, APP_PACKAGE_NAME)) \/
  (exists owner, signed_by fs (dyn_path sdk_int user r.2) cert owner /\
     r.1 = user * AID_USER_OFFSET + to_app_id (default (-1) owner)).

Lemma get_orig_trusted fs user install s s' r :
  get_orig read_certificate MAGISK_VER_CODE true sdk_int is_emulator fs user install s = Ok (s', r) ->
  r <> (-1, []) -> trusted_answer fs user (trusted_cert (info s)) r.
Proof.
  unfold get_orig. set (s1 := upd _ s). intros ([s2 st] & Hc & Hr)%res_bind_Ok Hne.
  destruct st; injection Hr as <- <-; try done. apply check_orig_installed in Hc as (apk & owner & Hf & Hs).
  left. exists apk, owner. split_and!; [done | done |].
  unfold orig_result in *. by destruct (_ <? 0).
Qed.

Lemma try_dyn_trusted fs user pkg s s' r :
  repackaged_pkg (info s) = pkg ->
  try_dyn read_certificate MAGISK_VER_CODE true sdk_int fs user pkg s = (s', r) -> r <> (-1, []) ->
  trusted_answer fs user (trusted_cert (info s)) r.
Proof.
  intros Hp. unfold try_dyn. destruct (check_dyn fs user pkg s) as [s1 st] eqn:Hc.
  destruct st; intros [= <- <-]; try done. intros _.
  apply check_dyn_installed in Hc as (owner & Hs & Hid & Hpkg).
  right. exists owner. unfold dyn_result. cbn [fst snd]. rewrite Hpkg, Hid, Hp. done.
Qed.

(** There is no record for the user, or the file has changed since. *)
Definition no_record (fs : Fs) (user : Z) (m : ManagerInfo) : Prop :=
  match tracked_files m !! user with Some f => is_same fs f = false | None => True end.
End Trusted.

(** C6: when no unchanged file is on record for the user, the manager the check
    answers with has the trusted certificate: either the app's APK itself, and the
    answer is the app's uid, or the dyn APK of the repackaged app, and the answer is
    made from the owner of that file. *)
Theorem get_manager_trusted {S} `{Sqlite S} read_certificate ver sdk_int is_emulator fs now user install
    (s s' : St (S:=S)) r :
  no_record fs user (info s) ->
  get_manager read_certificate ver true sdk_int is_emulator fs now user install s = Ok (s', r) ->
  r <> (-1, []) ->
  trusted_answer read_certificate ver sdk_int fs user (trusted_cert (info s)) r.
Proof.
  intros Hrec. unfold get_manager. destruct (get_db_string now KSuManager (db s)) as [d pkg].
  cbn zeta. set (s1 := if bool_decide _ then _ else _).
  assert (trusted_cert (info s1) = trusted_cert (info s)) as Ht by (subst s1; by destruct (bool_decide _)).
  assert (no_record fs user (info s1)) as Hrec1.
  { subst s1. unfold no_record. destruct (bool_decide _); cbn; [done | by rewrite lookup_delete_eq]. }
  rewrite <- Ht. clearbody s1. unfold no_record in Hrec1.
  assert (forall (fresh : logged (St (S:=S) * (Z * bytes))) tracked,
    (match tracked_files (info s1) !! user with
     | Some file => if is_same fs file then tracked file else fresh | None => fresh end) = fresh) as Hfresh.
  { intros fresh tracked. destruct (tracked_files (info s1) !! user); [by rewrite Hrec1 | done]. }
  rewrite (Hfresh _ (fun file => Ok (get_tracked read_certificate ver true sdk_int is_emulator fs user install file s1))).
  destruct (is_empty pkg); [apply get_orig_trusted |].
  intros ([s2 st] & Hc & Hr)%res_bind_Ok. apply check_stub_info in Hc as [Ht2 Hp]. rewrite <- Ht2.
  destruct st.
  - injection Hr as Hr. by eapply try_dyn_trusted; [apply Hp |].
  - exact (get_orig_trusted _ _ _ _ _ _ _ _ _ _ Hr).
  - exact (get_orig_trusted _ _ _ _ _ _ _ _ _ _ Hr).
Qed.

(** * Examples

    The certificate of a file is its contents here. *)

Definition cert_is_data (data : bytes) (version : Z) : bytes := data.

Definition stub_path : bytes := #"/data/app/x.y-1/base.apk".
Definition orig_path : bytes := #"/data/app/com.topjohnwu.magisk-1/base.apk".

(** A repackaged stub without its dyn APK, and an app that has the manager's name
    and the certificate [orig_cert]. *)
Definition two_apps (orig_cert : bytes) : Fs :=
  mkFs (fun p =>
          if bool_decide (p = stub_path) then Some (mkAttr 10050 (1, 0))
          else if bool_decide (p = orig_path) then Some (mkAttr 1000 (2, 0))
          else if bool_decide (p = #"/data/user_de/0/com.topjohnwu.magisk") then Some (mkAttr 10099 (3, 0))
          else None)
       (fun p =>
          if bool_decide (p = stub_path) then Some (#"STUB", Some 10050)
          else if bool_decide (p = orig_path) then Some (orig_cert, Some 1000)
          else None)
       (Some [(#"x.y-1", Folder []); (#"com.topjohnwu.magisk-1", Folder [])]) None.

Definition demo_info : ManagerInfo := mkManagerInfo None #"GOOD" (-1) [] [] ∅.
Definition demo_db (requester : option bytes) : TableDb :=
  mkTableDb ∅ (match requester with Some p => {[ #"requester" := p ]} | None => ∅ end) ∅.

Lemma get_manager_trusted_witness :
  trusted_answer cert_is_data 1 30 (two_apps #"GOOD") 0 #"GOOD" (10099, APP_PACKAGE_NAME).
Proof.
  eapply (get_manager_trusted cert_is_data 1 30 false (two_apps #"GOOD") 0 0 false
            (mkSt demo_info (Some (demo_db None)) [])).
  - exact I.
  - vm_compute. reflexivity.
  - discriminate.
Defined.

(** One call of [get_manager] on a release build for SDK 30. *)
Definition ask (fs : Fs) (user : Z) (s : St (S:=TableDb)) : logged (St (S:=TableDb) * (Z * bytes)) :=
  get_manager cert_is_data 1 true 30 false fs 0 user false s.

(** The database entry is removed, as when the user restores the original app. *)
Definition forget_requester (s : St (S:=TableDb)) : St (S:=TableDb) := mkSt (info s) (Some (demo_db None)) (effects s).

(** The record of one user can be read as that of another package.  User 0 has a
    repackaged manager on record; the entry leaves the database; a query for user 10
    clears the package name they share.  The next query for user 0 finds its record
    unchanged, takes it for that of the original app, and answers with the uid of
    that app although its certificate is not the trusted one. *)
Theorem cross_user_confusion :
  exists s1 s2 s3 r1 r2,
    ask (two_apps #"EVIL") 0 (mkSt demo_info (Some (demo_db (Some #"x.y"))) []) = Ok (s1, r1) /\
    ask (two_apps #"EVIL") 10 (forget_requester s1) = Ok (s2, r2) /\
    ask (two_apps #"EVIL") 0 s2 = Ok (s3, (10099, APP_PACKAGE_NAME)) /\
    trusted_cert (info s2) = #"GOOD" /\
    ~ trusted_answer cert_is_data 1 30 (two_apps #"EVIL") 0 #"GOOD" (10099, APP_PACKAGE_NAME).
Proof.
  do 5 eexists. split_and!; [vm_compute; reflexivity .. |].
  intros [(apk & owner & Hf & (_ & data & Ho & Hc) & _) | (owner & (_ & data & Ho & Hc) & _)].
  - replace (find_apk_path (two_apps #"EVIL") APP_PACKAGE_NAME) with (Ok (E:=unit) orig_path) in Hf by (vm_compute; reflexivity).
    injection Hf as <-. vm_compute in Ho. injection Ho as <- <-. vm_compute in Hc. discriminate Hc.
  - vm_compute in Ho. discriminate Ho.
Qed.
End Manager.
