(* ===== verification/Su.v ===== *)
(** core/su: who gets root.  The access database (su/db.rs), the decision and its
    cache, and the handler of a su request (su/daemon.rs, su/connect.rs).

    The cached decision is an [Arc] that handlers share: the arcs live in a heap, the
    cache holds a reference, and a handler changes the cell it got. *)

From S2P Require Import Prelude Text Numeric CStr Dir Db Package.

Module Su.
Import Db Package.

(** * Policies *)

(** [SuPolicy] keeps whatever number the database or the app gave. *)
Definition Query : Z := 0.
Definition Deny : Z := 1.
Definition Allow : Z := 2.
Definition Restrict : Z := 3.

Record RootSettings := mkRootSettings { policy : Z; log : bool; notify : bool }.
Definition RootSettings_default : RootSettings := mkRootSettings Query false false.

Record AccessInfo := mkAccess { settings_ : RootSettings; timestamp_ : Z }.

Record SuInfo := mkSuInfo {
  uid : Z;
  eval_uid : Z;
  mgr_pkg : bytes;
  mgr_uid : Z;
  cfg : DbSettings;
  access : AccessInfo
}.

(** [AccessInfo::new] and [is_fresh], with the clock in milliseconds. *)
Definition AccessInfo_new (s : RootSettings) (instant : Z) : AccessInfo := mkAccess s instant.
Definition is_fresh (instant : Z) (a : AccessInfo) : bool := instant - timestamp_ a <? 3000.
Definition refresh (instant : Z) (a : AccessInfo) : AccessInfo := mkAccess (settings_ a) instant.

Definition SuInfo_default (instant : Z) : SuInfo :=
  mkSuInfo (-1) (-1) [] (-1) DbSettings_default (mkAccess RootSettings_default instant).
Definition SuInfo_with (p : Z) (instant uid : Z) : SuInfo :=
  mkSuInfo uid (-1) [] (-1) DbSettings_default (AccessInfo_new (mkRootSettings p false false) instant).
Definition SuInfo_allow : Z -> Z -> SuInfo := SuInfo_with Allow.
Definition SuInfo_deny : Z -> Z -> SuInfo := SuInfo_with Deny.

Record SuRequest := mkSuRequest {
  target_uid : Z; target_pid : Z; login : bool; keep_env : bool; drop_cap : bool;
  shell : bytes; command : bytes; context : bytes; gids : list Z
}.
Definition DEFAULT_SHELL : bytes := #"/system/bin/sh".
Definition SuRequest_default : SuRequest :=
  mkSuRequest AID_ROOT (-1) false false false DEFAULT_SHELL [] [] [].
Definition set_drop_cap (r : SuRequest) : SuRequest :=
  mkSuRequest (target_uid r) (target_pid r) (login r) (keep_env r) true (shell r) (command r) (context r) (gids r).

(** * The access database *)

Section Su.
Context {S : Type} `{Sqlite S}.
Context (read_certificate : bytes -> Z -> bytes).
Context (MAGISK_VER_CODE : Z) (check_signature : bool) (sdk_int : Z) (is_emulator : bool).

(** [SqlTable for RootSettings]: every column by its name. *)
Definition RootSettings_on_row (values : row) (s : RootSettings) : RootSettings :=
  foldl (fun s i =>
    match values !! i with
    | Some (column, _) =>
        let val := get_int values i in
        if bool_decide (column = #"policy") then mkRootSettings val (log s) (notify s)
        else if bool_decide (column = #"logging") then mkRootSettings (policy s) (negb (val =? 0)) (notify s)
        else if bool_decide (column = #"notification") then mkRootSettings (policy s) (log s) (negb (val =? 0))
        else s
    | None => s
    end) s (seq 0 (length values)).

Definition get_root_settings (now uid : Z) (s : RootSettings) (db : option S) : option S * res Z RootSettings :=
  let '(db, s, rc) := db_exec_with_rows now sql_root_settings [Integer uid] RootSettings_on_row s db in
  (db, sql_result rc ≫= fun _ => Ok s).

(** [prune_su_access]; [app_list] is [get_app_no_list]. *)
Definition uninstalled (app_list : gset Z) (uid : Z) : bool :=
  let app_id := to_app_id uid in
  (AID_APP_START <=? app_id) && (app_id <=? AID_APP_END) &&
  negb (bool_decide (app_id - AID_APP_START ∈ app_list)).

Definition prune_su_access (now : Z) (fs : Fs) (db : option S) : option S :=
  let '(db, list, rc) := db_exec_with_rows now sql_uids [] (fun values l => l ++ [get_int values 0]) [] db in
  if negb (rc =? 0) then db else
  let rm_uids := filter (fun uid => uninstalled (get_app_no_list fs) uid = true) list in
  foldl (fun db uid => (db_exec now sql_delete_policy [Integer uid] db).1) db rm_uids.

(** The root access and multiuser settings, the tests both lookups share. *)
Definition access_forbidden (ra : RootAccess) (uid : Z) : bool :=
  match ra with
  | Disabled => true
  | AppsOnly => uid =? AID_SHELL
  | AdbOnly => negb (uid =? AID_SHELL)
  | AppsAndAdb => false
  end.

Definition uid_granted_root (now uid : Z) (db : option S) : option S * bool :=
  if uid =? AID_ROOT then (db, true) else
  let '(db, r) := get_db_settings is_emulator now db in
  match r with
  | Ok cfg =>
      if access_forbidden (root_access cfg) uid then (db, false) else
      let go uid :=
        let '(db, granted, _) :=
          db_exec_with_rows now sql_policy [Integer uid] (fun values _ => get_int values 0 =? Allow) false db in
        (db, granted) in
      match multiuser_mode cfg with
      | OwnerOnly => if negb (to_user_id uid =? 0) then (db, false) else go uid
      | OwnerManaged => go (to_app_id uid)
      | User => go uid
      end
  | _ => (db, false)
  end.

(** * The decision *)

(** What a call sees of the outside: the file system, the wall clock of the
    database, and the monotonic clock. *)
Record Env := mkEnv { fs : Fs; now : Z; instant : Z }.

Abbreviation PSt := (Package.St (S:=S)).

(** The daemon's cells: package and database state, the shared decisions, and
    which of them is cached. *)
Record D := mkD { pst : PSt; arcs : list SuInfo; cached : nat }.

Definition alloc (i : SuInfo) (d : D) : D * nat := (mkD (pst d) (arcs d ++ [i]) (cached d), length (arcs d)).
Definition set_pst (p : PSt) (d : D) : D := mkD p (arcs d) (cached d).
Definition set_db (db : option S) (p : PSt) : PSt := mkSt (info p) db (effects p).
Definition lookup_arc (a : nat) (d : D) (i : SuInfo) : SuInfo := default i (arcs d !! a).
Definition set_arc (a : nat) (i : SuInfo) (d : D) : D := mkD (pst d) (<[a := i]> (arcs d)) (cached d).

(** The uid under which the settings look the request up; [None]: refused. *)
Definition evaluated_uid (mm : MultiuserMode) (uid : Z) : option Z :=
  match mm with
  | OwnerOnly => if negb (to_user_id uid =? 0) then None else Some uid
  | OwnerManaged => Some (to_app_id uid)
  | User => Some uid
  end.

(** The tail of [build_su_info], once the settings and the manager are known. *)
Definition conclude (instant uid eval_uid : Z) (cfg : DbSettings) (access : RootSettings) (mgr : Z * bytes) : SuInfo :=
  let '(mgr_uid, mgr_pkg) := mgr in
  if to_app_id uid =? to_app_id mgr_uid then SuInfo_allow instant uid
  else if access_forbidden (root_access cfg) uid then SuInfo_deny instant uid
  else if (policy access =? Query) && (mgr_uid <? 0) then SuInfo_deny instant uid
  else mkSuInfo uid eval_uid mgr_pkg mgr_uid cfg (AccessInfo_new access instant).

Definition build_su_info (e : Env) (uid : Z) (p : PSt) : logged (PSt * SuInfo) :=
  let '(db, r) := get_db_settings is_emulator (now e) (db p) in
  let p := set_db db p in
  match r with
  | Ok cfg =>
      match evaluated_uid (multiuser_mode cfg) uid with
      | None => Ok (p, SuInfo_deny (instant e) uid)
      | Some eval_uid =>
          let '(db, r) := get_root_settings (now e) eval_uid RootSettings_default db in
          let p := set_db db p in
          match r with
          | Ok access =>
              if (policy access =? Query) || log access || notify access then
                '(p, mgr) ← get_manager read_certificate MAGISK_VER_CODE check_signature sdk_int is_emulator
                              (fs e) (now e) (to_user_id eval_uid) true p;
                Ok (p, conclude (instant e) uid eval_uid cfg access mgr)
              else Ok (p, conclude (instant e) uid eval_uid cfg access (-1, []))
          | _ => Ok (p, SuInfo_deny (instant e) uid)
          end
      end
  | _ => Ok (p, SuInfo_deny (instant e) uid)
  end.

(** [get_su_info]: a reference to the decision; root is not looked up nor cached. *)
Definition get_su_info (e : Env) (uid_ : Z) (d : D) : logged (D * nat) :=
  if uid_ =? AID_ROOT then Ok (alloc (SuInfo_allow (instant e) AID_ROOT) d) else
  let c := lookup_arc (cached d) d (SuInfo_default (instant e)) in
  if (uid c =? uid_) && is_fresh (instant e) (access c) then Ok (d, cached d) else
  '(p, i) ← build_su_info e uid_ (pst d);
  let '(d, a) := alloc i (set_pst p d) in
  Ok (mkD (pst d) (arcs d) a, a).

(** * The request *)

(** [app_request]: the answer of the app.  [None]: a call on the fifo failed, which denies.
    Otherwise the bytes that are ever written to the fifo; the first four are the policy,
    big-endian.  The descriptor is open for writing too, so the read never meets the end of
    the file, and [poll] that times out is no error: with less than four bytes the call never
    returns, which is [None]. *)
Definition app_request (answer : option bytes) (s : RootSettings) : option RootSettings :=
  match answer with
  | Some b => if (4 <=? length b)%nat then Some (mkRootSettings (swrap 32 (of_be (take 4 b))) (log s) (notify s)) else None
  | None => Some (mkRootSettings Deny (log s) (notify s))
  end.

(** The messages [connect_app] forks off for. *)
Inductive AppMsg := AppLog (policy : Z) (notify : bool) | AppNotify (policy : Z).

Definition connect_app (answer : option bytes) (s : RootSettings) : option (RootSettings * list AppMsg) :=
  s ← (if policy s =? Query then app_request answer s else Some s);
  Some (s, if negb (log s) && negb (notify s) then []
           else if log s then [AppLog (policy s) (notify s)]
           else if notify s then [AppNotify (policy s)] else []).

(** What the client reads, and what is run as root; [Waiting] is a handler that never
    returns from the dialogue. *)
Inductive Outcome :=
| Rejected (written : Z)
| ForkFailed
| Granted (req : SuRequest) (mnt_ns : Z) (written : list Z)
| Waiting.

(** The part under the lock of the decision: talk to the app, refresh, judge. *)
Definition locked (e : Env) (answer : option bytes) (a : nat) (d : D) : option (D * Z * list AppMsg) :=
  let i := lookup_arc a d (SuInfo_default (instant e)) in
  '(s, msgs) ← connect_app answer (settings_ (access i));
  let acc := refresh (instant e) (mkAccess s (timestamp_ (access i))) in
  Some (set_arc a (mkSuInfo (uid i) (eval_uid i) (mgr_pkg i) (mgr_uid i) (cfg i) acc) d, policy s, msgs).

(** [su_daemon_handler]: [fork] is the exit code of the root shell, [None] when the
    fork fails. *)
Definition su_daemon_handler (e : Env) (cred_uid : Z) (request : option SuRequest) (answer : option bytes)
    (fork : option Z) (d : D) : logged (D * list AppMsg * Outcome) :=
  match request with
  | None => Ok (d, [], Rejected Deny)
  | Some req =>
      '(d, a) ← get_su_info e cred_uid d;
      match locked e answer a d with
      | None => Ok (d, [], Waiting)
      | Some (d, p, msgs) =>
          let req := if p =? Restrict then set_drop_cap req else req in
          if p =? Deny then Ok (d, msgs, Rejected Deny) else
          let i := lookup_arc a d (SuInfo_default (instant e)) in
          match fork with
          | None => Ok (d, msgs, ForkFailed)
          | Some code => Ok (d, msgs, Granted req (mnt_ns (cfg i)) [0; code])
          end
      end
  end.
End Su.
End Su.
