(* ===== verification/Access.v ===== *)
(** What core/su guarantees: a decision other than "deny" has a reason in the
    settings and the database, the two lookups agree, pruning removes exactly the
    uninstalled apps, and how long a cached decision lasts. *)

From S2P Require Import Prelude Text Numeric CStr Dir Db Package Su.

Module Access.
Import Db Package Su.

(** * What the settings allow, in words *)

(** Root is switched on for the caller: the shell is adb, everybody else an app. *)
Definition root_enabled (ra : RootAccess) (uid : Z) : Prop :=
  ra = AppsAndAdb \/ (ra = AppsOnly /\ uid <> AID_SHELL) \/ (ra = AdbOnly /\ uid = AID_SHELL).

(** The uid whose policy counts: only the owner's apps have one, or every user's app has
    the policy of the owner's app, or each has its own. *)
Definition acts_as (mm : MultiuserMode) (uid ev : Z) : Prop :=
  match mm with
  | OwnerOnly => uid < AID_USER_OFFSET /\ ev = uid
  | OwnerManaged => ev = uid mod AID_USER_OFFSET
  | User => ev = uid
  end.

Lemma access_allowed ra uid : access_forbidden ra uid = false -> root_enabled ra uid.
Proof.
  unfold access_forbidden, root_enabled. destruct ra; intros H; [done | auto | |].
  all: try (apply Z.eqb_neq in H); try (apply negb_false_iff, Z.eqb_eq in H); naive_solver.
Qed.

Lemma evaluated_acts_as mm uid ev : 0 <= uid -> evaluated_uid mm uid = Some ev -> acts_as mm uid ev.
Proof.
  intros Hu. unfold evaluated_uid, acts_as, to_user_id, to_app_id. destruct mm.
  - destruct (Z.eqb_spec (Z.quot uid AID_USER_OFFSET) 0) as [Hq|]; intros [= <-]. split; [| done].
    rewrite Z.quot_div_nonneg in Hq by (unfold AID_USER_OFFSET; lia). unfold AID_USER_OFFSET in *.
    apply Z.div_small_iff in Hq; lia.
  - intros [= <-]. apply Z.rem_mod_nonneg; unfold AID_USER_OFFSET; lia.
  - by intros [= <-].
Qed.

Definition policy_of (i : SuInfo) : Z := policy (settings_ (access i)).

(** * The decision *)

Section Decision.
Context {S : Type} `{SqliteLaws S}.
Context (read_certificate : bytes -> Z -> bytes).
Context (MAGISK_VER_CODE : Z) (check_signature : bool) (sdk_int : Z) (is_emulator : bool).

Abbreviation manager := (get_manager read_certificate MAGISK_VER_CODE check_signature sdk_int is_emulator).
Abbreviation build_su_info := (build_su_info read_certificate MAGISK_VER_CODE check_signature sdk_int is_emulator).

(** The root settings the database has for a uid now. *)
Definition root_settings_of (now : Z) (s : S) (uid : Z) : RootSettings :=
  match force_filter now (policies s !! uid) with
  | Some r => mkRootSettings (swrap 32 (p_policy r)) (negb (swrap 32 (p_logging r) =? 0)) (negb (swrap 32 (p_notification r) =? 0))
  | None => RootSettings_default
  end.

Lemma get_root_settings_eq now uid (s : S) :
  get_root_settings now uid RootSettings_default (Some s) = (Some s, Ok (root_settings_of now s uid)).
Proof.
  unfold get_root_settings, db_exec_with_rows, with_db. rewrite root_settings_law. unfold root_settings_of.
  by destruct (force_filter now (policies s !! uid)).
Qed.

(** The manager the decision compares the caller with, if it asked for one. *)
Definition asked_manager (e : Env) (ev : Z) (p p' : Package.St (S:=S)) (m : Z * bytes) : Prop :=
  manager (fs e) (now e) (to_user_id ev) true p = Ok (p', m).

Lemma build_su_info_eq e u p p' i s :
  db p = Some s -> build_su_info e u p = Ok (p', i) ->
  let cfg := settings_of is_emulator (settings s) in
  (evaluated_uid (multiuser_mode cfg) u = None /\ i = SuInfo_deny (instant e) u) \/
  exists ev m, evaluated_uid (multiuser_mode cfg) u = Some ev /\
    (asked_manager e ev p p' m \/ m = (-1, []) /\ policy (root_settings_of (now e) s ev) <> Query) /\
    i = conclude (instant e) u ev cfg (root_settings_of (now e) s ev) m.
Proof.
  intros Hdb. unfold Su.build_su_info. rewrite Hdb, get_db_settings_eq.
  assert (set_db (Some s) p = p) as Hp by (destruct p; simpl in *; by rewrite <- Hdb).
  rewrite Hp. destruct (evaluated_uid _ u) as [ev|]; [| intros [= _ <-]; by left].
  rewrite get_root_settings_eq, Hp.
  destruct ((policy (root_settings_of (now e) s ev) =? Query) || _ || _) eqn:Hq.
  - intros ([p1 m] & Hm & [= <- <-])%res_bind_Ok. right. exists ev, m. split_and!; [done | by left | done].
  - intros [= _ <-]. right. exists ev, (-1, []). split_and!; [done | | done].
    right. split; [done |]. intros Heq. rewrite Heq in Hq. done.
Qed.
End Decision.

(** C1: a decision that does not deny has a reason.  The caller is inside the
    multiuser mode, and either it is the manager app, or root access is enabled for
    it and the decision is the policy the database has in force for it; a decision
    to ask the user is only taken when there is a manager to ask through. *)
Theorem build_su_info_sound {S} `{SqliteLaws S} read_certificate ver check_sig sdk_int em e u p p' i s :
  db p = Some s -> 0 <= u ->
  build_su_info read_certificate ver check_sig sdk_int em e u p = Ok (p', i) ->
  policy_of i <> Deny ->
  let cfg := settings_of em (settings s) in
  exists ev, acts_as (multiuser_mode cfg) u ev /\
    ((policy_of i = Allow /\ exists m, asked_manager read_certificate ver check_sig sdk_int em e ev p p' m /\
        to_app_id u = to_app_id m.1) \/
     (root_enabled (root_access cfg) u /\
      policy_of i = policy (root_settings_of (now e) s ev) /\
      (policy_of i = Query -> 0 <= mgr_uid i))).
Proof.
  intros Hdb Hu Hb Hne cfg. destruct (build_su_info_eq _ _ _ _ _ e u p p' i s Hdb Hb) as [[_ ->] | (ev & m & Hev & Hm & ->)]; [done |].
  exists ev. split; [by apply evaluated_acts_as |]. fold cfg in Hne |- *. destruct m as [mu mp]. unfold conclude in *.
  destruct (Z.eqb_spec (to_app_id u) (to_app_id mu)) as [Heq|].
  - left. split; [done |]. destruct Hm as [Hm | [[= -> ->] _]]; [by eexists |].
    exfalso. unfold to_app_id, AID_USER_OFFSET in Heq. change (Z.rem (-1) 100000) with (-1) in Heq.
    pose proof (Z.rem_nonneg u 100000 ltac:(lia) Hu). lia.
  - right. destruct (access_forbidden (root_access cfg) u) eqn:Hacc; [done |]. apply access_allowed in Hacc.
    destruct ((policy _ =? Query) && (mu <? 0)) eqn:Hq; [done |].
    unfold policy_of. cbn. split_and!; [done | done |].
    intros Hqu. rewrite Hqu, Z.eqb_refl in Hq. cbn in Hq. lia.
Qed.

Lemma granted_row {S} `{SqliteLaws S} em now u (s : S) :
  u <> AID_ROOT -> (uid_granted_root em now u (Some s)).2 = true ->
  let cfg := settings_of em (settings s) in
  access_forbidden (root_access cfg) u = false /\
  exists ev, evaluated_uid (multiuser_mode cfg) u = Some ev /\ policy (root_settings_of now s ev) = Allow.
Proof.
  intros Hu. unfold uid_granted_root. rewrite (proj2 (Z.eqb_neq _ _)) by done. rewrite get_db_settings_eq.
  intros Hg. set (cfg := settings_of em (settings s)) in *. destruct (access_forbidden (root_access cfg) u); [done |]. split; [done |].
  assert (forall v, (let '(db, granted, _) := db_exec_with_rows now sql_policy [Integer v]
      (fun values _ => get_int values 0 =? Allow) false (Some s) in (db, granted)).2 = true ->
    policy (root_settings_of now s v) = Allow) as Hrow.
  { intros v. unfold db_exec_with_rows, with_db. rewrite policy_law. unfold root_settings_of.
    destruct (force_filter now (policies s !! v)); [| done]. intros Hv%Z.eqb_eq. exact Hv. }
  unfold evaluated_uid. destruct (multiuser_mode cfg).
  - destruct (negb _); [done |]. eauto.
  - eauto.
  - eauto.
Qed.

(** the quick lookup other parts of the daemon use agrees with the full decision:
    a uid it reports as having root is allowed by the decision without asking. *)
Theorem uid_granted_root_allowed {S} `{SqliteLaws S} read_certificate ver check_sig sdk_int em e u p p' i s :
  db p = Some s -> u <> AID_ROOT ->
  (uid_granted_root em (now e) u (Some s)).2 = true ->
  build_su_info read_certificate ver check_sig sdk_int em e u p = Ok (p', i) ->
  policy_of i = Allow.
Proof.
  intros Hdb Hu Hg Hb. apply granted_row in Hg as (Hacc & ev & Hev & Hpol); [| done].
  destruct (build_su_info_eq _ _ _ _ _ e u p p' i s Hdb Hb) as [[Hn _] | (ev' & [mu mp] & Hev' & _ & ->)]; [congruence |].
  rewrite Hev in Hev'. injection Hev' as <-. unfold conclude. destruct (_ =? _); [done |].
  rewrite Hacc, Hpol. done.
Qed.

(** * Pruning *)

Lemma prune_deletes {S} `{SqliteLaws S} now l (s : S) :
  exists s', foldl (fun db uid => (db_exec now sql_delete_policy [Integer uid] db).1) (Some s) l = Some s' /\
    settings s' = settings s /\ strings s' = strings s /\
    policies s' = foldr delete (policies s) l.
Proof.
  revert s. induction l as [|u l IH]; intros s; [by exists s |]. cbn [foldl].
  destruct (delete_policy_law now s u) as (s1 & He & Hs1 & Hs2 & Hs3).
  assert ((db_exec now sql_delete_policy [Integer u] (Some s)).1 = Some s1) as ->.
  { unfold db_exec, db_exec_with_rows, with_db. by rewrite He. }
  destruct (IH s1) as (s' & Hf & H1 & H2 & H3). exists s'. split_and!; [done | congruence | congruence |].
  rewrite H3, Hs3. clear. induction l as [|v l IHl]; [done |]. cbn [foldr] in *. rewrite IHl.
  apply delete_delete.
Qed.

Lemma foldr_delete_lookup (l : list Z) (m : gmap Z PolicyRow) u :
  foldr delete m l !! u = if decide (u ∈ l) then None else m !! u.
Proof.
  induction l as [|v l IH]; cbn [foldr]; [done |].
  destruct (decide (u = v)) as [->|].
  - rewrite lookup_delete_eq. by rewrite decide_True by set_solver.
  - rewrite lookup_delete_ne, IH by done. destruct (decide (u ∈ l)), (decide (u ∈ v :: l)); set_solver.
Qed.

(** pruning removes exactly the policies of app uids whose app is not in the
    list of installed ones, and leaves every other table alone. *)
Theorem prune_su_access_spec {S} `{SqliteLaws S} now fs (s : S) :
  (forall u r, policies s !! u = Some r -> - 2 ^ 31 <= u < 2 ^ 31) ->
  exists s', prune_su_access now fs (Some s) = Some s' /\
    settings s' = settings s /\ strings s' = strings s /\
    forall u, policies s' !! u =
      if uninstalled (get_app_no_list fs) u then None else policies s !! u.
Proof.
  intros Hrange. unfold prune_su_access, db_exec_with_rows, with_db.
  destruct (uids_law now s) as (l & Hl & ->). cbn. rewrite foldl_map_f.
  assert (Forall (fun u => swrap 32 u = u) l) as Hsw.
  { rewrite Hl. apply Forall_forall. intros u ([u' r] & -> & Hin)%list_elem_of_fmap.
    apply elem_of_map_to_list in Hin. specialize (Hrange u' r Hin). simpl.
    unfold swrap. change (2 ^ (32 - 1)) with (2 ^ 31). rewrite Z.mod_small by lia. lia. }
  assert (forall acc, foldl (fun l0 u => l0 ++ [get_int [(#"uid", VInt u)] 0]) acc l = acc ++ l) as ->.
  { clear -Hsw. induction Hsw as [|u l Hu _ IH]; intros acc; cbn [foldl]; [by rewrite app_nil_r |].
    rewrite IH, <- app_assoc. f_equal. exact (f_equal (fun x => x :: l) Hu). }
  rewrite app_nil_l. destruct (prune_deletes now (filter (fun u => uninstalled (get_app_no_list fs) u = true) l) s)
    as (s' & -> & H1 & H2 & H3).
  exists s'. split_and!; [done.. |]. intros u. rewrite H3, foldr_delete_lookup.
  assert (u ∈ l <-> exists r, policies s !! u = Some r) as Hin.
  { rewrite Hl, list_elem_of_fmap. split.
    - intros ([u' r] & -> & Hr). apply elem_of_map_to_list in Hr. eauto.
    - intros (r & Hr). exists (u, r). split; [done |]. by apply elem_of_map_to_list. }
  case_decide as Hd; rewrite list_elem_of_filter in Hd.
  - by destruct Hd as [-> _].
  - destruct (uninstalled (get_app_no_list fs) u); [| done].
    destruct (policies s !! u) as [r|] eqn:E; [| done]. destruct Hd. split; [done |]. apply Hin. eauto.
Qed.

(** * The cache *)

Definition is_granted (o : Outcome) : bool := match o with Granted _ _ _ => true | _ => false end.

Section Cache.
Context {S : Type} `{Sqlite S}.
Context (read_certificate : bytes -> Z -> bytes).
Context (MAGISK_VER_CODE : Z) (check_signature : bool) (sdk_int : Z) (is_emulator : bool).

Abbreviation handler := (su_daemon_handler read_certificate MAGISK_VER_CODE check_signature sdk_int is_emulator).
Abbreviation get_su_info := (get_su_info read_certificate MAGISK_VER_CODE check_signature sdk_int is_emulator).
Abbreviation build_su_info := (build_su_info read_certificate MAGISK_VER_CODE check_signature sdk_int is_emulator).

Lemma conclude_uid t u ev cfg acc m : uid (conclude t u ev cfg acc m) = u.
Proof using. unfold conclude. destruct m. by repeat case_match. Qed.

Lemma build_su_info_uid e u (p p' : Package.St (S:=S)) i : build_su_info e u p = Ok (p', i) -> uid i = u.
Proof.
  unfold Su.build_su_info. destruct (get_db_settings _ _ _) as [d [cfg| |]]; [| by intros [= _ <-] ..].
  destruct (evaluated_uid _ _); [| by intros [= _ <-]].
  destruct (get_root_settings _ _ _ _) as [d2 [acc| |]]; [| by intros [= _ <-] ..].
  destruct (_ || _).
  - intros ([p1 m] & _ & [= _ <-])%res_bind_Ok. apply conclude_uid.
  - intros [= _ <-]. by repeat case_match.
Qed.

(** The decision a request works on is the cached one, and is about its uid. *)
Lemma get_su_info_cached e u d d' a :
  0 < u -> get_su_info e u d = Ok (d', a) ->
  cached d' = a /\ exists i, arcs d' !! a = Some i /\ uid i = u.
Proof.
  intros Hu. unfold Su.get_su_info. rewrite (proj2 (Z.eqb_neq _ _)) by (unfold AID_ROOT; lia).
  destruct (_ && _) eqn:Hc.
  - intros [= <- <-]. split; [done |]. apply andb_true_iff in Hc as [Hc%Z.eqb_eq _].
    unfold lookup_arc in Hc. destruct (arcs d !! cached d) as [i|]; [eauto |]. simpl in Hc. lia.
  - intros ([p i] & Hb & [= <- <-])%res_bind_Ok. split; [done |]. exists i. simpl.
    split; [by apply list_lookup_middle | by eapply build_su_info_uid].
Qed.

(** The state a handled request leaves: its decision, refreshed. *)
Definition settled (u t p : Z) (d : D (S:=S)) : Prop :=
  exists i, arcs d !! cached d = Some i /\ uid i = u /\ timestamp_ (access i) = t /\ policy_of i = p.

Lemma handler_settled e u req ans code d d1 msgs o :
  0 < u -> handler e u (Some req) ans (Some code) d = Ok (d1, msgs, o) ->
  (exists i, arcs d1 !! cached d1 = Some i /\ policy_of i = Query) \/
  exists p, settled u (instant e) p d1 /\ is_granted o = negb (p =? Deny).
Proof.
  intros Hu. unfold su_daemon_handler. intros ([d0 a] & Hg & Hr)%res_bind_Ok.
  apply get_su_info_cached in Hg as (Hc & i & Hi & Hui); [| done].
  unfold locked, lookup_arc in Hr. rewrite Hi in Hr. cbn [default from_option id] in Hr.
  destruct (connect_app ans (settings_ (access i))) as [[s ms]|] eqn:Hca; cbn [mbind option_bind] in Hr.
  2:{ injection Hr as <- <- <-. left. exists i. rewrite Hc. split; [done |]. unfold connect_app in Hca. unfold policy_of.
      by destruct (Z.eqb_spec (policy (settings_ (access i))) Query). }
  right. exists (policy s).
  assert (settled u (instant e) (policy s)
    (set_arc a (mkSuInfo (uid i) (eval_uid i) (mgr_pkg i) (mgr_uid i) (cfg i)
       (refresh (instant e) (mkAccess s (timestamp_ (access i))))) d0)) as Hset.
  { unfold settled. cbn [cached arcs set_arc]. rewrite Hc, list_lookup_insert_eq by (by eapply lookup_lt_Some).
    eexists. split_and!; [reflexivity | exact Hui | reflexivity..]. }
  destruct (policy s =? Deny); injection Hr as <- <- <-; done.
Qed.

(** A further request for the same uid while the decision is fresh. *)
Lemma handler_reuses e u req ans code d t p :
  0 < u -> settled u t p d -> instant e - t < 3000 -> p <> Query ->
  exists d1 msgs o, handler e u (Some req) ans (Some code) d = Ok (d1, msgs, o) /\
    settled u (instant e) p d1 /\ is_granted o = negb (p =? Deny) /\ pst d1 = pst d.
Proof.
  intros Hu (i & Hi & Hui & Hti & Hpi) Hf Hp. unfold su_daemon_handler, Su.get_su_info.
  rewrite (proj2 (Z.eqb_neq _ _)) by (unfold AID_ROOT; lia).
  assert (lookup_arc (cached d) d (SuInfo_default (instant e)) = i) as Hl by (unfold lookup_arc; by rewrite Hi).
  cbn zeta. rewrite Hl. unfold is_fresh. rewrite Hui, Hti, Z.eqb_refl.
  rewrite (proj2 (Z.ltb_lt _ _)) by done. cbn [andb mbind res_bind].
  unfold locked. cbn zeta. rewrite Hl. unfold connect_app.
  unfold policy_of in Hpi. rewrite Hpi, (proj2 (Z.eqb_neq p Query)) by done. cbn [mbind option_bind]. rewrite Hpi.
  assert (settled u (instant e) p
    (set_arc (cached d) (mkSuInfo (uid i) (eval_uid i) (mgr_pkg i) (mgr_uid i) (cfg i)
       (refresh (instant e) (mkAccess (settings_ (access i)) (timestamp_ (access i))))) d)) as Hset.
  { unfold settled. cbn [cached arcs set_arc].
    rewrite list_lookup_insert_eq by (by eapply lookup_lt_Some).
    eexists. split_and!; [reflexivity | exact Hui | reflexivity | exact Hpi]. }
  destruct (p =? Deny); do 3 eexists; split_and!; try reflexivity; exact Hset.
Qed.

(** Requests for one uid, each with what it sees, the app's answer, and the
    database somebody may have written in between. *)
Fixpoint serve (u : Z) (req : SuRequest) (steps : list (Env * option bytes * option S)) (d : D (S:=S))
    : logged (D (S:=S) * list bool) :=
  match steps with
  | [] => Ok (d, [])
  | (e, ans, db') :: steps =>
      '(d, _, o) ← handler e u (Some req) ans (Some 0) (set_pst (set_db db' (pst d)) d);
      '(d, os) ← serve u req steps d;
      Ok (d, is_granted o :: os)
  end.

(** Every request comes less than three seconds after the one before. *)
Fixpoint spaced (t : Z) (steps : list (Env * option bytes * option S)) : Prop :=
  match steps with
  | [] => True
  | (e, _, _) :: steps => instant e - t < 3000 /\ spaced (instant e) steps
  end.

Lemma serve_settled u req steps d t p :
  0 < u -> p <> Query -> settled u t p d -> spaced t steps ->
  exists d', serve u req steps d = Ok (d', replicate (length steps) (negb (p =? Deny))).
Proof.
  intros Hu Hp. revert d t. induction steps as [|[[e ans] db'] steps IH]; intros d t Hs Hsp; [by eexists |].
  destruct Hsp as [Hf Hsp]. cbn [serve].
  destruct (handler_reuses e u req ans 0 (set_pst (set_db db' (pst d)) d) t p) as (d1 & msgs & o & -> & Hs1 & Ho & _); [done.. |].
  cbn [mbind res_bind]. destruct (IH d1 (instant e) Hs1 Hsp) as [d' ->]. cbn. rewrite Ho. by eexists.
Qed.
End Cache.

(** C32: a decision lasts as long as requests keep coming.  Once a request of a uid
    has been decided, every further request of it that comes within three seconds of
    the one before gets the same verdict, without looking at the database and without
    asking the user again: each use restarts the three seconds, so a policy that is
    revoked in between has no effect before there is a pause. *)
Theorem su_decision_sticks {S} `{Sqlite S} read_certificate ver check_sig sdk_int em e u req ans code
    (d d1 : D (S:=S)) msgs o steps :
  0 < u ->
  su_daemon_handler read_certificate ver check_sig sdk_int em e u (Some req) ans (Some code) d = Ok (d1, msgs, o) ->
  (forall i, arcs d1 !! cached d1 = Some i -> policy_of i <> Query) ->
  spaced (instant e) steps ->
  exists d', serve read_certificate ver check_sig sdk_int em u req steps d1 =
             Ok (d', replicate (length steps) (is_granted o)).
Proof.
  intros Hu Hh Hq Hsp. apply handler_settled in Hh as [(i & Hi & Hp) | (p & Hs & ->)]; [by apply Hq in Hp | | done].
  destruct Hs as (i & Hi & Hrest). assert (p <> Query) by (destruct Hrest as (_ & _ & <-); by apply Hq).
  eapply serve_settled; [done | done | by exists i | done].
Qed.

(** The answer of the app grants unless it is exactly "deny".  When the user has
    to be asked, any four bytes the app sends back other than the number 1 give root:
    also 0, which means "undecided", and numbers that are no policy at all. *)
Theorem any_other_answer_grants {S} `{Sqlite S} read_certificate ver check_sig sdk_int em e u req code b
    (d : D (S:=S)) i :
  0 < u -> arcs d !! cached d = Some i -> uid i = u -> policy_of i = Query ->
  is_fresh (instant e) (access i) = true ->
  length b = 4%nat -> swrap 32 (of_be b) <> Deny ->
  exists d' msgs r w, su_daemon_handler read_certificate ver check_sig sdk_int em e u (Some req) (Some b) (Some code) d =
    Ok (d', msgs, Granted r (mnt_ns (cfg i)) w).
Proof.
  intros Hu Hi Hui Hpi Hf Hb Hd. unfold su_daemon_handler, get_su_info.
  rewrite (proj2 (Z.eqb_neq _ _)) by (unfold AID_ROOT; lia).
  assert (lookup_arc (cached d) d (SuInfo_default (instant e)) = i) as Hl by (unfold lookup_arc; by rewrite Hi).
  cbn zeta. rewrite Hl, Hui, Z.eqb_refl, Hf. cbn [andb mbind res_bind].
  unfold locked. cbn zeta. rewrite Hl. unfold connect_app, app_request.
  unfold policy_of in Hpi. rewrite Hpi, Z.eqb_refl, Hb, take_ge by lia. cbn [Nat.leb mbind option_bind policy].
  rewrite (proj2 (Z.eqb_neq (swrap 32 (of_be b)) Deny)) by done.
  unfold lookup_arc. cbn [arcs set_arc]. rewrite list_lookup_insert_eq by (by eapply lookup_lt_Some).
  cbn [default from_option id cfg]. do 4 eexists. reflexivity.
Qed.

(** A dialogue that the user does not answer does not end after 70 seconds: [poll] times out
    without an error, and the read of the answer waits for bytes that do not come.  The
    handler never returns, no verdict is sent, and it keeps the lock of the decision. *)
Theorem unanswered_dialogue_waits {S} `{Sqlite S} read_certificate ver check_sig sdk_int em e u req code
    (d : D (S:=S)) i :
  0 < u -> arcs d !! cached d = Some i -> uid i = u -> policy_of i = Query ->
  is_fresh (instant e) (access i) = true ->
  su_daemon_handler read_certificate ver check_sig sdk_int em e u (Some req) (Some []) (Some code) d = Ok (d, [], Waiting).
Proof.
  intros Hu Hi Hui Hpi Hf. unfold su_daemon_handler, get_su_info.
  rewrite (proj2 (Z.eqb_neq _ _)) by (unfold AID_ROOT; lia).
  assert (lookup_arc (cached d) d (SuInfo_default (instant e)) = i) as Hl by (unfold lookup_arc; by rewrite Hi).
  cbn zeta. rewrite Hl, Hui, Z.eqb_refl, Hf. cbn [andb mbind res_bind].
  unfold locked. cbn zeta. rewrite Hl. unfold connect_app, app_request. unfold policy_of in Hpi. by rewrite Hpi, Z.eqb_refl.
Qed.

(** * Examples *)

Definition no_cert (data : bytes) (version : Z) : bytes := [].
Definition no_files : Fs := mkFs (fun _ => None) (fun _ => None) None None.
Definition allow_db : TableDb := mkTableDb ∅ ∅ {[ 10123 := mkPolicyRow 2 0 0 0 ]}.
Definition demo_pst : Package.St (S:=TableDb) := mkSt ManagerInfo_default (Some allow_db) [].
Definition demo_env (t : Z) : Env := mkEnv no_files 1000 t.
Definition demo_D : D (S:=TableDb) := mkD demo_pst [SuInfo_default 0] 0.

Definition demo_info : SuInfo :=
  mkSuInfo 10123 10123 [] (-1) DbSettings_default (mkAccess (mkRootSettings Allow false false) 5).

Lemma build_su_info_sound_witness :
  build_su_info no_cert 1 true 30 false (demo_env 5) 10123 demo_pst = Ok (demo_pst, demo_info) /\
  exists ev, acts_as OwnerOnly 10123 ev.
Proof.
  assert (build_su_info no_cert 1 true 30 false (demo_env 5) 10123 demo_pst = Ok (demo_pst, demo_info)) as Hb
    by (vm_compute; reflexivity).
  split; [exact Hb |].
  destruct (build_su_info_sound no_cert 1 true 30 false (demo_env 5) 10123 demo_pst demo_pst demo_info allow_db
    eq_refl ltac:(lia) Hb ltac:(discriminate)) as (ev & Hev & _).
  exists ev. exact Hev.
Defined.

Lemma uid_granted_root_allowed_witness : policy_of demo_info = Allow.
Proof.
  eapply (uid_granted_root_allowed no_cert 1 true 30 false (demo_env 5) 10123 demo_pst demo_pst demo_info allow_db).
  - reflexivity.
  - discriminate.
  - vm_compute. reflexivity.
  - vm_compute. reflexivity.
Defined.

Lemma prune_su_access_spec_witness :
  exists s', prune_su_access 0 no_files (Some allow_db) = Some s' /\ policies s' !! 10123 = None.
Proof.
  destruct (prune_su_access_spec 0 no_files allow_db) as (s' & Hp & _ & _ & Hl).
  - intros u r Hu. cbn in Hu. apply lookup_singleton_Some in Hu as [<- _]. lia.
  - exists s'. split; [exact Hp |]. rewrite Hl. vm_compute. reflexivity.
Defined.

(** The policy is deleted after the first request, and the second is still granted. *)
Definition demo_D1 : D (S:=TableDb) := mkD demo_pst [SuInfo_default 0; demo_info] 1.

Lemma su_decision_sticks_witness :
  exists d', serve no_cert 1 true 30 false 10123 SuRequest_default
               [(demo_env 2900, None, Some (mkTableDb ∅ ∅ ∅))] demo_D1 = Ok (d', [true]).
Proof.
  apply (su_decision_sticks no_cert 1 true 30 false (demo_env 5) 10123 SuRequest_default None 0 demo_D demo_D1
    [] (Granted SuRequest_default 1 [0; 0]) [(demo_env 2900, None, Some (mkTableDb ∅ ∅ ∅))]).
  - lia.
  - vm_compute. reflexivity.
  - intros i Hi. injection Hi as <-. discriminate.
  - cbn. lia.
Defined.

Lemma any_other_answer_grants_witness :
  exists d' msgs r w,
    su_daemon_handler no_cert 1 true 30 false (demo_env 5) 10123 (Some SuRequest_default)
      (Some [bof 0; bof 0; bof 0; bof 77]) (Some 0)
      (mkD demo_pst [mkSuInfo 10123 10123 #"mgr" 10001 DbSettings_default (mkAccess RootSettings_default 0)] 0) =
    Ok (d', msgs, Granted r 1 w).
Proof.
  apply (any_other_answer_grants no_cert 1 true 30 false (demo_env 5) 10123 SuRequest_default 0
    [bof 0; bof 0; bof 0; bof 77] _
    (mkSuInfo 10123 10123 #"mgr" 10001 DbSettings_default (mkAccess RootSettings_default 0)));
    try reflexivity; vm_compute; discriminate.
Defined.

Lemma unanswered_dialogue_waits_witness :
  su_daemon_handler no_cert 1 true 30 false (demo_env 5) 10123 (Some SuRequest_default) (Some []) (Some 0)
    (mkD demo_pst [mkSuInfo 10123 10123 #"mgr" 10001 DbSettings_default (mkAccess RootSettings_default 0)] 0) =
  Ok (mkD demo_pst [mkSuInfo 10123 10123 #"mgr" 10001 DbSettings_default (mkAccess RootSettings_default 0)] 0, [], Waiting).
Proof.
  apply (unanswered_dialogue_waits no_cert 1 true 30 false (demo_env 5) 10123 SuRequest_default 0 _
    (mkSuInfo 10123 10123 #"mgr" 10001 DbSettings_default (mkAccess RootSettings_default 0))); reflexivity || lia.
Defined.
End Access.
