(* ===== verification/Notify.v ===== *)
(** core/su/connect.rs: how the daemon talks to the manager app: the commands that start it,
    with the data of a request as extras, and the fifo of the answer. *)

From S2P Require Import Prelude Text Numeric CStr FileTree Package Su.

Module Notify.
Import CStr FileTree Package Su.

(** * Extras *)

Inductive ExtraVal := EInt (i : Z) | EBool (b : bool) | EStr (s : bytes) | EIntList (l : list Z).
Record Extra := mkExtra { key : bytes; value : ExtraVal }.

Definition fmt_bool (b : bool) : bytes := if b then #"true" else #"false".

(** Every number with a comma after it, without the last character. *)
Definition int_list (l : list Z) : bytes := List.removelast (concat (map (fun i => fmt_dec i ++ #",") l)).

(** [str::replace] of one character. *)
Definition replace_char (c : byte) (to s : bytes) : bytes := concat (map (fun x => if decide (x = c) then to else [x]) s).

Definition backslash : byte := bof 92.
Definition colon : byte := bof 58.
Definition escape (s : bytes) : bytes := replace_char colon [backslash; colon] (replace_char backslash [backslash; backslash] s).

(** The arguments an extra adds to a command. *)
Definition add_intent (e : Extra) : list bytes :=
  match value e with
  | EInt i => [ #"--ei"; key e; fmt_dec i]
  | EBool b => [ #"--ez"; key e; fmt_bool b]
  | EStr s => [ #"--es"; key e; s]
  | EIntList l => [ #"--es"; key e; int_list l]
  end.

Definition add_bind (e : Extra) : list bytes :=
  [ #"--extra";
    match value e with
    | EInt i => key e ++ #":i:" ++ fmt_dec i
    | EBool b => key e ++ #":b:" ++ fmt_bool b
    | EStr s => key e ++ #":s:" ++ escape s
    | EIntList l => key e ++ #":s:" ++ (if is_empty l then [] else int_list l)
    end].

Definition add_bind_legacy (e : Extra) : list bytes :=
  match value e with
  | EStr s => [ #"--extra"; key e ++ #":s:" ++ s]
  | _ => add_bind e
  end.

(** * Commands *)

Record Command := mkCommand { program : bytes; args : list bytes; classpath : bytes }.

(** The output of a command, [None] when it could not be run. *)
Record Output := mkOutput { stdout : bytes; stderr : bytes }.

Record SuAppContext := mkContext {
  cred_uid : Z; cred_pid : option Z; request : SuRequest; info : SuInfo; settings : RootSettings; sdk_int : Z
}.

Definition app_process : bytes := #"/system/bin/app_process".

Definition content_head (pkg user action : bytes) : list bytes :=
  [ #"/system/bin"; #"com.android.commands.content.Content"; #"call"; #"--uri"; #"content://" ++ pkg ++ #".provider";
    #"--user"; user; #"--method"; action].
Definition content_cmd (c : SuAppContext) (action : bytes) (extras : list Extra) : Command :=
  mkCommand app_process
    (content_head (mgr_pkg (info c)) (fmt_dec (to_user_id (eval_uid (info c)))) action ++
     concat (map (if 30 <=? sdk_int c then add_bind else add_bind_legacy) extras))
    #"/system/framework/content.jar".

Definition am_head (pkg user action : bytes) : list bytes :=
  [ #"/system/bin"; #"com.android.commands.am.Am"; #"start"; #"-p"; pkg; #"--user"; user; #"-a"; #"android.intent.action.VIEW";
    #"-f"; #"0x18800020"; #"--es"; #"action"; action].
Definition am_cmd (c : SuAppContext) (action : bytes) (extras : list Extra) : Command :=
  mkCommand app_process
    (am_head (mgr_pkg (info c)) (fmt_dec (to_user_id (eval_uid (info c)))) action ++ concat (map add_intent extras))
    #"/system/framework/am.jar".

(** The loop that keeps trying.  [runs] are the outputs of the commands, in order; the commands
    that are run, and the outputs that are left when the loop ends. *)
Fixpoint am_loop (cmd : Command) (runs : list (option Output)) : list Command * option (list (option Output)) :=
  match runs with
  | [] => ([], None)
  | o :: runs =>
      match o with
      | Some out =>
          if is_empty (stdout out) then let '(cs, r) := am_loop cmd runs in (cmd :: cs, r)
          else ([cmd], Some runs)
      | None => let '(cs, r) := am_loop cmd runs in (cmd :: cs, r)
      end
  end.

Definition provider_ok (o : option Output) : bool :=
  match o with Some out => negb (contains (stderr out) #"Error") && negb (contains (stdout out) #"Error") | None => false end.

Definition exec_cmd (c : SuAppContext) (action : bytes) (extras : list Extra) (use_provider : bool)
    (runs : list (option Output)) : list Command * option (list (option Output)) :=
  if use_provider then
    match runs with
    | [] => ([], None)
    | o :: runs =>
        if provider_ok o then ([content_cmd c action extras], Some runs)
        else let '(cs, r) := am_loop (am_cmd c action extras) runs in (content_cmd c action extras :: cs, r)
    end
  else am_loop (am_cmd c action extras) runs.

(** [as i32] of the unsigned uid, and the pid or -1. *)
Definition from_uid (c : SuAppContext) : Extra := mkExtra #"from.uid" (EInt (swrap 32 (cred_uid c))).
Definition pid_extra (c : SuAppContext) : Extra := mkExtra #"pid" (EInt (default (-1) (cred_pid c))).
Definition policy_extra (c : SuAppContext) : Extra := mkExtra #"policy" (EInt (policy (settings c))).

Definition notify_extras (c : SuAppContext) : list Extra := [from_uid c; pid_extra c; policy_extra c].
Definition app_notify (c : SuAppContext) (runs : list (option Output)) : list Command * option (list (option Output)) :=
  exec_cmd c #"notify" (notify_extras c) true runs.

Definition log_extras (c : SuAppContext) : list Extra :=
  let r := request c in
  let cmd := if is_empty (command r) then shell r else command r in
  [from_uid c; mkExtra #"to.uid" (EInt (target_uid r)); pid_extra c; policy_extra c; mkExtra #"target" (EInt (target_pid r));
   mkExtra #"context" (EStr (context r)); mkExtra #"gids" (EIntList (gids r)); mkExtra #"command" (EStr cmd);
   mkExtra #"notify" (EBool (notify (settings c)))].
Definition app_log (c : SuAppContext) (runs : list (option Output)) : list Command * option (list (option Output)) :=
  exec_cmd c #"log" (log_extras c) true runs.

(** * The dialogue *)

Definition MAGISK_FILE_CON : bytes := #"u:object_r:magisk_file:s0".
Definition INTERNAL_DIR : bytes := #".magisk".

(** The path of the fifo, written into a buffer of 64 bytes. *)
Definition request_fifo (magisk_tmp : bytes) (pid : option Z) : FixedBuf :=
  foldl (fun b s => (push_str s b).1) (FixedBuf_new 64)
    [magisk_tmp; #"/"; INTERNAL_DIR; #"/su_request_"; fmt_dec (default (-1) pid)].

(** The attributes that the fifo is given before the app is started. *)
Definition request_attr (mgr_uid : Z) : FileAttr :=
  let a := FileAttr_new in
  mkFileAttr 384 (uwrap 32 mgr_uid) (uwrap 32 mgr_uid) (st_rdev a) (push_str MAGISK_FILE_CON (con a)).1.
Definition fifo_meta (mgr_uid : Z) (created : Meta) : Meta := set_attr (request_attr mgr_uid) (chmod 384 created) false.

Definition request_extras (magisk_tmp : bytes) (c : SuAppContext) : list Extra :=
  [mkExtra #"fifo" (EStr (as_str (request_fifo magisk_tmp (cred_pid c)))); mkExtra #"uid" (EInt (eval_uid (info c))); pid_extra c].

(** What the kernel and the app do: whether the fifo was made, the outputs of the commands,
    whether it could be opened and polled, and the bytes that are ever written to it. *)
Record Dialogue := mkDialogue { made : bool; runs_ : list (option Output); opened : bool; written : bytes }.

(** The new settings, [None] when the call does not return. *)
Definition app_request (magisk_tmp : bytes) (c : SuAppContext) (w : Dialogue) : list Command * option RootSettings :=
  if negb (made w) then ([], Su.app_request None (settings c)) else
  let '(cs, r) := exec_cmd c #"request" (request_extras magisk_tmp c) false (runs_ w) in
  match r with
  | None => (cs, None)
  | Some _ => (cs, Su.app_request (if opened w then Some (written w) else None) (settings c))
  end.

Definition set_settings (s : RootSettings) (c : SuAppContext) : SuAppContext :=
  mkContext (cred_uid c) (cred_pid c) (request c) (info c) s (sdk_int c).

(** [connect_app]: the commands of the daemon, the new settings, and the commands of the
    process that is forked, with the outputs it sees. *)
Definition connect_app (magisk_tmp : bytes) (c : SuAppContext) (w : Dialogue) (runs : list (option Output))
    : list Command * option RootSettings * list Command :=
  let '(cs, r) := if policy (settings c) =? Query then app_request magisk_tmp c w else ([], Some (settings c)) in
  match r with
  | None => (cs, None, [])
  | Some s =>
      let c := set_settings s c in
      (cs, Some s,
       if negb (log s) && negb (notify s) then []
       else if log s then (app_log c runs).1
       else if notify s then (app_notify c runs).1 else [])
  end.

(** * What is reported *)

(** The text of the value of an extra, its option and its type letter. *)
Definition text (v : ExtraVal) : bytes :=
  match v with EInt i => fmt_dec i | EBool b => fmt_bool b | EStr s => s | EIntList l => int_list l end.
Definition option_of (v : ExtraVal) : bytes := match v with EInt _ => #"--ei" | EBool _ => #"--ez" | _ => #"--es" end.
Definition kind_of (v : ExtraVal) : bytes := match v with EInt _ => #"i" | EBool _ => #"b" | _ => #"s" end.

Definition marked (c : byte) : Prop := c = colon \/ c = backslash.

(** The first text is the second one with a backslash before each colon and backslash. *)
Inductive escaped : bytes -> bytes -> Prop :=
  | escaped_nil : escaped [] []
  | escaped_mark c v t : marked c -> escaped v t -> escaped (backslash :: c :: v) (c :: t)
  | escaped_char c v t : ~ marked c -> escaped v t -> escaped (c :: v) (c :: t).

(** An escaped text stands for one text only. *)
Lemma escaped_fun v t t' : escaped v t -> escaped v t' -> t = t'.
Proof.
  intros H. revert t'. induction H as [|c v t Hc H IH|c v t Hc H IH]; intros t' H'; inversion H'; subst.
  - done.
  - f_equal. by apply IH.
  - exfalso. match goal with H : ~ marked backslash |- _ => apply H end. by right.
  - exfalso. apply Hc. by right.
  - f_equal. by apply IH.
Qed.

Lemma escape_cons c s : escape (c :: s) = (if decide (c = backslash) then [backslash; backslash]
  else if decide (c = colon) then [backslash; colon] else [c]) ++ escape s.
Proof.
  unfold escape, replace_char. cbn [map concat]. destruct (decide (c = backslash)) as [->|]; [done |].
  cbn [app map concat]. by destruct (decide (c = colon)).
Qed.

Lemma escape_escaped s : escaped (escape s) s.
Proof.
  induction s as [|c s IH]; [constructor |]. rewrite escape_cons. destruct (decide (c = backslash)) as [->|Hb]; [constructor; [by right | done] |].
  destruct (decide (c = colon)) as [->|Hc]; constructor; try done; [by left | by intros [?|?]].
Qed.

(** Neither a colon nor a backslash. *)
Definition unmarked (s : bytes) : Prop := Forall (fun c => ~ marked c) s.

Lemma unmarked_escaped s : unmarked s -> escaped s s.
Proof. induction 1; by constructor. Qed.

Lemma digits_unmarked s : Forall (fun c => is_digit c = true) s -> unmarked s.
Proof.
  intros Hs. eapply Forall_impl; [exact Hs |]. intros c Hd [->| ->]; vm_compute in Hd; discriminate.
Qed.

Lemma not_marked c : bool_decide (c = colon) || bool_decide (c = backslash) = false -> ~ marked c.
Proof. intros [H1%bool_decide_eq_false H2%bool_decide_eq_false]%orb_false_iff [?|?]; done. Qed.

Lemma fmt_dec_unmarked i : unmarked (fmt_dec i).
Proof.
  unfold fmt_dec. destruct (Z.ltb_spec i 0); [constructor; [by apply not_marked |] |]; apply digits_unmarked, print_dec_digits; lia.
Qed.

Lemma int_list_unmarked l : unmarked (int_list l).
Proof.
  unfold int_list. assert (unmarked (concat (map (fun i => fmt_dec i ++ #",") l))) as H.
  { induction l as [|i l IH]; [constructor |]. cbn [map concat]. apply Forall_app. split; [| done].
    apply Forall_app. split; [apply fmt_dec_unmarked |]. constructor; [by apply not_marked | constructor]. }
  revert H. generalize (concat (map (fun i => fmt_dec i ++ #",") l)). intros s H. induction H as [|c s Hc H IH]; [constructor |].
  cbn. destruct s; [constructor | by constructor].
Qed.

(** The value in a binding: the text, escaped from Android 11 on. *)
Definition bound (sdk : Z) (e : Extra) (v : bytes) : Prop := if 30 <=? sdk then escaped v (text (value e)) else v = text (value e).

Definition bindings (extras : list Extra) (vs : list bytes) : list bytes :=
  concat (zip_with (fun e v => [ #"--extra"; key e ++ #":" ++ kind_of (value e) ++ #":" ++ v]) extras vs).

Definition bound_value (sdk : Z) (e : Extra) : bytes :=
  match value e with EStr s => if 30 <=? sdk then escape s else s | v => text v end.

Lemma bound_value_ok sdk e : bound sdk e (bound_value sdk e).
Proof.
  unfold bound, bound_value. destruct (30 <=? sdk), (value e) as [i|[]|s|l]; cbn [text]; try done;
    try apply unmarked_escaped; [apply fmt_dec_unmarked | | | apply escape_escaped | apply int_list_unmarked];
    repeat constructor; by apply not_marked.
Qed.

Lemma add_bind_value sdk e : (if 30 <=? sdk then add_bind else add_bind_legacy) e = [ #"--extra"; key e ++ #":" ++ kind_of (value e) ++ #":" ++ bound_value sdk e].
Proof.
  destruct e as [k v]. unfold bound_value, add_bind, add_bind_legacy. destruct (30 <=? sdk), v as [i|b|s|l]; cbn [value key kind_of text]; try done;
    destruct l; done.
Qed.

Lemma add_binds sdk extras : concat (map (if 30 <=? sdk then add_bind else add_bind_legacy) extras) = bindings extras (map (bound_value sdk) extras).
Proof.
  unfold bindings. induction extras as [|e extras IH]; [done |]. cbn [map zip_with concat]. by rewrite IH, add_bind_value.
Qed.

(** The arguments of the two kinds of commands: the head, and for each extra one binding or
    an option with its key and its text. *)
Definition provider_report (c : SuAppContext) (action : bytes) (extras : list Extra) (cmd : Command) : Prop :=
  program cmd = app_process /\
  exists vs, args cmd = content_head (mgr_pkg (info c)) (fmt_dec (to_user_id (eval_uid (info c)))) action ++ bindings extras vs /\
    Forall2 (bound (sdk_int c)) extras vs.

Definition activity_report (c : SuAppContext) (action : bytes) (extras : list Extra) (cmd : Command) : Prop :=
  program cmd = app_process /\
  args cmd = am_head (mgr_pkg (info c)) (fmt_dec (to_user_id (eval_uid (info c)))) action ++
    concat (map (fun e => [option_of (value e); key e; text (value e)]) extras).

Lemma content_cmd_report c action extras : provider_report c action extras (content_cmd c action extras).
Proof.
  split; [done |]. exists (map (bound_value (sdk_int c)) extras). split; [cbn [content_cmd args]; by rewrite add_binds |].
  apply Forall2_fmap_r. apply Forall_Forall2_diag, Forall_true. intros e. apply bound_value_ok.
Qed.

Lemma am_cmd_report c action extras : activity_report c action extras (am_cmd c action extras).
Proof.
  split; [done |]. cbn [am_cmd args]. f_equal. f_equal. apply map_ext. intros e. unfold add_intent. by destruct (value e).
Qed.

(** How often the activity is started: up to the first time that something is printed. *)
Fixpoint tries (runs : list (option Output)) : nat :=
  match runs with
  | [] => 0
  | Some out :: runs => if is_empty (stdout out) then S (tries runs) else 1
  | None :: runs => S (tries runs)
  end.

Lemma am_loop_tries cmd runs : (am_loop cmd runs).1 = replicate (tries runs) cmd.
Proof.
  induction runs as [|[out|] runs IH]; cbn [am_loop tries]; [done | |].
  - destruct (is_empty _); [| done]. destruct (am_loop cmd runs). cbn in *. by rewrite IH.
  - destruct (am_loop cmd runs). cbn in *. by rewrite IH.
Qed.


Definition demo_ctx : SuAppContext :=
  mkContext 10123 (Some 4242)
    (mkSuRequest 0 (-1) false false false DEFAULT_SHELL #"id --es policy:i:2 \" [] [1; 2])
    (mkSuInfo 10123 10123 #"com.topjohnwu.magisk" 10001 Db.Db.DbSettings_default (mkAccess (mkRootSettings Allow true false) 0))
    (mkRootSettings Allow true false) 34.


(** Before Android 11 the colons of a context, which every context has, stay bare. *)
Example legacy_context_bare :
  add_bind_legacy (mkExtra #"context" (EStr #"u:r:magisk:s0")) = [ #"--extra"; #"context:s:u:r:magisk:s0"] /\
  add_bind (mkExtra #"context" (EStr #"u:r:magisk:s0")) = [ #"--extra"; #"context:s:u\:r\:magisk\:s0"].
Proof. by vm_compute. Qed.

(** The loop that starts the app ends with the first output that is not empty, and not
    otherwise: an [am] that never prints anything is run for ever. *)
Theorem am_loop_ends cmd runs :
  is_Some (am_loop cmd runs).2 <-> exists out, Some out ∈ runs /\ stdout out <> [].
Proof.
  induction runs as [|o runs IH]; [split; [intros [? [=]] | intros (? & []%not_elem_of_nil & _)] |].
  cbn [am_loop]. assert (forall cs r, am_loop cmd runs = (cs, r) -> is_Some r <-> exists out, Some out ∈ runs /\ stdout out <> []) as IH'
    by (intros cs r Heq; by rewrite Heq in IH).
  destruct o as [out|].
  - destruct (stdout out) eqn:E; cbn [is_empty].
    + destruct (am_loop cmd runs) as [cs r]. cbn [snd] in *. rewrite (IH' cs r eq_refl). split.
      * intros (o & Ho & ?). exists o. split; [by right | done].
      * intros (o & [[= ->]|Ho]%elem_of_cons & ?); [by rewrite E in * | eauto].
    + split; [| intros _; cbn; eauto]. intros _. exists out. split; [by left | by rewrite E].
  - destruct (am_loop cmd runs) as [cs r]. cbn [snd] in *. rewrite (IH' cs r eq_refl). split.
    + intros (o & Ho & ?). exists o. split; [by right | done].
    + intros (o & [[=]|Ho]%elem_of_cons & ?). eauto.
Qed.

(** The dialogue in full agrees with the one of Su: the same settings, the same messages. *)
Theorem connect_app_refines magisk_tmp c w runs :
  (policy (settings c) = Query -> made w = true ->
   is_Some (exec_cmd c #"request" (request_extras magisk_tmp c) false (runs_ w)).2) ->
  match Su.connect_app (if made w && opened w then Some (written w) else None) (settings c) with
  | None => (connect_app magisk_tmp c w runs).1.2 = None
  | Some (s, msgs) =>
      (connect_app magisk_tmp c w runs).1.2 = Some s /\
      (connect_app magisk_tmp c w runs).2 =
        concat (map (fun m => match m with
                              | AppLog _ _ => (app_log (set_settings s c) runs).1
                              | AppNotify _ => (app_notify (set_settings s c) runs).1
                              end) msgs)
  end.
Proof.
  intros Hf. unfold connect_app, Su.connect_app.
  assert (policy (settings c) = Query -> (app_request magisk_tmp c w).2 =
    Su.app_request (if made w && opened w then Some (written w) else None) (settings c)) as Hr.
  { intros Hq. unfold app_request. destruct (made w) eqn:Em; [| done]. cbn [negb andb].
    specialize (Hf Hq eq_refl) as [rs Hrs]. destruct (exec_cmd _ _ _ _ _) as [cs r]. cbn in Hrs. by subst r. }
  assert (forall s, (if negb (log s) && negb (notify s) then [] else if log s then (app_log (set_settings s c) runs).1
       else if notify s then (app_notify (set_settings s c) runs).1 else []) =
    concat (map (fun m => match m with AppLog _ _ => (app_log (set_settings s c) runs).1 | AppNotify _ => (app_notify (set_settings s c) runs).1 end)
      (if negb (log s) && negb (notify s) then [] else if log s then [AppLog (policy s) (notify s)] else if notify s then [AppNotify (policy s)] else []))) as Hm.
  { intros s. destruct (log s), (notify s); cbn; by rewrite ?app_nil_r. }
  destruct (Z.eqb_spec (policy (settings c)) Query) as [Hq|]; cbn [mbind option_bind]; [| by rewrite Hm].
  specialize (Hr Hq). destruct (app_request magisk_tmp c w) as [cs r]. cbn in Hr. subst r.
  destruct (Su.app_request _ _) as [s|]; cbn [mbind option_bind fst snd]; [by rewrite Hm | done].
Qed.

Lemma connect_app_refines_witness :
  (connect_app #"/debug_ramdisk" demo_ctx (mkDialogue true [] true []) [Some (mkOutput [] [])]).1.2 = Some (mkRootSettings Allow true false).
Proof.
  apply (connect_app_refines #"/debug_ramdisk" demo_ctx (mkDialogue true [] true []) [Some (mkOutput [] [])]). discriminate.
Defined.

Lemma push_all_fits ss b :
  FixedBuf_wf b -> (length (as_str b) + length (concat ss) < length (buf b))%nat ->
  as_str (foldl (fun b s => (push_str s b).1) b ss) = as_str b ++ concat ss.
Proof.
  revert b. induction ss as [|s ss IH]; intros b Hb Hl; cbn [foldl concat]; [by rewrite app_nil_r |].
  cbn [concat] in Hl. rewrite length_app in Hl. destruct (FixedBuf_push_fits b s Hb) as (Hb' & Hl' & Ha); [lia |].
  rewrite IH; [by rewrite Ha, <- app_assoc | done |]. rewrite Ha, Hl', length_app. lia.
Qed.

Lemma fmt_dec_length n : 0 <= n < 2 ^ 31 -> (length (fmt_dec n) <= 10)%nat.
Proof.
  intros Hn. unfold fmt_dec, print_radix. rewrite (proj2 (Z.ltb_ge _ _)) by lia.
  pose proof (print_go_length (S (Z.to_nat (Z.log2 n))) 10 n [] 10 ltac:(lia) ltac:(lia) ltac:(lia)). cbn [length] in *. lia.
Qed.

(** Only the manager can answer: the fifo is readable and writable for the uid of the
    manager alone, with the context of Magisk's files, before the app is started. *)
Theorem request_fifo_private mgr created :
  fifo_meta mgr created = mkMeta 384 (uwrap 32 mgr) (uwrap 32 mgr) (Some (MAGISK_FILE_CON ++ [NUL])).
Proof. reflexivity. Qed.

(** The name of the fifo has the whole pid in it, so that no two requests share one. *)
Theorem request_fifo_path tmp pid :
  0 <= pid < 2 ^ 31 -> (length tmp <= 32)%nat ->
  as_str (request_fifo tmp (Some pid)) = tmp ++ #"/.magisk/su_request_" ++ fmt_dec pid.
Proof.
  intros Hp Ht. unfold request_fifo. rewrite push_all_fits.
  - cbn [concat default]. by rewrite app_nil_r.
  - reflexivity.
  - cbn [concat default]. pose proof (fmt_dec_length pid Hp). rewrite !length_app.
    change (length #"/") with 1%nat. change (length INTERNAL_DIR) with 7%nat. change (length #"/su_request_") with 12%nat.
    change (length (buf (FixedBuf_new 64))) with 64%nat. change (length (as_str (FixedBuf_new 64))) with 0%nat. cbn [length id].
    lia.
Qed.

Lemma request_fifo_path_witness :
  as_str (request_fifo #"/debug_ramdisk" (Some 4242)) = #"/debug_ramdisk/.magisk/su_request_4242".
Proof. rewrite (request_fifo_path #"/debug_ramdisk" 4242); [vm_compute; reflexivity | lia | apply Nat.leb_le; reflexivity]. Defined.

End Notify.
