(* ===== verification/Pts.v ===== *)
(** core/su/pts.rs: the terminal of a root shell.  The bytes typed at the terminal go to
    the pseudo terminal of the shell and the output of the shell back, through a pipe in
    the kernel where the kernel allows it and through a buffer where not.

    The two streams are byte lists, of what will be read and what was written.  What the
    kernel does in a call is an argument: how many bytes it moves, or that it fails. *)

From S2P Require Import Prelude.

Module Pts.

(** * Pumping *)

(** [stdin], [ptmx_out]: what is yet to be read from the terminal and from the shell;
    [ptmx_in], [stdout]: what was written to them. *)
Record Tty := mkTty { use_splice : bool; pipe : bytes; stdin : bytes; ptmx_in : bytes; ptmx_out : bytes; stdout : bytes }.

(** What the kernel does in one call of [pump_via_splice]: the bytes moved into the pipe,
    the bytes moved out of it, the bytes a [read] returns, and the bytes that are written
    before a [write] fails, if it does; [None] is an error. *)
Record Kernel := mkKernel { splice_in : option nat; splice_out : option nat; read_len : option nat; write_stops : option nat }.

Definition BUF_LEN : nat := Z.to_nat 4096.
Definition SPLICE_LEN : nat := Z.to_nat 65536.

(** [write_all]. *)
Definition write_all (k : Kernel) (data dst : bytes) : bytes * bool :=
  match write_stops k with None => (dst ++ data, true) | Some n => (dst ++ take n data, false) end.

(** [pump_via_copy]: the rest of the source, the destination, and whether it succeeded. *)
Definition pump_via_copy (k : Kernel) (src dst : bytes) : bytes * bytes * bool :=
  match read_len k with
  | None => (src, dst, false)
  | Some n =>
      let len := Nat.min n BUF_LEN in
      let '(dst, ok) := write_all k (take len src) dst in
      (drop len src, dst, ok)
  end.

(** [pump_via_splice]: the flag, the pipe, the source, the destination, and whether it
    succeeded. *)
Definition pump_via_splice (k : Kernel) (use : bool) (pipe src dst : bytes) : bool * bytes * bytes * bytes * bool :=
  if negb use then let '(src, dst, ok) := pump_via_copy k src dst in (use, pipe, src, dst, ok) else
  match splice_in k with
  | None => let '(src, dst, ok) := pump_via_copy k src dst in (false, pipe, src, dst, ok)
  | Some n =>
      let len := length (take (Nat.min n SPLICE_LEN) src) in
      let pipe := pipe ++ take len src in
      let src := drop len src in
      if Nat.eqb len 0 then (use, pipe, src, dst, true) else
      match splice_out k with
      | None => let '(pipe, dst, ok) := pump_via_copy k pipe dst in (false, pipe, src, dst, ok)
      | Some m => let moved := Nat.min m len in (use, drop moved pipe, src, dst ++ take moved pipe, true)
      end
  end.

(** * The loop *)

(** [PollFlags] of an answer; [revents] is [None] for bits that are not known. *)
Record PollFlags := mkFlags { POLLIN : bool; POLLERR : bool; POLLHUP : bool; POLLNVAL : bool }.

Inductive Fd := Ptmx | Signal | Stdin.

(** What poll reports of a descriptor, what the kernel does if it is pumped, and whether
    the signal could be read. *)
Record Answer := mkAnswer { revents : option PollFlags; kernel : Kernel; signal_read : bool }.

Definition all_ (a : Answer) : bool := match revents a with Some f => POLLIN f | None => false end.
Definition stops (a : Answer) : bool :=
  match revents a with Some f => POLLERR f || POLLHUP f || POLLNVAL f | None => true end.

Inductive Flow := Continue | Break | Fail.

(** One descriptor of the [for] loop. *)
Definition serve (fd : Fd) (a : Answer) (s : Tty) : Tty * Flow :=
  if all_ a then
    match fd with
    | Stdin =>
        let '(use, p, src, dst, ok) := pump_via_splice (kernel a) (use_splice s) (pipe s) (stdin s) (ptmx_in s) in
        (mkTty use p src dst (ptmx_out s) (stdout s), if ok : bool then Continue else Fail)
    | Ptmx =>
        let '(use, p, src, dst, ok) := pump_via_splice (kernel a) (use_splice s) (pipe s) (ptmx_out s) (stdout s) in
        (mkTty use p (stdin s) (ptmx_in s) src dst, if ok : bool then Continue else Fail)
    | Signal => (s, if signal_read a then Continue else Fail)
    end
  else if stops a then (s, Break) else (s, Continue).

Fixpoint serve_all (fds : list (Fd * Answer)) (s : Tty) : Tty * Flow :=
  match fds with
  | [] => (s, Continue)
  | (fd, a) :: fds => match serve fd a s with (s, Continue) => serve_all fds s | r => r end
  end.

Definition poll_fds (pump_stdin : bool) : list Fd := if pump_stdin then [Ptmx; Signal; Stdin] else [Ptmx].

(** The loop of [pump_tty_impl] over what the calls of poll answer; [None] is an error of
    poll.  [Continue]: the loop is still waiting. *)
Fixpoint poll_loop (pump_stdin : bool) (polls : list (option (list Answer))) (s : Tty) : Tty * Flow :=
  match polls with
  | [] => (s, Continue)
  | None :: _ => (s, Fail)
  | Some answers :: polls =>
      match serve_all (zip (poll_fds pump_stdin) answers) s with
      | (s, Continue) => poll_loop pump_stdin polls s
      | r => r
      end
  end.

(** [pump_tty_impl]; [setup]: whether the signal descriptor and the pipe were made. *)
Definition pump_tty_impl (setup pump_stdin : bool) (polls : list (option (list Answer))) (s : Tty) : Tty * Flow :=
  if setup then poll_loop pump_stdin polls s else (s, Fail).

(** * The attributes of the terminal *)

Record Termios := mkTermios { input_flags : Z; output_flags : Z; control_flags : Z; local_flags : Z; control_chars : list Z }.

#[export] Instance Termios_eq_dec : EqDecision Termios.
Proof. solve_decision. Defined.

Section Terminal.
Context (cfmakeraw : Termios -> Termios).

Definition with_output (f : Z) (t : Termios) : Termios :=
  mkTermios (input_flags t) f (control_flags t) (local_flags t) (control_chars t).

(** [tcsetattr] with TCSAFLUSH, and with TCSADRAIN if that fails. *)
Definition set_attr (flush_ok drain_ok : bool) (new cur : Termios) : Termios * bool :=
  if flush_ok || drain_ok then (new, true) else (cur, false).

(** TCSAFLUSH discards what has been typed and not been read, the first [n] bytes. *)
Definition discard (n : nat) (s : Tty) : Tty := mkTty (use_splice s) (pipe s) (drop n (stdin s)) (ptmx_in s) (ptmx_out s) (stdout s).
Definition flushed (pump_stdin is_tty flush_ok : bool) (n : nat) : nat := if pump_stdin && is_tty && flush_ok then n else 0.

(** [set_stdin_raw]: the attributes and those to restore. *)
Definition set_stdin_raw (is_tty flush_ok drain_ok : bool) (cur : Termios) : Termios * option Termios :=
  if negb is_tty then (cur, None) else
  let '(cur', ok) := set_attr flush_ok drain_ok (with_output (output_flags cur) (cfmakeraw cur)) cur in
  (cur', if ok : bool then Some cur else None).

Definition restore_stdin (flush_ok drain_ok : bool) (old cur : Termios) : Termios := (set_attr flush_ok drain_ok old cur).1.

(** [pump_tty]: the streams, the attributes while the loop runs, and those at the end.
    [typed]: how much input is waiting when the attributes are set and restored. *)
Definition pump_tty (pump_stdin is_tty : bool) (set_ok restore_ok : bool * bool) (setup : bool) (typed : nat * nat)
    (polls : list (option (list Answer))) (s : Tty) (cur : Termios) : Tty * Termios * Termios :=
  let '(raw, old_term) := if pump_stdin then set_stdin_raw is_tty set_ok.1 set_ok.2 cur else (cur, None) in
  let s := discard (flushed pump_stdin is_tty set_ok.1 typed.1) s in
  let s := (pump_tty_impl setup pump_stdin polls s).1 in
  match old_term with
  | Some term => (discard (if restore_ok.1 then typed.2 else 0) s, raw, restore_stdin restore_ok.1 restore_ok.2 term raw)
  | None => (s, raw, raw)
  end.
End Terminal.

(** * No byte is lost *)

(** What the calls of the kernel have to keep to: a successful splice out of the pipe
    moves all it was asked to, and one that fails was asked for no more than the buffer of
    the copy that replaces it holds, which a read returns as a whole. *)
Definition lossless (k : Kernel) : Prop :=
  match splice_in k, splice_out k with
  | Some n, Some m => (Nat.min n SPLICE_LEN <= m)%nat
  | Some n, None => (n <= BUF_LEN)%nat /\ (exists r, read_len k = Some r /\ (n <= r)%nat)
  | None, _ => True
  end.

#[export] Instance lossless_dec k : Decision (lossless k).
Proof.
  unfold lossless. destruct (splice_in k) as [n|], (splice_out k) as [m|]; try apply _.
  destruct (read_len k) as [r|].
  - destruct (decide ((n <= BUF_LEN)%nat /\ (n <= r)%nat)) as [[? ?] | Hn]; [left; eauto |]. right. intros [? (? & [= <-] & ?)]. auto.
  - right. by intros [_ (? & [=] & _)].
Defined.

Lemma write_all_spec k data dst :
  exists lost, (write_all k data dst).1 ++ lost = dst ++ data /\ ((write_all k data dst).2 = true -> lost = []).
Proof.
  unfold write_all. destruct (write_stops k) as [n|]; cbn [fst snd].
  - exists (drop n data). rewrite <- app_assoc, take_drop. done.
  - exists []. by rewrite app_nil_r.
Qed.

Lemma copy_spec k src dst :
  let '(src', dst', ok) := pump_via_copy k src dst in
  exists lost, dst' ++ lost ++ src' = dst ++ src /\ (ok = true -> lost = []).
Proof.
  unfold pump_via_copy. destruct (read_len k) as [n|]; [| by exists []].
  destruct (write_all_spec k (take (Nat.min n BUF_LEN) src) dst) as (lost & H1 & H2). destruct (write_all _ _ _) as [dst' ok]. cbn [fst snd] in *.
  exists lost. split; [| done]. rewrite app_assoc, H1, <- app_assoc, take_drop. done.
Qed.

Lemma splice_spec k use src dst :
  (use = true -> lossless k) ->
  let '(_, pipe', src', dst', ok) := pump_via_splice k use [] src dst in
  pipe' = [] /\ exists lost, dst' ++ lost ++ src' = dst ++ src /\ (ok = true -> lost = []).
Proof.
  intros Hk. unfold pump_via_splice. destruct use; cbn [negb].
  2: { pose proof (copy_spec k src dst) as H. destruct (pump_via_copy k src dst) as [[src' dst'] ok]. done. }
  specialize (Hk eq_refl). unfold lossless in Hk. destruct (splice_in k) as [n|].
  2: { pose proof (copy_spec k src dst) as H. destruct (pump_via_copy k src dst) as [[src' dst'] ok]. done. }
  set (len := length (take (Nat.min n SPLICE_LEN) src)). destruct (Nat.eqb_spec len 0) as [E | E].
  - rewrite E. split; [done |]. by exists [].
  - cbn [app]. assert (length (take len src) = len) as Hlen by (unfold len; rewrite !length_take; lia).
    destruct (splice_out k) as [m|].
    + rewrite Nat.min_r by (unfold len in *; rewrite length_take in *; lia). rewrite <- Hlen at 1. rewrite drop_all. split; [done |]. exists []. split; [| done].
      rewrite take_take, Nat.min_id. cbn [app]. by rewrite <- app_assoc, take_drop.
    + destruct Hk as [Hn (r & Hr & Hnr)].
      assert (drop (Nat.min r BUF_LEN) (take len src) = []) as Hd by (apply drop_ge; unfold len in *; rewrite !length_take in *; lia).
      pose proof (copy_spec k (take len src) dst) as H. unfold pump_via_copy in *. rewrite Hr in *. destruct (write_all _ _ _) as [dst' ok]. rewrite Hd in *.
      split; [done |]. destruct H as (lost & H1 & H2). exists lost. split; [| done]. rewrite app_nil_r in H1. by rewrite app_assoc, H1, <- app_assoc, take_drop.
Qed.

(** From [s] to [s'] the bytes that were read are written, in their order; [lost]: they
    may be lost, in a write that failed. *)
Definition conserved (may_lose : bool) (s s' : Tty) : Prop :=
  pipe s' = [] /\
  (exists lost, ptmx_in s' ++ lost ++ stdin s' = ptmx_in s ++ stdin s /\ (may_lose = false -> lost = [])) /\
  (exists lost, stdout s' ++ lost ++ ptmx_out s' = stdout s ++ ptmx_out s /\ (may_lose = false -> lost = [])).

Lemma conserved_refl b s : pipe s = [] -> conserved b s s.
Proof. intros H. split_and!; [done | exists []; done..]. Qed.

Lemma conserved_trans b s1 s2 s3 : conserved false s1 s2 -> conserved b s2 s3 -> conserved b s1 s3.
Proof.
  intros (_ & (l1 & A1 & A2) & (k1 & B1 & B2)) (P & (l2 & C1 & C2) & (k2 & D1 & D2)).
  rewrite A2 in A1 by done. rewrite B2 in B1 by done. cbn [app] in *. split_and!; [done | exists l2 | exists k2]; split; congruence || done.
Qed.

Definition fails (f : Flow) : bool := match f with Fail => true | _ => false end.

Lemma serve_spec fd a s :
  pipe s = [] -> (all_ a = true -> use_splice s = true -> lossless (kernel a)) -> conserved (fails (serve fd a s).2) s (serve fd a s).1.
Proof.
  intros Hp Hk. unfold serve. destruct (all_ a); [| by destruct (stops a); apply conserved_refl]. specialize (Hk eq_refl).
  destruct fd; [| by apply conserved_refl |].
  - pose proof (splice_spec (kernel a) (use_splice s) (ptmx_out s) (stdout s) Hk) as H. rewrite Hp. destruct (pump_via_splice _ _ _ _ _) as [[[[use p] src] dst] ok].
    destruct H as [-> (lost & H1 & H2)]. unfold conserved. cbn [fst snd pipe ptmx_in stdin stdout ptmx_out]. split_and!; [done | exists []; done |].
    exists lost. split; [done |]. destruct ok; done || auto.
  - pose proof (splice_spec (kernel a) (use_splice s) (stdin s) (ptmx_in s) Hk) as H. rewrite Hp. destruct (pump_via_splice _ _ _ _ _) as [[[[use p] src] dst] ok].
    destruct H as [-> (lost & H1 & H2)]. unfold conserved. cbn [fst snd pipe ptmx_in stdin stdout ptmx_out]. split_and!; [done | | exists []; done].
    exists lost. split; [done |]. destruct ok; done || auto.
Qed.

Lemma discard_0 s : discard 0 s = s.
Proof. by destruct s. Qed.

Definition answers_ok (l : list Answer) : Prop := Forall (fun a => all_ a = true -> lossless (kernel a)) l.

Lemma serve_all_spec fds l s :
  pipe s = [] -> answers_ok l -> conserved (fails (serve_all (zip fds l) s).2) s (serve_all (zip fds l) s).1.
Proof.
  revert l s. induction fds as [|fd fds IH]; intros [|a l] s Hp Hl; cbn [zip zip_with serve_all fst snd]; try by apply conserved_refl.
  apply Forall_cons in Hl as [Ha Hl]. pose proof (serve_spec fd a s Hp ltac:(auto)) as H. destruct (serve fd a s) as [s1 []]; cbn [fst snd fails] in *; try done.
  eapply conserved_trans; [exact H |]. apply IH; [apply H | done].
Qed.

Lemma pump_conserved setup pump_stdin polls s :
  pipe s = [] -> (forall l, Some l ∈ polls -> answers_ok l) ->
  conserved (fails (pump_tty_impl setup pump_stdin polls s).2) s (pump_tty_impl setup pump_stdin polls s).1.
Proof.
  intros Hp Hpolls. unfold pump_tty_impl. destruct setup; [| by apply conserved_refl]. revert s Hp.
  induction polls as [|[l|] polls IH]; intros s Hp; cbn [poll_loop]; try by apply conserved_refl.
  pose proof (serve_all_spec (poll_fds pump_stdin) l s Hp (Hpolls l ltac:(set_solver))) as H. destruct (serve_all _ s) as [s1 []]; cbn [fst snd fails] in *; try done.
  eapply conserved_trans; [exact H |]. apply IH; [set_solver | apply H].
Qed.

(** C26: whatever the order in which poll reports the terminal, the shell and the signals,
    every byte that is read from one side is written to the other, in order, and nothing
    stays in the pipe, as long as the kernel moves the bytes it was asked to move out of
    the pipe.  A loop that ends with an error has lost at most what a write that failed did
    not write; besides that, only what is typed and not read when the attributes of the
    terminal are set, and when they are restored, is discarded, as TCSAFLUSH does.  And the
    attributes of the terminal are at the end what they were, while in between those of its
    output are kept. *)
Theorem pump_tty_lossless cfmakeraw pump_stdin is_tty set_ok restore_ok setup typed polls s cur :
  pipe s = [] -> (forall l, Some l ∈ polls -> answers_ok l) -> restore_ok.1 || restore_ok.2 = true ->
  let s0 := discard (flushed pump_stdin is_tty set_ok.1 typed.1) s in
  let n := flushed pump_stdin is_tty ((set_ok.1 || set_ok.2) && restore_ok.1) typed.2 in
  let r := pump_tty cfmakeraw pump_stdin is_tty set_ok restore_ok setup typed polls s cur in
  (exists s1, conserved (fails (pump_tty_impl setup pump_stdin polls s0).2) s0 s1 /\ r.1.1 = discard n s1) /\
  output_flags r.1.2 = output_flags cur /\ r.2 = cur.
Proof.
  intros Hp Hpolls Hr. cbv zeta. pose proof (pump_conserved setup pump_stdin polls (discard (flushed pump_stdin is_tty set_ok.1 typed.1) s) Hp Hpolls) as Hc.
  unfold pump_tty, set_stdin_raw, restore_stdin, set_attr. rewrite Hr.
  split; [eexists; split; [exact Hc |] |].
  - unfold flushed. destruct pump_stdin, is_tty, (set_ok.1 || set_ok.2), restore_ok.1; cbn [negb fst snd andb]; by rewrite ?discard_0.
  - destruct pump_stdin, is_tty, (set_ok.1 || set_ok.2); cbn [negb fst snd]; done.
Qed.

Definition demo_tty : Tty := mkTty true [] #"id" [] #"uid=0" [].
Definition ready (k : Kernel) : Answer := mkAnswer (Some (mkFlags true false false false)) k true.
Definition idle : Answer := mkAnswer (Some (mkFlags false false false false)) (mkKernel None None None None) true.
Definition hung_up : Answer := mkAnswer (Some (mkFlags false false true false)) (mkKernel None None None None) true.
Definition demo_polls : list (option (list Answer)) :=
  [Some [idle; idle; ready (mkKernel (Some 1%nat) (Some 1%nat) None None)];
   Some [ready (mkKernel (Some 3%nat) None (Some 10%nat) None); idle; ready (mkKernel None None (Some 1%nat) None)];
   Some [ready (mkKernel None None (Some 9%nat) None); idle; idle]; Some [hung_up; idle; idle]].

Lemma pump_tty_lossless_witness :
  (pump_tty_impl true true demo_polls demo_tty) = (mkTty false [] [] #"id" [] #"uid=0", Break) /\
  let s := mkTty true [] #"xid" [] #"uid=0" [] in
  exists s1, conserved false demo_tty s1 /\
    (pump_tty (fun t => mkTermios 0 0 0 0 []) true true (true, true) (true, true) true (1%nat, 0%nat) demo_polls s (mkTermios 1 2 3 4 [])).1.1 = discard 0 s1.
Proof.
  split; [vm_compute; reflexivity |]. cbv zeta.
  pose proof (pump_tty_lossless (fun t => mkTermios 0 0 0 0 []) true true (true, true) (true, true) true (1%nat, 0%nat) demo_polls
    (mkTty true [] #"xid" [] #"uid=0" []) (mkTermios 1 2 3 4 []) eq_refl) as H.
  apply H; [| reflexivity]. intros l Hl. unfold demo_polls in Hl. rewrite !elem_of_cons, elem_of_nil in Hl.
  destruct Hl as [[= ->] | [[= ->] | [[= ->] | [[= ->] | []]]]]; unfold answers_ok; repeat (apply Forall_cons; split); try apply Forall_nil_2;
    intros Hall; vm_compute in Hall; try discriminate Hall; apply (bool_decide_eq_true (lossless _)); vm_compute; reflexivity.
Defined.

(** * Where bytes are lost *)

(** Once the loop has given up splicing, what is in the pipe stays there. *)
Theorem pipe_abandoned pump_stdin polls s :
  use_splice s = false -> let s' := (poll_loop pump_stdin polls s).1 in use_splice s' = false /\ pipe s' = pipe s.
Proof.
  assert (forall fd a s0, use_splice s0 = false -> use_splice (serve fd a s0).1 = false /\ pipe (serve fd a s0).1 = pipe s0) as Hserve.
  { intros fd a s0 H. unfold serve, pump_via_splice. rewrite H. cbn [negb].
    destruct (all_ a); [| by destruct (stops a)]. destruct fd; [| done |]; by destruct (pump_via_copy _ _ _) as [[src dst] ok]. }
  assert (forall fds s0, use_splice s0 = false -> use_splice (serve_all fds s0).1 = false /\ pipe (serve_all fds s0).1 = pipe s0) as Hall.
  { induction fds as [|[fd a] fds IH]; intros s0 H; [done |]. cbn [serve_all]. specialize (Hserve fd a s0 H). destruct (serve fd a s0) as [s1 []]; cbn [fst] in *; try done.
    destruct Hserve as [H1 <-]. by apply IH. }
  revert s. induction polls as [|[l|] polls IH]; intros s H; cbn [poll_loop]; try done.
  specialize (Hall (zip (poll_fds pump_stdin) l) s H). destruct (serve_all _ s) as [s1 []]; cbn [fst] in *; try done. destruct Hall as [H1 <-]. by apply IH.
Qed.

(** A splice to the terminal that fails after more than 4096 bytes were moved into the
    pipe: the copy that replaces it takes 4096 bytes out of the pipe, and the rest of the
    output of the shell is never shown. *)
Theorem failed_splice_loses_output pump_stdin polls n :
  4096 < Z.of_nat n <= 65536 ->
  let s := mkTty true [] [] [] (replicate n "x"%char) [] in
  let '(s1, f) := serve Ptmx (ready (mkKernel (Some n) None (Some n) None)) s in
  f = Continue /\ stdout s1 = replicate (Z.to_nat 4096) "x"%char /\ ptmx_out s1 = [] /\ pipe (poll_loop pump_stdin polls s1).1 = replicate (n - Z.to_nat 4096) "x"%char.
Proof.
  intros Hn. cbv zeta. destruct (serve Ptmx _ _) as [s1 f] eqn:E. revert E. unfold serve, ready, all_. cbn [revents POLLIN kernel use_splice pipe ptmx_out stdout stdin ptmx_in].
  unfold pump_via_splice. cbn [negb splice_in splice_out app]. assert (length (take (Nat.min n SPLICE_LEN) (replicate n "x"%char)) = n) as ->.
  { rewrite length_take, length_replicate. assert (SPLICE_LEN = Z.to_nat 65536) by done. lia. }
  destruct (Nat.eqb_spec n 0); [lia |]. rewrite take_ge by (rewrite length_replicate; lia). rewrite drop_ge by (rewrite length_replicate; lia).
  unfold pump_via_copy, write_all, BUF_LEN. cbn [read_len write_stops]. rewrite Nat.min_r by lia. rewrite take_replicate, drop_replicate, Nat.min_l by lia.
  intros [= <- <-]. cbn [stdout ptmx_out]. split_and!; try done. apply pipe_abandoned. done.
Qed.

(** The pipe is shared by the two directions: bytes that a short splice left in it are
    written to the wrong side.  Here what was typed is shown as output of the shell. *)
Theorem short_splice_crosses :
  let typed := ready (mkKernel (Some 6%nat) (Some 2%nat) None None) in
  let output := ready (mkKernel (Some 6%nat) (Some 6%nat) None None) in
  (poll_loop true [Some [idle; idle; typed]; Some [output; idle; idle]] (mkTty true [] #"secret" [] #"prompt" [])).1 =
  mkTty true #"ompt" [] #"se" [] #"cretpr".
Proof. vm_compute. reflexivity. Qed.
End Pts.
