(* ===== verification/Socket.v ===== *)
(** core/socket.rs: the wire format of the messages between the daemon and its clients,
    and the derived codec of [SuRequest] (base/derive/decodable.rs, core/lib.rs).

    A reader is the bytes the peer sends until it closes the socket.  Memory is taken
    to suffice for the lengths that fit a vector; a capacity that does not aborts. *)

From S2P Require Import Prelude Text Numeric Files Su.

Module Socket.
Import Files Su.

(** [Encodable] and [Decodable] of a type. *)
Record Codec (A : Type) := mkCodec {
  encode : A -> bytes;
  decode : bytes -> io (A * bytes) }.
Arguments mkCodec {A}.
Arguments encode {A}.
Arguments decode {A}.

(** [read_exact] of [n] bytes of a stream. *)
Definition read_n (n : nat) (s : bytes) : io (bytes * bytes) :=
  if (n <=? length s)%nat then Ok (take n s, drop n s) else Err UnexpectedEof.

(** [impl_pod_encodable!]: the bytes of the value in memory, little endian. *)
Definition pod (n : nat) (of_bits : Z -> Z) : Codec Z :=
  mkCodec (to_le n) (fun s => '(b, s) ← read_n n s; Ok (of_bits (of_le b), s)).

Definition c_u8 : Codec Z := pod 1 (fun z => z).
Definition c_u32 : Codec Z := pod 4 (fun z => z).
Definition c_i32 : Codec Z := pod 4 (swrap 32).
Definition c_usize : Codec Z := pod 8 (fun z => z).

Definition c_bool : Codec bool :=
  mkCodec (fun b => encode c_u8 (if (b : bool) then 1 else 0))
    (fun s => '(v, s) ← decode c_u8 s; Ok (negb (v =? 0), s)).

(** [Vec::with_capacity(len as usize)] aborts when the capacity overflows, which the
    cast of a negative length does. *)
Definition with_capacity {A} (len : Z) (k : io A) : io A := if len <? 0 then Panic else k.

Fixpoint decode_n {A} (c : Codec A) (n : nat) (s : bytes) : io (list A * bytes) :=
  match n with
  | O => Ok ([], s)
  | S n =>
      '(a, s) ← decode c s;
      '(l, s) ← decode_n c n s;
      Ok (a :: l, s)
  end.

Definition c_vec {A} (c : Codec A) : Codec (list A) :=
  mkCodec (fun l => encode c_i32 (zlen l) ++ concat (map (encode c) l))
    (fun s =>
       '(len, s) ← decode c_i32 s;
       with_capacity len (decode_n c (Z.to_nat len) s)).

(** [take(len).read_to_string]: a stream that ends early gives a shorter string. *)
Definition c_string : Codec bytes :=
  mkCodec (fun t => encode c_i32 (zlen t) ++ t)
    (fun s =>
       '(len, s) ← decode c_i32 s;
       with_capacity len
         (let t := take (Z.to_nat len) s in
          if utf8_valid t then Ok (t, drop (Z.to_nat len) s)
          else Err (InvalidData #"stream did not contain valid UTF-8"))).

(** The code [derive(Decodable)] generates: the fields in order. *)
Definition c_SuRequest : Codec SuRequest :=
  mkCodec
    (fun r => encode c_i32 (target_uid r) ++ encode c_i32 (target_pid r) ++
       encode c_bool (login r) ++ encode c_bool (keep_env r) ++ encode c_bool (drop_cap r) ++
       encode c_string (shell r) ++ encode c_string (command r) ++ encode c_string (context r) ++
       encode (c_vec c_u32) (gids r))
    (fun s =>
       '(target_uid, s) ← decode c_i32 s; '(target_pid, s) ← decode c_i32 s;
       '(login, s) ← decode c_bool s; '(keep_env, s) ← decode c_bool s; '(drop_cap, s) ← decode c_bool s;
       '(shell, s) ← decode c_string s; '(command, s) ← decode c_string s; '(context, s) ← decode c_string s;
       '(gids, s) ← decode (c_vec c_u32) s;
       Ok (mkSuRequest target_uid target_pid login keep_env drop_cap shell command context gids, s)).

(** * Round trips *)

(** What one end promises the other: a value is read back, and the rest of the stream
    is left alone. *)
Class CodecLaw {A} (c : Codec A) (wf : A -> Prop) :=
  roundtrip a rest : wf a -> decode c (encode c a ++ rest) = Ok (a, rest).

Lemma read_n_app n b rest : length b = n -> read_n n (b ++ rest) = Ok (b, rest).
Proof.
  intros <-. unfold read_n. rewrite length_app, (proj2 (Nat.leb_le _ _)) by lia.
  by rewrite take_app_length, drop_app_length.
Qed.

Lemma pod_law n of_bits (wf : Z -> Prop) :
  (forall z, wf z -> of_bits (z mod 256 ^ Z.of_nat n) = z) -> CodecLaw (pod n of_bits) wf.
Proof.
  intros H a rest Ha. cbn [pod encode decode]. rewrite read_n_app by apply to_le_length.
  cbn [mbind res_bind]. by rewrite of_to_le, H.
Qed.

Definition is_u (w : Z) (z : Z) : Prop := 0 <= z < 2 ^ w.
Definition is_i32 (z : Z) : Prop := - 2 ^ 31 <= z < 2 ^ 31.

#[export] Instance c_u8_law : CodecLaw c_u8 (is_u 8).
Proof. apply pod_law. intros z Hz. by apply Z.mod_small. Qed.
#[export] Instance c_u32_law : CodecLaw c_u32 (is_u 32).
Proof. apply pod_law. intros z Hz. by apply Z.mod_small. Qed.
#[export] Instance c_usize_law : CodecLaw c_usize (is_u 64).
Proof. apply pod_law. intros z Hz. by apply Z.mod_small. Qed.
#[export] Instance c_i32_law : CodecLaw c_i32 is_i32.
Proof.
  apply pod_law. intros z Hz. unfold is_i32, swrap in *. change (256 ^ Z.of_nat 4) with (2 ^ 32).
  rewrite Z.add_mod_idemp_l by lia. rewrite Z.mod_small; lia.
Qed.

#[export] Instance c_bool_law : CodecLaw c_bool (fun _ => True).
Proof.
  intros b rest _. cbn [c_bool encode decode]. rewrite (roundtrip (c := c_u8)) by (destruct b; unfold is_u; lia).
  by destruct b.
Qed.

Definition short {A} (l : list A) : Prop := zlen l < 2 ^ 31.

Lemma length_i32 {A} (l : list A) : short l -> is_i32 (zlen l).
Proof. unfold short, is_i32. lia. Qed.

#[export] Instance c_string_law : CodecLaw c_string (fun t => short t /\ utf8_valid t = true).
Proof.
  intros t rest [Hs Hu]. cbn [c_string encode decode]. rewrite <- app_assoc, roundtrip by by apply length_i32.
  cbn [mbind res_bind]. unfold with_capacity. rewrite (proj2 (Z.ltb_ge _ _)) by lia.
  rewrite Nat2Z.id, take_app_length, drop_app_length. by rewrite Hu.
Qed.

Lemma decode_n_law {A} (c : Codec A) wf `{!CodecLaw c wf} l rest :
  Forall wf l -> decode_n c (length l) (concat (map (encode c) l) ++ rest) = Ok (l, rest).
Proof.
  induction 1 as [|a l Ha Hl IH]; [done |]. cbn [length decode_n map concat]. rewrite <- app_assoc, roundtrip by done.
  cbn [mbind res_bind]. by rewrite IH.
Qed.

#[export] Instance c_vec_law {A} (c : Codec A) wf `{!CodecLaw c wf} : CodecLaw (c_vec c) (fun l => short l /\ Forall wf l).
Proof.
  intros l rest [Hs Hf]. cbn [c_vec encode decode]. rewrite <- app_assoc, roundtrip by by apply length_i32.
  cbn [mbind res_bind]. unfold with_capacity. rewrite (proj2 (Z.ltb_ge _ _)) by lia.
  rewrite Nat2Z.id. by eapply decode_n_law.
Qed.

Definition SuRequest_wf (r : SuRequest) : Prop :=
  is_i32 (target_uid r) /\ is_i32 (target_pid r) /\
  Forall (fun t => short t /\ utf8_valid t = true) [shell r; command r; context r] /\
  short (gids r) /\ Forall (is_u 32) (gids r).

(** C19: a su request that a client writes is the request the daemon reads, and what
    follows it on the socket is untouched: every string is UTF-8 and every length fits
    the 32-bit length field. *)
Theorem SuRequest_roundtrip r rest :
  SuRequest_wf r -> decode c_SuRequest (encode c_SuRequest r ++ rest) = Ok (r, rest).
Proof.
  intros (Hu & Hp & Hs & Hg & Hgs). rewrite !Forall_cons in Hs. destruct Hs as (Hs & Hc & Hx & _).
  destruct r as [uid pid lg ke dc sh cmd ctx gs]. cbn [c_SuRequest encode decode] in *. cbn [target_uid target_pid login
    keep_env drop_cap shell command context gids] in *. rewrite <- !app_assoc.
  repeat (rewrite roundtrip by done; cbn [mbind res_bind]). done.
Qed.

Definition demo_request : SuRequest :=
  mkSuRequest 0 (-1) true false false #"/system/bin/sh" #"id" #"u:r:magisk:s0" [1000; 3003].

Lemma SuRequest_roundtrip_witness :
  decode c_SuRequest (encode c_SuRequest demo_request ++ #"rest") = Ok (demo_request, #"rest").
Proof.
  apply SuRequest_roundtrip. unfold SuRequest_wf, short, is_i32, is_u. rewrite !Forall_cons.
  split_and!; cbn [demo_request target_uid target_pid shell command context gids length]; try apply List.Forall_nil.
  12: { repeat (apply List.Forall_cons; [lia |]). apply List.Forall_nil. }
  all: try (vm_compute; reflexivity); vm_compute; discriminate.
Defined.

(** A length field that is negative aborts the process that reads it. *)
Theorem negative_length_aborts {A} (c : Codec A) n rest :
  - 2 ^ 31 <= n < 0 ->
  decode c_string (encode c_i32 n ++ rest) = Panic /\ decode (c_vec c) (encode c_i32 n ++ rest) = Panic.
Proof.
  intros Hn. assert (is_i32 n) by (unfold is_i32; lia). cbn [c_string c_vec decode].
  rewrite roundtrip by done. cbn [mbind res_bind]. unfold with_capacity. by rewrite (proj2 (Z.ltb_lt n 0)) by lia.
Qed.
End Socket.
