(* ===== verification/FdPass.v ===== *)
(** core/socket.rs: file descriptors over the sockets of the daemon, as ancillary data.

    A descriptor stands for the open file, which the receiver gets under a number of its own.
    The socket is the queue of what was sent and not received yet, the sender having closed
    its end; the bytes of a call and its descriptors stay together. *)

From S2P Require Import Prelude Text Numeric.

Module FdPass.

Record Message := mkMessage { data : bytes; fds : list Z }.
Abbreviation Queue := (list Message).
Abbreviation io := (res unit).

(** [recvmsg] with room for [n] bytes: it goes on to the next message as long as there is room
    and no descriptor was received. *)
Fixpoint recvmsg (n : nat) (q : Queue) : bytes * list Z * Queue :=
  match q with
  | [] => ([], [], [])
  | m :: q =>
      if (n <? length (data m))%nat then (take n (data m), fds m, mkMessage (drop n (data m)) [] :: q)
      else if (n =? length (data m))%nat || negb (is_empty (fds m)) then (data m, fds m, q)
      else let '(b, f, q) := recvmsg (n - length (data m)) q in (data m ++ b, f, q)
  end.

(** [peek]: no ancillary data, and nothing is consumed. *)
Definition peek (n : nat) (q : Queue) : bytes := (recvmsg n q).1.1.

(** [read_exact]: descriptors on the way are closed. *)
Fixpoint read_exact (fuel n : nat) (q : Queue) : Queue * io bytes * list Z :=
  match n, fuel with
  | O, _ => (q, Ok [], [])
  | _, O => (q, Err tt, [])
  | _, S fuel =>
      let '(b, f, q) := recvmsg n q in
      if is_empty b then (q, Err tt, f) else
      let '(q, r, closed) := read_exact fuel (n - length b) q in
      (q, b' ← r; Ok (b ++ b'), f ++ closed)
  end.

(** [read_pod] and [write_pod] of an [i32]; every read of the loop gets a byte. *)
Definition read_i32 (q : Queue) : Queue * io Z * list Z :=
  let '(q, r, closed) := read_exact 4 4 q in (q, b ← r; Ok (swrap 32 (of_le b)), closed).
Definition write_i32 (z : Z) (q : Queue) : Queue := q ++ [mkMessage (to_le 4 z) [] ].

(** [SocketAncillary::add_fds] into 4096 bytes: a header of 16 bytes and the descriptors,
    rounded up to eight bytes.  The kernel refuses more than 253 of them. *)
Definition add_fds (l : list Z) : bool := 16 + (4 * zlen l + 7) / 8 * 8 <=? 4096.
Definition SCM_MAX_FD : Z := 253.

Definition send_fds (l : list Z) (q : Queue) : Queue * io unit :=
  match l with
  | [] => (write_i32 0 q, Ok tt)
  | _ =>
      if negb (add_fds l) then (q, Err tt) else
      let fd_count := swrap 32 (zlen l) in
      if SCM_MAX_FD <? zlen l then (q, Err tt) else (q ++ [mkMessage (to_le 4 fd_count) l], Ok tt)
  end.

(** The integer that the four bytes of a buffer hold after [b] was received into it. *)
Definition received (fd_count : Z) (b : bytes) : Z := swrap 32 (of_le (b ++ drop (length b) (to_le 4 fd_count))).

(** The descriptor, and those that were closed. *)
Definition recv_fd (q : Queue) : Queue * io (option Z) * list Z :=
  let fd_count := received 0 (peek 4 q) in
  if fd_count <? 1 then
    let '(q, r, closed) := read_i32 q in (q, _ ← r; Ok None, closed)
  else
    let '(_, f, q) := recvmsg 4 q in
    match f with
    | fd :: rest => (q, Ok (Some fd), rest)
    | [] => (q, Ok None, [])
    end.

Definition recv_fds (q : Queue) : Queue * io (list Z) := let '(_, f, q) := recvmsg 4 q in (q, Ok f).

(** The functions for C++: -1 stands for no descriptor and for an error. *)
Definition send_fd (fd : Z) (q : Queue) : Queue * bool :=
  let '(q, r) := send_fds (if fd <? 0 then [] else [fd]) q in (q, match r with Ok _ => true | _ => false end).
Definition recv_fd_for_cxx (q : Queue) : Queue * Z :=
  let '(q, r, _) := recv_fd q in (q, match r with Ok (Some fd) => fd | _ => -1 end).
Definition recv_fds_for_cxx (q : Queue) : Queue * list Z :=
  let '(q, r) := recv_fds q in (q, match r with Ok l => l | _ => [] end).

(** * Lemmas *)

Lemma recvmsg_whole n b f q : length b = n -> recvmsg n (mkMessage b f :: q) = (b, f, q).
Proof. intros <-. cbn [recvmsg data fds]. by rewrite Nat.ltb_irrefl, Nat.eqb_refl. Qed.

Lemma read_i32_whole z f q : read_i32 (mkMessage (to_le 4 z) f :: q) = (q, Ok (swrap 32 (of_le (to_le 4 z))), f).
Proof. unfold read_i32. cbn [read_exact]. rewrite recvmsg_whole by apply to_le_length. cbn. by rewrite app_nil_r. Qed.

(** What [send_fds] puts into the queue. *)
Lemma send_fds_Ok l q : zlen l <= SCM_MAX_FD -> send_fds l q = (q ++ [mkMessage (to_le 4 (zlen l)) l], Ok tt).
Proof.
  intros Hl. unfold SCM_MAX_FD in Hl. destruct l as [|fd l]; [done |]. unfold send_fds, add_fds.
  rewrite (proj2 (Z.leb_le _ _)).
  2:{ assert ((4 * zlen (fd :: l) + 7) / 8 < 128) by (apply Z.div_lt_upper_bound; lia). lia. }
  cbn [negb]. rewrite (proj2 (Z.ltb_ge _ _)) by (unfold SCM_MAX_FD; lia). rewrite swrap_small by lia. done.
Qed.

Lemma received_whole z : 0 <= z < 2 ^ 31 -> received 0 (to_le 4 z) = z.
Proof.
  intros Hz. unfold received. rewrite drop_ge by (by rewrite !to_le_length). rewrite app_nil_r, of_to_le.
  change (256 ^ Z.of_nat 4) with (2 ^ 32). rewrite Z.mod_small by lia. by apply swrap_small; lia.
Qed.

(** What one end sends and the other receives. *)
Inductive Transfer := Fds (l : list Z) | Fd (l : list Z).

Definition sent (t : Transfer) : list Z := match t with Fds l | Fd l => l end.

Fixpoint send_all (ts : list Transfer) (q : Queue) : Queue :=
  match ts with [] => q | t :: ts => send_all ts (send_fds (sent t) q).1 end.

(** Received by [recv_fds] or [recv_fd], and what is closed at once. *)
Fixpoint recv_all (ts : list Transfer) (q : Queue) : Queue * list (list Z * list Z) :=
  match ts with
  | [] => (q, [])
  | Fds _ :: ts =>
      let '(q, r) := recv_fds q in
      let '(q, rs) := recv_all ts q in (q, (match r with Ok l => l | _ => [] end, []) :: rs)
  | Fd _ :: ts =>
      let '(q, r, closed) := recv_fd q in
      let '(q, rs) := recv_all ts q in (q, (match r with Ok (Some fd) => [fd] | _ => [] end, closed) :: rs)
  end.

Definition small (t : Transfer) : Prop := zlen (sent t) <= SCM_MAX_FD.
Definition message_of (t : Transfer) : Message := mkMessage (to_le 4 (zlen (sent t))) (sent t).

Lemma send_all_Ok ts q : Forall small ts -> send_all ts q = q ++ map message_of ts.
Proof.
  intros H. revert q. induction H as [|t ts Ht _ IH]; intros q; cbn [send_all map]; [by rewrite app_nil_r |].
  rewrite IH, send_fds_Ok by done. cbn. by rewrite <- app_assoc.
Qed.

Lemma recv_fd_message l q :
  zlen l <= SCM_MAX_FD -> recv_fd (mkMessage (to_le 4 (zlen l)) l :: q) = (q, Ok (head l), tail l).
Proof.
  intros Hl. unfold SCM_MAX_FD in Hl. unfold recv_fd, peek.
  rewrite recvmsg_whole by apply to_le_length. cbn [fst]. rewrite received_whole by lia.
  destruct l as [|fd l]; [by rewrite read_i32_whole |].
  rewrite (proj2 (Z.ltb_ge _ _)) by (rewrite zlen_cons; lia). done.
Qed.

(** Transfers are received in the order they were sent, each as it was sent: [recv_fds] gets
    all its descriptors, [recv_fd] the first one, and closes the others, so that none is lost
    without being closed. *)
Theorem transfers_received ts q :
  Forall small ts ->
  recv_all ts (send_all ts [] ++ q) =
    (q, map (fun t => match t with Fds l => (l, []) | Fd l => (take 1 l, tail l) end) ts).
Proof.
  intros H. rewrite send_all_Ok by done. cbn [app]. induction H as [|t ts Ht _ IH]; [done |].
  destruct t as [l|l]; cbn [map app recv_all]; unfold message_of in *; cbn [sent] in *.
  - unfold recv_fds. rewrite recvmsg_whole by apply to_le_length. by rewrite IH.
  - rewrite recv_fd_message by done. rewrite IH. by destruct l.
Qed.

Lemma transfers_received_witness :
  recv_all [Fds [5; 6]; Fd [7]; Fd []; Fd [8; 9]; Fds []] (send_all [Fds [5; 6]; Fd [7]; Fd []; Fd [8; 9]; Fds []] [] ++ [])
  = ([], [([5; 6], []); ([7], []); ([], []); ([8], [9]); ([], [])]).
Proof. apply (transfers_received [Fds [5; 6]; Fd [7]; Fd []; Fd [8; 9]; Fds []] []). repeat constructor; vm_compute; discriminate. Defined.

(** No descriptor of a transfer leaks: each is either handed to the caller or closed. *)
Corollary transfers_conserve ts :
  Forall small ts -> concat (map (fun r => r.1 ++ r.2) (recv_all ts (send_all ts [])).2) = concat (map sent ts).
Proof.
  intros H. rewrite <- (app_nil_r (send_all ts [])), transfers_received by done. cbn [snd]. rewrite map_map. f_equal.
  apply map_ext. intros [l|[|fd l]]; [by rewrite app_nil_r | done | done].
Qed.

(** Through the functions for C++, a descriptor arrives as it is and -1 as -1. *)
Theorem send_recv_fd fd q :
  -1 <= fd -> recv_fd_for_cxx ((send_fd fd []).1 ++ q) = (q, fd) /\ (send_fd fd []).2 = true.
Proof.
  intros Hfd. unfold send_fd, recv_fd_for_cxx. destruct (Z.ltb_spec fd 0).
  - replace fd with (-1) by lia. rewrite send_fds_Ok by done. cbn [fst snd app]. by rewrite recv_fd_message.
  - rewrite send_fds_Ok by done. cbn [fst snd app]. by rewrite recv_fd_message.
Qed.

Lemma send_recv_fd_witness : recv_fd_for_cxx ((send_fd 3 []).1 ++ []) = ([], 3).
Proof. apply (send_recv_fd 3 []). lia. Defined.

(** More descriptors than the kernel takes, or than the buffer holds, are refused and nothing
    is sent. *)
Theorem too_many_fds l q : SCM_MAX_FD < zlen l -> send_fds l q = (q, Err tt).
Proof.
  intros Hl. destruct l as [|fd l]; [done |]. unfold send_fds. destruct (add_fds _); [| done]. cbn [negb].
  by rewrite (proj2 (Z.ltb_lt _ _)).
Qed.

Lemma too_many_fds_witness : send_fds (replicate 254 5) [] = ([], Err tt).
Proof. apply too_many_fds. vm_compute. reflexivity. Defined.

End FdPass.
