(* ===== verification/DeriveCodec.v ===== *)
(** base/derive/decodable.rs: [#[derive(Decodable)]] for any struct.

    The macro generates a call for each field, in order; which codec a call means is decided
    by the type of the field ([resolve]).  The values of a struct are the tuples of the
    values of its fields. *)

From S2P Require Import Prelude Text Numeric Derive Files Su Socket.

Module DeriveCodec.
Import Derive Files Socket.

(** * Types with a codec *)

Inductive CTy := TU8 | TU32 | TI32 | TUsize | TBool | TString | TVec (t : CTy).

Fixpoint denote (t : CTy) : Type :=
  match t with TU8 | TU32 | TI32 | TUsize => Z | TBool => bool | TString => bytes | TVec t => list (denote t) end.

Fixpoint codec (t : CTy) : Codec (denote t) :=
  match t with
  | TU8 => c_u8 | TU32 => c_u32 | TI32 => c_i32 | TUsize => c_usize | TBool => c_bool | TString => c_string
  | TVec t => c_vec (codec t)
  end.

(** Numbers of their width, UTF-8, and lengths that fit the length field. *)
Fixpoint wf (t : CTy) : denote t -> Prop :=
  match t with
  | TU8 => is_u 8 | TU32 => is_u 32 | TI32 => is_i32 | TUsize => is_u 64 | TBool => fun _ => True
  | TString => fun s => short s /\ utf8_valid s = true
  | TVec t => fun l => short l /\ Forall (wf t) l
  end.

#[export] Instance codec_law t : CodecLaw (codec t) (wf t).
Proof. induction t; cbn [codec wf]; apply _. Qed.

(** The instance that the compiler finds for a type. *)
Fixpoint resolve (fuel : nat) (ty : Ty) : option CTy :=
  match fuel, ty with
  | S fuel, TyPath false [seg] =>
      match seg_args seg with
      | None =>
          if bool_decide (seg_ident seg = #"u8") then Some TU8 else if bool_decide (seg_ident seg = #"u32") then Some TU32
          else if bool_decide (seg_ident seg = #"i32") then Some TI32 else if bool_decide (seg_ident seg = #"usize") then Some TUsize
          else if bool_decide (seg_ident seg = #"bool") then Some TBool else if bool_decide (seg_ident seg = #"String") then Some TString
          else None
      | Some [GType t] => if bool_decide (seg_ident seg = #"Vec") then TVec <$> resolve fuel t else None
      | _ => None
      end
  | _, _ => None
  end.

(** * The generated methods *)

(** The calls, by the names of the fields, or [unimplemented!]. *)
Definition gen_fields (data : Data) : res unit (list SynField) :=
  match data with Struct (Named fs) => Ok fs | _ => Panic end.
Definition gen_encode (data : Data) : res unit (list bytes) := fs ← gen_fields data; Ok (map f_ident fs).
Definition gen_decode (data : Data) : res unit (list bytes) := fs ← gen_fields data; Ok (map f_ident fs).

(** The values of a struct. *)
Fixpoint record (ts : list CTy) : Type := match ts with [] => unit | t :: ts => denote t * record ts end.

(** [self.x.encode(w)?; ..] and [Self { x: Decodable::decode(r)?, .. }] *)
Fixpoint encode_fields (ts : list CTy) : record ts -> bytes :=
  match ts with
  | [] => fun _ => []
  | t :: ts => fun v => encode (codec t) v.1 ++ encode_fields ts v.2
  end.
Fixpoint decode_fields (ts : list CTy) : bytes -> io (record ts * bytes) :=
  match ts with
  | [] => fun s => Ok (tt, s)
  | t :: ts => fun s => '(a, s) ← decode (codec t) s; '(v, s) ← decode_fields ts s; Ok ((a, v), s)
  end.
Definition derive_decodable (ts : list CTy) : Codec (record ts) := mkCodec (encode_fields ts) (decode_fields ts).

(** The types of the fields of a declaration. *)
Definition field_types (data : Data) : option (list CTy) :=
  match gen_fields data with Ok fs => mapM (fun f => resolve 8 (f_ty f)) fs | _ => None end.

Fixpoint record_wf (ts : list CTy) : record ts -> Prop :=
  match ts with [] => fun _ => True | t :: ts => fun v => wf t v.1 /\ record_wf ts v.2 end.

(** * Theorems *)

(** The methods name the same fields in the same order, for named structs and nothing else. *)
Theorem same_order data :
  gen_encode data = gen_decode data /\ (gen_encode data <> Panic <-> exists fs, data = Struct (Named fs)).
Proof.
  split; [done |]. unfold gen_encode, gen_fields. destruct data as [[fs|fs|]|vs|]; cbn; split; try done; try (by intros (? & ?)). intros _. by exists fs.
Qed.

(** The derived codec of every struct reads back what it writes, and leaves the rest of the
    stream alone. *)
Theorem derived_roundtrip ts v rest :
  record_wf ts v -> decode (derive_decodable ts) (encode (derive_decodable ts) v ++ rest) = Ok (v, rest).
Proof.
  cbn [derive_decodable encode decode]. induction ts as [|t ts IH]; cbn [record_wf encode_fields decode_fields]; [by destruct v |].
  destruct v as [a v]. cbn [fst snd]. intros [Ha Hv]. rewrite <- app_assoc, roundtrip by done. cbn [mbind res_bind]. by rewrite IH.
Qed.

(** Different values are different on the wire, and none is the beginning of another. *)
Theorem derived_prefix_free ts v w rest :
  record_wf ts v -> record_wf ts w -> encode_fields ts w = encode_fields ts v ++ rest -> v = w /\ rest = [].
Proof.
  intros Hv Hw H. pose proof (derived_roundtrip ts v rest Hv) as H1. pose proof (derived_roundtrip ts w [] Hw) as H2.
  cbn [derive_decodable encode] in H1, H2. rewrite app_nil_r, H, H1 in H2. by injection H2 as -> ->.
Qed.

(** ** [SuRequest] (core/lib.rs) *)

Definition plain (name : bytes) : Ty := TyPath false [mkSeg name None].
Definition SuRequest_fields : list SynField :=
  [mkSynField #"target_uid" (plain #"i32") []; mkSynField #"target_pid" (plain #"i32") []; mkSynField #"login" (plain #"bool") [];
   mkSynField #"keep_env" (plain #"bool") []; mkSynField #"drop_cap" (plain #"bool") []; mkSynField #"shell" (plain #"String") [];
   mkSynField #"command" (plain #"String") []; mkSynField #"context" (plain #"String") [];
   mkSynField #"gids" (TyPath false [mkSeg #"Vec" (Some [GType (plain #"u32")])]) []].

Definition SuRequest_types : list CTy := [TI32; TI32; TBool; TBool; TBool; TString; TString; TString; TVec TU32].

Definition of_request (r : Su.SuRequest) : record SuRequest_types :=
  (Su.target_uid r, (Su.target_pid r, (Su.login r, (Su.keep_env r, (Su.drop_cap r, (Su.shell r, (Su.command r, (Su.context r, (Su.gids r, tt))))))))).
Definition to_request (v : record SuRequest_types) : Su.SuRequest :=
  let '(a, (b, (c, (d, (e, (f, (g, (h, (i, _))))))))) := v in Su.mkSuRequest a b c d e f g h i.

(** The codec of [SuRequest] is the one derived from its declaration. *)
Theorem SuRequest_is_derived :
  field_types (Struct (Named SuRequest_fields)) = Some SuRequest_types /\
  (forall r, encode c_SuRequest r = encode (derive_decodable SuRequest_types) (of_request r)) /\
  (forall s, decode c_SuRequest s = '(v, s) ← decode (derive_decodable SuRequest_types) s; Ok (to_request v, s)).
Proof.
  split_and!; [by vm_compute | |].
  - intros r. cbn [c_SuRequest derive_decodable encode encode_fields SuRequest_types codec of_request fst snd]. by rewrite app_nil_r.
  - intros s. cbn [c_SuRequest derive_decodable decode decode_fields SuRequest_types codec denote record].
    repeat (match goal with |- (mbind _ ?m) = _ => destruct m as [[? ?]| |]; cbn [mbind res_bind]; try done end).
Qed.

Lemma derived_roundtrip_witness :
  decode (derive_decodable [TBool; TVec TString]) (encode (derive_decodable [TBool; TVec TString]) (true, ([ #"id"; #"/"], tt)) ++ #"x") =
  Ok ((true, ([ #"id"; #"/"], tt)), #"x").
Proof.
  apply (derived_roundtrip [TBool; TVec TString]). cbn [record_wf wf fst snd denote]. split; [exact I |]. split; [| exact I].
  split; [vm_compute; reflexivity |]. repeat (apply List.Forall_cons; [split; vm_compute; reflexivity |]). apply List.Forall_nil.
Defined.

Lemma derived_prefix_free_witness : (true, tt) = (true, tt) /\ ([] : bytes) = [].
Proof. apply (derived_prefix_free [TBool] (true, tt) (true, tt) []); [split; exact I | split; exact I | reflexivity]. Defined.

End DeriveCodec.
