(* ===== verification/Daemon.v ===== *)
(** core/daemon.rs: who may ask the daemon for what.  [handle_requests] identifies the
    peer of a connection, checks the request code against it, and hands the request to
    one of three handlers; the client side of the exchange is [send_request].

    The kernel tells the daemon the credentials, the security context and the
    executable of the peer.  What a handler does is the list of the calls it makes. *)

From S2P Require Import Prelude Text Numeric Socket.

Module Daemon.
Import Socket.

(** * Codes (core/lib.rs) *)

Inductive RequestCode :=
| START_DAEMON | CHECK_VERSION | CHECK_VERSION_CODE | STOP_DAEMON
| SYNC_BARRIER
| SUPERUSER | ZYGOTE_RESTART | DENYLIST | SQLITE_CMD | REMOVE_MODULES | ZYGISK
| STAGE_BARRIER
| POST_FS_DATA | LATE_START | BOOT_COMPLETE
| END.

#[export] Instance RequestCode_eq_dec : EqDecision RequestCode.
Proof. solve_decision. Defined.

Definition all_codes : list RequestCode :=
  [START_DAEMON; CHECK_VERSION; CHECK_VERSION_CODE; STOP_DAEMON; SYNC_BARRIER;
   SUPERUSER; ZYGOTE_RESTART; DENYLIST; SQLITE_CMD; REMOVE_MODULES; ZYGISK; STAGE_BARRIER;
   POST_FS_DATA; LATE_START; BOOT_COMPLETE; END].

(** The discriminants count from zero. *)
Definition repr (c : RequestCode) : Z :=
  match c with
  | START_DAEMON => 0 | CHECK_VERSION => 1 | CHECK_VERSION_CODE => 2 | STOP_DAEMON => 3
  | SYNC_BARRIER => 4
  | SUPERUSER => 5 | ZYGOTE_RESTART => 6 | DENYLIST => 7 | SQLITE_CMD => 8 | REMOVE_MODULES => 9 | ZYGISK => 10
  | STAGE_BARRIER => 11
  | POST_FS_DATA => 12 | LATE_START => 13 | BOOT_COMPLETE => 14
  | END => 15
  end.

Definition of_repr (z : Z) : option RequestCode := List.find (fun c => repr c =? z) all_codes.

Inductive RespondCode := ERROR | OK | ROOT_REQUIRED | ACCESS_DENIED | RespondEnd.

Definition respond_repr (r : RespondCode) : Z :=
  match r with ERROR => -1 | OK => 0 | ROOT_REQUIRED => 1 | ACCESS_DENIED => 2 | RespondEnd => 3 end.

(** * Peers *)

(** Device and inode of a file. *)
Definition FileId : Type := Z * Z.

Record UCred := mkUCred { uid : Z; pid : option Z }.

Record Peer := mkPeer {
  peer_cred : option UCred;
  context : bytes;
  exe : Z -> option FileId            (** what /proc/<pid>/exe leads to *)
}.

Section Daemon.
Context (check_client : bool).        (** the feature check-client *)
Context (exe_attr : FileId).

Definition is_client (p : Peer) (pid : Z) : bool :=
  if check_client then
    match exe p pid with
    | Some attr => (attr.1 =? exe_attr.1) && (attr.2 =? exe_attr.2)
    | None => false
    end
  else true.

Inductive Queue := Sync | Async | Stage.

(** [handle_requests]: the answer that is written, if any, and the handler the request
    goes to.  [request] is the code that is read from the socket, [write_ok] whether
    the answer can be written. *)
Definition handle_requests (p : Peer) (request : option Z) (write_ok : bool)
    : option RespondCode * option (Queue * RequestCode) :=
  match peer_cred p with
  | None => (None, None)
  | Some cred =>
      let is_root := uid cred =? 0 in
      let is_shell := uid cred =? 2000 in
      let is_zygote := bool_decide (context p = #"u:r:zygote:s0") in
      if negb is_root && negb is_zygote && negb (is_client p (default (-1) (pid cred)))
      then (Some ACCESS_DENIED, None) else
      let code := default (-1) request in
      if negb ((0 <=? code) && (code <? repr END)) || (code =? repr SYNC_BARRIER) || (code =? repr STAGE_BARRIER)
      then (None, None) else
      match of_repr code with
      | None => (None, None)
      | Some c =>
          let refused :=
            match c with
            | POST_FS_DATA | LATE_START | BOOT_COMPLETE | ZYGOTE_RESTART | SQLITE_CMD | DENYLIST | STOP_DAEMON =>
                if negb is_root then Some ROOT_REQUIRED else None
            | REMOVE_MODULES => if negb is_root && negb is_shell then Some ACCESS_DENIED else None
            | ZYGISK => if negb is_zygote then Some ACCESS_DENIED else None
            | _ => None
            end in
          match refused with
          | Some r => (Some r, None)
          | None =>
              if negb write_ok then (None, None) else
              (Some OK, Some (if code <? repr SYNC_BARRIER then (Sync, c)
                              else if code <? repr STAGE_BARRIER then (Async, c) else (Stage, c)))
          end
      end
  end.

(** * Handlers *)

Inductive Call :=
| WriteString (s : bytes) | WritePod (z : Z) | SetupLogfile
| DenylistHandler | UnmountOverlays | RestoreProp | Exit
| SuDaemonHandler | PruneSuAccess | ScanDenyApps | ZygiskReset | DbExecForCli
| RemoveModules | Reboot (recovery : bool) | ZygiskHandler | BootStage (code : RequestCode).

Context (version_string : bytes) (ver_code : Z) (is_recovery zygisk_enabled : bool).

Definition handle_request_sync (c : RequestCode) : list Call :=
  match c with
  | CHECK_VERSION => [WriteString version_string]
  | CHECK_VERSION_CODE => [WritePod ver_code]
  | START_DAEMON => [SetupLogfile]
  | STOP_DAEMON => [UnmountOverlays; RestoreProp; WritePod 0; Exit]
  | _ => []
  end.

(** [body] is what the client sends after the code. *)
Definition handle_request_async (c : RequestCode) (body : bytes) : list Call :=
  match c with
  | DENYLIST => [DenylistHandler]
  | SUPERUSER => [SuDaemonHandler]
  | ZYGOTE_RESTART => [PruneSuAccess; ScanDenyApps] ++ (if zygisk_enabled then [ZygiskReset] else [])
  | SQLITE_CMD => [DbExecForCli]
  | REMOVE_MODULES =>
      let do_reboot := match decode c_bool body with Ok (b, _) => b | _ => false end in
      [RemoveModules; WritePod 0] ++ (if do_reboot then [Reboot is_recovery] else [])
  | ZYGISK => [ZygiskHandler]
  | _ => []
  end.

(** A connection, from the first byte to the last call. *)
Definition serve (p : Peer) (request : option Z) (body : bytes) (write_ok : bool) : option RespondCode * list Call :=
  let '(r, d) := handle_requests p request write_ok in
  (r, match d with
      | None => []
      | Some (Sync, c) => handle_request_sync c
      | Some (Async, c) => handle_request_async c body
      | Some (Stage, c) => [BootStage c]
      end).

(** [send_request]: whether the client goes on, from the answer it reads. *)
Definition send_request (answer : option Z) : logged unit :=
  if default (-1) answer =? respond_repr OK then Ok tt else Err tt.

(** * Authorization *)

(** The peers the daemon talks to at all. *)
Definition known (p : Peer) (cred : UCred) : Prop :=
  uid cred = 0 \/ context p = #"u:r:zygote:s0" \/ check_client = false \/
  exists pid, default (-1) (Daemon.pid cred) = pid /\ exe p pid = Some exe_attr.

(** What a peer must be to cause a call. *)
Definition may (p : Peer) (cred : UCred) (c : Call) : Prop :=
  match c with
  | UnmountOverlays | RestoreProp | Exit | DenylistHandler | PruneSuAccess | ScanDenyApps | ZygiskReset
  | DbExecForCli | BootStage _ => uid cred = 0
  | RemoveModules | Reboot _ => uid cred = 0 \/ uid cred = 2000
  | ZygiskHandler => context p = #"u:r:zygote:s0"
  | WriteString _ | WritePod _ | SetupLogfile | SuDaemonHandler => True
  end.

Lemma is_client_known p cred :
  (uid cred =? 0) || bool_decide (context p = #"u:r:zygote:s0") || is_client p (default (-1) (pid cred)) = true ->
  known p cred.
Proof.
  rewrite !orb_true_iff, Z.eqb_eq, bool_decide_eq_true. unfold known, is_client.
  intros [[H|H]|H]; [by left | by right; left |]. right; right. destruct check_client; [| by left]. right.
  eexists. split; [done |]. destruct (exe p _) as [[d i]|]; [| done]. destruct exe_attr as [d' i'].
  apply andb_true_iff in H as [?%Z.eqb_eq ?%Z.eqb_eq]. cbn in *. by subst.
Qed.

Definition root_only (c : RequestCode) : bool :=
  match c with
  | POST_FS_DATA | LATE_START | BOOT_COMPLETE | ZYGOTE_RESTART | SQLITE_CMD | DENYLIST | STOP_DAEMON => true
  | _ => false
  end.

Definition is_barrier (c : RequestCode) : bool :=
  match c with SYNC_BARRIER | STAGE_BARRIER | END => true | _ => false end.

(** The request is dispatched only after the peer and the code were checked. *)
Lemma dispatched p request write_ok r q c :
  handle_requests p request write_ok = (r, Some (q, c)) ->
  r = Some OK /\ exists cred, peer_cred p = Some cred /\ known p cred /\ request = Some (repr c) /\
    is_barrier c = false /\ (root_only c = true -> uid cred = 0) /\
    (c = REMOVE_MODULES -> uid cred = 0 \/ uid cred = 2000) /\
    (c = ZYGISK -> context p = #"u:r:zygote:s0") /\
    q = match c with
        | START_DAEMON | CHECK_VERSION | CHECK_VERSION_CODE | STOP_DAEMON => Sync
        | POST_FS_DATA | LATE_START | BOOT_COMPLETE => Stage
        | _ => Async
        end.
Proof.
  unfold handle_requests. destruct (peer_cred p) as [cred|]; [| done].
  destruct (negb _ && negb _ && negb _) eqn:Ek; [done |].
  assert (known p cred) as Hk.
  { apply is_client_known. rewrite <- !negb_orb in Ek. by apply negb_false_iff in Ek. }
  destruct request as [z|]; [| done]. cbn [default from_option id].
  destruct (_ || _ || _) eqn:Ev; [done |]. destruct (of_repr z) as [c'|] eqn:Eo; [| done].
  assert (z = repr c') as ->.
  { unfold of_repr in Eo. apply List.find_some in Eo as [_ Eo]. lia. }
  destruct write_ok; cbn [negb]; [| by repeat case_match].
  destruct (Z.eqb_spec (uid cred) 0) as [H0|H0], (Z.eqb_spec (uid cred) 2000) as [H1|H1],
    (bool_decide_reflect (context p = #"u:r:zygote:s0")) as [H2|H2]; cbn [negb andb].
  all: destruct c'; try done; intros H; injection H as <- <- <-; refine (conj eq_refl _); exists cred; split_and!; try done; auto.
Qed.

Lemma served_calls p request body write_ok r calls c :
  serve p request body write_ok = (r, calls) -> c ∈ calls ->
  r = Some OK /\ exists cred, peer_cred p = Some cred /\ known p cred /\ may p cred c.
Proof.
  unfold serve. destruct (handle_requests p request write_ok) as [r' d] eqn:E. intros [= <- <-] Hc.
  destruct d as [[q code]|]; [| set_solver].
  apply dispatched in E as (-> & cred & Hp & Hk & _ & _ & Hroot & Hrm & Hz & ->). split; [done |].
  exists cred. split_and!; [done.. |].
  destruct code; cbn in Hc, Hroot; try (pose proof (Hroot eq_refl) as H0; clear Hroot).
  all: repeat case_match; repeat (apply elem_of_cons in Hc as [->|Hc]); try (by apply not_elem_of_nil in Hc); cbn; auto.
Qed.

Definition permitted (p : Peer) (cred : UCred) (c : RequestCode) : Prop :=
  is_barrier c = false /\ (root_only c = true -> uid cred = 0) /\
  (c = REMOVE_MODULES -> uid cred = 0 \/ uid cred = 2000) /\ (c = ZYGISK -> context p = #"u:r:zygote:s0").

Lemma known_is_client p cred :
  known p cred ->
  negb (uid cred =? 0) && negb (bool_decide (context p = #"u:r:zygote:s0")) && negb (is_client p (default (-1) (pid cred))) = false.
Proof.
  unfold known, is_client. intros [->|[->|[->|(pid & <- & Hexe)]]].
  - done.
  - by rewrite (bool_decide_eq_true_2 _ (eq_refl _)), andb_false_r.
  - by rewrite andb_false_r.
  - rewrite Hexe, !Z.eqb_refl. destruct check_client; by rewrite andb_false_r.
Qed.

Lemma permitted_served p cred c body :
  peer_cred p = Some cred -> known p cred -> permitted p cred c ->
  (serve p (Some (repr c)) body true).1 = Some OK.
Proof.
  intros Hp Hk (Hb & Hr & Hm & Hz). unfold serve, handle_requests. rewrite Hp, known_is_client by done.
  cbn [default from_option id]. destruct c; try done; cbn in Hr |- *; rewrite ?Hr by done; try done.
  - destruct (Hm eq_refl) as [-> | ->]; done.
  - by rewrite (bool_decide_eq_true_2 _ (Hz eq_refl)).
Qed.
End Daemon.

(** C3: the daemon does for a peer only what the peer is allowed to have done, and does
    that.  Every call that a connection causes has been answered with OK to a peer that
    is root, zygote or the daemon's own executable, and root alone can stop the daemon,
    run SQL, change the denylist or drive the boot stages, root or the shell remove
    modules, and zygote be served by zygisk.  Conversely a known peer with a permitted
    request is answered with OK, and the client goes on exactly when it reads that. *)
Theorem requests_authorized check_client exe_attr version ver_code recovery zygisk p :
  let serve := serve check_client exe_attr version ver_code recovery zygisk p in
  (forall request body write_ok r calls c,
     serve request body write_ok = (r, calls) -> c ∈ calls ->
     r = Some OK /\ exists cred, peer_cred p = Some cred /\ known check_client exe_attr p cred /\ may p cred c) /\
  (forall cred c body,
     peer_cred p = Some cred -> known check_client exe_attr p cred -> permitted p cred c ->
     (serve (Some (repr c)) body true).1 = Some OK) /\
  (forall r, send_request (respond_repr <$> r) = Ok tt <-> r = Some OK).
Proof.
  cbv zeta. split_and!.
  - intros request body write_ok r calls c. apply served_calls.
  - intros cred c body. apply permitted_served.
  - by intros [[]|].
Qed.
End Daemon.
