(* ===== verification/Magisk.v ===== *)
(** core/magisk.rs and the client of core/daemon.rs: the command magisk, its arguments, and
    what its actions ask of the daemon.

    The daemon at the other end of the socket is [serve] of Daemon: the client's theorems
    are about the two together. *)

From S2P Require Import Prelude Text Numeric Files Args Socket Daemon.

Module Magisk.
Import Files Args Socket Daemon.

(** * Actions *)

Inductive MagiskAction :=
| LocalVersion | Version | VersionCode | List_
| RemoveModules (no_reboot : bool)
| InstallModule (zip : bytes)
| Daemon_ | Stop | PostFsData | Service | BootComplete | ZygoteRestart
| UnlockBlocks | RestoreCon
| CloneAttr (from to : bytes)
| CloneFile (from to : bytes)
| Sqlite (sql : bytes)
| Path
| DenyList (args : list bytes)
| PreInitDevice.

Definition str_value (v : bytes) : res bytes bytes := Ok v.
Definition pos (name : bytes) : Field bytes := mkField name (Positional Required false) None None None str_value.

Definition fields_of (cmd : bytes) : list (Field bytes) :=
  if bool_decide (cmd = #"--remove-modules") then [mkField #"no_reboot" (Switch TBool) (Some #"n") None None str_value]
  else if bool_decide (cmd = #"--install-module") then [pos #"zip"]
  else if bool_decide (cmd = #"--clone-attr") then [pos #"from"; pos #"to"]
  else if bool_decide (cmd = #"--clone") then [pos #"from"; pos #"to"]
  else if bool_decide (cmd = #"--sqlite") then [pos #"sql"]
  else if bool_decide (cmd = #"--denylist") then [mkField #"args" (Positional Repeating true) None None None str_value]
  else [].

(** The actions without arguments, by their names. *)
Definition simple_commands : list (bytes * MagiskAction) :=
  [(#"-c", LocalVersion); (#"-v", Version); (#"-V", VersionCode); (#"--list", List_); (#"--daemon", Daemon_); (#"--stop", Stop);
   (#"--post-fs-data", PostFsData); (#"--service", Service); (#"--boot-complete", BootComplete); (#"--zygote-restart", ZygoteRestart);
   (#"--unlock-blocks", UnlockBlocks); (#"--restorecon", RestoreCon); (#"--path", Path); (#"--preinit-device", PreInitDevice)].

Definition COMMANDS : list bytes :=
  [ #"-c"; #"-v"; #"-V"; #"--list"; #"--remove-modules"; #"--install-module"; #"--daemon"; #"--stop"; #"--post-fs-data"; #"--service";
    #"--boot-complete"; #"--zygote-restart"; #"--unlock-blocks"; #"--restorecon"; #"--clone-attr"; #"--clone"; #"--sqlite"; #"--path";
    #"--denylist"; #"--preinit-device"].

(** The variant that is built from the fields of a command. *)
Definition action_of (cmd : bytes) (l : list (Slot bytes)) : res EarlyExit MagiskAction :=
  match l with
  | [] => match List.find (fun e => bool_decide (e.1 = cmd)) simple_commands with Some (_, a) => Ok a | None => Panic end
  | [FlagBool b] => Ok (RemoveModules b)
  | [One (Some x)] => if bool_decide (cmd = #"--sqlite") then Ok (Sqlite x) else Ok (InstallModule x)
  | [One (Some x); One (Some y)] => if bool_decide (cmd = #"--clone") then Ok (CloneFile x y) else Ok (CloneAttr x y)
  | [Many l] => Ok (DenyList l)
  | _ => Panic
  end.

Definition variant (cmd : bytes) : bytes * (list bytes -> list bytes -> res EarlyExit MagiskAction) :=
  (cmd, fun cmd_name args => l ← from_args (fields_of cmd) [] cmd_name args; action_of cmd l).

Definition Cli_fields : list (Field MagiskAction) :=
  [mkField #"action" (SubCommand false COMMANDS (from_args_enum (map variant COMMANDS))) None None None (fun _ => Err [])].

Definition Cli (cmd_name args : list bytes) : res EarlyExit MagiskAction :=
  l ← from_args Cli_fields top_level_triggers cmd_name args;
  match l with [Sub (Some a)] => Ok a | _ => Panic end.

(** * Running an action *)

(** What is done by this process, but for output. *)
Inductive LocalCall :=
| InstallModuleZip (zip : bytes) | UnlockAllBlocks | Restorecon | CloneAttrCall (from to : bytes) | CopyTo (from to : bytes)
| DenylistCli (args : list bytes).

Record Ran := mkRan { exit_code : Z; out : list bytes; local : list LocalCall }.

Definition done_ : Ran := mkRan 0 [] [].

(** The lines of the answer to [Sqlite], up to the empty one; every line is at least four
    bytes of the stream. *)
Fixpoint read_lines_loop (fuel : nat) (s : bytes) (out : list bytes) : logged (list bytes) :=
  match fuel with
  | O => Panic
  | S fuel =>
      match decode c_string s with
      | Ok (line, s) => if is_empty line then Ok out else read_lines_loop fuel s (out ++ [line])
      | Err _ => Err tt
      | Panic => Panic
      end
  end.

Definition decoded {A} (m : io (A * bytes)) : logged A :=
  match m with Ok (a, _) => Ok a | Err _ => Err tt | Panic => Panic end.

Section Exec.
(** [connect_daemon(code, create)], then what the client sends and the daemon answers. *)
Context (connect_daemon : RequestCode -> bool -> bytes -> logged bytes).
Context (MAGISK_VERSION : bytes) (MAGISK_VER_CODE : Z) (debug : bool) (APPLET_NAMES : list bytes).
Context (poll_ok : bool) (clone_attr copy_to : bytes -> bytes -> bool) (magisk_tmp preinit_device : bytes) (denylist_cli : list bytes -> Z).

Definition exec (a : MagiskAction) : logged Ran :=
  match a with
  | LocalVersion =>
      Ok (mkRan 0 [MAGISK_VERSION ++ (if debug then #":MAGISK:D (" else #":MAGISK:R (") ++ fmt_dec MAGISK_VER_CODE ++ #")"] [])
  | Version => fd ← connect_daemon CHECK_VERSION false []; ver ← decoded (decode c_string fd); Ok (mkRan 0 [ver] [])
  | VersionCode => fd ← connect_daemon CHECK_VERSION_CODE false []; ver ← decoded (decode c_i32 fd); Ok (mkRan 0 [fmt_dec ver] [])
  | List_ => Ok (mkRan 0 APPLET_NAMES [])
  | RemoveModules no_reboot =>
      fd ← connect_daemon REMOVE_MODULES false (encode c_bool (negb no_reboot));
      code ← decoded (decode c_i32 fd); Ok (mkRan code [] [])
  | InstallModule zip => Ok (mkRan 0 [] [InstallModuleZip zip])
  | Daemon_ => _ ← connect_daemon START_DAEMON true []; Ok done_
  | Stop => fd ← connect_daemon STOP_DAEMON false []; code ← decoded (decode c_i32 fd); Ok (mkRan code [] [])
  | PostFsData => _ ← connect_daemon POST_FS_DATA true []; if poll_ok then Ok done_ else Err tt
  | Service => _ ← connect_daemon LATE_START true []; Ok done_
  | BootComplete => _ ← connect_daemon BOOT_COMPLETE false []; Ok done_
  | ZygoteRestart => _ ← connect_daemon ZYGOTE_RESTART false []; Ok done_
  | UnlockBlocks => Ok (mkRan 0 [] [UnlockAllBlocks])
  | RestoreCon => Ok (mkRan 0 [] [Restorecon])
  | CloneAttr from to => if clone_attr from to then Ok (mkRan 0 [] [CloneAttrCall from to]) else Err tt
  | CloneFile from to => if copy_to from to then Ok (mkRan 0 [] [CopyTo from to]) else Err tt
  | Sqlite sql =>
      fd ← connect_daemon SQLITE_CMD false (encode c_string sql);
      lines ← read_lines_loop (S (length fd)) fd []; Ok (mkRan 0 lines [])
  | Path => Ok (if is_empty magisk_tmp then mkRan 1 [] [] else mkRan 0 [magisk_tmp] [])
  | DenyList args => Ok (mkRan (denylist_cli args) [] [DenylistCli args])
  | PreInitDevice => Ok (if is_empty preinit_device then mkRan 1 [] [] else mkRan 0 [preinit_device] [])
  end.

(** [magisk_main]: "--" is put before the arguments, so that all of them are subcommands;
    [None] aborts. *)
Definition magisk_main (argv : list bytes) : option Ran :=
  match argv with
  | [] => Some (mkRan 1 [] [])
  | cmd :: args =>
      if is_empty args then Some (mkRan 1 [] []) else
      match Cli [cmd] (#"--" :: args) with
      | Ok a => match exec a with Ok r => Some r | Err _ => Some (mkRan 1 [] []) | Panic => None end
      | Err e => Some (mkRan (if is_help e then 0 else 1) [] [])
      | Panic => None
      end
  end.
End Exec.

(** * The arguments *)

Definition operand_ok (x : bytes) : Prop := starts_with x #"-" = false.

(** The usage text: what each line of it means. *)
Inductive usage : list bytes -> MagiskAction -> Prop :=
| u_simple name a : (name, a) ∈ simple_commands -> usage [name] a
| u_remove : usage [ #"--remove-modules"] (RemoveModules false)
| u_remove_n : usage [ #"--remove-modules"; #"-n"] (RemoveModules true)
| u_install zip : operand_ok zip -> usage [ #"--install-module"; zip] (InstallModule zip)
| u_clone_attr x y : operand_ok x -> operand_ok y -> usage [ #"--clone-attr"; x; y] (CloneAttr x y)
| u_clone x y : operand_ok x -> operand_ok y -> usage [ #"--clone"; x; y] (CloneFile x y)
| u_sqlite sql : operand_ok sql -> usage [ #"--sqlite"; sql] (Sqlite sql)
| u_denylist args : match args with x :: _ => operand_ok x | [] => True end -> usage (#"--denylist" :: args) (DenyList args).

(** With "--" before it, the first argument is the subcommand, and the others are its. *)
Lemma Cli_subcommand cmd name args :
  name ∈ COMMANDS ->
  Cli [cmd] (#"--" :: name :: args) = (l ← from_args (fields_of name) [] [cmd; name] args; action_of name l).
Proof.
  intros Hin. unfold Cli, from_args at 1, parse_struct_args. cbn [length parse_loop].
  rewrite (bool_decide_eq_false_2 (#"--" ∈ top_level_triggers)) by (apply (bool_decide_eq_true (_ ∉ _)); vm_compute; reflexivity).
  cbn [andb]. change (starts_with #"--" #"-") with true. cbn [negb andb options_ended].
  rewrite (bool_decide_eq_true_2 (#"--" = #"--")) by done. cbn [slots help positional_index options_ended]. rewrite !andb_false_r.
  unfold parse_subcommand.
  change (subcommand_field Cli_fields) with (Some (0%nat, mkField #"action" (SubCommand false COMMANDS (from_args_enum (map variant COMMANDS))) None None None (fun _ => Err []))).
  cbn [kind]. rewrite (bool_decide_eq_true_2 (name ∈ COMMANDS)) by done. change ([cmd] ++ [name]) with [cmd; name].
  assert (from_args_enum (map variant COMMANDS) [cmd; name] args = (l ← from_args (fields_of name) [] [cmd; name] args; action_of name l)) as ->.
  { unfold from_args_enum. cbn [last]. unfold COMMANDS in Hin. rewrite !elem_of_cons, elem_of_nil in Hin. repeat (destruct Hin as [-> | Hin]; [done |]). done. }
  by destruct (l ← from_args (fields_of name) [] [cmd; name] args; action_of name l).
Qed.

(** A command with one or two operands. *)
Lemma one_operand cmd_name (n x : bytes) : operand_ok x -> from_args [pos n] [] cmd_name [x] = Ok [One (Some x)].
Proof.
  intros Hx. unfold from_args, parse_struct_args. cbn [length parse_loop]. unfold operand_ok in Hx. rewrite Hx.
  rewrite (bool_decide_eq_false_2 (x ∈ [])) by set_solver. reflexivity.
Qed.

Lemma two_operands cmd_name (n m x y : bytes) :
  operand_ok x -> operand_ok y -> from_args [pos n; pos m] [] cmd_name [x; y] = Ok [One (Some x); One (Some y)].
Proof.
  intros Hx Hy. unfold from_args, parse_struct_args. cbn [length parse_loop]. unfold operand_ok in *. rewrite Hx.
  rewrite (bool_decide_eq_false_2 (x ∈ [])) by set_solver. cbn. rewrite Hy, (bool_decide_eq_false_2 (y ∈ [])) by set_solver. reflexivity.
Qed.

Definition deny_fields : list (Field bytes) := [mkField #"args" (Positional Repeating true) None None None str_value].

(** A greedy positional takes the rest of the command line, options or not. *)
Lemma greedy_rest cmd_name l args fuel :
  (length args <= fuel)%nat ->
  parse_loop deny_fields [] fuel cmd_name args (mkPState [Many l] false 0 true) = Ok (mkPState [Many (l ++ args)] false 0 true).
Proof.
  revert l fuel. induction args as [|x args IH]; intros l fuel Hf; [destruct fuel; cbn [parse_loop]; by rewrite app_nil_r |].
  destruct fuel as [|fuel]; [simpl in Hf; lia |]. cbn [parse_loop options_ended negb]. rewrite !andb_false_r. cbn.
  rewrite IH by (simpl in Hf; lia). by rewrite <- app_assoc.
Qed.

Lemma greedy_all cmd_name args :
  match args with x :: _ => operand_ok x | [] => True end -> from_args deny_fields [] cmd_name args = Ok [Many args].
Proof.
  intros Hx. unfold from_args, parse_struct_args. destruct args as [|x args]; [reflexivity |]. unfold operand_ok in Hx. cbn [length parse_loop].
  rewrite Hx. rewrite (bool_decide_eq_false_2 (x ∈ [])) by set_solver. cbn [andb]. cbn -[parse_loop].
  rewrite (greedy_rest cmd_name [x] args) by done. reflexivity.
Qed.

Ltac command := rewrite Cli_subcommand by (apply (bool_decide_eq_true (_ ∈ _)); vm_compute; reflexivity).

(** Every command line of the usage text is read as the action it describes, whatever
    its operands are, as long as they do not look like options. *)
Theorem usage_parsed cmd args a : usage args a -> Cli [cmd] (#"--" :: args) = Ok a.
Proof.
  intros H. destruct H as [name a Hin| | |zip Hz|x y Hx Hy|x y Hx Hy|sql Hs|args Ha].
  - unfold simple_commands in Hin. rewrite !elem_of_cons, elem_of_nil in Hin.
    repeat (destruct Hin as [[= -> ->] | Hin]; [command; vm_compute; reflexivity |]). done.
  - command. vm_compute. reflexivity.
  - command. vm_compute. reflexivity.
  - command. change (fields_of #"--install-module") with [pos #"zip"]. by rewrite one_operand.
  - command. change (fields_of #"--clone-attr") with [pos #"from"; pos #"to"]. by rewrite two_operands.
  - command. change (fields_of #"--clone") with [pos #"from"; pos #"to"]. by rewrite two_operands.
  - command. change (fields_of #"--sqlite") with [pos #"sql"]. by rewrite one_operand.
  - command. change (fields_of #"--denylist") with deny_fields. by rewrite greedy_all.
Qed.

(** * The client and the daemon together *)

Section Together.
Context (check_client : bool) (exe_attr : FileId) (version_string : bytes) (ver_code : Z) (is_recovery zygisk_enabled : bool).
(** The lines [db_exec_for_cli] of Db sends for a statement, but for the last, which is empty. *)
Context (rows : bytes -> list bytes).
Context (p : Peer).

(** What a call of the daemon writes to the client. *)
Definition reply_of (body : bytes) (c : Call) : bytes :=
  match c with
  | WriteString s => encode c_string s
  | WritePod z => encode c_i32 z
  | DbExecForCli =>
      match decode c_string body with
      | Ok (sql, _) => concat (map (encode c_string) (rows sql ++ [[]]))
      | _ => []
      end
  | _ => []
  end.

(** [connect_daemon] with a daemon that is running. *)
Definition connected (code : RequestCode) (create : bool) (body : bytes) : logged bytes :=
  let '(r, calls) := serve check_client exe_attr version_string ver_code is_recovery zygisk_enabled p (Some (repr code)) body true in
  _ ← send_request (respond_repr <$> r); Ok (concat (map (reply_of body) calls)).

Definition request_of (a : MagiskAction) : option (RequestCode * bytes) :=
  match a with
  | Version => Some (CHECK_VERSION, [])
  | VersionCode => Some (CHECK_VERSION_CODE, [])
  | RemoveModules n => Some (REMOVE_MODULES, encode c_bool (negb n))
  | Daemon_ => Some (START_DAEMON, [])
  | Stop => Some (STOP_DAEMON, [])
  | PostFsData => Some (POST_FS_DATA, [])
  | Service => Some (LATE_START, [])
  | BootComplete => Some (BOOT_COMPLETE, [])
  | ZygoteRestart => Some (ZYGOTE_RESTART, [])
  | Sqlite sql => Some (SQLITE_CMD, encode c_string sql)
  | _ => None
  end.

Definition shown (a : MagiskAction) : list bytes :=
  match a with
  | Version => [version_string] | VersionCode => [fmt_dec ver_code] | Sqlite sql => rows sql | _ => []
  end.

Definition text_ok (s : bytes) : Prop := short s /\ utf8_valid s = true.

(** What the daemon sends fits its format: strings are text, and a row has a column. *)
Record messages_ok : Prop := {
  ok_version : text_ok version_string;
  ok_code : is_i32 ver_code;
  ok_rows sql : Forall (fun l => text_ok l /\ l <> []) (rows sql) }.

Lemma read_lines_all lines s out fuel :
  Forall (fun l => text_ok l /\ l <> []) lines -> (length lines < fuel)%nat ->
  read_lines_loop fuel (concat (map (encode c_string) (lines ++ [[]])) ++ s) out = Ok (out ++ lines).
Proof.
  intros Hl. revert out fuel. induction Hl as [|l lines [Hok Hne] Hl IH]; intros out fuel Hf; (destruct fuel as [|fuel]; [simpl in Hf; lia |]); cbn [app map concat read_lines_loop].
  - rewrite app_nil_r, roundtrip by (split; done). cbn [is_empty]. by rewrite app_nil_r.
  - rewrite <- app_assoc, roundtrip by done. destruct l as [|x l]; [done |]. cbn [is_empty].
    rewrite IH by (simpl in Hf; lia). by rewrite <- app_assoc.
Qed.

Lemma concat_lines_length lines : (length lines <= length (concat (map (encode c_string) lines)))%nat.
Proof.
  induction lines as [|l lines IH]; [done |]. cbn [map concat length]. rewrite length_app.
  assert (length (encode c_string l) = 4 + length l)%nat by (change (encode c_string l) with (to_le 4 (zlen l) ++ l); by rewrite length_app, to_le_length).
  lia.
Qed.

(** A request that is permitted is answered with OK, and handled. *)
Lemma permitted_calls cred c body :
  peer_cred p = Some cred -> known check_client exe_attr p cred -> permitted p cred c ->
  serve check_client exe_attr version_string ver_code is_recovery zygisk_enabled p (Some (repr c)) body true =
    (Some OK, match c with
              | START_DAEMON | CHECK_VERSION | CHECK_VERSION_CODE | STOP_DAEMON => handle_request_sync version_string ver_code c
              | POST_FS_DATA | LATE_START | BOOT_COMPLETE => [BootStage c]
              | _ => handle_request_async is_recovery zygisk_enabled c body
              end).
Proof.
  intros Hp Hk (Hb & Hr & Hm & Hz). unfold serve, handle_requests. rewrite Hp, known_is_client by done.
  cbn [default from_option Datatypes.id]. destruct c; try done; cbn in Hr |- *; rewrite ?Hr by done; try done.
  - destruct (Hm eq_refl) as [-> | ->]; done.
  - by rewrite (bool_decide_eq_true_2 _ (Hz eq_refl)).
Qed.

(** A request that is not permitted is answered, but not with OK, and causes nothing. *)
Lemma not_permitted cred c body :
  peer_cred p = Some cred -> is_barrier c = false -> ~ permitted p cred c ->
  let '(r, calls) := serve check_client exe_attr version_string ver_code is_recovery zygisk_enabled p (Some (repr c)) body true in
  r <> Some OK /\ calls = [].
Proof.
  intros Hp Hb Hn. unfold serve. destruct (handle_requests check_client exe_attr p (Some (repr c)) true) as [r d] eqn:E. destruct d as [[q c']|].
  - exfalso. apply dispatched in E as (_ & cred' & Hp' & _ & Hc & _ & H1 & H2 & H3 & _). apply Hn.
    assert (cred' = cred) as -> by congruence. assert (c' = c) as -> by (clear -Hc; destruct c, c'; by inversion Hc). done.
  - split; [| done]. intros ->. revert E. unfold handle_requests. rewrite Hp. cbn [default from_option Datatypes.id].
    destruct (negb _ && negb _ && negb _); [done |]. destruct (_ || _ || _); [done |]. destruct (of_repr _) as [c'|]; [| done].
    destruct c', (uid cred =? 0), (uid cred =? 2000), (bool_decide (context p = #"u:r:zygote:s0")); done.
Qed.
End Together.

(** an action of the command magisk that asks the daemon for something gets it, and
    shows what the daemon knows, exactly if the peer may have it: the version, and the
    rows of a database query, arrive as they were sent, and the action succeeds.  To
    anybody else the command fails, and the daemon does nothing. *)
Theorem magisk_requests check_client exe_attr version ver_code recovery zygisk rows p cred
    MAGISK_VERSION MAGISK_VER_CODE debug applets clone_attr copy_to tmp preinit denylist a c body :
  let connect := connected check_client exe_attr version ver_code recovery zygisk rows p in
  let run := exec connect MAGISK_VERSION MAGISK_VER_CODE debug applets true clone_attr copy_to tmp preinit denylist a in
  request_of a = Some (c, body) -> peer_cred p = Some cred -> known check_client exe_attr p cred -> messages_ok version ver_code rows ->
  (forall sql, a = Sqlite sql -> text_ok sql) ->
  (permitted p cred c -> run = Ok (mkRan 0 (shown version ver_code rows a) [])) /\
  (~ permitted p cred c -> run = Err tt /\ (serve check_client exe_attr version ver_code recovery zygisk p (Some (repr c)) body true).2 = []).
Proof.
  intros connect run Hreq Hp Hk Hm Hsql. split.
  - intros Hperm.
    pose proof (fun b => permitted_calls check_client exe_attr version ver_code recovery zygisk p cred c b Hp Hk Hperm) as Hs.
    unfold run, connect. destruct a; cbn in Hreq; inversion Hreq; subst c body; cbn [exec]; unfold connected; rewrite Hs; cbn -[encode decode read_lines_loop]; rewrite ?app_nil_r.
    + rewrite <- (app_nil_r (encode c_string version)), roundtrip by apply Hm. done.
    + rewrite <- (app_nil_r (encode c_i32 ver_code)), roundtrip by apply Hm. done.
    + rewrite <- (app_nil_r (encode c_bool _)), roundtrip by done.
      rewrite roundtrip by (unfold is_i32; lia). done.
    + done.
    + rewrite <- (app_nil_r (encode c_i32 0)), roundtrip by (unfold is_i32; lia). done.
    + done.
    + done.
    + done.
    + done.
    + rewrite <- (app_nil_r (encode c_string sql)), roundtrip by by apply Hsql.
      rewrite <- (app_nil_r (concat _)), read_lines_all; [done | apply Hm |].
      rewrite app_nil_r. pose proof (concat_lines_length (rows sql ++ [[]])) as Hl. rewrite length_app in Hl. simpl in Hl |- *. lia.
  - intros Hn. assert (is_barrier c = false) as Hb by (clear -Hreq; destruct a; cbn in Hreq; inversion Hreq; done).
    assert (forall create body, connect c create body = Err tt) as Hcon.
    { intros create b. pose proof (not_permitted check_client exe_attr version ver_code recovery zygisk p cred c b Hp Hb Hn) as Hs.
      unfold connect, connected. destruct (serve _ _ _ _ _ _ p _ b true) as [r calls]. destruct Hs as [Hs _].
      destruct r as [[]|]; done. }
    split.
    + unfold run. destruct a; cbn in Hreq; inversion Hreq; subst; cbn [exec]; by rewrite Hcon.
    + pose proof (not_permitted check_client exe_attr version ver_code recovery zygisk p cred c body Hp Hb Hn) as Hs.
      destruct (serve _ _ _ _ _ _ p _ body true) as [r calls]. by destruct Hs.
Qed.

Definition demo_rows (sql : bytes) : list bytes := [ #"key=zygisk|value=1"; #"key=denylist|value=0"].
Definition demo_peer (u : Z) : Peer := mkPeer (Some (mkUCred u (Some 7))) #"u:r:magisk:s0" (fun _ => Some (1, 2)).
Definition demo_run (u : Z) : MagiskAction -> logged Ran :=
  exec (connected true (1, 2) #"30.0:MAGISK:R" 30000 false true demo_rows (demo_peer u)) #"30.0" 30000 false [] true
    (fun _ _ => true) (fun _ _ => true) [] [] (fun _ => 0).

Lemma demo_messages : messages_ok #"30.0:MAGISK:R" 30000 demo_rows.
Proof.
  split; [split; [reflexivity | vm_compute; reflexivity] | unfold is_i32; lia |].
  intros sql. repeat constructor; try reflexivity; done.
Qed.

Lemma magisk_requests_witness :
  demo_run 0 (Sqlite #"SELECT * FROM settings") = Ok (mkRan 0 (demo_rows []) []) /\ demo_run 10001 (Sqlite #"SELECT * FROM settings") = Err tt.
Proof.
  assert (forall u, known true (1, 2) (demo_peer u) (mkUCred u (Some 7))) as Hk.
  { intros u. right; right; right. exists 7. done. }
  assert (forall sql, Sqlite #"SELECT * FROM settings" = Sqlite sql -> text_ok sql) as Hsql.
  { intros sql [= <-]. split; [reflexivity | vm_compute; reflexivity]. }
  split.
  - apply (magisk_requests true (1, 2) #"30.0:MAGISK:R" 30000 false true demo_rows (demo_peer 0) (mkUCred 0 (Some 7)) #"30.0" 30000 false []
      (fun _ _ => true) (fun _ _ => true) [] [] (fun _ => 0) (Sqlite #"SELECT * FROM settings") SQLITE_CMD _ eq_refl eq_refl (Hk 0) demo_messages Hsql).
    split_and!; done.
  - apply (magisk_requests true (1, 2) #"30.0:MAGISK:R" 30000 false true demo_rows (demo_peer 10001) (mkUCred 10001 (Some 7)) #"30.0" 30000 false []
      (fun _ _ => true) (fun _ _ => true) [] [] (fun _ => 0) (Sqlite #"SELECT * FROM settings") SQLITE_CMD _ eq_refl eq_refl (Hk 10001) demo_messages Hsql).
    intros (_ & H & _). specialize (H eq_refl). discriminate H.
Defined.
End Magisk.
