(* ===== verification/Logging.v ===== *)
(** core/logging.rs: the log pipe.  Processes write messages to a FIFO, and a thread of the
    daemon writes them, with a time stamp, to a buffer and later to the log file.

    A pipe keeps writes of at most [PIPE_BUF] bytes together, so what the reader sees is a
    sequence of whole messages, in some order; the theorems are about every such sequence.
    The clock is an argument. *)

From S2P Require Import Prelude Text Numeric Files.

Module Logging.
Import Files.

(** * Messages *)

Inductive LogLevel := Error | Warn | Info | Debug.

(** [ALogPriority] as an [i32]. *)
Definition ANDROID_LOG_DEBUG : Z := 3.
Definition ANDROID_LOG_INFO : Z := 4.
Definition ANDROID_LOG_WARN : Z := 5.
Definition ANDROID_LOG_ERROR : Z := 6.

Definition level_to_prio (level : LogLevel) : Z :=
  match level with Error => ANDROID_LOG_ERROR | Warn => ANDROID_LOG_WARN | Info => ANDROID_LOG_INFO | Debug => ANDROID_LOG_DEBUG end.

Record LogMeta := mkMeta { prio : Z; len : Z; pid : Z; tid : Z }.

Definition PIPE_BUF : Z := 4096.
Definition META_SIZE : Z := 16.
Definition MAX_MSG_LEN : Z := PIPE_BUF - META_SIZE.

(** [bytes_of(&meta)]. *)
Definition meta_bytes (m : LogMeta) : bytes := to_le 4 (prio m) ++ to_le 4 (len m) ++ to_le 4 (pid m) ++ to_le 4 (tid m).

Definition meta_of (b : bytes) : LogMeta :=
  let field i := swrap 32 (of_le (take 4 (drop i b))) in mkMeta (field 0%nat) (field 4%nat) (field 8%nat) (field 12%nat).

(** The bytes [write_log_to_pipe] gives to [write_vectored]. *)
Definition write_log_to_pipe (prio pid tid : Z) (msg : bytes) : bytes :=
  let len := Z.min MAX_MSG_LEN (zlen msg) in
  meta_bytes (mkMeta prio len pid tid) ++ take (Z.to_nat len) msg.

(** The request of [setup_logfile]. *)
Definition setup_logfile : bytes := meta_bytes (mkMeta (-1) 0 0 0).

(** * The client's end *)

(** [MAGISK_LOGD_FD]: after an error the pipe is given up. *)
Definition with_logd_fd (fd : option Z) (f : Z -> bool) : option Z :=
  match fd with Some logd => if f logd then fd else None | None => None end.

(** [ZYGISK_LOGD] and the descriptors that are closed. *)
Definition zygisk_close_logd (fd : Z) : Z * list Z := (-1, [fd]).

(** [opened] is the result of opening the pipe; the new value, the descriptors closed and
    the one to use. *)
Definition zygisk_get_logd (fd : Z) (opened : option Z) : Z * list Z * Z :=
  if fd <? 0 then
    match opened with
    | Some raw_fd => (raw_fd, [fd], raw_fd)
    | None => (fd, [], -1)
    end
  else (fd, [], fd).

(** [write_ok] is whether the message can be written. *)
Definition zygisk_log_to_pipe (fd : Z) (opened : option Z) (write_ok : bool) : Z * list Z * bool :=
  let '(fd, closed, use) := zygisk_get_logd fd opened in
  if use <? 0 then (fd, closed, false)
  else if write_ok then (fd, closed, true)
  else let '(fd, closed') := zygisk_close_logd fd in (fd, closed ++ closed', false).

(** * The logging daemon *)

Inductive LogFile := Buffer (b : bytes) | Actual.

(** [log] is the file at [LOGFILE], [bak] the one at LOGFILE.bak. *)
Record LogState := mkLog { logfile : LogFile; log : option bytes; bak : option bytes }.

Definition prio_char (p : Z) : option byte :=
  if p =? 2 then Some "V"%char else if p =? 3 then Some "D"%char else if p =? 4 then Some "I"%char
  else if p =? 5 then Some "W"%char else if p =? 6 then Some "E"%char else None.

(** [{:5}]: padded with blanks on the left. *)
Definition pad5 (s : bytes) : bytes := replicate (5 - length s) " "%char ++ s.

(** The time: the text of [strftime], if the local time is known and the text is UTF-8, and
    the milliseconds. *)
Record Clock := mkClock { date : option bytes; millis : Z }.

(** What [write!] puts behind the date; the buffer of 64 bytes holds all of it. *)
Definition stamp (c : Clock) (m : LogMeta) : option bytes :=
  match prio_char (prio m), date c with
  | Some ch, Some d =>
      Some (d ++ #"." ++ zero_pad 3 (fmt_dec (millis c)) ++ #" " ++ pad5 (fmt_dec (pid m)) ++ #" " ++ pad5 (fmt_dec (tid m)) ++ #" " ++ [ch] ++ #" : ")
  | _, _ => None
  end.

(** [logfile.as_write().write_vectored(..)]. *)
Definition append (s : bytes) (st : LogState) : LogState :=
  match logfile st with
  | Buffer b => mkLog (Buffer (b ++ s)) (log st) (bak st)
  | Actual => mkLog Actual (Some (default [] (log st) ++ s)) (bak st)
  end.

(** The request to move to the log file: the old file is kept once. *)
Definition switch_to_file (st : LogState) : LogState :=
  match logfile st with
  | Buffer b => mkLog Actual (Some b) (match log st with Some old => Some old | None => bak st end)
  | Actual => st
  end.

(** The body of the loop, on the bytes that are still in the pipe; [n] counts the messages.
    The result is an error when the pipe ends. *)
Fixpoint logfile_write_loop (fuel : nat) (clock : nat -> Clock) (n : nat) (pipe : bytes) (st : LogState) : LogState * io unit :=
  match fuel with
  | O => (st, Panic)
  | S fuel =>
      if zlen pipe <? META_SIZE then (st, Err UnexpectedEof) else
      let meta := meta_of (take 16 pipe) in
      let pipe := drop 16 pipe in
      if prio meta <? 0 then logfile_write_loop fuel clock n pipe (switch_to_file st)
      else if (len meta <? 0) || (MAX_MSG_LEN <? len meta) then logfile_write_loop fuel clock n pipe st
      else if zlen pipe <? len meta then (st, Err UnexpectedEof) else
      let msg := take (Z.to_nat (len meta)) pipe in
      let pipe := drop (Z.to_nat (len meta)) pipe in
      match stamp (clock n) meta with
      | Some aux => logfile_write_loop fuel clock (S n) pipe (append (aux ++ msg) st)
      | None => logfile_write_loop fuel clock (S n) pipe st
      end
  end.

(** * Lemmas *)

(** A write is never split: it fits [PIPE_BUF]. *)
Lemma write_log_bounded prio pid tid msg : zlen (write_log_to_pipe prio pid tid msg) <= PIPE_BUF.
Proof.
  unfold write_log_to_pipe, meta_bytes. rewrite !length_app, !to_le_length, length_take. unfold MAX_MSG_LEN, PIPE_BUF, META_SIZE. lia.
Qed.

Definition is_i32 (z : Z) : Prop := - 2 ^ 31 <= z < 2 ^ 31.

Lemma swrap_of_to_le z : is_i32 z -> swrap 32 (of_le (to_le 4 z)) = z.
Proof.
  intros Hz. rewrite of_to_le. unfold swrap, is_i32 in *. change (256 ^ Z.of_nat 4) with (2 ^ 32).
  rewrite Z.add_mod_idemp_l by lia. rewrite Z.mod_small; lia.
Qed.

Lemma meta_bytes_length m : length (meta_bytes m) = 16%nat.
Proof. unfold meta_bytes. by rewrite !length_app, !to_le_length. Qed.

Lemma meta_of_bytes m : is_i32 (prio m) -> is_i32 (len m) -> is_i32 (pid m) -> is_i32 (tid m) -> meta_of (meta_bytes m) = m.
Proof.
  intros H1 H2 H3 H4. destruct m as [p l i t]. cbn [prio len pid tid] in *. unfold meta_of, meta_bytes. cbn [prio len pid tid].
  pose proof (to_le_length 4 p) as L1. pose proof (to_le_length 4 l) as L2. pose proof (to_le_length 4 i) as L3. pose proof (to_le_length 4 t) as L4.
  f_equal.
  - rewrite drop_0, take_app_length' by done. by apply swrap_of_to_le.
  - rewrite drop_app_length' by done. rewrite take_app_length' by done. by apply swrap_of_to_le.
  - rewrite app_assoc, drop_app_length' by (rewrite length_app; lia). rewrite take_app_length' by done. by apply swrap_of_to_le.
  - rewrite !app_assoc, drop_app_length' by (rewrite !length_app; lia). rewrite <- (app_nil_r (to_le 4 t)), take_app_length' by done. by apply swrap_of_to_le.
Qed.

(** ** Sequences of requests *)

Inductive Request := Message (prio pid tid : Z) (msg : bytes) | Setup.

#[export] Instance Request_eq_dec : EqDecision Request.
Proof. solve_decision. Defined.

Definition request_bytes (r : Request) : bytes :=
  match r with Message prio pid tid msg => write_log_to_pipe prio pid tid msg | Setup => setup_logfile end.

Definition request_ok (r : Request) : Prop :=
  match r with Message prio pid tid _ => 0 <= prio < 2 ^ 31 /\ is_i32 pid /\ is_i32 tid | Setup => True end.

(** The line of a message, the [n]th. *)
Definition line (clock : nat -> Clock) (n : nat) (prio pid tid : Z) (msg : bytes) : bytes :=
  match stamp (clock n) (mkMeta prio 0 pid tid) with
  | Some aux => aux ++ take (Z.to_nat MAX_MSG_LEN) msg
  | None => []
  end.

Fixpoint lines (clock : nat -> Clock) (n : nat) (rs : list Request) : bytes :=
  match rs with
  | [] => []
  | Setup :: rs => lines clock n rs
  | Message prio pid tid msg :: rs => line clock n prio pid tid msg ++ lines clock (S n) rs
  end.

(** What the sequence does, request by request. *)
Fixpoint run (clock : nat -> Clock) (n : nat) (rs : list Request) (st : LogState) : LogState :=
  match rs with
  | [] => st
  | Setup :: rs => run clock n rs (switch_to_file st)
  | Message prio pid tid msg :: rs => run clock (S n) rs (append (line clock n prio pid tid msg) st)
  end.

(** A log file that is in use exists. *)
Definition log_wf (st : LogState) : Prop := logfile st = Actual -> log st <> None.

Lemma append_nil st : log_wf st -> append [] st = st.
Proof.
  intros H. destruct st as [[b|] [l|] k]; unfold append; cbn; rewrite ?app_nil_r; try done. by destruct (H eq_refl).
Qed.

Lemma append_wf s st : log_wf (append s st).
Proof. unfold log_wf, append. by destruct (logfile st). Qed.

Lemma switch_wf st : log_wf st -> log_wf (switch_to_file st).
Proof. intros H. unfold switch_to_file. destruct (logfile st); [done | exact H]. Qed.

Lemma loop_frame fuel clock n m body rest st :
  is_i32 (prio m) -> is_i32 (len m) -> is_i32 (pid m) -> is_i32 (tid m) -> len m = zlen body -> 0 <= prio m -> zlen body <= MAX_MSG_LEN -> log_wf st ->
  logfile_write_loop (S fuel) clock n (meta_bytes m ++ body ++ rest) st =
  logfile_write_loop fuel clock (S n) rest (append (match stamp (clock n) m with Some aux => aux ++ body | None => [] end) st).
Proof.
  intros H1 H2 H3 H4 Hl Hp Hm Hw. pose proof (meta_bytes_length m) as Hml. cbn [logfile_write_loop].
  rewrite length_app, Hml. rewrite (proj2 (Z.ltb_ge _ _)) by (unfold META_SIZE; lia).
  rewrite take_app_length', drop_app_length', meta_of_bytes by done. cbv zeta.
  rewrite (proj2 (Z.ltb_ge (prio m) 0)) by lia. rewrite Hl.
  rewrite (proj2 (Z.ltb_ge (zlen body) 0)) by lia. rewrite (proj2 (Z.ltb_ge MAX_MSG_LEN _)) by lia. cbn [orb].
  rewrite length_app. rewrite (proj2 (Z.ltb_ge _ _)) by lia. rewrite Nat2Z.id, take_app_length, drop_app_length.
  destruct (stamp (clock n) m); [done |]. by rewrite append_nil.
Qed.

(** The reader does what the requests say, in the order they are in the pipe. *)
Lemma loop_run fuel clock n rs st :
  Forall request_ok rs -> (length rs < fuel)%nat -> log_wf st ->
  logfile_write_loop fuel clock n (concat (map request_bytes rs)) st = (run clock n rs st, Err UnexpectedEof).
Proof.
  intros Hok. revert fuel n st. induction Hok as [|r rs Hr Hok IH]; intros fuel n st Hf Hw; (destruct fuel as [|fuel]; [simpl in Hf; lia |]); [done |].
  cbn [map concat length run] in *. destruct r as [prio pid tid msg|]; cbn [request_bytes].
  - destruct Hr as (Hp & Hi & Ht). unfold write_log_to_pipe. cbv zeta. set (l := Z.min MAX_MSG_LEN (zlen msg)).
    assert (0 <= l <= MAX_MSG_LEN) as Hl by (unfold l, MAX_MSG_LEN, PIPE_BUF, META_SIZE; lia).
    assert (zlen (take (Z.to_nat l) msg) = l) as Htl by (rewrite length_take; lia).
    rewrite <- app_assoc, loop_frame; cbn [Logging.prio Logging.len Logging.pid Logging.tid]; try done; unfold is_i32, MAX_MSG_LEN, PIPE_BUF, META_SIZE in *; try lia.
    rewrite IH by (try apply append_wf; lia). do 3 f_equal. unfold line. cbn [stamp Logging.prio Logging.pid Logging.tid].
    unfold stamp. cbn [Logging.prio Logging.pid Logging.tid]. destruct (prio_char prio), (date (clock n)); try done. f_equal.
    unfold l, MAX_MSG_LEN, PIPE_BUF, META_SIZE. destruct (decide (zlen msg <= 4096 - 16)).
    + rewrite Z.min_r by done. rewrite !take_ge by lia. done.
    + by rewrite Z.min_l by lia.
  - unfold setup_logfile. pose proof (meta_bytes_length (mkMeta (-1) 0 0 0)) as Hml. cbn [logfile_write_loop].
    rewrite length_app, Hml. rewrite (proj2 (Z.ltb_ge _ _)) by (unfold META_SIZE; lia).
    rewrite take_app_length', drop_app_length', meta_of_bytes by (done || (unfold is_i32; cbn; lia)). cbn [Logging.prio].
    change (-1 <? 0) with true. cbv iota zeta. apply IH; [lia | by apply switch_wf].
Qed.

Lemma run_actual clock n rs l k : run clock n rs (mkLog Actual (Some l) k) = mkLog Actual (Some (l ++ lines clock n rs)) k.
Proof.
  revert n l. induction rs as [|[prio pid tid msg|] rs IH]; intros n l; cbn [run lines].
  - by rewrite app_nil_r.
  - unfold append. cbn [logfile log default from_option Datatypes.id bak]. rewrite IH. by rewrite app_assoc.
  - apply IH.
Qed.

Lemma run_buffer clock n rs b o k :
  run clock n rs (mkLog (Buffer b) o k) =
    if bool_decide (Setup ∈ rs) then mkLog Actual (Some (b ++ lines clock n rs)) (match o with Some old => Some old | None => k end)
    else mkLog (Buffer (b ++ lines clock n rs)) o k.
Proof.
  revert n b. induction rs as [|[prio pid tid msg|] rs IH]; intros n b; cbn [run lines].
  - rewrite bool_decide_eq_false_2 by set_solver. by rewrite app_nil_r.
  - unfold append. cbn [logfile log bak]. rewrite IH, app_assoc. rewrite (bool_decide_ext (Setup ∈ Message prio pid tid msg :: rs) (Setup ∈ rs)); [done |]. set_solver.
  - rewrite bool_decide_eq_true_2 by set_solver. unfold switch_to_file. cbn [logfile log bak]. by rewrite run_actual.
Qed.

(** C31: whatever processes write to the log pipe, in any interleaving, no write is large
    enough to be split, and the reader turns the messages into lines in the order they
    arrive; from the first request to set up the file on, the file holds the lines of all
    messages, those before the request too, the file of the last boot is kept under its
    backup name, and further requests change nothing.  Without a request nothing touches
    the files. *)
Theorem log_file_complete clock rs old old_bak fuel :
  Forall request_ok rs -> (length rs < fuel)%nat ->
  Forall (fun r => zlen (request_bytes r) <= PIPE_BUF) rs /\
  logfile_write_loop fuel clock 0 (concat (map request_bytes rs)) (mkLog (Buffer []) old old_bak) =
    (if bool_decide (Setup ∈ rs)
     then mkLog Actual (Some (lines clock 0 rs)) (match old with Some o => Some o | None => old_bak end)
     else mkLog (Buffer (lines clock 0 rs)) old old_bak,
     Err UnexpectedEof).
Proof.
  intros Hok Hf. split.
  - apply Forall_forall. intros [prio pid tid msg|] _; cbn [request_bytes]; [apply write_log_bounded |].
    unfold setup_logfile. rewrite meta_bytes_length. done.
  - rewrite loop_run by (try done; by intros ?). rewrite run_buffer. by rewrite !app_nil_l.
Qed.

Definition demo_clock (n : nat) : Clock := mkClock (Some #"01-02 03:04:05") (Z.of_nat n).
Definition demo_requests : list Request := [Message 4 12 12 #"one "; Setup; Message 9 12 12 #"lost"; Message 6 3456 3457 #"two "].

Lemma log_file_complete_witness :
  (logfile_write_loop 9 demo_clock 0 (concat (map request_bytes demo_requests)) (mkLog (Buffer []) (Some #"old") None)).1 =
  mkLog Actual (Some #"01-02 03:04:05.000    12    12 I : one 01-02 03:04:05.002  3456  3457 E : two ") (Some #"old").
Proof.
  destruct (log_file_complete demo_clock demo_requests (Some #"old") None 9) as [_ H].
  - repeat constructor; unfold is_i32; lia.
  - simpl. lia.
  - rewrite H. vm_compute. reflexivity.
Defined.

(** The pipe of a zygote is open at most once: whatever descriptor is given up is closed,
    and only the one in use is kept. *)
Lemma zygisk_log_no_leak fd opened write_ok fd' closed ok :
  (fd <> -1 -> 0 <= fd) -> (forall o, opened = Some o -> 0 <= o) ->
  zygisk_log_to_pipe fd opened write_ok = (fd', closed, ok) ->
  (ok = true -> 0 <= fd') /\ (fd' = -1 \/ fd' = fd \/ opened = Some fd' /\ fd < 0) /\
  (0 <= fd -> fd' = fd \/ fd ∈ closed) /\ (forall o, opened = Some o -> fd < 0 -> fd' = o \/ o ∈ closed).
Proof.
  intros Hfd Ho. unfold zygisk_log_to_pipe, zygisk_get_logd, zygisk_close_logd. destruct (fd <? 0) eqn:E.
  - apply Z.ltb_lt in E. assert (fd = -1) as -> by (destruct (decide (fd = -1)) as [|H]; [done | specialize (Hfd H); lia]).
    destruct opened as [o|]; [| intros [= <- <- <-]; split_and!; naive_solver lia]. specialize (Ho o eq_refl).
    rewrite (proj2 (Z.ltb_ge _ _)) by lia. destruct write_ok; intros [= <- <- <-]; split_and!; try done; try lia; auto; intros ? [= <-]; set_solver.
  - apply Z.ltb_ge in E. rewrite (proj2 (Z.ltb_ge _ _)) by lia. destruct write_ok; intros [= <- <- <-]; split_and!; auto; try lia; set_solver.
Qed.
End Logging.
