(* ===== verification/LogStart.v ===== *)
(** core/logging.rs: where a message goes.  The backends that the programs install, the start of
    the log daemon, and how the pipe is given up after an error; Logging has the other end of
    the pipe. *)

From S2P Require Import Prelude Text Numeric CStr Files Logging.

Module LogStart.
Import CStr Logging.

Inductive Backend := Android | MagiskPipe | ZygiskPipe.

(** The Android log by priority, what was written to the pipe, the descriptors of the daemon
    and of zygisk, the backend, whether the thread that reads the pipe runs, and how many
    writes to the pipe succeed before one fails. *)
Record Sys := mkSys {
  logcat : list (Z * bytes); fifo : list bytes; logd : option Z; zlogd : Z; backend : Backend; thread : bool; good : nat
}.

Section Log.
Context (pid tid : Z) (error : bytes) (opened : option Z).

Definition android_log_write (level : LogLevel) (msg : bytes) (s : Sys) : Sys :=
  mkSys (logcat s ++ [(level_to_prio level, msg)]) (fifo s) (logd s) (zlogd s) (backend s) (thread s) (good s).

(** [write_log_to_pipe]: an error goes to the Android log, in a buffer of 256 bytes. *)
Definition pipe_error : bytes := as_str (push_str (#"Cannot write_log_to_pipe: " ++ error) (FixedBuf_new 256)).1.
Arguments pipe_error : simpl never.
Definition write_pipe (prio : Z) (msg : bytes) (s : Sys) : Sys * bool :=
  match good s with
  | S n => (mkSys (logcat s) (fifo s ++ [write_log_to_pipe prio pid tid msg]) (logd s) (zlogd s) (backend s) (thread s) n, true)
  | O => (android_log_write Error pipe_error s, false)
  end.

Definition magisk_log_to_pipe (prio : Z) (msg : bytes) (s : Sys) : Sys :=
  match logd s with
  | None => s
  | Some fd =>
      let '(s, ok) := write_pipe prio msg s in
      mkSys (logcat s) (fifo s) (with_logd_fd (Some fd) (fun _ => ok)) (zlogd s) (backend s) (thread s) (good s)
  end.

(** The descriptor is opened at the first message, and again after an error. *)
Definition zygisk_to_pipe (prio : Z) (msg : bytes) (s : Sys) : Sys :=
  let '(fd, _, use) := zygisk_get_logd (zlogd s) opened in
  if use <? 0 then mkSys (logcat s) (fifo s) (logd s) fd (backend s) (thread s) (good s) else
  let '(s, ok) := write_pipe prio msg s in
  mkSys (logcat s) (fifo s) (logd s) (if ok then fd else (zygisk_close_logd fd).1) (backend s) (thread s) (good s).

(** [android_logging], [magisk_logging] and [zygisk_logging] *)
Definition set_backend (b : Backend) (s : Sys) : Sys := mkSys (logcat s) (fifo s) (logd s) (zlogd s) b (thread s) (good s).
Definition android_logging := set_backend Android.
Definition magisk_logging := set_backend MagiskPipe.
Definition zygisk_logging := set_backend ZygiskPipe.

(** [logger.write] *)
Definition log_write (level : LogLevel) (msg : bytes) (s : Sys) : Sys :=
  let s := android_log_write level msg s in
  match backend s with
  | Android => s
  | MagiskPipe => magisk_log_to_pipe (level_to_prio level) msg s
  | ZygiskPipe => zygisk_to_pipe (level_to_prio level) msg s
  end.

(** [start_log_daemon], with the results of [chown] and of the two calls of [open]; a fifo that
    is there already is used. *)
Definition start_log_daemon (chown_ok read_ok : bool) (write : option Z) (s : Sys) : Sys :=
  if chown_ok && read_ok then
    match write with
    | Some fd => mkSys (logcat s) (fifo s) (Some fd) (zlogd s) (backend s) true (good s)
    | None => s
    end
  else s.
(** The end of the thread. *)
Definition logfile_writer_ends (s : Sys) : Sys := mkSys (logcat s) (fifo s) None (zlogd s) (backend s) false (good s).

(** * Theorems *)

Definition entry (m : LogLevel * bytes) : Z * bytes := (level_to_prio m.1, m.2).
Definition packet (m : LogLevel * bytes) : bytes := write_log_to_pipe (level_to_prio m.1) pid tid m.2.
Definition log_all (ms : list (LogLevel * bytes)) (s : Sys) : Sys := foldl (fun s m => log_write m.1 m.2 s) s ms.

Lemma log_all_down ms s :
  backend s = MagiskPipe -> logd s = None ->
  log_all ms s = mkSys (logcat s ++ map entry ms) (fifo s) None (zlogd s) MagiskPipe (thread s) (good s).
Proof.
  unfold log_all. revert s. induction ms as [|m ms IH]; intros s Hb Hd; cbn [foldl map]; [destruct s; cbn in *; subst; by rewrite app_nil_r |].
  assert (log_write m.1 m.2 s = android_log_write m.1 m.2 s) as -> by (unfold log_write, magisk_log_to_pipe; cbn; by rewrite Hb, Hd).
  rewrite IH by done. cbn. by rewrite <- app_assoc.
Qed.

(** Every message of the daemon is in the Android log, in order.  The messages before the
    first error are in the pipe, whole and in order; the error is reported once, and nothing
    is written after it. *)
Theorem log_sinks ms s fd :
  backend s = MagiskPipe -> logd s = Some fd ->
  let s' := log_all ms s in
  let k := good s in
  fifo s' = fifo s ++ map packet (take k ms) /\
  logcat s' = logcat s ++ map entry (take (S k) ms) ++ (if (k <? length ms)%nat then [(ANDROID_LOG_ERROR, pipe_error)] else []) ++ map entry (drop (S k) ms) /\
  logd s' = if (k <? length ms)%nat then None else Some fd.
Proof.
  cbv zeta. intros Hb Hd. revert s Hb Hd. induction ms as [|m ms IH]; intros s Hb Hd; [cbn; rewrite take_nil, !app_nil_r; by destruct (good s) |].
  unfold log_all in *. cbn [foldl]. destruct (good s) as [|k] eqn:Eg.
  - assert (log_write m.1 m.2 s = mkSys (logcat s ++ [entry m; (ANDROID_LOG_ERROR, pipe_error)]) (fifo s) None (zlogd s) MagiskPipe (thread s) 0) as ->.
    { unfold log_write, magisk_log_to_pipe, write_pipe. cbn. rewrite Hb, Hd, Eg. cbn. by rewrite <- app_assoc, Hb, Eg. }
    pose proof (log_all_down ms (mkSys (logcat s ++ [entry m; (ANDROID_LOG_ERROR, pipe_error)]) (fifo s) None (zlogd s) MagiskPipe (thread s) 0) eq_refl eq_refl) as H.
    unfold log_all in H. rewrite H. cbn. rewrite app_nil_r, <- app_assoc. by split_and!.
  - assert (log_write m.1 m.2 s = mkSys (logcat s ++ [entry m]) (fifo s ++ [packet m]) (Some fd) (zlogd s) MagiskPipe (thread s) k) as ->.
    { unfold log_write, magisk_log_to_pipe, write_pipe. cbn. rewrite Hb, Hd, Eg. cbn. by rewrite ?Hb. }
    destruct (IH (mkSys (logcat s ++ [entry m]) (fifo s ++ [packet m]) (Some fd) (zlogd s) MagiskPipe (thread s) k) eq_refl eq_refl) as (H1 & H2 & H3). cbn [fifo logcat good] in *.
    rewrite H1, H2, H3. cbn [take map drop length]. rewrite <- !app_assoc. by split_and!.
Qed.

(** The pipe is used exactly if the daemon could set it up, and no longer once its thread
    has ended; the Android log is not affected. *)
Theorem log_daemon_lifetime chown_ok read_ok write s :
  logd s = None ->
  let s' := start_log_daemon chown_ok read_ok write s in
  (is_Some (logd s') <-> chown_ok = true /\ read_ok = true /\ is_Some write) /\ (thread s = false -> (thread s' = true <-> is_Some (logd s'))) /\
  forall ms, backend s = MagiskPipe ->
    fifo (log_all ms (logfile_writer_ends s')) = fifo s /\ logcat (log_all ms (logfile_writer_ends s')) = logcat s ++ map entry ms.
Proof.
  intros Hd s'. subst s'. unfold start_log_daemon. split_and!.
  - destruct chown_ok, read_ok, write as [fd|]; cbn; rewrite ?Hd; split; first [by intros [? ?] | by intros (? & ? & [? ?]) | by intros _; eexists | intros _; split_and!; [done | done | by eexists]].
  - intros Ht. destruct chown_ok, read_ok, write as [fd|]; cbn; rewrite ?Hd, ?Ht; split; first [by intros [? ?] | done | by intros _; eexists].
  - intros ms Hb. rewrite log_all_down; [| destruct (chown_ok && read_ok), write; done | done]. cbn. destruct (chown_ok && read_ok), write; done.
Qed.

End Log.

Lemma log_sinks_witness :
  fifo (log_all 1 1 #"EPIPE" None [(Info, #"a"); (Warn, #"b")] (mkSys [] [] (Some 3) (-1) MagiskPipe true 1)) = [write_log_to_pipe 4 1 1 #"a"].
Proof. exact (proj1 (log_sinks 1 1 #"EPIPE" None [(Info, #"a"); (Warn, #"b")] (mkSys [] [] (Some 3) (-1) MagiskPipe true 1) 3 eq_refl eq_refl)). Defined.

Lemma log_daemon_lifetime_witness : is_Some (logd (start_log_daemon true true (Some 4) (mkSys [] [] None (-1) MagiskPipe false 9))).
Proof. exact (proj2 (proj1 (log_daemon_lifetime 1 1 #"EPIPE" None true true (Some 4) (mkSys [] [] None (-1) MagiskPipe false 9) eq_refl)) (conj eq_refl (conj eq_refl (ex_intro _ 4 eq_refl)))). Defined.

End LogStart.
