(* ===== verification/Pool.v ===== *)
(** core/thread.rs: the thread pool of the daemon, as a system of interleaved steps.

    The mutex is held from [lock] to the end of the block or to a [wait], so each
    such stretch of code is one step.  A thread that waits on a condition variable can
    be woken by a notification, spuriously, or, outside of the core pool, by its
    timeout; it then has to get the mutex again, and other steps may come in between.
    [notify_one] picks one of the waiting threads, if there is one.  Tasks are
    identified by numbers; that a task forks is not modelled. *)

From S2P Require Import Prelude.

Module Pool.

Definition CORE_POOL_SIZE : Z := 3.

(** Where a pool thread is in [pool_loop]. *)
Inductive pc :=
| Start                     (** before [lock] *)
| Waiting                   (** in [task_is_some.wait] *)
| Woken | TimedOut          (** out of the wait, without the mutex *)
| Running (task : nat)
| Dead.

(** A thread of the core pool, or one that closes after a while. *)
Abbreviation Thread := (bool * pc)%type.

(** Where a caller is in [exec_task_impl]. *)
Inductive cpc := CStart | CWait | CWoken | CDone.
Abbreviation Caller := (nat * cpc)%type.

Record State := mkState {
  idle_threads : Z; total_threads : Z; task : option nat;
  threads : list Thread; callers : list Caller; finished : list nat }.

Definition init : State := mkState 0 0 None [] [] [].

Definition is_waiting (th : Thread) : bool := match th.2 with Waiting => true | _ => false end.
Definition is_cwaiting (c : Caller) : bool := match c.2 with CWait => true | _ => false end.

(** [notify_one]: [w] is the thread that is chosen. *)
Definition notify_some (w : option nat) (ths : list Thread) : option (list Thread) :=
  match w with
  | Some i => match ths !! i with Some (c, Waiting) => Some (<[i := (c, Woken)]> ths) | _ => None end
  | None => if existsb is_waiting ths then None else Some ths
  end.

Definition notify_none (w : option nat) (cs : list Caller) : option (list Caller) :=
  match w with
  | Some j => match cs !! j with Some (t, CWait) => Some (<[j := (t, CWoken)]> cs) | _ => None end
  | None => if existsb is_cwaiting cs then None else Some cs
  end.

Inductive Event :=
| Arrive (t : nat)                          (** [exec_task] is called *)
| Submit (j : nat) (w : option nat)         (** a caller has the mutex *)
| WakeCaller (j : nat)                      (** spuriously *)
| Enter (i : nat) (w : option nat)          (** a thread has the mutex at the top of the loop *)
| Wake (i : nat)                            (** spuriously *)
| Timeout (i : nat)
| Resume (i : nat) (w : option nat)         (** a woken thread has the mutex again *)
| Expire (i : nat)                          (** a timed out thread has the mutex again *)
| Finish (i : nat).

Definition set_thread (i : nat) (th : Thread) (s : State) : State :=
  mkState (idle_threads s) (total_threads s) (task s) (<[i := th]> (threads s)) (callers s) (finished s).
Definition set_caller (j : nat) (c : Caller) (s : State) : State :=
  mkState (idle_threads s) (total_threads s) (task s) (threads s) (<[j := c]> (callers s)) (finished s).

(** [info.task.take()], [notify_one] and [idle_threads -= 1]. *)
Definition take_task (i : nat) (core : bool) (idle : Z) (w : option nat) (s : State) : option State :=
  cs ← notify_none w (callers s);
  Some (mkState (idle - 1) (total_threads s) None
    (<[i := (core, match task s with Some t => Running t | None => Start end)]> (threads s)) cs (finished s)).

(** The body of [exec_task_impl] after the loop, and the loop's test. *)
Definition submit (j t : nat) (w : option nat) (s : State) : option State :=
  match task s with
  | Some _ => Some (set_caller j (t, CWait) s)
  | None =>
      let cs := <[j := (t, CDone)]> (callers s) in
      if idle_threads s =? 0 then
        let total := total_threads s + 1 in
        Some (mkState (idle_threads s) total (Some t) (threads s ++ [(total <=? CORE_POOL_SIZE, Start)]) cs (finished s))
      else
        ths ← notify_some w (threads s);
        Some (mkState (idle_threads s) (total_threads s) (Some t) ths cs (finished s))
  end.

Definition step (e : Event) (s : State) : option State :=
  match e with
  | Arrive t =>
      Some (mkState (idle_threads s) (total_threads s) (task s) (threads s) (callers s ++ [(t, CStart)]) (finished s))
  | Submit j w =>
      match callers s !! j with
      | Some (t, CStart) | Some (t, CWoken) => submit j t w s
      | _ => None
      end
  | WakeCaller j =>
      match callers s !! j with Some (t, CWait) => Some (set_caller j (t, CWoken) s) | _ => None end
  | Enter i w =>
      match threads s !! i with
      | Some (core, Start) =>
          match task s with
          | None => Some (mkState (idle_threads s + 1) (total_threads s) None (<[i := (core, Waiting)]> (threads s)) (callers s) (finished s))
          | Some _ => take_task i core (idle_threads s + 1) w s
          end
      | _ => None
      end
  | Wake i =>
      match threads s !! i with Some (core, Waiting) => Some (set_thread i (core, Woken) s) | _ => None end
  | Timeout i =>
      match threads s !! i with Some (false, Waiting) => Some (set_thread i (false, TimedOut) s) | _ => None end
  | Resume i w =>
      match threads s !! i with Some (core, Woken) => take_task i core (idle_threads s) w s | _ => None end
  | Expire i =>
      match threads s !! i with
      | Some (core, TimedOut) =>
          Some (mkState (idle_threads s - 1) (total_threads s - 1) (task s) (<[i := (core, Dead)]> (threads s)) (callers s) (finished s))
      | _ => None
      end
  | Finish i =>
      match threads s !! i with
      | Some (core, Running t) =>
          Some (mkState (idle_threads s) (total_threads s) (task s) (<[i := (core, Start)]> (threads s)) (callers s) (t :: finished s))
      | _ => None
      end
  end.

Fixpoint run (es : list Event) (s : State) : option State :=
  match es with
  | [] => Some s
  | e :: es => s ← step e s; run es s
  end.

Inductive reachable : State -> Prop :=
| reach_init : reachable init
| reach_step e s s' : reachable s -> step e s = Some s' -> reachable s'.

(** * Counting *)

Definition b2z (b : bool) : Z := if b then 1 else 0.

Section Count.
Context {A : Type} (P : A -> bool).

Fixpoint cnt (l : list A) : Z := match l with [] => 0 | x :: l => b2z (P x) + cnt l end.

Lemma cnt_app l k : cnt (l ++ k) = cnt l + cnt k.
Proof. induction l as [|x l IH]; cbn [cnt app]; lia. Qed.

Lemma cnt_insert l i x y : l !! i = Some x -> cnt (<[i := y]> l) = cnt l - b2z (P x) + b2z (P y).
Proof.
  revert i. induction l as [|z l IH]; intros [|i]; cbn; try done.
  - intros [= ->]. lia.
  - intros H. rewrite IH by done. lia.
Qed.

Lemma cnt_nonneg l : 0 <= cnt l.
Proof. induction l; cbn [cnt]; [lia |]. destruct (P a); cbn; lia. Qed.

Lemma cnt_elem l i x : l !! i = Some x -> b2z (P x) <= cnt l.
Proof.
  revert i. induction l as [|y l IH]; intros [|i]; cbn; try done.
  - intros [= ->]. pose proof (cnt_nonneg l). lia.
  - intros H%IH. destruct (P y); cbn [b2z]; lia.
Qed.

Lemma cnt_pos l : 0 < cnt l -> exists i x, l !! i = Some x /\ P x = true.
Proof.
  induction l as [|x l IH]; cbn [cnt]; [lia |]. destruct (P x) eqn:E; cbn [b2z].
  - intros _. by exists 0%nat, x.
  - intros H. destruct IH as (i & y & Hy & HP); [lia |]. by exists (S i), y.
Qed.
End Count.

Lemma notify_some_cnt (P : Thread -> bool) w ths ths' :
  (forall c, P (c, Woken) = P (c, Waiting)) -> notify_some w ths = Some ths' -> cnt P ths' = cnt P ths.
Proof.
  intros HP. unfold notify_some. destruct w as [i|]; [| destruct (existsb _ _); by intros [= ->]].
  destruct (ths !! i) as [[c []]|] eqn:E; try done. intros [= <-]. rewrite (cnt_insert P _ _ _ _ E), HP. lia.
Qed.

Lemma notify_none_cnt (P : Caller -> bool) w cs cs' :
  (forall t, P (t, CWoken) = P (t, CWait)) -> notify_none w cs = Some cs' -> cnt P cs' = cnt P cs.
Proof.
  intros HP. unfold notify_none. destruct w as [i|]; [| destruct (existsb _ _); by intros [= ->]].
  destruct (cs !! i) as [[c []]|] eqn:E; try done. intros [= <-]. rewrite (cnt_insert P _ _ _ _ E), HP. lia.
Qed.

(** * The invariant *)

Definition is_idle (th : Thread) : bool := match th.2 with Waiting | Woken | TimedOut => true | _ => false end.
Definition is_core (th : Thread) : bool := th.1.
Definition is_live (th : Thread) : bool := match th.2 with Dead => false | _ => true end.
Definition is_extra (th : Thread) : bool := negb th.1 && is_live th.
(** A core thread that is leaving the pool. *)
Definition is_leaving (th : Thread) : bool := th.1 && match th.2 with Dead | TimedOut => true | _ => false end.
Definition runs (t : nat) (th : Thread) : bool := match th.2 with Running t' => Nat.eqb t t' | _ => false end.
Definition handed_over (t : nat) (c : Caller) : bool := match c.2 with CDone => Nat.eqb t c.1 | _ => false end.
Definition pending (t : nat) (o : option nat) : bool := match o with Some t' => Nat.eqb t t' | None => false end.

Record Inv (s : State) : Prop := {
  inv_idle : idle_threads s = cnt is_idle (threads s);
  inv_total : total_threads s = cnt is_core (threads s) + cnt is_extra (threads s);
  inv_core : cnt is_core (threads s) = Z.min CORE_POOL_SIZE (total_threads s);
  inv_stay : cnt is_leaving (threads s) = 0;
  inv_tasks t :
    cnt (handed_over t) (callers s) =
    b2z (pending t (task s)) + cnt (runs t) (threads s) + cnt (Nat.eqb t) (finished s);
  inv_served : task s <> None -> 0 < total_threads s }.

Lemma Inv_init : Inv init.
Proof. by split. Qed.

(** One thread changes its place and nothing else is counted differently. *)
Lemma Inv_thread i th th' s idle' total' task' callers' finished' :
  Inv s -> threads s !! i = Some th -> is_core th' = is_core th ->
  idle' = idle_threads s - b2z (is_idle th) + b2z (is_idle th') ->
  total' = total_threads s - b2z (is_extra th) + b2z (is_extra th') ->
  Z.min CORE_POOL_SIZE total' = Z.min CORE_POOL_SIZE (total_threads s) ->
  is_leaving th' = false ->
  (forall t, cnt (handed_over t) callers' + b2z (pending t (task s)) + b2z (runs t th) + cnt (Nat.eqb t) (finished s) =
    cnt (handed_over t) (callers s) + b2z (pending t task') + b2z (runs t th') + cnt (Nat.eqb t) finished') ->
  (task' <> None -> 0 < total') ->
  Inv (mkState idle' total' task' (<[i := th']> (threads s)) callers' finished').
Proof.
  intros [I1 I2 I3 I4 I5 I6] Hi Hcore -> -> Hmin Hst Ht Hs.
  split; cbn [idle_threads total_threads task threads callers finished]; rewrite ?(cnt_insert _ _ _ _ _ Hi).
  - lia.
  - rewrite Hcore. lia.
  - rewrite Hcore. lia.
  - rewrite Hst. pose proof (cnt_nonneg is_leaving (<[i := th']> (threads s))) as Hn.
    rewrite (cnt_insert _ _ _ _ _ Hi), Hst in Hn. destruct (is_leaving th); cbn [b2z] in *; lia.
  - intros t. specialize (I5 t). specialize (Ht t). rewrite (cnt_insert _ _ _ _ _ Hi). lia.
  - exact Hs.
Qed.

Lemma Inv_same_threads s task' callers' ths' :
  Inv s ->
  (forall P : Thread -> bool, (forall c, P (c, Woken) = P (c, Waiting)) -> cnt P ths' = cnt P (threads s)) ->
  (forall t, cnt (handed_over t) callers' + b2z (pending t (task s)) = cnt (handed_over t) (callers s) + b2z (pending t task')) ->
  (task' <> None -> 0 < total_threads s) ->
  Inv (mkState (idle_threads s) (total_threads s) task' ths' callers' (finished s)).
Proof.
  intros [I1 I2 I3 I4 I5 I6] Hc Ht Hs. split; cbn [idle_threads total_threads task threads callers finished].
  5: intros t; specialize (I5 t); specialize (Ht t). 1-5: rewrite !Hc by done; lia. exact Hs.
Qed.

Lemma not_leaving s i th : Inv s -> threads s !! i = Some th -> is_leaving th = false.
Proof.
  intros HI Hi. pose proof (inv_stay s HI). pose proof (cnt_elem is_leaving _ _ _ Hi). destruct (is_leaving th); cbn [b2z] in *; [lia | done].
Qed.

Lemma Inv_take_task i core (th : Thread) idle w s s' :
  Inv s -> threads s !! i = Some th -> th = (core, Start) \/ th = (core, Woken) ->
  idle = idle_threads s + 1 - b2z (is_idle th) ->
  take_task i core idle w s = Some s' -> Inv s'.
Proof.
  intros HI Hi Hth ->. unfold take_task. destruct (notify_none w (callers s)) as [cs|] eqn:En; [| done].
  cbn [mbind option_bind]. intros [= <-].
  assert (is_core th = core /\ is_extra th = negb core /\ forall t, runs t th = false) as (Hc & Hx & Hr)
    by (destruct Hth as [-> | ->]; by destruct core).
  apply (Inv_thread i th); auto.
  - destruct (task s); cbn; lia.
  - rewrite Hx. destruct (task s), core; cbn; lia.
  - destruct (task s), core; done.
  - intros t. rewrite Hr. erewrite notify_none_cnt; [| | exact En]; [| done].
    destruct (task s); cbn [pending runs b2z snd]; cbn; lia.
  - done.
Qed.

Lemma Inv_submit j t w s s' (c : Caller) :
  Inv s -> callers s !! j = Some c -> c.1 = t -> c.2 <> CDone -> submit j t w s = Some s' -> Inv s'.
Proof.
  intros HI Hj Hc1 Hc2. unfold submit.
  assert (forall u, handed_over u c = false) as Hc by (intros u; destruct c as [? []]; done).
  destruct (task s) as [t'|] eqn:Et.
  - intros [= <-]. apply Inv_same_threads; [done | done | | intros _; apply (inv_served s HI); by rewrite Et].
    intros u. rewrite (cnt_insert _ _ _ _ _ Hj), Hc, Et. cbn. lia.
  - destruct (Z.eqb_spec (idle_threads s) 0) as [H0|H0].
    + intros [= <-]. pose proof HI as [I1 I2 I3 I4 I5 I6].
      pose proof (cnt_nonneg is_extra (threads s)). pose proof (cnt_nonneg is_core (threads s)).
      unfold CORE_POOL_SIZE in *.
      split; cbn [idle_threads total_threads task threads callers finished]; rewrite ?cnt_app; cbn [cnt is_idle is_core is_extra is_leaving is_live fst snd andb].
      * cbn. lia.
      * destruct (Z.leb_spec (total_threads s + 1) 3); cbn [b2z negb andb is_extra is_live fst snd]; lia.
      * unfold CORE_POOL_SIZE. destruct (Z.leb_spec (total_threads s + 1) 3); cbn [b2z negb andb is_extra is_live fst snd]; lia.
      * destruct (total_threads s + 1 <=? 3); cbn; lia.
      * intros u. specialize (I5 u). rewrite cnt_app, (cnt_insert _ _ _ _ _ Hj), Hc, I5, Et. cbn. lia.
      * intros _. lia.
    + destruct (notify_some w (threads s)) as [ths|] eqn:En; [| done]. cbn [mbind option_bind]. intros [= <-].
      apply Inv_same_threads; [done | intros P HP; by eapply notify_some_cnt | |].
      * intros u. rewrite (cnt_insert _ _ _ _ _ Hj), Hc, Et. cbn. lia.
      * intros _. pose proof (inv_idle s HI). pose proof (cnt_nonneg is_idle (threads s)).
        pose proof (inv_total s HI). pose proof (cnt_nonneg is_extra (threads s)). pose proof (cnt_nonneg is_core (threads s)).
        destruct (cnt_pos is_idle (threads s)) as (i & th & Hi & Hth); [lia |].
        pose proof (cnt_elem is_core _ _ _ Hi). pose proof (cnt_elem is_extra _ _ _ Hi).
        destruct th as [[] []]; cbn in *; try done; lia.
Qed.

Lemma Inv_step e s s' : Inv s -> step e s = Some s' -> Inv s'.
Proof.
  intros HI. destruct e as [t|j w|j|i w|i|i|i w|i|i]; cbn [step].
  - intros [= <-]. apply Inv_same_threads; [done | done | | apply HI].
    intros u. rewrite cnt_app. cbn. lia.
  - destruct (callers s !! j) as [[t []]|] eqn:Ej; try done; by eapply Inv_submit.
  - destruct (callers s !! j) as [[t []]|] eqn:Ej; try done. intros [= <-].
    apply Inv_same_threads; [done | done | | apply HI]. intros u. rewrite (cnt_insert _ _ _ _ _ Ej). cbn. lia.
  - destruct (threads s !! i) as [[core []]|] eqn:Ei; try done. destruct (task s) eqn:Et.
    + intros H. eapply (Inv_take_task i core (core, Start)); [done | done | by left | | exact H]. cbn. lia.
    + intros [= <-]. apply (Inv_thread i (core, Start)); auto; try done; destruct core; cbn; try lia; try done.
      all: intros t; rewrite Et; cbn; lia.
  - destruct (threads s !! i) as [[core []]|] eqn:Ei; try done. intros [= <-].
    apply (Inv_thread i (core, Waiting)); auto; try apply HI; destruct core; cbn; try lia; done.
  - destruct (threads s !! i) as [[[] []]|] eqn:Ei; try done. intros [= <-].
    apply (Inv_thread i (false, Waiting)); auto; try apply HI; cbn; try lia; done.
  - destruct (threads s !! i) as [[core []]|] eqn:Ei; try done.
    intros H. eapply (Inv_take_task i core (core, Woken)); [done | done | by right | | exact H]. cbn. lia.
  - destruct (threads s !! i) as [[core []]|] eqn:Ei; try done. intros [= <-].
    pose proof (not_leaving _ _ _ HI Ei) as Hl. destruct core; [done |].
    pose proof (cnt_elem is_extra _ _ _ Ei) as Hx. cbn in Hx. pose proof HI as [_ I2 I3 _ _ I6]. unfold CORE_POOL_SIZE in *.
    pose proof (cnt_nonneg is_core (threads s)).
    apply (Inv_thread i (false, TimedOut)); auto; cbn; try lia; try done. unfold CORE_POOL_SIZE. lia.
  - destruct (threads s !! i) as [[core []]|] eqn:Ei; try done. intros [= <-].
    apply (Inv_thread i (core, Running task0)); auto; try apply HI; destruct core; cbn; try lia; try done.
Qed.

Lemma reachable_Inv s : reachable s -> Inv s.
Proof. induction 1; eauto using Inv_init, Inv_step. Qed.

(** ** A pending task is looked after *)

(** Waiting threads only while someone else is on the way to take the task. *)
Definition on_the_way (th : Thread) : bool := match th.2 with Start | Woken => true | _ => false end.
Definition attended (s : State) : Prop :=
  task s <> None -> 0 < cnt is_waiting (threads s) -> 0 < cnt on_the_way (threads s).

Lemma existsb_cnt {A} (P : A -> bool) l : existsb P l = true <-> 0 < cnt P l.
Proof.
  induction l as [|x l IH]; cbn [existsb cnt]; [split; [done | lia] |].
  pose proof (cnt_nonneg P l). destruct (P x); cbn [orb b2z]; [split; [lia | done] |]. rewrite IH. lia.
Qed.

(** A thread that changes its place while a task is pending. *)
Lemma attended_thread i (th th' : Thread) s idle' total' callers' finished' :
  attended s -> threads s !! i = Some th ->
  b2z (is_waiting th') <= b2z (is_waiting th) -> b2z (on_the_way th) <= b2z (on_the_way th') ->
  attended (mkState idle' total' (task s) (<[i := th']> (threads s)) callers' finished').
Proof.
  intros Ha Hi H1 H2 Ht. cbn in *. rewrite !(cnt_insert _ _ _ _ _ Hi). specialize (Ha Ht). lia.
Qed.

Lemma attended_submit j t w s s' :
  attended s -> submit j t w s = Some s' -> attended s'.
Proof.
  intros Ha. unfold submit. destruct (task s) eqn:Et.
  { intros [= <-]. intros _. cbn. apply Ha. by rewrite Et. }
  destruct (idle_threads s =? 0).
  - intros [= <-] _. cbn. rewrite !cnt_app. cbn. pose proof (cnt_nonneg on_the_way (threads s)). lia.
  - unfold notify_some. destruct w as [i|].
    + destruct (threads s !! i) as [[c []]|] eqn:Ei; try done. cbn [mbind option_bind]. intros [= <-] _ _. cbn.
      rewrite (cnt_insert _ _ _ _ _ Ei). cbn. pose proof (cnt_nonneg on_the_way (threads s)). lia.
    + destruct (existsb is_waiting (threads s)) eqn:Ex; [done |]. cbn [mbind option_bind]. intros [= <-] _. cbn.
      intros H%existsb_cnt. congruence.
Qed.

Lemma attended_step e s s' : attended s -> step e s = Some s' -> attended s'.
Proof.
  intros Ha.
  assert (forall i core idle w, take_task i core idle w s = Some s' -> attended s') as Htake.
  { intros i core idle w. unfold take_task. destruct (notify_none w (callers s)); [| done].
    cbn [mbind option_bind]. by intros [= <-] ?. }
  destruct e as [t|j w|j|i w|i|i|i w|i|i]; cbn [step].
  - intros [= <-]. exact Ha.
  - destruct (callers s !! j) as [[t []]|]; try done; by apply attended_submit.
  - destruct (callers s !! j) as [[t []]|]; try done. intros [= <-]. exact Ha.
  - destruct (threads s !! i) as [[core []]|]; try done. destruct (task s); [apply Htake |]. by intros [= <-] ?.
  - destruct (threads s !! i) as [[core []]|] eqn:Ei; try done. intros [= <-].
    eapply attended_thread; [done | exact Ei | cbn; lia | cbn; lia].
  - destruct (threads s !! i) as [[[] []]|] eqn:Ei; try done. intros [= <-].
    eapply attended_thread; [done | exact Ei | cbn; lia | cbn; lia].
  - destruct (threads s !! i) as [[core []]|]; try done. apply Htake.
  - destruct (threads s !! i) as [[core []]|] eqn:Ei; try done. intros [= <-].
    eapply attended_thread; [done | exact Ei | cbn; lia | cbn; lia].
  - destruct (threads s !! i) as [[core []]|] eqn:Ei; try done. intros [= <-].
    eapply attended_thread; [done | exact Ei | cbn; lia | cbn; lia].
Qed.

Lemma reachable_attended s : reachable s -> attended s.
Proof. induction 1; [done | by eapply attended_step]. Qed.

Lemma notify_none_possible cs : exists w cs', notify_none w cs = Some cs'.
Proof.
  destruct (existsb is_cwaiting cs) eqn:E; [| exists None, cs; cbn; by rewrite E].
  apply existsb_cnt, cnt_pos in E as (j & [t []] & Hj & Hw); try done.
  exists (Some j). cbn. rewrite Hj. eauto.
Qed.

(** The thread takes the task in its next step. *)
Lemma take_pending i core idle s t :
  task s = Some t -> (i < length (threads s))%nat ->
  exists w s', take_task i core idle w s = Some s' /\ threads s' !! i = Some (core, Running t).
Proof.
  intros Ht Hi. destruct (notify_none_possible (callers s)) as (w & cs & Hw). exists w. unfold take_task. rewrite Hw, Ht.
  eexists. split; [done |]. cbn. by rewrite list_lookup_insert_eq.
Qed.

(** What the thread [i] has to do to run a pending task: go on, or finish first. *)
Definition picks_up (i : nat) (w : option nat) : list (list Event) :=
  [[Enter i w]; [Resume i w]; [Finish i; Enter i w]].

Lemma pending_picked_up s t :
  reachable s -> task s = Some t ->
  exists i w es s', es ∈ picks_up i w /\ run es s = Some s' /\ exists core, threads s' !! i = Some (core, Running t).
Proof.
  intros Hr Ht. pose proof (reachable_Inv s Hr) as HI. pose proof (reachable_attended s Hr) as Ha.
  destruct (decide (0 < cnt on_the_way (threads s))) as [Hw|Hw].
  - apply cnt_pos in Hw as (i & [core p] & Hi & Hp). pose proof (lookup_lt_Some _ _ _ Hi) as Hl.
    destruct p; try done.
    + destruct (take_pending i core (idle_threads s + 1) s t Ht Hl) as (w & s' & Hs & Hrun).
      exists i, w, [Enter i w], s'. unfold picks_up. split; [set_solver |]. cbn. rewrite Hi, Ht, Hs. cbn. eauto.
    + destruct (take_pending i core (idle_threads s) s t Ht Hl) as (w & s' & Hs & Hrun).
      exists i, w, [Resume i w], s'. unfold picks_up. split; [set_solver |]. cbn. rewrite Hi, Hs. cbn. eauto.
  - assert (cnt is_waiting (threads s) = 0) as Hw0.
    { pose proof (cnt_nonneg is_waiting (threads s)). unfold attended in Ha. rewrite Ht in Ha.
      specialize (Ha ltac:(done)). lia. }
    pose proof (inv_served s HI) as Htot. rewrite Ht in Htot. specialize (Htot ltac:(done)).
    pose proof (inv_core s HI) as Hc. unfold CORE_POOL_SIZE in Hc.
    destruct (cnt_pos is_core (threads s)) as (i & [core p] & Hi & Hp); [lia |]. cbn in Hp. subst core.
    pose proof (cnt_elem is_waiting _ _ _ Hi). pose proof (cnt_elem on_the_way _ _ _ Hi).
    pose proof (not_leaving s i _ HI Hi). pose proof (lookup_lt_Some _ _ _ Hi) as Hl.
    destruct p as [| | | |u|]; cbn in *; try lia; try done.
    set (s1 := mkState (idle_threads s) (total_threads s) (task s) (<[i := (true, Start)]> (threads s)) (callers s) (u :: finished s)).
    destruct (take_pending i true (idle_threads s1 + 1) s1 t Ht) as (w & s' & Hs & Hrun).
    { cbn. by rewrite length_insert. }
    exists i, w, [Finish i; Enter i w], s'. unfold picks_up. split; [set_solver |].
    assert (step (Finish i) s = Some s1) as Hf by (cbn; by rewrite Hi).
    assert (step (Enter i w) s1 = Some s') as He.
    { cbn [step]. assert (threads s1 !! i = Some (true, Start)) as -> by (cbn; by rewrite list_lookup_insert_eq).
      assert (task s1 = Some t) as -> by exact Ht. exact Hs. }
    cbn [run]. rewrite Hf. cbn [mbind option_bind]. rewrite He. cbn [mbind option_bind]. eauto.
Qed.

Lemma live_split l : cnt is_leaving l = 0 -> cnt is_live l = cnt is_core l + cnt is_extra l.
Proof.
  induction l as [|[c p] l IH]; [done |]. cbn [cnt]. pose proof (cnt_nonneg is_leaving l).
  intros H0. assert (cnt is_leaving l = 0) as Hl by (destruct (is_leaving (c, p)); cbn [b2z] in H0; lia).
  specialize (IH Hl). destruct c, p; cbn in *; lia.
Qed.

(** C12: in every interleaving the pool keeps its books and its tasks.  The counters are
    the numbers of idle and of live threads, the first three threads form the core pool
    and never leave it, every task that was handed over is in exactly one place (in the
    slot, running, or finished, as often as it was handed over), and a task in the slot
    can always be picked up by a thread that just goes on or that finishes what it is
    running. *)
Theorem pool_invariant s :
  reachable s ->
  idle_threads s = cnt is_idle (threads s) /\ total_threads s = cnt is_live (threads s) /\
  cnt is_core (threads s) = Z.min 3 (total_threads s) /\ cnt is_leaving (threads s) = 0 /\
  (forall t, cnt (handed_over t) (callers s) =
     b2z (pending t (task s)) + cnt (runs t) (threads s) + cnt (Nat.eqb t) (finished s)) /\
  (forall t, task s = Some t ->
     exists i w es s', es ∈ picks_up i w /\ run es s = Some s' /\ exists core, threads s' !! i = Some (core, Running t)).
Proof.
  intros Hr. pose proof (reachable_Inv s Hr) as [I1 I2 I3 I4 I5 I6]. split_and!; try done.
  - by rewrite live_split.
  - intros t. by apply pending_picked_up.
Qed.

(** Three sessions occupy the core pool, a fourth thread has served a request and waits;
    its timeout fires just before the fifth request is submitted. *)
Definition lost_wakeup_events : list Event :=
  [Arrive 1; Submit 0 None; Enter 0 None; Arrive 2; Submit 1 None; Enter 1 None; Arrive 3; Submit 2 None; Enter 2 None;
   Arrive 4; Submit 3 None; Enter 3 None; Finish 3; Enter 3 None; Timeout 3;
   Arrive 5; Submit 4 None; Expire 3].

Lemma run_reachable es s s' : reachable s -> run es s = Some s' -> reachable s'.
Proof.
  revert s. induction es as [|e es IH]; intros s Hr; cbn [run]; [by intros [= <-] |].
  destruct (step e s) as [s1|] eqn:E; [| done]. apply IH. by eapply reach_step.
Qed.

Lemma pool_invariant_witness :
  exists s, run (take 17 lost_wakeup_events) init = Some s /\ idle_threads s = 1 /\ total_threads s = 4.
Proof.
  destruct (run (take 17 lost_wakeup_events) init) as [s|] eqn:E; [| vm_compute in E; discriminate].
  exists s. split; [done |]. destruct (pool_invariant s) as (-> & -> & _).
  - eapply run_reachable; [apply reach_init | exact E].
  - vm_compute in E. injection E as <-. split; reflexivity.
Defined.

(** All threads are busy or gone. *)
Definition is_busy (th : Thread) : bool := match th.2 with Running _ | Dead => true | _ => false end.
Definition is_finish (e : Event) : bool := match e with Finish _ => true | _ => false end.


Lemma starved_step e s s' t :
  is_finish e = false -> task s = Some t -> forallb is_busy (threads s) = true -> step e s = Some s' ->
  task s' = Some t /\ threads s' = threads s.
Proof.
  intros He Ht Hb.
  assert (forall i th, threads s !! i = Some th -> is_busy th = true) as Hth.
  { intros i th Hi%list_elem_of_lookup_2. rewrite forallb_forall in Hb. by apply Hb, list_elem_of_In. }
  destruct e as [u|j w|j|i w|i|i|i w|i|i]; cbn [step]; try done.
  - by intros [= <-].
  - unfold submit. rewrite Ht. destruct (callers s !! j) as [[u []]|]; try done; by intros [= <-].
  - destruct (callers s !! j) as [[u []]|]; try done. by intros [= <-].
  - destruct (threads s !! i) as [[c []]|] eqn:E; try done; apply Hth in E; done.
  - destruct (threads s !! i) as [[c []]|] eqn:E; try done; apply Hth in E; done.
  - destruct (threads s !! i) as [[[] []]|] eqn:E; try done; apply Hth in E; done.
  - destruct (threads s !! i) as [[c []]|] eqn:E; try done; apply Hth in E; done.
  - destruct (threads s !! i) as [[c []]|] eqn:E; try done; apply Hth in E; done.
Qed.

(** the timeout of an idle thread can swallow a task.  There is an execution after
    which a task is in the slot, no thread is waiting for it and none was created for
    it: the only idle thread had timed out when the task was submitted and closes
    without looking.  From there the task is not run, and no further one can be handed
    over, until one of the other tasks ends. *)
Theorem timeout_swallows_wakeup :
  exists s t, run lost_wakeup_events init = Some s /\ task s = Some t /\
  forall es s', Forall (fun e => is_finish e = false) es -> run es s = Some s' ->
    task s' = Some t /\ cnt (runs t) (threads s') = 0 /\
    forall j w s'', step (Submit j w) s' = Some s'' -> exists c, callers s'' !! j = Some (c, CWait).
Proof.
  destruct (run lost_wakeup_events init) as [s|] eqn:E; [| vm_compute in E; discriminate].
  exists s, 5%nat. split; [done |].
  assert (task s = Some 5%nat /\ forallb is_busy (threads s) = true /\ cnt (runs 5) (threads s) = 0) as (Ht & Hb & Hc)
    by (vm_compute in E; injection E as <-; done).
  clear E. split; [done |]. intros es. revert s Ht Hb Hc. induction es as [|e es IH]; intros s Ht Hb Hc s' Hf; cbn [run].
  - intros [= <-]. split_and!; [done.. |]. intros j w s''. cbn [step]. unfold submit. rewrite Ht.
    destruct (callers s !! j) as [[u []]|] eqn:Ej; try done; intros [= <-]; exists u; cbn;
      apply list_lookup_insert_eq; by eapply lookup_lt_Some.
  - apply Forall_cons in Hf as [He Hf]. destruct (step e s) as [s1|] eqn:Es; [| done]. cbn [mbind option_bind].
    destruct (starved_step e s s1 5 He Ht Hb Es) as [Ht1 Hth]. apply IH; [done | by rewrite Hth.. | done].
Qed.
End Pool.
