(* ===== verification/Payload.v ===== *)
(** boot/payload.rs: the extraction of a partition image from a full OTA payload.

    The manifest is a message of boot/proto/update_metadata.proto; its parser is generated
    when the program is built and is a parameter, [from_reader].  So is the decompressor
    that boot/compress.rs selects for a blob, [decode]: the bytes it gives before it
    ends, and whether it ends without an error.  Each write to the output file succeeds;
    what the file holds is part of the result also when the extraction fails.  Lengths are
    those of a 64-bit target. *)

From S2P Require Import Prelude Text Numeric Files.

Module Payload.
Import Files.

(** * The manifest *)

Record Extent := mkExtent { start_block : option Z; num_blocks : option Z }.

Inductive Type_ :=
| REPLACE | REPLACE_BZ | MOVE | BSDIFF | SOURCE_COPY | SOURCE_BSDIFF | REPLACE_XZ | ZERO | DISCARD
| BROTLI_BSDIFF | PUFFDIFF | ZUCCHINI | LZ4DIFF_BSDIFF | LZ4DIFF_PUFFDIFF.

Record InstallOperation := mkOperation {
  type_pb : Type_; data_offset : option Z; data_length : option Z; dst_extents : list Extent }.

Record PartitionUpdate := mkPartition { partition_name : bytes; operations : list InstallOperation }.

Record DeltaArchiveManifest := mkManifest {
  block_size : option Z; minor_version : option Z; partitions : list PartitionUpdate }.

Definition get_block_size (m : DeltaArchiveManifest) : Z := default 4096 (block_size m).
Definition get_minor_version (m : DeltaArchiveManifest) : Z := default 0 (minor_version m).

(** * Errors *)

(** [bad_payload!], the errors of [?] on the input and on the manifest, and a file that
    cannot be opened. *)
Inductive PayloadError := Bad (msg : bytes) | Io (e : IoError) | BadManifest | CannotOpen (path : bytes) | CannotWrite (path : bytes).

Definition lift {A} (m : io A) : res PayloadError A :=
  match m with Ok a => Ok a | Err e => Err (Io e) | Panic => Panic end.

Definition or_bad {A} (msg : bytes) (o : option A) : res PayloadError A := of_option (Bad msg) o.

(** * The output file *)

(** [write] at a position: a gap behind the end of the file reads as zeros. *)
Definition write_at (w : Z * bytes) (out : bytes) : bytes :=
  match w.2 with
  | [] => out
  | _ => take (Z.to_nat w.1) (out ++ replicate (Z.to_nat w.1 - length out) (bof 0)) ++ w.2 ++ drop (Z.to_nat w.1 + length w.2) out
  end.

Definition write_all (d : bytes) (f : File) : File :=
  mkFile (write_at (offset f, d) (contents f)) (offset f + zlen d).

(** [WriteExt::write_zeros]. *)
Fixpoint zeros_loop (fuel : nat) (len : Z) (f : File) : File :=
  match fuel with
  | O => f
  | S fuel =>
      if 0 <? len then
        let l := Z.min 4096 len in zeros_loop fuel (len - l) (write_all (replicate (Z.to_nat l) (bof 0)) f)
      else f
  end.

Definition write_zeros (len : Z) (f : File) : File := zeros_loop (S (Z.to_nat len)) len f.

(** * Extraction *)

Definition PAYLOAD_MAGIC : bytes := #"CrAU".

(** [vec![0; n]] and [resize] abort when the size exceeds [isize::MAX]. *)
Definition alloc {A} (n : Z) (k : res PayloadError A) : res PayloadError A := if n <? 2 ^ 63 then k else Panic.

Section Extract.
Context (oc : bool) (seekable : bool) (from_reader : bytes -> option DeltaArchiveManifest) (decode : bytes -> bytes * bool).

(** [ReadSeekExt::skip]; a pipe cannot seek. *)
Definition reader_skip (len : Z) (f : File) : res PayloadError File :=
  lift (if seekable then seek_skip len f else skip len f).

(** [read_u64::<BigEndian>] and [read_u32::<BigEndian>]. *)
Definition read_be (n : Z) (f : File) : res PayloadError (Z * File) :=
  '(b, f) ← lift (read_exact n f); Ok (of_be b, f).

Definition find_partition (name : bytes) (m : DeltaArchiveManifest) : option PartitionUpdate :=
  List.find (fun p => bool_decide (partition_name p = name)) (partitions m).

Definition select_partition (name : option bytes) (m : DeltaArchiveManifest) : res PayloadError PartitionUpdate :=
  match name with
  | None =>
      or_bad #"boot partition not found"
        (match find_partition #"init_boot" m with Some boot => Some boot | None => find_partition #"boot" m end)
  | Some name => or_bad (#"partition '" ++ name ++ #"' not found") (find_partition name m)
  end.

(** One extent of a [ZERO] operation: the output file, and whether the loop goes on. *)
Definition zero_extent (bs : Z) (out : File) (ext : Extent) : File * res PayloadError unit :=
  let place :=
    sb ← or_bad #"start block not found" (start_block ext);
    out_seek ← u_arith oc 64 (sb * bs);
    n ← or_bad #"num blocks not found" (num_blocks ext);
    out ← lift (seek (Start out_seek) out);
    Ok (n, out) in
  match place with
  | Ok (n, out) => (write_zeros n out, Ok tt)
  | Err e => (out, Err e)
  | Panic => (out, Panic)
  end.

Fixpoint zero_extents (bs : Z) (out : File) (exts : list Extent) : File * res PayloadError unit :=
  match exts with
  | [] => (out, Ok tt)
  | ext :: exts =>
      match zero_extent bs out ext with
      | (out, Ok _) => zero_extents bs out exts
      | r => r
      end
  end.

(** The body of the loop up to the output: the reader, [curr_data_offset], the data and
    [out_offset]. *)
Definition read_operation (bs : Z) (reader : File) (curr : Z) (op : InstallOperation) : res PayloadError (File * Z * bytes * Z) :=
  len ← or_bad #"data length not found" (data_length op);
  off ← or_bad #"data offset not found" (data_offset op);
  alloc len (
  sk ← u_arith oc 64 (off - curr);
  reader ← reader_skip sk reader;
  '(data, reader) ← lift (read_exact len reader);
  curr ← u_arith oc 64 (off + len);
  ext ← or_bad #"dst extents not found" (head (dst_extents op));
  sb ← or_bad #"start block not found" (start_block ext);
  out_offset ← u_arith oc 64 (sb * bs);
  Ok (reader, curr, data, out_offset)).

(** The output of the operation. *)
Definition write_operation (bs : Z) (op : InstallOperation) (data : bytes) (out_offset : Z) (out : File) : File * res PayloadError unit :=
  match type_pb op with
  | REPLACE =>
      match lift (seek (Start out_offset) out) with
      | Ok out => (write_all data out, Ok tt)
      | Err e => (out, Err e)
      | Panic => (out, Panic)
      end
  | ZERO => zero_extents bs out (dst_extents op)
  | REPLACE_BZ | REPLACE_XZ =>
      match lift (seek (Start out_offset) out) with
      | Ok out => let '(d, ok) := decode data in (write_all d out, if ok : bool then Ok tt else Err (Bad #"decompression failed"))
      | Err e => (out, Err e)
      | Panic => (out, Panic)
      end
  | _ => (out, Err (Bad #"unsupported operation type"))
  end.

(** The body of the loop: the output file, and the reader with [curr_data_offset]. *)
Definition run_operation (bs : Z) (st : File * Z) (out : File) (op : InstallOperation) : File * res PayloadError (File * Z) :=
  match read_operation bs st.1 st.2 op with
  | Ok (reader, curr, data, out_offset) =>
      let '(out, r) := write_operation bs op data out_offset out in (out, _ ← r; Ok (reader, curr))
  | Err e => (out, Err e)
  | Panic => (out, Panic)
  end.

Fixpoint run_operations (bs : Z) (st : File * Z) (out : File) (ops : list InstallOperation) : File * res PayloadError (File * Z) :=
  match ops with
  | [] => (out, Ok st)
  | op :: ops =>
      match run_operation bs st out op with
      | (out, Ok st) => run_operations bs st out ops
      | r => r
      end
  end.

(** [sort_by_key], which is stable. *)
Definition op_key (op : InstallOperation) : Z := default 0 (data_offset op).
Definition op_le (a b : InstallOperation) : Prop := op_key a <= op_key b.

#[export] Instance op_le_dec : RelDecision op_le.
Proof. intros a b. unfold op_le. apply _. Defined.

(** What comes before the output file is created: the reader behind the manifest, the length
    of the signature, the manifest and the partition. *)
Definition read_manifest (open_ : bytes -> option bytes) (stdin : bytes) (in_path : bytes) (name : option bytes) :
    res PayloadError (File * Z * DeltaArchiveManifest * PartitionUpdate) :=
  reader ← of_option (CannotOpen in_path) (if bool_decide (in_path = #"-") then Some stdin else open_ in_path);
  '(magic, reader) ← lift (read_exact 4 (mkFile reader 0));
  if negb (bool_decide (magic = PAYLOAD_MAGIC)) then Err (Bad #"invalid magic") else
  '(version, reader) ← read_be 8 reader;
  if negb (version =? 2) then Err (Bad (#"unsupported version: " ++ fmt_dec version)) else
  '(manifest_len, reader) ← read_be 8 reader;
  if manifest_len =? 0 then Err (Bad #"manifest length is zero") else
  '(manifest_sig_len, reader) ← read_be 4 reader;
  if manifest_sig_len =? 0 then Err (Bad #"manifest signature length is zero") else
  alloc manifest_len (
  '(buf, reader) ← lift (read_exact manifest_len reader);
  manifest ← of_option BadManifest (from_reader buf);
  if negb (get_minor_version manifest =? 0)
  then Err (Bad #"delta payloads are not supported, please use a full payload file") else
  partition ← select_partition name manifest;
  Ok (reader, manifest_sig_len, manifest, partition)).

Definition out_name (out_path : option bytes) (p : PartitionUpdate) : bytes :=
  match out_path with None => partition_name p ++ #".img" | Some s => s end.

(** The file that is created, with what it holds in the end, and the result. *)
Definition extract_boot_from_payload (open_ : bytes -> option bytes) (stdin : bytes) (writable : bytes -> bool)
    (in_path : bytes) (name out_path : option bytes) : option (bytes * bytes) * res PayloadError unit :=
  match read_manifest open_ stdin in_path name with
  | Err e => (None, Err e)
  | Panic => (None, Panic)
  | Ok (reader, manifest_sig_len, manifest, partition) =>
      let path := out_name out_path partition in
      if negb (writable path) then (None, Err (CannotWrite path)) else
      match reader_skip manifest_sig_len reader with
      | Err e => (Some (path, []), Err e)
      | Panic => (Some (path, []), Panic)
      | Ok reader =>
          let '(out, r) := run_operations (get_block_size manifest) (reader, 0) (mkFile [] 0) (merge_sort op_le (operations partition)) in
          (Some (path, contents out), _ ← r; Ok tt)
      end
  end.
End Extract.

(** * What the operations write *)

Definition op_data (blobs : bytes) (op : InstallOperation) : option bytes :=
  off ← data_offset op; len ← data_length op;
  if (0 <=? off) && (0 <? len) && (off + len <=? zlen blobs)
  then Some (take (Z.to_nat len) (drop (Z.to_nat off) blobs)) else None.

Definition dest (bs : Z) (op : InstallOperation) : option Z :=
  ext ← head (dst_extents op); sb ← start_block ext;
  if (0 <=? sb * bs) && (sb * bs <? 2 ^ 63) then Some (sb * bs) else None.

(** The bytes of a [REPLACE], [REPLACE_BZ] or [REPLACE_XZ]. *)
Definition op_content (decode : bytes -> bytes * bool) (blobs : bytes) (op : InstallOperation) : option bytes :=
  data ← op_data blobs op;
  match type_pb op with
  | REPLACE => Some data
  | REPLACE_BZ | REPLACE_XZ => match decode data with (d, true) => Some d | _ => None end
  | _ => None
  end.

(** The write the code makes: all of it from the first extent on. *)
Definition op_write (decode : bytes -> bytes * bool) (bs : Z) (blobs : bytes) (op : InstallOperation) : option (Z * bytes) :=
  d ← op_content decode blobs op; pos ← dest bs op; Some (pos, d).

(** The writes of the format description: the bytes, padded with zeros to the size of a
    block, fill the extents one after the other. *)
Definition pad_block (bs : Z) (d : bytes) : bytes := d ++ replicate (Z.to_nat ((- zlen d) mod bs)) (bof 0).

Fixpoint spread (bs : Z) (exts : list Extent) (d : bytes) : option (list (Z * bytes)) :=
  match exts with
  | [] => Some []
  | ext :: exts =>
      sb ← start_block ext; n ← num_blocks ext;
      ws ← spread bs exts (drop (Z.to_nat (n * bs)) d);
      Some ((sb * bs, take (Z.to_nat (n * bs)) d) :: ws)
  end.

Definition documented_writes (decode : bytes -> bytes * bool) (bs : Z) (blobs : bytes) (op : InstallOperation) : option (list (Z * bytes)) :=
  d ← op_content decode blobs op; spread bs (dst_extents op) (pad_block bs d).

(** An operation for which the two are the same: one extent, which the bytes fill. *)
Definition fills_one_extent (decode : bytes -> bytes * bool) (bs : Z) (blobs : bytes) (op : InstallOperation) : Prop :=
  exists d sb n, op_content decode blobs op = Some d /\ dst_extents op = [mkExtent (Some sb) (Some n)] /\
    zlen d = n * bs /\ 0 <= sb * bs < 2 ^ 63.

(** Two blobs, and two destinations, that do not overlap. *)
Definition blobs_apart (a b : InstallOperation) : Prop :=
  op_key a + default 0 (data_length a) <= op_key b \/ op_key b + default 0 (data_length b) <= op_key a.
Definition writes_apart (a b : Z * bytes) : Prop := a.1 + zlen a.2 <= b.1 \/ b.1 + zlen b.2 <= a.1.

Definition pairwise {A} (R : A -> A -> Prop) (l : list A) : Prop :=
  forall i j a b, l !! i = Some a -> l !! j = Some b -> i <> j -> R a b.

Definition payload (manifest signature blobs : bytes) : bytes :=
  PAYLOAD_MAGIC ++ to_be 8 2 ++ to_be 8 (zlen manifest) ++ to_be 4 (zlen signature) ++ manifest ++ signature ++ blobs.

(** ** Writes that do not overlap commute *)

Lemma write_at_lookup w out i :
  write_at w out !! i =
  match w.2 with
  | [] => out !! i
  | _ => if decide (i < Z.to_nat w.1)%nat then Some (default (bof 0) (out !! i))
         else if decide (i < Z.to_nat w.1 + length w.2)%nat then w.2 !! (i - Z.to_nat w.1)%nat else out !! i
  end.
Proof.
  unfold write_at. destruct w as [z d]. cbn [fst snd]. destruct d as [|c d']; [done |].
  set (e := c :: d'). clearbody e. set (p := Z.to_nat z). clearbody p. clear c d' z.
  assert (length (take p (out ++ replicate (p - length out) (bof 0))) = p) as Hl
    by (rewrite length_take, length_app, length_replicate; lia).
  case_decide.
  - rewrite lookup_app_l by lia. rewrite lookup_take_lt by done. destruct (decide (i < length out)%nat).
    + rewrite lookup_app_l by done. destruct (lookup_lt_is_Some_2 out i) as [x ->]; done.
    + rewrite lookup_app_r, (lookup_ge_None_2 out i) by lia. by rewrite lookup_replicate_2 by lia.
  - rewrite lookup_app_r by lia. rewrite Hl. case_decide.
    + by rewrite lookup_app_l by lia.
    + rewrite lookup_app_r by lia. rewrite lookup_drop. f_equal. lia.
Qed.

Lemma write_at_swap a b out : 0 <= a.1 -> 0 <= b.1 -> writes_apart a b -> write_at a (write_at b out) = write_at b (write_at a out).
Proof.
  intros Ha Hb Hab. apply list_eq. intros i. rewrite !write_at_lookup. unfold writes_apart in Hab.
  destruct a as [p d], b as [q e]. cbn [fst snd] in *. destruct d as [|c d]; [done |]. destruct e as [|c' e]; [done |].
  remember (c :: d) as d0 eqn:Ed. remember (c' :: e) as e0 eqn:Ee.
  repeat case_decide; try lia; try done.
  - destruct (lookup_lt_is_Some_2 e0 (i - Z.to_nat q)) as [x ->]; [lia | done].
  - destruct (lookup_lt_is_Some_2 d0 (i - Z.to_nat p)) as [x ->]; [lia | done].
Qed.

Fixpoint write_list (out : bytes) (ws : list (Z * bytes)) : bytes :=
  match ws with [] => out | w :: ws => write_list (write_at w out) ws end.

Lemma write_list_foldr ws out : write_list out ws = foldr write_at out (rev ws).
Proof. revert out. induction ws as [|w ws IH]; intros out; [done |]. cbn [write_list rev]. by rewrite foldr_app, IH. Qed.

Lemma pairwise_Permutation {A} (R : A -> A -> Prop) l k : l ≡ₚ k -> pairwise R l -> pairwise R k.
Proof.
  intros Hp Hl i j a b Hi Hj Hij. symmetry in Hp. apply Permutation_inj in Hp as (_ & f & Hinj & Hf).
  rewrite Hf in Hi, Hj. apply (Hl (f i) (f j)); [done | done | naive_solver].
Qed.

Lemma write_list_Permutation ws ws' out :
  Forall (fun w => 0 <= w.1) ws -> pairwise writes_apart ws -> ws ≡ₚ ws' -> write_list out ws = write_list out ws'.
Proof.
  intros Hp Hap Hperm. rewrite !write_list_foldr. apply (foldr_permutation (=)).
  { intros x y z ->. done. }
  - intros j1 a j2 b o Hj H1 H2. rewrite Forall_forall in Hp.
    apply (pairwise_Permutation _ _ (rev ws)) in Hap; [| by rewrite <- Permutation_rev].
    apply write_at_swap; [apply Hp | apply Hp | by apply (Hap j1 j2)].
    all: apply list_elem_of_In, in_rev, list_elem_of_In; by eapply list_elem_of_lookup_2.
  - by rewrite <- !Permutation_rev.
Qed.

Lemma write_at_at_off w out : 0 <= w.1 -> at_off (write_at w out) w.1 w.2 \/ w.2 = [].
Proof.
  intros Hp. destruct w as [p d]. cbn [fst snd] in *. destruct d as [|c d]; [by right |]. left. unfold write_at. cbn [fst snd].
  eexists _, _. split; [reflexivity |]. rewrite length_take, length_app, length_replicate. lia.
Qed.

(** The last write is read back, and so is every other one. *)
Lemma write_list_holds ws out w :
  Forall (fun w => 0 <= w.1) ws -> pairwise writes_apart ws -> w ∈ ws -> w.2 <> [] -> at_off (write_list out ws) w.1 w.2.
Proof.
  intros Hp Hap Hin Hne. pose proof Hin as (l1 & l2 & Heq)%list_elem_of_split.
  assert (ws ≡ₚ (l1 ++ l2) ++ [w]) as Hperm by (rewrite Heq; solve_Permutation).
  rewrite (write_list_Permutation _ _ _ Hp Hap Hperm), write_list_foldr, rev_app_distr. cbn [rev app foldr].
  rewrite Forall_forall in Hp. destruct (write_at_at_off w (foldr write_at out (rev (l1 ++ l2))) (Hp _ Hin)); [done | done].
Qed.

(** ** Reading *)

Section Run.
Context (oc seekable : bool) (decode : bytes -> bytes * bool) (bs : Z).

Lemma reader_skip_ok s o len :
  0 <= o -> 0 <= len -> o + len <= zlen s -> zlen s < 2 ^ 63 -> reader_skip seekable len (mkFile s o) = Ok (mkFile s (o + len)).
Proof.
  intros. unfold reader_skip, seek_skip. destruct seekable.
  - rewrite swrap_small by lia. by rewrite (seek_ok _ _ (o + len)) by (cbn [contents offset]; lia).
  - rewrite skip_spec by (cbn [offset]; lia). by rewrite read_exact_range by lia.
Qed.

Lemma read_be_at s o n v : at_off s o (to_be (Z.to_nat n) v) -> 0 <= n -> 0 <= v < 256 ^ n -> read_be n (mkFile s o) = Ok (v, mkFile s (o + n)).
Proof.
  intros Ha Hn Hv. unfold read_be. rewrite (read_exact_at _ _ _ _ Ha) by (rewrite to_be_length; lia).
  cbn [mbind res_bind lift]. by rewrite of_to_be, Z2Nat.id, Z.mod_small by done.
Qed.

Lemma op_write_inv blobs op w :
  op_write decode bs blobs op = Some w ->
  exists off len data, data_offset op = Some off /\ data_length op = Some len /\ 0 <= off /\ 0 < len /\ off + len <= zlen blobs /\
    data = take (Z.to_nat len) (drop (Z.to_nat off) blobs) /\ dest bs op = Some w.1 /\
    match type_pb op with REPLACE => w.2 = data | REPLACE_BZ | REPLACE_XZ => decode data = (w.2, true) | _ => False end.
Proof.
  unfold op_write, op_content, op_data. destruct (data_offset op) as [off|]; [| done]. destruct (data_length op) as [len|]; [| done].
  cbn [mbind option_bind]. destruct (_ && _ && _) eqn:E; [| done]. cbn [mbind option_bind].
  apply andb_true_iff in E as [[E1%Z.leb_le E2%Z.ltb_lt]%andb_true_iff E3%Z.leb_le].
  destruct (match type_pb op with REPLACE => _ | _ => _ end) as [d|] eqn:Ed; [| done]. cbn [mbind option_bind].
  destruct (dest bs op) as [pos|]; [| done]. cbn [mbind option_bind]. intros [= <-]. cbn [fst snd].
  exists off, len, (take (Z.to_nat len) (drop (Z.to_nat off) blobs)). split_and!; try done.
  destruct (type_pb op); try done; [by injection Ed as <- | |]; destruct (decode _) as [d' []]; try done; by injection Ed as <-.
Qed.

Lemma dest_inv op pos :
  dest bs op = Some pos -> exists ext sb, head (dst_extents op) = Some ext /\ start_block ext = Some sb /\ pos = sb * bs /\ 0 <= pos < 2 ^ 63.
Proof.
  unfold dest. destruct (head _) as [ext|]; [| done]. cbn [mbind option_bind]. destruct (start_block ext) as [sb|] eqn:E; [| done].
  cbn [mbind option_bind]. destruct (_ && _) eqn:Eb; [| done]. intros [= <-]. exists ext, sb.
  apply andb_true_iff in Eb as [H1%Z.leb_le H2%Z.ltb_lt]. done.
Qed.

Context (s blobs : bytes) (base : Z).
Hypothesis Hblobs : at_off s base blobs.
Hypothesis Hsize : zlen s < 2 ^ 63.

Lemma run_operation_ok op w curr out :
  op_write decode bs blobs op = Some w -> 0 <= curr <= op_key op ->
  run_operation oc seekable decode bs (mkFile s (base + curr), curr) out op =
  (mkFile (write_at w (contents out)) (w.1 + zlen w.2),
   Ok (mkFile s (base + (op_key op + default 0 (data_length op))), op_key op + default 0 (data_length op))).
Proof.
  intros Hw Hc. destruct (op_write_inv _ _ _ Hw) as (off & len & data & Ho & Hl & H1 & H2 & H3 & Hd & Hdest & Ht).
  destruct (dest_inv _ _ Hdest) as (ext & sb & He & Hs & Hpos & Hrange). pose proof (at_off_bound _ _ _ Hblobs) as Hb.
  unfold op_key in *. unfold run_operation, read_operation. cbn [fst snd]. rewrite Ho, Hl in *. cbn [default from_option Datatypes.id or_bad of_option mbind res_bind] in *.
  unfold alloc. rewrite (proj2 (Z.ltb_lt _ _)) by lia. rewrite (u_arith_small _ _ (off - curr)) by lia. cbn [mbind res_bind].
  rewrite reader_skip_ok by lia. cbn [mbind res_bind].
  assert (at_off s (base + off) data) as Hat.
  { destruct Hblobs as (pre & post & -> & <-). subst data.
    exists (pre ++ take (Z.to_nat off) blobs), (drop (Z.to_nat (off + len)) blobs ++ post). split.
    - rewrite <- !app_assoc. f_equal. rewrite (app_assoc (take (Z.to_nat len) _)), Z2Nat.inj_add, <- drop_drop by lia.
      by rewrite take_drop, app_assoc, take_drop.
    - rewrite length_app, length_take. lia. }
  replace (base + curr + (off - curr)) with (base + off) by lia.
  rewrite (read_exact_at _ _ data) by (done || (subst data; rewrite length_take, length_drop; lia)).
  cbn [mbind res_bind lift]. rewrite (u_arith_small _ _ (off + len)) by lia. cbn [mbind res_bind]. rewrite He. cbn [or_bad of_option mbind res_bind].
  rewrite Hs. cbn [or_bad of_option mbind res_bind].
  rewrite (u_arith_small _ _ (sb * bs)) by lia. cbn [mbind res_bind]. rewrite <- Hpos.
  unfold write_operation. rewrite (seek_ok _ _ w.1) by (done || lia). cbn [lift mbind res_bind contents].
  replace (base + off + len) with (base + (off + len)) by lia. destruct w as [pos d]. cbn [fst snd] in *.
  destruct (type_pb op); try done; [by subst d | by rewrite Ht..].
Qed.

Lemma run_operations_ok ops curr out :
  Forall (fun op => is_Some (op_write decode bs blobs op)) ops -> StronglySorted op_le ops -> pairwise blobs_apart ops ->
  0 <= curr -> Forall (fun op => curr <= op_key op) ops ->
  exists out' st, run_operations oc seekable decode bs (mkFile s (base + curr), curr) out ops = (out', Ok st) /\
    contents out' = write_list (contents out) (omap (op_write decode bs blobs) ops).
Proof.
  revert curr out. induction ops as [|op ops IH]; intros curr out Hw Hs Hap Hc Hle.
  - do 2 eexists. split; [reflexivity | done].
  - apply Forall_cons in Hw as [[w Hw] Hws]. apply StronglySorted_cons in Hs as [Hall Hs]. apply Forall_cons in Hle as [Hle1 Hle].
    cbn [run_operations]. rewrite (run_operation_ok op w) by done.
    destruct (op_write_inv _ _ _ Hw) as (off & len & data & Ho & Hl & H1 & H2 & _).
    edestruct (IH (op_key op + default 0 (data_length op))) as (out' & st & -> & Hst); [done | done | | | |].
    + intros i j a b Hi Hj Hij. apply (Hap (S i) (S j)); [done | done | lia].
    + unfold op_key. rewrite Ho, Hl. cbn. lia.
    + apply Forall_forall. intros b Hb. pose proof Hb as [j Hj]%list_elem_of_lookup. rewrite Forall_forall in Hall, Hws.
      specialize (Hall b Hb). destruct (Hws b Hb) as [wb (offb & lenb & ? & Hob & Hlb & ? & ? & _)%op_write_inv].
      destruct (Hap 0%nat (S j) op b) as [Hb'|Hb']; [done | done | done | done |].
      unfold op_le, op_key in *. rewrite Hob, Hlb in *. cbn in *. lia.
    + do 2 eexists. split; [reflexivity |]. cbn [omap list_omap]. rewrite Hw. cbn [write_list]. by rewrite Hst.
Qed.
End Run.

(** * The image *)

(** On operations that fill one extent each, the code makes the documented writes. *)
Lemma fills_writes decode bs blobs op :
  fills_one_extent decode bs blobs op ->
  exists w, op_write decode bs blobs op = Some w /\ documented_writes decode bs blobs op = Some [w].
Proof.
  intros (d & sb & n & Hd & He & Hl & Hp). exists (sb * bs, d). unfold op_write, documented_writes, dest. rewrite Hd, He. cbn [mbind option_bind head start_block num_blocks spread].
  rewrite (proj2 (Z.leb_le _ _)), (proj2 (Z.ltb_lt _ _)) by lia. cbn [andb mbind option_bind]. split; [done |].
  assert (pad_block bs d = d) as ->.
  { unfold pad_block. rewrite Hl, <- Z.mul_opp_l. destruct (decide (bs = 0)) as [-> |]; [| rewrite Z.mod_mul by done; by rewrite app_nil_r].
    rewrite Z.mul_0_r. cbn. by rewrite app_nil_r. }
  by rewrite <- Hl, Nat2Z.id, firstn_all.
Qed.

Lemma fills_all decode bs blobs ops :
  Forall (fills_one_extent decode bs blobs) ops ->
  Forall (fun op => is_Some (op_write decode bs blobs op)) ops /\
  concat (omap (documented_writes decode bs blobs) ops) = omap (op_write decode bs blobs) ops.
Proof.
  induction 1 as [|op ops (w & Hw & Hd)%fills_writes _ [IH1 IH2]]; [done |]. split; [constructor; [by rewrite Hw | done] |].
  cbn [omap list_omap]. rewrite Hw, Hd. cbn [concat app]. by rewrite IH2.
Qed.

Lemma extract_image oc seekable from_reader decode open_ stdin writable in_path name out_path manifest m p sig blobs :
  let bs := get_block_size m in
  let path := out_name out_path p in
  let ws := omap (op_write decode bs blobs) (operations p) in
  (if bool_decide (in_path = #"-") then Some stdin else open_ in_path) = Some (payload manifest sig blobs) ->
  0 < zlen manifest -> 0 < zlen sig < 2 ^ 32 -> zlen (payload manifest sig blobs) < 2 ^ 63 ->
  from_reader manifest = Some m -> get_minor_version m = 0 -> select_partition name m = Ok p -> writable path = true ->
  Forall (fun op => is_Some (op_write decode bs blobs op)) (operations p) ->
  pairwise blobs_apart (operations p) -> pairwise writes_apart ws ->
  extract_boot_from_payload oc seekable from_reader decode open_ stdin writable in_path name out_path = (Some (path, write_list [] ws), Ok tt) /\
  forall w, w ∈ ws -> w.2 <> [] -> at_off (write_list [] ws) w.1 w.2.
Proof.
  intros bs path ws Hin Hm Hsig Hsize Hfr Hminor Hsel Hwr Hops Hblobs Hdest.
  assert (Forall (fun w => 0 <= w.1) ws) as Hpos.
  { apply Forall_forall. intros w (op & _ & Hw)%list_elem_of_omap.
    destruct (op_write_inv _ _ _ _ _ Hw) as (? & ? & ? & _ & _ & _ & _ & _ & _ & (? & ? & _ & _ & _ & ?)%dest_inv & _). lia. }
  split; [| intros w; by apply write_list_holds].
  unfold extract_boot_from_payload, read_manifest. rewrite Hin. cbn [of_option mbind res_bind].
  pose proof (at_off_self (payload manifest sig blobs)) as Hs. set (s := payload manifest sig blobs) in *.
  assert (zlen manifest <= zlen s /\ zlen sig <= zlen s) as [Hm1 Hm2] by (unfold s, payload; rewrite !length_app; lia).
  unfold s at 2, payload in Hs. clearbody s.
  rewrite (read_exact_at s 0 PAYLOAD_MAGIC 4) by (by eapply at_off_head || done). apply at_off_tail in Hs.
  change (0 + zlen PAYLOAD_MAGIC) with 4 in Hs. cbn [mbind res_bind lift]. rewrite bool_decide_eq_true_2 by done. cbn [negb]. change (0 + 4) with 4.
  rewrite (read_be_at s 4 8 2) by (by eapply at_off_head || done). apply at_off_tail in Hs. rewrite to_be_length in Hs.
  cbn [mbind res_bind]. change (negb (2 =? 2)) with false. change (4 + 8) with 12. change (4 + Z.of_nat 8) with 12 in Hs.
  rewrite (read_be_at s 12 8 (zlen manifest)) by (by eapply at_off_head || lia). apply at_off_tail in Hs. rewrite to_be_length in Hs.
  cbn [mbind res_bind]. rewrite (proj2 (Z.eqb_neq (zlen manifest) 0)) by lia. change (12 + 8) with 20. change (12 + Z.of_nat 8) with 20 in Hs.
  rewrite (read_be_at s 20 4 (zlen sig)) by (by eapply at_off_head || lia). apply at_off_tail in Hs. rewrite to_be_length in Hs.
  cbn [mbind res_bind]. rewrite (proj2 (Z.eqb_neq (zlen sig) 0)) by lia. change (20 + 4) with 24. change (20 + Z.of_nat 4) with 24 in Hs.
  unfold alloc. rewrite (proj2 (Z.ltb_lt (zlen manifest) _)) by lia.
  rewrite (read_exact_at s 24 manifest) by (by eapply at_off_head || done). apply at_off_tail in Hs.
  cbn [mbind res_bind lift]. rewrite Hfr. cbn [of_option mbind res_bind]. rewrite Hminor. cbn [Z.eqb negb]. rewrite Hsel.
  cbn [mbind res_bind]. fold path. rewrite Hwr. cbn [negb].
  pose proof (at_off_bound _ _ _ Hs) as Hb. rewrite length_app in Hb. apply at_off_tail in Hs.
  rewrite reader_skip_ok by (rewrite ?length_app in *; lia). cbn [mbind res_bind].
  destruct (run_operations_ok oc seekable decode bs s blobs _ Hs Hsize (merge_sort op_le (operations p)) 0 (mkFile [] 0)) as (out & st & Hrun & Hst).
  - by rewrite merge_sort_Permutation.
  - apply StronglySorted_merge_sort; [intros a b c ? ?; unfold op_le in *; lia | intros a b; unfold op_le; lia].
  - by apply (pairwise_Permutation _ (operations p)); [by rewrite merge_sort_Permutation |].
  - done.
  - rewrite merge_sort_Permutation. apply Forall_forall. intros op Hop. rewrite Forall_forall in Hops.
    destruct (Hops op Hop) as [w (off & ? & ? & Ho & _ & ? & _)%op_write_inv]. unfold op_key. by rewrite Ho.
  - rewrite Z.add_0_r in Hrun. fold bs. rewrite Hrun. cbn [mbind res_bind].
    rewrite Hst. do 3 f_equal. symmetry. apply write_list_Permutation; [done | done |]. unfold ws. by rewrite merge_sort_Permutation.
Qed.

(** C18: From a well-formed full payload, seekable or not, whose operations for the selected
    partition are replacements that each fill one extent exactly, and whose blobs and
    destinations do not overlap, the extraction succeeds with the documented image: what the
    writes of the format description give in the order of the manifest, although the
    operations are run in the order of their data; the bytes of every operation,
    decompressed where it says so, are at its destination. *)
Theorem extract_boot_from_payload_image oc seekable from_reader decode open_ stdin writable in_path name out_path manifest m p sig blobs :
  let bs := get_block_size m in
  let path := out_name out_path p in
  let ws := concat (omap (documented_writes decode bs blobs) (operations p)) in
  (if bool_decide (in_path = #"-") then Some stdin else open_ in_path) = Some (payload manifest sig blobs) ->
  0 < zlen manifest -> 0 < zlen sig < 2 ^ 32 -> zlen (payload manifest sig blobs) < 2 ^ 63 ->
  from_reader manifest = Some m -> get_minor_version m = 0 -> select_partition name m = Ok p -> writable path = true ->
  Forall (fills_one_extent decode bs blobs) (operations p) ->
  pairwise blobs_apart (operations p) -> pairwise writes_apart ws ->
  extract_boot_from_payload oc seekable from_reader decode open_ stdin writable in_path name out_path = (Some (path, write_list [] ws), Ok tt) /\
  forall w, w ∈ ws -> w.2 <> [] -> at_off (write_list [] ws) w.1 w.2.
Proof.
  intros bs path ws Hin Hm Hsig Hsize Hfr Hminor Hsel Hwr [Hops Hws]%fills_all Hblobs. subst ws. rewrite Hws. by apply (extract_image _ _ _ _ _ _ _ _ _ _ manifest m p sig).
Qed.

Definition demo_ops : list InstallOperation :=
  [mkOperation REPLACE_XZ (Some 4) (Some 2) [mkExtent (Some 1) (Some 1)];
   mkOperation REPLACE (Some 0) (Some 4) [mkExtent (Some 0) (Some 1)]].
Definition demo_manifest : DeltaArchiveManifest := mkManifest (Some 4) None [mkPartition #"boot" demo_ops].
Definition demo_payload : bytes := payload #"m" #"s" #"bootxz".
Definition demo_reader (b : bytes) : option DeltaArchiveManifest := if decide (b = #"m") then Some demo_manifest else None.
Definition demo_decode (b : bytes) : bytes * bool := if decide (b = #"xz") then (#"kern", true) else ([], false).

Lemma extract_boot_from_payload_image_witness :
  extract_boot_from_payload true false demo_reader demo_decode (fun _ => Some demo_payload) [] (fun _ => true) #"ota" None None =
  (Some (#"boot.img", #"bootkern"), Ok tt).
Proof.
  destruct (extract_boot_from_payload_image true false demo_reader demo_decode (fun _ => Some demo_payload) [] (fun _ => true) #"ota" None None
    #"m" demo_manifest (mkPartition #"boot" demo_ops) #"s" #"bootxz") as [H _].
  1-8: vm_compute; done.
  - apply List.Forall_cons; [exists #"kern", 1, 1 | apply List.Forall_cons; [exists #"boot", 0, 1 | apply List.Forall_nil]]; vm_compute; split_and!; done.
  - intros i j a b Hi Hj Hij. destruct i as [|[|?]], j as [|[|?]]; try done; injection Hi as <-; injection Hj as <-;
      [right | left]; vm_compute; done.
  - intros i j a b Hi Hj Hij. vm_compute in Hi, Hj. destruct i as [|[|?]], j as [|[|?]]; try done; injection Hi as <-; injection Hj as <-;
      [right | left]; vm_compute; done.
  - rewrite H. vm_compute. reflexivity.
Defined.

(** ** What is accepted *)

Lemma lift_Ok {A} (m : io A) a : lift m = Ok a <-> m = Ok a.
Proof. destruct m; cbn; naive_solver. Qed.

Lemma or_bad_Ok {A} msg (o : option A) a : or_bad msg o = Ok a <-> o = Some a.
Proof. destruct o; cbn; naive_solver. Qed.

Lemma to_of_be b : to_be (length b) (of_be b) = b.
Proof. unfold to_be, of_be. rewrite <- length_rev, to_of_le. apply rev_involutive. Qed.

(** A successful read of some bytes, and what precedes it. *)
Lemma read_exact_Ok n s o pre b f :
  0 < n -> at_off s 0 pre -> zlen pre = o -> read_exact n (mkFile s o) = Ok (b, f) -> at_off s 0 (pre ++ b) /\ zlen b = n /\ f = mkFile s (o + n).
Proof.
  intros Hn (pre0 & post & -> & Hp0) <-. destruct pre0; [| cbn in Hp0; lia]. cbn [app]. unfold read_exact. cbn [contents offset].
  rewrite Nat2Z.id, drop_app_length. destruct (Z.leb_spec n (zlen post)) as [Hle|]; [| done]. intros [= <- <-]. split_and!; [| | done].
  - exists [], (drop (Z.to_nat n) post). split; [| done]. cbn [app]. by rewrite <- app_assoc, take_drop.
  - rewrite length_take. lia.
Qed.

Lemma read_be_Ok n s o pre v f :
  0 < n -> at_off s 0 pre -> zlen pre = o -> read_be n (mkFile s o) = Ok (v, f) ->
  at_off s 0 (pre ++ to_be (Z.to_nat n) v) /\ 0 <= v /\ f = mkFile s (o + n).
Proof.
  intros Hn Hpre Ho. unfold read_be. rewrite res_bind_Ok. intros ([b f'] & Hr%lift_Ok & [= <- <-]).
  destruct (read_exact_Ok _ _ _ _ _ _ Hn Hpre Ho Hr) as (Hb & Hl & ->). split_and!; [| | done].
  - replace (Z.to_nat n) with (length b) by lia. by rewrite to_of_be.
  - unfold of_be. pose proof (of_le_range (rev b)). lia.
Qed.

(** An operation that can be run. *)
Definition supported (op : InstallOperation) : Prop :=
  is_Some (data_offset op) /\ is_Some (data_length op) /\ dst_extents op <> [] /\
  match type_pb op with REPLACE | REPLACE_BZ | REPLACE_XZ | ZERO => True | _ => False end.

Lemma run_operation_supported oc seekable decode bs st out op out' st' :
  run_operation oc seekable decode bs st out op = (out', Ok st') -> supported op.
Proof.
  unfold run_operation, supported. destruct (read_operation oc seekable bs st.1 st.2 op) as [[[[r c] data] oo]| |] eqn:E; [| done..].
  intros Hw. unfold read_operation in E. destruct (data_length op); [| done]. destruct (data_offset op); [| done].
  cbn [or_bad of_option mbind res_bind] in E. unfold alloc in E. destruct (_ <? _); [| done]. apply res_bind_Ok in E as (sk & _ & H).
  apply res_bind_Ok in H as (r' & _ & H). apply res_bind_Ok in H as ([d r''] & _ & H). apply res_bind_Ok in H as (c' & _ & H).
  apply res_bind_Ok in H as (ext & He%or_bad_Ok & H). split_and!; [done | done | by destruct (dst_extents op) |].
  unfold write_operation in Hw. by destruct (type_pb op).
Qed.

(** A run of the operations ends well, and then all of them are supported, or stops at
    one, and what those before it wrote stays. *)
Lemma run_operations_stops oc seekable decode bs st out ops :
  let '(out', r) := run_operations oc seekable decode bs st out ops in
  match r with
  | Ok _ => Forall supported ops
  | _ => exists done op rest out1 st1, ops = done ++ op :: rest /\ Forall supported done /\
      run_operations oc seekable decode bs st out done = (out1, Ok st1) /\ out' = (run_operation oc seekable decode bs st1 out1 op).1
  end.
Proof.
  revert st out. induction ops as [|op ops IH]; intros st out; cbn [run_operations]; [apply List.Forall_nil |].
  destruct (run_operation oc seekable decode bs st out op) as [out1 [st1|e|]] eqn:E1.
  - pose proof (run_operation_supported _ _ _ _ _ _ _ _ _ E1) as Hs. specialize (IH st1 out1).
    destruct (run_operations oc seekable decode bs st1 out1 ops) as [out' [st'|e'|]]; [by apply List.Forall_cons | |].
    all: destruct IH as (done_ & op' & rest & out2 & st2 & -> & Hd & Hr & Ho); exists (op :: done_), op', rest, out2, st2.
    all: cbn [run_operations app]; rewrite E1; split_and!; [done | by apply List.Forall_cons | done | done].
  - exists [], op, ops, out, st. split_and!; [done | apply List.Forall_nil | done | by rewrite E1].
  - exists [], op, ops, out, st. split_and!; [done | apply List.Forall_nil | done | by rewrite E1].
Qed.

Lemma read_manifest_Ok from_reader open_ stdin in_path name f slen m p :
  read_manifest from_reader open_ stdin in_path name = Ok (f, slen, m, p) ->
  exists input manifest,
    (if bool_decide (in_path = #"-") then Some stdin else open_ in_path) = Some input /\
    at_off input 0 (PAYLOAD_MAGIC ++ to_be 8 2 ++ to_be 8 (zlen manifest) ++ to_be 4 slen ++ manifest) /\
    manifest <> [] /\ 0 < slen /\ from_reader manifest = Some m /\ get_minor_version m = 0 /\ select_partition name m = Ok p.
Proof.
  unfold read_manifest. intros H. apply res_bind_Ok in H as (input & Hin & H).
  assert ((if bool_decide (in_path = #"-") then Some stdin else open_ in_path) = Some input) as Hi by (destruct (if bool_decide (in_path = #"-") then Some stdin else open_ in_path); naive_solver).
  apply res_bind_Ok in H as ([magic f0] & Hr%lift_Ok & H).
  destruct (read_exact_Ok 4 input 0 [] magic f0) as (Ha & _ & ->); [lia | by exists [], input | done | done |].
  destruct (negb _) eqn:Em; [done |]. apply negb_false_iff, bool_decide_eq_true in Em as ->. cbn [app] in Ha.
  apply res_bind_Ok in H as ([version f1] & Hr1 & H).
  destruct (read_be_Ok 8 input 4 PAYLOAD_MAGIC version f1) as (Ha1 & _ & ->); [lia | done | done | done |].
  destruct (negb (version =? 2)) eqn:Ev; [done |]. apply negb_false_iff, Z.eqb_eq in Ev. subst version.
  apply res_bind_Ok in H as ([mlen f2] & Hr2 & H).
  apply (read_be_Ok _ _ _ (PAYLOAD_MAGIC ++ to_be (Z.to_nat 8) 2)) in Hr2 as (Ha2 & Hml & ->); [| lia | done | done].
  destruct (Z.eqb_spec mlen 0); [done |]. apply res_bind_Ok in H as ([slen' f3] & Hr3 & H).
  apply (read_be_Ok _ _ _ ((PAYLOAD_MAGIC ++ to_be (Z.to_nat 8) 2) ++ to_be (Z.to_nat 8) mlen)) in Hr3 as (Ha3 & Hsl & ->);
    [| lia | done | by rewrite length_app, to_be_length].
  destruct (Z.eqb_spec slen' 0); [done |]. unfold alloc in H. destruct (_ <? _); [| done].
  apply res_bind_Ok in H as ([manifest f4] & Hr4%lift_Ok & H).
  eapply read_exact_Ok in Hr4 as (Ha4 & Hmlen & ->); [| lia | exact Ha3 | by rewrite !length_app, !to_be_length].
  apply res_bind_Ok in H as (m' & Hfr & H). destruct (negb (get_minor_version m' =? 0)) eqn:Emin; [done |].
  apply res_bind_Ok in H as (p' & Hsel & [= <- <- <- <-]). exists input, manifest. split_and!; try done.
  - rewrite Hmlen. rewrite <- !app_assoc in Ha4. done.
  - intros ->. cbn in Hmlen. lia.
  - lia.
  - destruct (from_reader manifest); naive_solver.
  - by apply negb_false_iff, Z.eqb_eq in Emin.
Qed.



(** A payload with an operation that is not supported behind one that is: the command
    fails, and the file is there with the first one's data. *)
Theorem failed_extraction_leaves_file :
  extract_boot_from_payload false true (fun _ => Some (mkManifest (Some 4) None [mkPartition #"boot"
      [mkOperation REPLACE (Some 0) (Some 4) [mkExtent (Some 0) (Some 1)]; mkOperation DISCARD (Some 4) (Some 0) [mkExtent (Some 1) (Some 1)]]]))
    (fun _ => ([], false)) (fun _ => Some demo_payload) [] (fun _ => true) #"ota" None None =
  (Some (#"boot.img", #"boot"), Err (Bad #"unsupported operation type")).
Proof. vm_compute. reflexivity. Qed.

(** A replacement of two extents: the format has it fill both, the code writes all of the
    data from the first on, over the block between them; and data shorter than a
    block are to be padded with zeros, and are not. *)
Theorem replace_ignores_extents :
  let run ops := extract_boot_from_payload false true (fun _ => Some (mkManifest (Some 2) None [mkPartition #"boot" ops])) (fun _ => ([], false))
    (fun _ => Some demo_payload) [] (fun _ => true) #"ota" None None in
  let two := mkOperation REPLACE (Some 0) (Some 4) [mkExtent (Some 0) (Some 1); mkExtent (Some 2) (Some 1)] in
  let short := mkOperation REPLACE (Some 0) (Some 3) [mkExtent (Some 0) (Some 2)] in
  run [two] = (Some (#"boot.img", #"boot"), Ok tt) /\
  documented_writes (fun _ => ([], false)) 2 #"bootxz" two = Some [(0, #"bo"); (4, #"ot")] /\
  run [short] = (Some (#"boot.img", #"boo"), Ok tt) /\
  documented_writes (fun _ => ([], false)) 2 #"bootxz" short = Some [(0, #"boo" ++ [bof 0])].
Proof. vm_compute. done. Qed.

(** ** Zeros *)

Lemma write_all_app a b f : 0 <= offset f -> write_all (a ++ b) f = write_all b (write_all a f).
Proof.
  intros Ho. destruct f as [s o]. unfold write_all. cbn [contents offset] in *. f_equal; [| rewrite length_app; lia].
  apply list_eq. intros i. rewrite !write_at_lookup. cbn [fst snd]. destruct a as [|x a]; [cbn [app length]; by rewrite Z.add_0_r |].
  destruct b as [|y b]; [by rewrite app_nil_r |]. remember (x :: a) as u eqn:Eu. remember (y :: b) as v eqn:Ev.
  destruct (u ++ v) as [|z w] eqn:Ew; [by subst u |]. rewrite <- Ew, length_app.
  repeat case_decide; try lia; try done.
  - rewrite lookup_app_l by lia. destruct (lookup_lt_is_Some_2 u (i - Z.to_nat o)) as [? ->]; [lia | done].
  - rewrite lookup_app_r by lia. f_equal. lia.
Qed.

Lemma zeros_loop_spec fuel len f :
  (Z.to_nat len < fuel)%nat -> 0 <= offset f -> zeros_loop fuel len f = write_all (replicate (Z.to_nat len) (bof 0)) f.
Proof.
  revert len f. induction fuel as [|fuel IH]; intros len f Hf Ho; [lia |]. cbn [zeros_loop]. destruct (Z.ltb_spec 0 len).
  - rewrite IH by (try lia; unfold write_all; cbn [offset]; lia). rewrite <- write_all_app by done. f_equal.
    rewrite <- replicate_add. f_equal. lia.
  - replace (Z.to_nat len) with 0%nat by lia. destruct f. unfold write_all, write_at. cbn. by rewrite Z.add_0_r.
Qed.

(** A [ZERO] operation writes one zero byte for each block of an extent, where the
    description of the format has it zero the blocks. *)
Theorem zero_extent_writes oc bs out ext sb n :
  start_block ext = Some sb -> num_blocks ext = Some n -> 0 <= sb * bs < 2 ^ 63 ->
  zero_extent oc bs out ext = (write_all (replicate (Z.to_nat n) (bof 0)) (mkFile (contents out) (sb * bs)), Ok tt).
Proof.
  intros Hs Hn Hr. unfold zero_extent. rewrite Hs, Hn. cbn [or_bad of_option mbind res_bind].
  rewrite u_arith_small by lia. cbn [mbind res_bind]. rewrite (seek_ok _ _ (sb * bs)) by done. cbn [lift mbind res_bind].
  unfold write_zeros. by rewrite zeros_loop_spec by (cbn [offset]; lia).
Qed.

(** So an image that ends in zeros is too short; and an operation that has no data, as
    the format allows, is an error. *)
Theorem zero_operations :
  let run ops := extract_boot_from_payload false true (fun _ => Some (mkManifest (Some 4) None [mkPartition #"boot" ops])) (fun _ => ([], false))
    (fun _ => Some demo_payload) [] (fun _ => true) #"ota" None None in
  run [mkOperation REPLACE (Some 0) (Some 4) [mkExtent (Some 0) (Some 1)]; mkOperation ZERO (Some 4) (Some 0) [mkExtent (Some 1) (Some 2)]] =
    (Some (#"boot.img", #"boot" ++ [bof 0; bof 0]), Ok tt) /\
  run [mkOperation ZERO None None [mkExtent (Some 1) (Some 2)]] = (Some (#"boot.img", []), Err (Bad #"data length not found")).
Proof. vm_compute. done. Qed.
End Payload.
