(* ===== verification/Sign.v ===== *)
(** boot/sign.rs, and the commands "sign" and "verify" of boot/cli.rs: AVB 1.0 signatures of
    boot images.

    The crates for certificates, keys, digests and DER are parameters, with what is relied
    on as [Crypto_law].  A boot image is its file; where the payload begins and ends is
    found by the C++ parser, the parameter [layout]. *)

From S2P Require Import Prelude Text Numeric Files Payload.

Module Sign.
Import Files Payload.

(** * Digests *)

Inductive Hash := Sha1 | Sha256 | Sha384 | Sha512.

Definition hash_size (h : Hash) : Z := match h with Sha1 => 20 | Sha256 => 32 | Sha384 => 48 | Sha512 => 64 end.

Section Sha.
Context (hash : Hash -> bytes -> bytes).

(** The state of a digest is what it was given so far. *)
Inductive SHA := SHA1 (d : bytes) | SHA256 (d : bytes).

Definition get_sha (use_sha1 : bool) : SHA := if use_sha1 then SHA1 [] else SHA256 [].

Definition sha_update (data : bytes) (s : SHA) : SHA := match s with SHA1 d => SHA1 (d ++ data) | SHA256 d => SHA256 (d ++ data) end.

Definition output_size (s : SHA) : Z := match s with SHA1 _ => hash_size Sha1 | SHA256 _ => hash_size Sha256 end.

(** [finalize_into]: the output has to have the size of the digest, else neither it nor the
    state is changed. *)
Definition finalize_into (out : bytes) (s : SHA) : SHA * bytes :=
  if zlen out =? output_size s then match s with SHA1 d => (SHA1 [], hash Sha1 d) | SHA256 d => (SHA256 [], hash Sha256 d) end else (s, out).

Definition sha1_hash (data out : bytes) : bytes := if zlen out =? hash_size Sha1 then hash Sha1 data else out.
Definition sha256_hash (data out : bytes) : bytes := if zlen out =? hash_size Sha256 then hash Sha256 data else out.
End Sha.

(** * Keys *)

(** The kinds of keys, as the crates have them. *)
Inductive Kind := Rsa | P256 | P384 | P521.

(** The operations of the crates. *)
Record Crates := mkCrates {
  Certificate : Type; PublicKeyInfo : Type; AlgorithmIdentifier : Type; PubKey : Type; SecKey : Type;
  hash : Hash -> bytes -> bytes;
  from_pem : bytes -> option Certificate;
  subject_public_key_info : Certificate -> PublicKeyInfo;
  signature_algorithm : Certificate -> AlgorithmIdentifier;
  public_key : Kind -> PublicKeyInfo -> option PubKey;
  private_key : Kind -> bytes -> option SecKey;
  sign_prehash : Kind -> SecKey -> bytes -> option bytes;
  verify_prehash : Kind -> PubKey -> bytes -> bytes -> bool;
  printable : bytes -> bool;
  attr_to_der : bytes -> Z -> option bytes;
  sig_to_der : Z -> Certificate -> AlgorithmIdentifier -> bytes * Z -> bytes -> option bytes;
  sig_decode : bytes -> option (Z * Certificate * AlgorithmIdentifier * (bytes * Z) * bytes) }.

Section Sign.
Context (C : Crates).

Inductive VerifyingKey := VSHA256withRSA (k : PubKey C) | VSHA256withECDSA (k : PubKey C) | VSHA384withECDSA (k : PubKey C) | VSHA521withECDSA (k : PubKey C).
Inductive SigningKey := SHA256withRSA (k : SecKey C) | SHA256withECDSA (k : SecKey C) | SHA384withECDSA (k : SecKey C) | SHA521withECDSA (k : SecKey C).

Record Verifier := mkVerifier { v_digest : Hash * bytes; v_key : VerifyingKey }.
Record Signer := mkSigner { s_digest : Hash * bytes; s_key : SigningKey }.

Definition from_public_key (key : PublicKeyInfo C) : logged Verifier :=
  match public_key C Rsa key with
  | Some rsa => Ok (mkVerifier (Sha256, []) (VSHA256withRSA rsa))
  | None =>
      match public_key C P256 key with
      | Some ec => Ok (mkVerifier (Sha256, []) (VSHA256withECDSA ec))
      | None =>
          match public_key C P384 key with
          | Some ec => Ok (mkVerifier (Sha384, []) (VSHA384withECDSA ec))
          | None =>
              match public_key C P521 key with
              | Some ec => Ok (mkVerifier (Sha512, []) (VSHA521withECDSA ec))
              | None => Err tt
              end
          end
      end
  end.

Definition from_private_key (key : bytes) : logged Signer :=
  match private_key C Rsa key with
  | Some rsa => Ok (mkSigner (Sha256, []) (SHA256withRSA rsa))
  | None =>
      match private_key C P256 key with
      | Some ec => Ok (mkSigner (Sha256, []) (SHA256withECDSA ec))
      | None =>
          match private_key C P384 key with
          | Some ec => Ok (mkSigner (Sha384, []) (SHA384withECDSA ec))
          | None =>
              match private_key C P521 key with
              | Some ec => Ok (mkSigner (Sha512, []) (SHA521withECDSA ec))
              | None => Err tt
              end
          end
      end
  end.

Definition verifier_update (data : bytes) (v : Verifier) : Verifier := mkVerifier ((v_digest v).1, (v_digest v).2 ++ data) (v_key v).
Definition signer_update (data : bytes) (s : Signer) : Signer := mkSigner ((s_digest s).1, (s_digest s).2 ++ data) (s_key s).

Definition verifier_verify (v : Verifier) (signature : bytes) : logged unit :=
  let h := hash C (v_digest v).1 (v_digest v).2 in
  let ok :=
    match v_key v with
    | VSHA256withRSA k => verify_prehash C Rsa k h signature
    | VSHA256withECDSA k => verify_prehash C P256 k h signature
    | VSHA384withECDSA k => verify_prehash C P384 k h signature
    | VSHA521withECDSA k => verify_prehash C P521 k h signature
    end in
  if ok then Ok tt else Err tt.

Definition signer_sign (s : Signer) : logged bytes :=
  let h := hash C (s_digest s).1 (s_digest s).2 in
  of_option tt
    (match s_key s with
     | SHA256withRSA k => sign_prehash C Rsa k h
     | SHA256withECDSA k => sign_prehash C P256 k h
     | SHA384withECDSA k => sign_prehash C P384 k h
     | SHA521withECDSA k => sign_prehash C P521 k h
     end).

(** * Signatures *)

Record AuthenticatedAttributes := mkAttr { target : bytes; length_ : Z }.

Record BootSignature := mkSig {
  format_version : Z; certificate : Certificate C; algorithm_identifier : AlgorithmIdentifier C;
  authenticated_attributes : AuthenticatedAttributes; signature : bytes }.

Definition attr_der (a : AuthenticatedAttributes) : logged bytes := of_option tt (attr_to_der C (target a) (length_ a)).

Definition sig_der (s : BootSignature) : logged bytes :=
  of_option tt (sig_to_der C (format_version s) (certificate s) (algorithm_identifier s)
    (target (authenticated_attributes s), length_ (authenticated_attributes s)) (signature s)).

Definition decode (tail : bytes) : logged BootSignature :=
  match sig_decode C tail with
  | Some (v, c, a, (t, n), s) => Ok (mkSig v c a (mkAttr t n) s)
  | None => Err tt
  end.

(** [usize]: the width of a pointer. *)
Context (usize : Z).

Definition signature_verify (s : BootSignature) (payload : bytes) : logged unit :=
  if negb (uwrap usize (length_ (authenticated_attributes s)) =? zlen payload) then Err tt else
  verifier ← from_public_key (subject_public_key_info C (certificate s));
  let verifier := verifier_update payload verifier in
  attr ← attr_der (authenticated_attributes s);
  let verifier := verifier_update attr verifier in
  verifier_verify verifier (signature s).

(** * Boot images *)

(** The files, and the position and the length of the payload, as the parser finds them. *)
Context (read_file : bytes -> option bytes) (VERITY_PEM VERITY_PK8 : bytes).
Context (pagesize : Z) (layout : bytes -> option (Z * Z)).

(** The file is mapped, up to the end of the last page. *)
Definition map_ (data : bytes) : bytes := data ++ replicate (Z.to_nat ((- zlen data) mod pagesize)) (bof 0).

Record BootImage := mkImage { payload : bytes; tail : bytes; tail_off : Z }.

Definition BootImage_new (data : bytes) : option BootImage :=
  '(addr, off) ← layout data;
  let t := addr + off in
  Some (mkImage (take (Z.to_nat off) (drop (Z.to_nat addr) (map_ data))) (drop (Z.to_nat t) (map_ data)) t).

(** [BootImage::verify]. *)
Definition verify (img : BootImage) (cert : option bytes) : logged unit :=
  if starts_with (tail img) #"AVB0" then Err tt else
  sig ← decode (tail img);
  sig ← match cert with
        | None => Ok sig
        | Some s =>
            pem ← of_option tt (read_file s);
            c ← of_option tt (from_pem C pem);
            Ok (mkSig (format_version sig) c (algorithm_identifier sig) (authenticated_attributes sig) (signature sig))
        end;
  signature_verify sig (payload img).

Definition verify_for_cxx (img : BootImage) : bool := match verify img None with Ok _ => true | _ => false end.

Definition SEANDROID_MAGIC : bytes := #"SEANDROIDENFORCE".
Definition LG_BUMP_MAGIC : bytes :=
  map bof [0x41; 0xa9; 0xe4; 0x67; 0x74; 0x4d; 0x1d; 0x1b; 0xa4; 0x29; 0xf2; 0xec; 0xea; 0x65; 0x52; 0x79].

(** The flag AVB1_SIGNED_FLAG, set by the parser. *)
Definition is_signed (img : BootImage) : bool :=
  negb (is_empty (tail img)) && negb (starts_with (tail img) SEANDROID_MAGIC) && negb (starts_with (tail img) LG_BUMP_MAGIC) && verify_for_cxx img.

Definition sign_boot_image (payload name : bytes) (cert key : option bytes) : logged bytes :=
  cert ← match cert with Some s => of_option tt (read_file s) | None => Ok VERITY_PEM end;
  key ← match key with Some s => of_option tt (read_file s) | None => Ok VERITY_PK8 end;
  cert ← of_option tt (from_pem C cert);
  signer ← from_private_key key;
  if negb (printable C name) then Err tt else
  let attr := mkAttr name (zlen payload) in
  let signer := signer_update payload signer in
  der ← attr_der attr;
  let signer := signer_update der signer in
  sig ← signer_sign signer;
  sig_der (mkSig 1 cert (signature_algorithm C cert) attr sig).

Definition sign_payload_for_cxx (payload : bytes) : bytes :=
  match sign_boot_image payload #"/boot" None None with Ok s => s | _ => [] end.

(** [verify_cmd]. *)
Definition verify_cmd (img : BootImage) (cert : option bytes) : bool :=
  match cert with
  | None => is_signed img
  | Some _ => match verify img cert with Ok _ => true | _ => false end
  end.

(** [sign_cmd]: the new contents of the file. *)
Definition sign_cmd (data : bytes) (name cert key : option bytes) : logged bytes :=
  img ← of_option tt (BootImage_new data);
  let name := default #"/boot" name in
  sig ← sign_boot_image (payload img) name cert key;
  let fd := write_all sig (mkFile data (tail_off img)) in
  let current := offset fd in
  let eof := zlen (contents fd) in
  Ok (contents (if current <? eof then write_zeros (eof - current) (mkFile (contents fd) current) else fd)).

(** * A signed image verifies *)

(** The kinds that are tried before one. *)
Definition before (kind : Kind) : list Kind := match kind with Rsa => [] | P256 => [Rsa] | P384 => [Rsa; P256] | P521 => [Rsa; P256; P384] end.

(** A certificate and a private key that belong together: they are of one kind, and no
    other, and what the key signs verifies. *)
Definition key_pair (c : Certificate C) (key : bytes) : Prop :=
  exists kind pub sec,
    Forall (fun k => public_key C k (subject_public_key_info C c) = None /\ private_key C k key = None) (before kind) /\
    public_key C kind (subject_public_key_info C c) = Some pub /\ private_key C kind key = Some sec /\
    (forall h, exists s, sign_prehash C kind sec h = Some s /\ verify_prehash C kind pub h s = true).

(** What DER promises: what has a printable name is encoded, an encoded signature is
    decoded whatever zeros follow it, and it is a SEQUENCE, whose first byte is 0x30. *)
Record Der_law : Prop := {
  der_attr t n : printable C t = true -> 0 <= n < 2 ^ 64 -> is_Some (attr_to_der C t n);
  der_total c a t n s : printable C t = true -> 0 <= n < 2 ^ 64 -> is_Some (sig_to_der C 1 c a (t, n) s);
  der_tail v c a t s d n : sig_to_der C v c a t s = Some d -> sig_decode C (d ++ replicate n (bof 0)) = Some (v, c, a, t, s);
  der_sequence v c a t s d : sig_to_der C v c a t s = Some d -> exists r, d = bof 0x30 :: r }.

(** The payload lies in the mapped file, and where it is depends on nothing behind it. *)
Definition layout_law : Prop :=
  forall data a o, layout data = Some (a, o) -> 0 <= a /\ 0 <= o /\ a + o <= zlen (map_ data) /\
    forall data', take (Z.to_nat (a + o)) (map_ data') = take (Z.to_nat (a + o)) (map_ data) -> layout data' = Some (a, o).

Lemma key_pair_agrees c key :
  key_pair c key ->
  exists v s, from_public_key (subject_public_key_info C c) = Ok v /\ from_private_key key = Ok s /\
    forall d1 d2, exists sig, signer_sign (signer_update d2 (signer_update d1 s)) = Ok sig /\
      verifier_verify (verifier_update d2 (verifier_update d1 v)) sig = Ok tt.
Proof.
  intros (kind & pub & sec & Hb & Hp & Hs & Hok). unfold from_public_key, from_private_key.
  destruct kind; cbn [before] in Hb; repeat (apply Forall_cons in Hb as [[Hb1 Hb2] Hb]; rewrite Hb1, Hb2; clear Hb1 Hb2); rewrite Hp, Hs.
  all: eexists _, _; split; [reflexivity |]; split; [reflexivity |]; intros d1 d2; unfold signer_sign, verifier_verify; cbn [s_digest v_digest s_key v_key signer_update verifier_update fst snd].
  all: match goal with |- context [hash C ?x ?y] => destruct (Hok (hash C x y)) as (sig & -> & Hv) end; exists sig; by rewrite Hv.
Qed.

(** What [sign_cmd] writes: the signature behind the payload, and zeros to the end. *)
Lemma sign_contents data t sig :
  0 <= t -> sig <> [] ->
  exists n, contents (let fd := write_all sig (mkFile data t) in
    if offset fd <? zlen (contents fd) then write_zeros (zlen (contents fd) - offset fd) (mkFile (contents fd) (offset fd)) else fd) =
  take (Z.to_nat t) (data ++ replicate (Z.to_nat t - length data) (bof 0)) ++ sig ++ replicate n (bof 0).
Proof.
  intros Ht Hs. cbv zeta. set (pre := take (Z.to_nat t) (data ++ replicate (Z.to_nat t - length data) (bof 0))).
  assert (length pre = Z.to_nat t) as Hpre by (unfold pre; rewrite length_take, length_app, length_replicate; lia).
  assert (write_all sig (mkFile data t) = mkFile (pre ++ sig ++ drop (Z.to_nat t + length sig) data) (t + zlen sig)) as ->.
  { unfold write_all, write_at. cbn [fst snd offset contents]. by destruct sig. }
  cbn [offset contents]. set (rest := drop _ data). rewrite !zlen_app. destruct (Z.ltb_spec (t + zlen sig) (zlen pre + (zlen sig + zlen rest))) as [Hlt | Hge].
  - unfold write_zeros. rewrite zeros_loop_spec by (cbn [offset]; lia). unfold write_all, write_at. cbn [contents offset fst snd].
    assert (Z.to_nat (zlen pre + (zlen sig + zlen rest) - (t + zlen sig)) = length rest) as -> by lia. exists (length rest).
    destruct (replicate (length rest) (bof 0)) as [|z zs] eqn:Ez; [destruct rest; cbn in *; [lia | done] |]. rewrite <- Ez.
    assert (Z.to_nat (t + zlen sig) = length (pre ++ sig)) as -> by (rewrite length_app; lia).
    replace (pre ++ sig ++ rest) with ((pre ++ sig) ++ rest) by (by rewrite app_assoc).
    rewrite (drop_ge ((pre ++ sig) ++ rest)) by (rewrite !length_app, length_replicate; lia). rewrite app_nil_r.
    rewrite <- (app_assoc (pre ++ sig) rest), take_app_length. by rewrite <- app_assoc.
  - exists 0%nat. assert (rest = []) as -> by (destruct rest; [done | cbn in *; lia]). done.
Qed.

Lemma take_map data t : Z.of_nat t <= zlen (map_ data) -> take t (map_ data) = take t (data ++ replicate (t - length data) (bof 0)).
Proof.
  unfold map_. intros Ht. rewrite !take_app, !take_replicate. f_equal. f_equal. rewrite length_app, length_replicate in Ht. lia.
Qed.

Lemma sign_boot_image_ok pl nm cert key pem pk8 c :
  Der_law -> zlen pl < 2 ^ usize -> 0 < usize <= 64 -> printable C nm = true ->
  match cert with Some s => read_file s | None => Some VERITY_PEM end = Some pem ->
  match key with Some s => read_file s | None => Some VERITY_PK8 end = Some pk8 ->
  from_pem C pem = Some c -> key_pair c pk8 ->
  exists d s, sign_boot_image pl nm cert key = Ok d /\ sig_der s = Ok d /\ certificate s = c /\ signature_verify s pl = Ok tt.
Proof.
  intros Hder Hlen Hus Hname Hcert Hkey Hpem Hpair. destruct (key_pair_agrees c pk8 Hpair) as (v & s & Hv & Hs & Hok).
  assert (0 <= zlen pl < 2 ^ 64) as Hn by (split; [lia |]; pose proof (Z.pow_le_mono_r 2 usize 64); lia).
  destruct (der_attr Hder nm _ Hname Hn) as [ad Had]. destruct (Hok pl ad) as (sg & Hsg & Hver).
  destruct (der_total Hder c (signature_algorithm C c) nm _ sg Hname Hn) as [d Hd].
  exists d, (mkSig 1 c (signature_algorithm C c) (mkAttr nm (zlen pl)) sg). split_and!; [| unfold sig_der; cbn; by rewrite Hd | done |].
  - unfold sign_boot_image. replace (match cert with Some s0 => of_option tt (read_file s0) | None => Ok VERITY_PEM end) with (@Ok unit _ pem) by (destruct cert; [by rewrite Hcert | congruence]).
    cbn [mbind res_bind]. replace (match key with Some s0 => of_option tt (read_file s0) | None => Ok VERITY_PK8 end) with (@Ok unit _ pk8) by (destruct key; [by rewrite Hkey | congruence]).
    cbn [mbind res_bind]. rewrite Hpem. cbn [of_option mbind res_bind]. rewrite Hs, Hname. cbn [mbind res_bind negb]. unfold attr_der. cbn [target length_]. rewrite Had.
    cbn [of_option mbind res_bind]. rewrite Hsg. cbn [mbind res_bind]. unfold sig_der. cbn. by rewrite Hd.
  - unfold signature_verify. cbn [authenticated_attributes length_ certificate signature]. rewrite uwrap_small, Z.eqb_refl by lia. cbn [negb]. rewrite Hv. cbn [mbind res_bind].
    unfold attr_der. cbn [target length_]. rewrite Had. cbn [of_option mbind res_bind]. done.
Qed.

(** The image with a signature written behind its payload. *)
Lemma signed_image data d img :
  layout_law -> BootImage_new data = Some img -> d <> [] ->
  exists data' img' m, contents (let fd := write_all d (mkFile data (tail_off img)) in
      if offset fd <? zlen (contents fd) then write_zeros (zlen (contents fd) - offset fd) (mkFile (contents fd) (offset fd)) else fd) = data' /\
    BootImage_new data' = Some img' /\ payload img' = payload img /\ tail img' = d ++ replicate m (bof 0).
Proof.
  intros Hlay Himg Hd. unfold BootImage_new in Himg. destruct (layout data) as [[a o]|] eqn:Hl; [| done]. cbn [mbind option_bind] in Himg. injection Himg as <-. cbn [payload tail_off] in *.
  destruct (Hlay _ _ _ Hl) as (Ha & Ho & Hao & Hext). set (t := a + o) in *. assert (0 <= t) as Ht by lia.
  destruct (sign_contents data t d Ht Hd) as [n Hc].
  set (data' := take (Z.to_nat t) (data ++ replicate (Z.to_nat t - length data) (bof 0)) ++ d ++ replicate n (bof 0)) in Hc.
  assert (exists m, map_ data' = take (Z.to_nat t) (map_ data) ++ d ++ replicate m (bof 0)) as [m Hm].
  { rewrite take_map by lia. unfold map_ at 1. set (k := Z.to_nat ((- zlen data') mod pagesize)). exists (n + k)%nat. unfold data'. rewrite replicate_add, <- !app_assoc. done. }
  assert (length (take (Z.to_nat t) (map_ data)) = Z.to_nat t) as Hlt by (rewrite length_take; lia).
  assert (layout data' = Some (a, o)) as Hl' by (apply Hext; rewrite Hm, take_app_le, take_take, Nat.min_id by lia; done).
  eexists data', _, m. split; [done |]. unfold BootImage_new. rewrite Hl'. cbn [mbind option_bind]. split; [reflexivity |]. cbn [payload tail]. fold t. rewrite Hm. split.
  - rewrite !take_drop_commute. replace (Z.to_nat a + Z.to_nat o)%nat with (Z.to_nat t) by lia. rewrite take_app_le, take_take, Nat.min_id by lia. done.
  - rewrite drop_app_ge, Hlt, Nat.sub_diag by lia. done.
Qed.

Lemma decode_der s d m : Der_law -> sig_der s = Ok d -> decode (d ++ replicate m (bof 0)) = Ok s /\ exists r, d = bof 0x30 :: r.
Proof.
  intros Hder. destruct s as [v c a [t n] sg]. unfold sig_der. cbn. destruct (sig_to_der C v c a (t, n) sg) as [x|] eqn:E; [| done]. intros [= <-].
  split; [| by eapply der_sequence]. unfold decode. by rewrite (der_tail Hder _ _ _ _ _ _ m E).
Qed.

(** C25: signing a boot image with a certificate and the key that belongs to it succeeds, if
    the name can be in a signature, and the image then is signed: its payload is what it
    was, the parser marks it as signed, and it verifies both with the certificate that is
    in the signature and with the one that was given. *)
Theorem sign_then_verify data name cert key img pem pk8 c :
  Der_law -> layout_law -> zlen (payload img) < 2 ^ usize -> 0 < usize <= 64 ->
  BootImage_new data = Some img -> printable C (default #"/boot" name) = true ->
  match cert with Some s => read_file s | None => Some VERITY_PEM end = Some pem ->
  match key with Some s => read_file s | None => Some VERITY_PK8 end = Some pk8 ->
  from_pem C pem = Some c -> key_pair c pk8 ->
  exists data' img', sign_cmd data name cert key = Ok data' /\ BootImage_new data' = Some img' /\ payload img' = payload img /\
    verify_cmd img' None = true /\ (forall s, cert = Some s -> verify_cmd img' (Some s) = true).
Proof.
  intros Hder Hlay Hlen Hus Himg Hname Hcert Hkey Hpem Hpair.
  destruct (sign_boot_image_ok (payload img) _ cert key pem pk8 c Hder Hlen Hus Hname Hcert Hkey Hpem Hpair) as (d & s & Hsign & Hsd & Hc & Hver).
  destruct (decode_der s d 0 Hder Hsd) as [_ [r Hr]]. destruct (signed_image data d img Hlay Himg) as (data' & img' & m & Hcont & Himg' & Hpl & Htl); [by subst d |].
  exists data', img'. split; [| split; [done |]; split; [done |]].
  { unfold sign_cmd. rewrite Himg. cbn [of_option mbind res_bind]. rewrite Hsign. cbn [mbind res_bind]. by rewrite <- Hcont. }
  assert (forall cs, (cs = None \/ cs = cert) -> verify img' cs = Ok tt) as Hver'.
  { intros cs Hcs. unfold verify. rewrite Htl. assert (starts_with (d ++ replicate m (bof 0)) #"AVB0" = false) as -> by (by subst d).
    destruct (decode_der s d m Hder Hsd) as [-> _]. cbn [mbind res_bind]. rewrite Hpl. destruct cs as [x|]; cbn [mbind res_bind]; [| done].
    destruct Hcs as [[=] | <-]. rewrite Hcert. cbn [of_option mbind res_bind]. rewrite Hpem. cbn [of_option mbind res_bind]. subst c. by destruct s. }
  split.
  - unfold verify_cmd, is_signed, verify_for_cxx. rewrite (Hver' None) by auto. rewrite Htl. by subst d.
  - intros x Hx. unfold verify_cmd. rewrite (Hver' (Some x)) by auto. done.
Qed.
End Sign.

(** * An instance of the crates *)

(** Texts in which every byte is announced, and the end too. *)
Definition enc_text (l : bytes) : bytes := concat (map (fun x => [bof 1; x]) l) ++ [bof 0].

Fixpoint dec_text (s : bytes) : option (bytes * bytes) :=
  match s with
  | x :: r =>
      if bool_decide (x = bof 0) then Some ([], r)
      else match r with y :: r => '(l, r) ← dec_text r; Some (y :: l, r) | [] => None end
  | [] => None
  end.

Lemma dec_enc_text l r : dec_text (enc_text l ++ r) = Some (l, r).
Proof.
  induction l as [|x l IH]; [done |]. unfold enc_text in *. cbn [map concat app dec_text]. rewrite bool_decide_eq_false_2 by done.
  by rewrite IH.
Qed.

Definition toy_sig_to_der (v : Z) (c a : bytes) (t : bytes * Z) (s : bytes) : option bytes :=
  if bool_decide (v = 1 /\ 0 <= t.2 < 2 ^ 64) then Some (bof 0x30 :: enc_text c ++ enc_text a ++ enc_text t.1 ++ to_le 8 t.2 ++ enc_text s) else None.

Definition toy_sig_decode (d : bytes) : option (Z * bytes * bytes * (bytes * Z) * bytes) :=
  match d with
  | x :: d =>
      if bool_decide (x = bof 0x30) then
        '(c, d) ← dec_text d; '(a, d) ← dec_text d; '(t, d) ← dec_text d;
        '(s, _) ← dec_text (drop 8 d); Some (1, c, a, (t, of_le (take 8 d)), s)
      else None
  | [] => None
  end.

(** Keys are texts, and only the kind P-256 is there; a signature is the key and the hash. *)
Definition toy_crates : Crates :=
  mkCrates bytes bytes bytes bytes bytes (fun _ d => d) Some (fun c => c) (fun _ => #"alg")
    (fun k i => match k with P256 => Some i | _ => None end) (fun k i => match k with P256 => Some i | _ => None end)
    (fun _ sec h => Some (sec ++ h)) (fun _ pub h s => bool_decide (s = pub ++ h)) (fun _ => true)
    (fun t n => Some (t ++ to_le 8 n)) toy_sig_to_der toy_sig_decode.

Definition toy_layout (data : bytes) : option (Z * Z) := if bool_decide (take 4 (map_ 8 data) = #"ANDR") then Some (1, 3) else None.

Lemma toy_der : Der_law toy_crates.
Proof.
  split; cbn [toy_crates Certificate AlgorithmIdentifier printable attr_to_der sig_to_der sig_decode].
  - intros t n _ _. eauto.
  - intros c a t n s _ Hn. unfold toy_sig_to_der. rewrite bool_decide_eq_true_2 by done. eauto.
  - intros v c a [t n] s d m. unfold toy_sig_to_der. case_bool_decide as H; [| done]. destruct H as [-> Hn]. cbn [fst snd] in *. intros <-%(inj Some).
    unfold toy_sig_decode. rewrite <- app_comm_cons. rewrite bool_decide_eq_true_2 by done. rewrite <- !app_assoc. rewrite !dec_enc_text. cbn [mbind option_bind].
    rewrite dec_enc_text. cbn [mbind option_bind]. rewrite dec_enc_text. cbn [mbind option_bind].
    rewrite drop_app_length' by (by rewrite to_le_length). rewrite dec_enc_text. cbn [mbind option_bind]. rewrite take_app_length' by (by rewrite to_le_length). by rewrite of_to_le, Z.mod_small by (change (256 ^ Z.of_nat 8) with (2 ^ 64); lia).
  - intros v c a t s d. unfold toy_sig_to_der. case_bool_decide; [| done]. intros [= <-]. eauto.
Qed.

Lemma toy_layout_law : layout_law 8 toy_layout.
Proof.
  intros data a o. unfold toy_layout. case_bool_decide as H; [| done]. intros [= <- <-].
  assert (length (take 4 (map_ 8 data)) = 4%nat) as Hl by by rewrite H. rewrite length_take in Hl. split_and!; [lia.. |].
  intros data' Hd. change (Z.to_nat (1 + 3)) with 4%nat in Hd. rewrite bool_decide_eq_true_2; [done |]. by rewrite Hd.
Qed.

Lemma sign_then_verify_witness :
  exists data' img', sign_cmd toy_crates (fun p => if bool_decide (p = #"c.pem") then Some #"key" else None) #"verity" #"verity" 8 toy_layout #"ANDRold signature" None (Some #"c.pem") (Some #"c.pem") = Ok data' /\
    BootImage_new 8 toy_layout data' = Some img' /\ payload img' = #"NDR" /\
    verify_cmd toy_crates 64 (fun p => if bool_decide (p = #"c.pem") then Some #"key" else None) img' None = true /\
    (forall s, Some #"c.pem" = Some s -> verify_cmd toy_crates 64 (fun p => if bool_decide (p = #"c.pem") then Some #"key" else None) img' (Some s) = true).
Proof.
  apply (sign_then_verify toy_crates 64 (fun p => if bool_decide (p = #"c.pem") then Some #"key" else None) #"verity" #"verity" 8 toy_layout #"ANDRold signature" None (Some #"c.pem") (Some #"c.pem")
    (mkImage #"NDR" (drop 4 (map_ 8 #"ANDRold signature")) 4) #"key" #"key" #"key" toy_der toy_layout_law); try (vm_compute; split; congruence); try (vm_compute; reflexivity).
  exists P256, #"key", #"key". split; [repeat constructor |]. split; [reflexivity |]. split; [reflexivity |]. intros h. eexists. split; [reflexivity |]. cbn. by apply bool_decide_eq_true_2.
Defined.
End Sign.
