(* ===== verification/Persist.v ===== *)
(** core/resetprop/persist.rs: the persistent properties, kept in one protobuf message
    or, on older systems, in one file each.

    The generated protobuf codec is an argument; what is relied on is that a message
    that was written is read back.  Calls on the files in /data/property succeed where
    the files exist. *)

From S2P Require Import Prelude Text.

Module Persist.

Record PersistentPropertyRecord := mkRecord { name : option bytes; value : option bytes }.
Abbreviation Props := (list PersistentPropertyRecord).

(** The files of /data/property: the message, and one file per property. *)
Record Store := mkStore { persist_prop : option bytes; prop_files : gmap bytes bytes }.

(** The [Ord] of [Option<&str>]. *)
Definition name_cmp (x y : option bytes) : comparison :=
  match x, y with
  | None, None => Eq
  | None, Some _ => Lt
  | Some _, None => Gt
  | Some x, Some y => bcmp x y
  end.

(** [slice::binary_search_by]: the loop over [size] and [base], and the last test. *)
Fixpoint search_loop (f : nat -> comparison) (fuel base size : nat) : nat :=
  match fuel with
  | O => base
  | S fuel =>
      if (1 <? size)%nat then
        let half := Nat.div size 2 in
        let mid := (base + half)%nat in
        search_loop f fuel (match f mid with Gt => base | _ => mid end) (size - half)
      else base
  end.

Definition binary_search_by (f : nat -> comparison) (len : nat) : res nat nat :=
  match len with
  | O => Err 0%nat
  | _ =>
      let base := search_loop f len 0 len in
      match f base with
      | Eq => Ok base
      | Lt => Err (S base)
      | Gt => Err base
      end
  end.

Definition cmp_at (props : Props) (key : bytes) (i : nat) : comparison :=
  match props !! i with Some p => name_cmp (name p) (Some key) | None => Lt end.

Definition find_index (props : Props) (key : bytes) : res nat nat :=
  binary_search_by (cmp_at props key) (length props).

Definition find (props : Props) (key : bytes) : option PersistentPropertyRecord :=
  match find_index props key with Ok idx => props !! idx | _ => None end.

Definition name_le (p q : PersistentPropertyRecord) : Prop := name_cmp (name p) (name q) <> Gt.
#[export] Instance name_le_dec : RelDecision name_le := fun p q => decide (name_cmp (name p) (name q) <> Gt).

Section Persist.
Context (from_reader : bytes -> option Props) (write_message : Props -> bytes).

Definition check_proto (s : Store) : bool := match persist_prop s with Some _ => true | None => false end.

Definition file_get_prop (key : bytes) (s : Store) : logged bytes :=
  v ← of_option tt (prop_files s !! key);
  if utf8_valid v then Ok v else Err tt.

Definition file_set_prop (key : bytes) (val : option bytes) (s : Store) : Store * logged unit :=
  match val with
  | Some v => (mkStore (persist_prop s) (<[key := v]> (prop_files s)), Ok tt)
  | None =>
      match prop_files s !! key with
      | Some _ => (mkStore (persist_prop s) (delete key (prop_files s)), Ok tt)
      | None => (s, Err tt)
      end
  end.

(** [sort_unstable_by]; among equal names any order is possible, this is one of them. *)
Definition proto_read_props (s : Store) : logged Props :=
  data ← of_option tt (persist_prop s);
  props ← of_option tt (from_reader data);
  Ok (merge_sort name_le props).

Definition proto_write_props (props : Props) (s : Store) : Store := mkStore (Some (write_message props)) (prop_files s).

Definition persist_get_prop (key : bytes) (s : Store) : logged bytes :=
  if check_proto s then
    props ← proto_read_props s;
    prop ← of_option tt (find props key);
    match prop with
    | mkRecord (Some _) (Some v) => Ok v
    | _ => Err tt
    end
  else file_get_prop key s.

Definition persist_delete_prop (key : bytes) (s : Store) : Store * logged unit :=
  if check_proto s then
    match proto_read_props s with
    | Ok props =>
        match find_index props key with
        | Ok idx => (proto_write_props (delete idx props) s, Ok tt)
        | _ => (s, Err tt)
        end
    | Err e => (s, Err e)
    | Panic => (s, Panic)
    end
  else file_set_prop key None s.

Definition set_value (v : bytes) (p : PersistentPropertyRecord) : PersistentPropertyRecord := mkRecord (name p) (Some v).

Definition persist_set_prop (key val : bytes) (s : Store) : Store * logged unit :=
  if check_proto s then
    match proto_read_props s with
    | Ok props =>
        let props :=
          match find_index props key with
          | Ok idx => alter (set_value val) idx props
          | Err idx => take idx props ++ mkRecord (Some key) (Some val) :: drop idx props
          | Panic => props
          end in
        (proto_write_props props s, Ok tt)
    | Err e => (s, Err e)
    | Panic => (s, Panic)
    end
  else file_set_prop key (Some val) s.

(** [persist_get_all_props] into a list; files that cannot be read are left out. *)
Definition persist_get_all_props (s : Store) : logged (gmap bytes bytes) :=
  if check_proto s then
    props ← proto_read_props s;
    Ok (foldl (fun m p => match p with mkRecord (Some n) (Some v) => <[n := v]> m | _ => m end) ∅ props)
  else Ok (omap (fun v => if utf8_valid v then Some v else None) (prop_files s)).
End Persist.

(** * Binary search *)

Section Search.
Context (props : Props) (key : bytes).
Context (sorted : StronglySorted (fun p q => name_cmp (name p) (name q) = Lt) props).

Lemma name_cmp_trans a b c : name_cmp a b = Lt -> name_cmp b c = Lt -> name_cmp a c = Lt.
Proof. destruct a, b, c; cbn; try done. apply blt_trans. Qed.

Lemma name_cmp_Eq a b : name_cmp a b = Eq <-> a = b.
Proof. destruct a, b; cbn; try naive_solver. rewrite bcmp_Eq. naive_solver. Qed.

Lemma name_cmp_Gt a b : name_cmp a b = Gt <-> name_cmp b a = Lt.
Proof. destruct a, b; cbn; try naive_solver. apply bcmp_Gt. Qed.

Lemma sorted_lookup i j p q : (i < j)%nat -> props !! i = Some p -> props !! j = Some q -> name_cmp (name p) (name q) = Lt.
Proof.
  clear key. revert i j. induction sorted as [|x l Hs IH Hf]; intros i j Hij Hi Hj; [done |].
  destruct j as [|j]; [lia |]. destruct i as [|i]; cbn in *.
  - injection Hi as <-. rewrite Forall_forall in Hf. apply Hf. by eapply list_elem_of_lookup_2.
  - apply (IH Hs i j); [lia | done | done].
Qed.

(** The key is not left of [base], unless [base] is the start, and not right of the window. *)
Definition window (base size : nat) : Prop :=
  (1 <= size)%nat /\ (base + size <= length props)%nat /\
  ((0 < base)%nat -> cmp_at props key base <> Gt) /\
  (forall i, (base + size <= i < length props)%nat -> cmp_at props key i = Gt).

Lemma cmp_at_mono i j : (i < j < length props)%nat -> cmp_at props key i = Gt -> cmp_at props key j = Gt.
Proof.
  intros Hij. unfold cmp_at. destruct (lookup_lt_is_Some_2 props i) as [p Hp]; [lia |].
  destruct (lookup_lt_is_Some_2 props j) as [q Hq]; [lia |]. rewrite Hp, Hq.
  rewrite !name_cmp_Gt. intros H. eapply name_cmp_trans; [exact H |]. by apply (sorted_lookup i j); [lia | |].
Qed.

Lemma search_loop_window fuel base size :
  (size <= fuel)%nat -> window base size -> window (search_loop (cmp_at props key) fuel base size) 1.
Proof.
  revert base size. induction fuel as [|fuel IH]; intros base size Hf Hw; [destruct Hw; lia |]. cbn [search_loop].
  destruct (Nat.ltb_spec 1 size) as [H1|H1].
  - assert (1 <= Nat.div size 2 < size /\ 2 * Nat.div size 2 <= size)%nat as Hh.
    { pose proof (Nat.div_mod_eq size 2). pose proof (Nat.mod_upper_bound size 2 ltac:(done)). lia. }
    destruct Hw as (Hs & Hl & Hb & Hr). apply IH; [lia |].
    destruct (cmp_at props key (base + Nat.div size 2)) eqn:E; (split_and!; [lia | lia | |]).
    1,3: by rewrite E.
    1,2: intros i Hi; apply Hr; lia.
    + exact Hb.
    + intros i Hi. destruct (decide (i = base + Nat.div size 2)%nat) as [->|]; [done |].
      apply (cmp_at_mono (base + Nat.div size 2)); [lia | done].
  - destruct Hw as (Hs & Hl & Hb & Hr). replace size with 1%nat in * by lia. done.
Qed.

(** The search finds the key, or the place where it belongs. *)
Lemma find_index_spec :
  match find_index props key with
  | Ok i => exists p, props !! i = Some p /\ name p = Some key
  | Err i => (i <= length props)%nat /\
      Forall (fun p => name_cmp (name p) (Some key) = Lt) (take i props) /\
      Forall (fun p => name_cmp (Some key) (name p) = Lt) (drop i props)
  | Panic => False
  end.
Proof.
  unfold find_index, binary_search_by. destruct (length props) as [|n] eqn:El.
  { apply length_zero_iff_nil in El as ->. split; [lia |]. split; constructor. }
  assert (window 0 (S n)) as Hw by (split_and!; lia).
  pose proof (search_loop_window (S n) 0 (S n) ltac:(lia) Hw) as Hb. set (base := search_loop _ _ _ _) in *.
  destruct Hb as (_ & Hlt & Hle & Hgt). destruct (lookup_lt_is_Some_2 props base) as [p Hp]; [lia |].
  assert (forall i q, props !! i = Some q -> (i <= base)%nat -> cmp_at props key base = Lt -> name_cmp (name q) (Some key) = Lt) as Hleft.
  { intros i q Hq Hi. unfold cmp_at. rewrite Hp. intros H. destruct (decide (i = base)) as [->|]; [congruence |].
    eapply name_cmp_trans; [| exact H]. by apply (sorted_lookup i base); [lia | |]. }
  assert (forall i q, props !! i = Some q -> (base + 1 <= i)%nat -> name_cmp (Some key) (name q) = Lt) as Hright.
  { intros i q Hq Hi. apply name_cmp_Gt. specialize (Hgt i). unfold cmp_at in Hgt. rewrite Hq in Hgt. apply Hgt.
    apply lookup_lt_Some in Hq. lia. }
  destruct (cmp_at props key base) eqn:E.
  - exists p. split; [done |]. unfold cmp_at in E. rewrite Hp in E. by apply name_cmp_Eq.
  - split_and!; [lia | |]; apply Forall_forall; intros q (i & Hi)%list_elem_of_lookup_1.
    + apply lookup_take_Some in Hi as [Hi Hlt']. apply (Hleft i q Hi); [lia | done].
    + rewrite lookup_drop in Hi. apply (Hright _ q Hi). lia.
  - assert (base = 0)%nat as Hb0 by (destruct base; [done | by destruct (Hle ltac:(lia))]).
    rewrite Hb0 in *. split_and!; [lia | constructor |]. apply Forall_forall. intros q (i & Hi)%list_elem_of_lookup_1.
    rewrite lookup_drop in Hi. cbn [Nat.add] in Hi. destruct i as [|i]; [| apply (Hright _ q Hi); lia]. rewrite Hi in Hp. injection Hp as ->.
    unfold cmp_at in E. rewrite Hi in E. by apply name_cmp_Gt.
Qed.
End Search.

(** * The store *)

#[export] Instance name_le_total : Total name_le.
Proof.
  intros p q. unfold name_le. destruct (name_cmp (name p) (name q)) eqn:E; [by left | by left |].
  right. apply name_cmp_Gt in E. by rewrite E.
Qed.

#[export] Instance name_le_trans : Transitive name_le.
Proof.
  assert (forall a b, name_cmp a b <> Gt <-> name_cmp a b = Lt \/ a = b) as H.
  { intros a b. rewrite <- name_cmp_Eq. destruct (name_cmp a b); naive_solver. }
  intros p q r. unfold name_le. rewrite !H. intros [H1| ->] [H2| <-]; auto.
  left. by eapply name_cmp_trans.
Qed.

Definition unique (props : Props) : Prop := NoDup (map name props).

Lemma merge_sort_strict props :
  unique props -> StronglySorted (fun p q => name_cmp (name p) (name q) = Lt) (merge_sort name_le props).
Proof.
  intros Hu. pose proof (StronglySorted_merge_sort name_le props) as Hs.
  assert (unique (merge_sort name_le props)) as Hu'.
  { unfold unique in *. rewrite <- (merge_sort_Permutation name_le props) in Hu. exact Hu. }
  clear Hu. induction Hs as [|p l Hs IH Hf]; [constructor |].
  unfold unique in Hu'. cbn [map] in Hu'. apply NoDup_cons in Hu' as [Hp Hu']. constructor; [by apply IH |].
  rewrite Forall_forall in *. intros q Hq. specialize (Hf q Hq). unfold name_le in Hf.
  destruct (name_cmp (name p) (name q)) eqn:E; [| done..]. apply name_cmp_Eq in E. destruct Hp. rewrite E.
  by apply list_elem_of_fmap_2.
Qed.

(** The value of a property, in whatever order the records are. *)
Definition has_value (props : Props) (k v : bytes) : Prop := mkRecord (Some k) (Some v) ∈ props.

Lemma unique_record props p q : unique props -> p ∈ props -> q ∈ props -> name p = name q -> p = q.
Proof.
  induction props as [|x l IH]; [set_solver |]. intros Hu. unfold unique in Hu. cbn [map] in Hu.
  apply NoDup_cons in Hu as [Hx Hu]. intros Hp Hq Hn.
  apply elem_of_cons in Hp as [->|Hp]; apply elem_of_cons in Hq as [->|Hq]; auto.
  - destruct Hx. rewrite Hn. by apply list_elem_of_fmap_2.
  - destruct Hx. rewrite <- Hn. by apply list_elem_of_fmap_2.
Qed.

Section Store.
Context (from_reader : bytes -> option Props) (write_message : Props -> bytes).
Context (codec : forall props, from_reader (write_message props) = Some props).

(** The store holds these records; names are unique, and in the one-file-per-property
    form values are UTF-8. *)
Definition holds (s : Store) (props : Props) : Prop :=
  exists data, persist_prop s = Some data /\ from_reader data = Some props /\ unique props.

Lemma read_holds s props : holds s props -> proto_read_props from_reader s = Ok (merge_sort name_le props).
Proof. intros (data & H1 & H2 & _). unfold proto_read_props. by rewrite H1; cbn; rewrite H2. Qed.

Lemma holds_check s props : holds s props -> check_proto s = true.
Proof. intros (data & H & _). unfold check_proto. by rewrite H. Qed.

(** Where a property is in the sorted list. *)
Lemma find_index_sorted props key :
  unique props ->
  match find_index (merge_sort name_le props) key with
  | Ok i => exists v, merge_sort name_le props !! i = Some (mkRecord (Some key) v) /\ mkRecord (Some key) v ∈ props
  | Err i => (i <= length (merge_sort name_le props))%nat /\ forall v, mkRecord (Some key) v ∉ props
  | Panic => False
  end.
Proof.
  intros Hu. pose proof (find_index_spec _ key (merge_sort_strict props Hu)) as H.
  destruct (find_index _ key) as [i|i|]; [| | done].
  - destruct H as ([n v] & Hi & Hn). cbn in Hn. subst n. exists v. split; [done |].
    rewrite <- (merge_sort_Permutation name_le props). by eapply list_elem_of_lookup_2.
  - destruct H as (Hl & H1 & H2). split; [done |]. intros v Hv.
    rewrite <- (merge_sort_Permutation name_le props), <- (take_drop i (merge_sort name_le props)), elem_of_app in Hv.
    rewrite Forall_forall in H1, H2.
    assert (name_cmp (Some key) (Some key) = Lt) as Hkk by (destruct Hv as [Hv|Hv]; [apply (H1 _ Hv) | apply (H2 _ Hv)]).
    by apply (blt_irrefl key).
Qed.

Lemma get_holds s props k v :
  holds s props -> persist_get_prop from_reader k s = Ok v <-> has_value props k v.
Proof.
  intros Hs. unfold persist_get_prop. rewrite (holds_check s props), (read_holds s props) by done. cbn [mbind res_bind].
  destruct Hs as (data & _ & _ & Hu). pose proof (find_index_sorted props k Hu) as H. unfold find, has_value.
  destruct (find_index _ k) as [i|i|]; [| | done].
  - destruct H as (v' & -> & Hin). cbn [of_option mbind res_bind]. destruct v' as [v'|]; split; intros Hv.
    + injection Hv as ->. done.
    + pose proof (unique_record _ _ _ Hu Hin Hv eq_refl) as [= ->]. done.
    + done.
    + by pose proof (unique_record _ _ _ Hu Hin Hv eq_refl).
  - destruct H as [_ H]. cbn. split; [done |]. intros Hv. by destruct (H (Some v)).
Qed.

Lemma get_no_panic k s : persist_get_prop from_reader k s <> Panic.
Proof.
  unfold persist_get_prop, proto_read_props, file_get_prop. destruct (check_proto s).
  - destruct (persist_prop s) as [d|]; [| done]. cbn. destruct (from_reader d); [| done]. cbn.
    destruct (find _ k) as [[[] []]|]; done.
  - destruct (prop_files s !! k) as [v|]; [| done]. cbn. by destruct (utf8_valid v).
Qed.

Lemma get_ext k s s' :
  (forall v, persist_get_prop from_reader k s' = Ok v <-> persist_get_prop from_reader k s = Ok v) ->
  persist_get_prop from_reader k s' = persist_get_prop from_reader k s.
Proof.
  intros H. pose proof (get_no_panic k s). pose proof (get_no_panic k s').
  destruct (persist_get_prop from_reader k s) as [v|[]|], (persist_get_prop from_reader k s') as [v'|[]|]; try done.
  - by apply H.
  - by destruct (H v) as [_ H']; rewrite H'.
  - by destruct (H v') as [H' _]; rewrite H'.
Qed.

(** The records other than that of a key, which every change leaves alone. *)
Lemma others props key :
  unique props ->
  exists rest, unique rest /\ (forall v, mkRecord (Some key) v ∉ rest) /\
    match find_index (merge_sort name_le props) key with
    | Ok i => delete i (merge_sort name_le props) = rest /\
        (forall v, alter (set_value v) i (merge_sort name_le props) ≡ₚ mkRecord (Some key) (Some v) :: rest) /\
        exists v, props ≡ₚ mkRecord (Some key) v :: rest
    | Err i => (forall v, take i (merge_sort name_le props) ++ mkRecord (Some key) (Some v) :: drop i (merge_sort name_le props)
                   ≡ₚ mkRecord (Some key) (Some v) :: rest) /\ props ≡ₚ rest
    | Panic => False
    end.
Proof.
  intros Hu. pose proof (find_index_sorted props key Hu) as H. set (sp := merge_sort name_le props) in *.
  assert (sp ≡ₚ props) as Hsp by apply merge_sort_Permutation.
  destruct (find_index sp key) as [i|i|]; [| | done].
  - destruct H as (v & Hi & _). exists (delete i sp). pose proof (delete_Permutation sp i _ Hi) as Hd.
    assert (unique (mkRecord (Some key) v :: delete i sp)) as Hu'.
    { unfold unique in *. rewrite <- Hsp in Hu. rewrite Hd in Hu. exact Hu. }
    unfold unique in Hu'. cbn [map] in Hu'. apply NoDup_cons in Hu' as [Hn Hr].
    split_and!; [done | | done | | exists v; etrans; [symmetry; exact Hsp | exact Hd]].
    + intros u Hin. apply Hn. exact (list_elem_of_fmap_2 name _ (mkRecord (Some key) u) Hin).
    + intros u. assert (alter (set_value u) i sp !! i = Some (mkRecord (Some key) (Some u))) as Ha.
      { rewrite list_lookup_alter_eq, Hi. done. }
      rewrite (delete_Permutation _ _ _ Ha). f_equiv. by rewrite !delete_take_drop, take_alter_ge, drop_alter_lt by lia.
  - destruct H as [_ H]. exists sp. split_and!; [| | |].
    + unfold unique in *. by rewrite Hsp.
    + intros v. rewrite Hsp. apply H.
    + intros v. rewrite <- Permutation_middle, take_drop. done.
    + by rewrite Hsp.
Qed.

Lemma has_value_other (props rest : Props) key v0 k v :
  k <> key -> props ≡ₚ mkRecord (Some key) v0 :: rest -> has_value props k v <-> has_value rest k v.
Proof. intros Hne Hp. unfold has_value. rewrite Hp, elem_of_cons. naive_solver. Qed.

Lemma written_holds props s : unique props -> holds (proto_write_props write_message props s) props.
Proof. intros Hu. eexists. split; [done |]. by split. Qed.

Lemma unique_cons key v rest : unique rest -> (forall v, mkRecord (Some key) v ∉ rest) -> unique (mkRecord (Some key) v :: rest).
Proof.
  intros Hu Hn. unfold unique. cbn [map]. constructor; [| done].
  intros ([n u] & Heq & Hin)%list_elem_of_fmap. cbn in Heq. subst n. by apply (Hn u).
Qed.

Lemma unique_perm (props props' : Props) : props ≡ₚ props' -> unique props -> unique props'.
Proof. unfold unique. by intros ->. Qed.

Lemma set_holds s props key val :
  holds s props ->
  exists props', (persist_set_prop from_reader write_message key val s).2 = Ok tt /\
    holds (persist_set_prop from_reader write_message key val s).1 props' /\ has_value props' key val /\
    forall k v, k <> key -> has_value props' k v <-> has_value props k v.
Proof.
  intros Hs. unfold persist_set_prop. rewrite (holds_check s props), (read_holds s props) by done.
  destruct Hs as (data & _ & _ & Hu). destruct (others props key Hu) as (rest & Hr & Hn & H).
  set (sp := merge_sort name_le props) in *. destruct (find_index sp key) as [i|i|]; [| | done].
  - destruct H as (_ & Hp & v0 & Hp0). exists (alter (set_value val) i sp). cbn [fst snd]. split_and!; [done | | |].
    + apply written_holds. eapply unique_perm; [symmetry; apply Hp | by apply unique_cons].
    + unfold has_value. rewrite (Hp val). set_solver.
    + intros k v Hk. rewrite (has_value_other _ _ _ _ _ _ Hk (Hp val)). by rewrite (has_value_other _ _ _ _ _ _ Hk Hp0).
  - destruct H as (Hp & Hp0). eexists. cbn [fst snd]. split_and!; [done | apply written_holds | |].
    + eapply unique_perm; [symmetry; apply Hp | by apply unique_cons].
    + unfold has_value. rewrite (Hp val). set_solver.
    + intros k v Hk. rewrite (has_value_other _ _ _ _ _ _ Hk (Hp val)). unfold has_value. by rewrite Hp0.
Qed.

Lemma delete_holds s props key :
  holds s props ->
  ((exists v, mkRecord (Some key) v ∈ props) /\
   exists props', (persist_delete_prop from_reader write_message key s).2 = Ok tt /\
    holds (persist_delete_prop from_reader write_message key s).1 props' /\ (forall v, ~ has_value props' key v) /\
    forall k v, k <> key -> has_value props' k v <-> has_value props k v) \/
  ((forall v, mkRecord (Some key) v ∉ props) /\ persist_delete_prop from_reader write_message key s = (s, Err tt)).
Proof.
  intros Hs. unfold persist_delete_prop. rewrite (holds_check s props), (read_holds s props) by done.
  destruct Hs as (data & _ & _ & Hu). destruct (others props key Hu) as (rest & Hr & Hn & H).
  set (sp := merge_sort name_le props) in *. destruct (find_index sp key) as [i|i|]; [left | right | done].
  - destruct H as (-> & _ & v0 & Hp0). split; [exists v0; rewrite Hp0; set_solver |]. exists rest. cbn [fst snd].
    split_and!; [done | by apply written_holds | by intros v; apply Hn |].
    intros k v Hk. by rewrite (has_value_other _ _ _ _ _ _ Hk Hp0).
  - destruct H as (_ & Hp0). split; [| done]. intros v. rewrite Hp0. apply Hn.
Qed.
End Store.

(** C16: the protobuf store of persistent properties is a map.  Whatever order the
    records of the file are in, the binary search on the sorted copy finds a property
    if it is there; setting one makes it readable with that value, deleting one makes
    it unreadable, in both cases every other property reads as before and names stay
    unique, and deleting one that is not there fails and changes nothing. *)
Theorem persist_store_is_map from_reader write_message s props key val :
  (forall props, from_reader (write_message props) = Some props) ->
  holds from_reader s props ->
  let get k s := persist_get_prop from_reader k s in
  let '(s1, r1) := persist_set_prop from_reader write_message key val s in
  let '(s2, r2) := persist_delete_prop from_reader write_message key s in
  r1 = Ok tt /\ get key s1 = Ok val /\ (forall k, k <> key -> get k s1 = get k s) /\ (exists p, holds from_reader s1 p) /\
  (if decide (Some key ∈ map name props)
   then r2 = Ok tt /\ get key s2 = Err tt /\ (forall k, k <> key -> get k s2 = get k s) /\ exists p, holds from_reader s2 p
   else r2 = Err tt /\ s2 = s).
Proof.
  intros codec Hs get.
  pose proof (set_holds from_reader write_message codec s props key val Hs) as (p1 & Hr1 & Hh1 & Hv1 & Ho1).
  pose proof (delete_holds from_reader write_message codec s props key Hs) as Hd.
  destruct (persist_set_prop from_reader write_message key val s) as [s1 r1].
  destruct (persist_delete_prop from_reader write_message key s) as [s2 r2]. cbn [fst snd] in *.
  split_and!; [done | | | by exists p1 |].
  - by apply (get_holds from_reader s1 p1).
  - intros k Hk. apply get_ext. intros v. rewrite (get_holds from_reader s1 p1), (get_holds from_reader s props) by done. by apply Ho1.
  - destruct Hd as [[[v0 Hin] (p2 & Hr2 & Hh2 & Hv2 & Ho2)]|[Hn [= -> ->]]].
    + rewrite decide_True by exact (list_elem_of_fmap_2 name _ (mkRecord (Some key) v0) Hin). split_and!; [done | | | by exists p2].
      * pose proof (get_no_panic from_reader key s2). destruct (get key s2) as [v|[]|] eqn:E; [| done..].
        apply (get_holds from_reader s2 p2) in E; [| done]. by apply Hv2 in E.
      * intros k Hk. apply get_ext. intros v. rewrite (get_holds from_reader s2 p2), (get_holds from_reader s props) by done. by apply Ho2.
    + rewrite decide_False; [done |]. intros ([n v] & Hname & Hin)%list_elem_of_fmap. cbn in Hname. subst n. by apply (Hn v).
Qed.

(** A concrete codec: a record is two fields, a field is a mark and its bytes in unary
    length form; any injective encoding would do. *)
Definition enc_field (o : option bytes) : bytes :=
  match o with None => [bof 0] | Some v => bof 1 :: replicate (length v) (bof 2) ++ bof 3 :: v end.

Fixpoint dec_len (s : bytes) : option (nat * bytes) :=
  match s with
  | [] => None
  | c :: s =>
      if decide (c = bof 2) then '(n, r) ← dec_len s; Some (S n, r)
      else Some (0%nat, s)
  end.

Definition dec_field (s : bytes) : option (option bytes * bytes) :=
  match s with
  | [] => None
  | c :: s =>
      if decide (c = bof 0) then Some (None, s)
      else '(n, r) ← dec_len s; Some (Some (take n r), drop n r)
  end.

Definition enc_props (props : Props) : bytes :=
  concat (map (fun p => bof 1 :: enc_field (name p) ++ enc_field (value p)) props) ++ [bof 0].

Fixpoint dec_props (fuel : nat) (s : bytes) : option Props :=
  match fuel, s with
  | S fuel, c :: s =>
      if decide (c = bof 0) then Some [] else
      '(n, s) ← dec_field s;
      '(v, s) ← dec_field s;
      props ← dec_props fuel s;
      Some (mkRecord n v :: props)
  | _, _ => None
  end.

Definition demo_reader (s : bytes) : option Props := dec_props (length s) s.

Lemma dec_enc_field o rest : dec_field (enc_field o ++ rest) = Some (o, rest).
Proof.
  destruct o as [v|]; cbn [enc_field app dec_field]; [| by rewrite decide_True].
  rewrite decide_False by by vm_compute. rewrite <- app_assoc.
  assert (forall n r, dec_len (replicate n (bof 2) ++ bof 3 :: r) = Some (n, r)) as H.
  { intros n r. induction n as [|n IH]; cbn [replicate app dec_len]; [by rewrite decide_False by by vm_compute |].
    by rewrite decide_True, IH. }
  cbn [app]. rewrite H. cbn [mbind option_bind]. by rewrite take_app_length, drop_app_length.
Qed.

Lemma dec_enc_props props fuel :
  (length props < fuel)%nat -> dec_props fuel (enc_props props) = Some props.
Proof.
  unfold enc_props. revert fuel. induction props as [|[n v] props IH]; intros [|fuel] Hf; try lia.
  - cbn [map concat app dec_props]. by rewrite decide_True.
  - cbn [map concat app dec_props name value]. rewrite decide_False by by vm_compute.
    rewrite <- !app_assoc, dec_enc_field. cbn [mbind option_bind]. rewrite dec_enc_field. cbn [mbind option_bind].
    rewrite IH by (cbn in Hf; lia). done.
Qed.

Lemma demo_codec props : demo_reader (enc_props props) = Some props.
Proof.
  unfold demo_reader. apply dec_enc_props. unfold enc_props. rewrite length_app. cbn.
  assert (length props <= length (concat (map (fun p => bof 1 :: enc_field (name p) ++ enc_field (value p)) props)))%nat; [| lia].
  induction props as [|p props IH]; [done |]. cbn. rewrite !length_app. lia.
Qed.

Lemma persist_store_is_map_witness :
  let s := mkStore (Some (enc_props [mkRecord (Some #"persist.z") (Some #"0"); mkRecord (Some #"persist.b") (Some #"2")])) ∅ in
  let s1 := (persist_set_prop demo_reader enc_props #"persist.a" #"1" s).1 in
  persist_get_prop demo_reader #"persist.a" s1 = Ok #"1" /\
  persist_get_prop demo_reader #"persist.z" s1 = persist_get_prop demo_reader #"persist.z" s.
Proof.
  intros s s1. subst s1.
  pose proof (persist_store_is_map demo_reader enc_props s
    [mkRecord (Some #"persist.z") (Some #"0"); mkRecord (Some #"persist.b") (Some #"2")] #"persist.a" #"1" demo_codec) as H.
  destruct (persist_set_prop demo_reader enc_props #"persist.a" #"1" s) as [s1 r1].
  destruct (persist_delete_prop demo_reader enc_props #"persist.a" s) as [s2 r2].
  destruct H as (_ & Hget & Hother & _).
  - eexists. split; [reflexivity |]. split; [apply demo_codec |]. apply (bool_decide_unpack _). vm_compute. exact I.
  - split; [exact Hget |]. by apply Hother.
Defined.
End Persist.
