(* ===== verification/ResetProp.v ===== *)
(** core/resetprop/cli.rs: reading and writing system properties, in the property area
    and in the persistent store, and the command line of resetprop after its arguments
    are parsed.

    The property area is the code of the system_properties submodule and of bionic: an
    interface, [PropArea], with the laws the code relies on.  Values are those that
    [PropReader] hands on, as strings. *)

From S2P Require Import Prelude Text Files Persist.

Module ResetProp.
Import Files Persist.

(** * The property area *)

Definition PROP_VALUE_MAX : Z := 92.

Record PropInfo := mkPropInfo { pi_value : bytes; pi_is_long : bool }.

(** The calls of [SysProp]; a [PropInfo] is known by its key. *)
Class PropArea (A : Type) := {
  sys_find : bytes -> A -> option PropInfo;
  sys_list : A -> list (bytes * bytes);
  sys_context : bytes -> A -> bytes;
  sys_set : bytes -> bytes -> A -> A;
  sys_update : bytes -> bytes -> A -> A;
  sys_add : bytes -> bytes -> A -> A;
  sys_delete : bytes -> bool -> A -> A * bool }.

Definition read_only (key : bytes) : bool := starts_with key #"ro.".
Definition persistent (key : bytes) : bool := starts_with key #"persist.".
Definition is_short (val : bytes) : bool := zlen val <? PROP_VALUE_MAX.

Definition info_of (val : bytes) : PropInfo := mkPropInfo val (negb (is_short val)).

(** The documented behaviour: a short property is updated in place with a short value;
    a property is added with a short value, or with a long one if it is read-only; a
    property that exists is deleted; the property service writes short values of
    properties that are not read-only.  No call changes another property. *)
Class PropAreaLaws (A : Type) `{PropArea A} := {
  find_update key val a pi k : sys_find key a = Some pi -> pi_is_long pi = false -> is_short val = true ->
    sys_find k (sys_update key val a) = if decide (k = key) then Some (info_of val) else sys_find k a;
  find_add key val a k : sys_find key a = None -> is_short val || read_only key = true ->
    sys_find k (sys_add key val a) = if decide (k = key) then Some (info_of val) else sys_find k a;
  find_delete key prune a k :
    sys_find k (sys_delete key prune a).1 = if decide (k = key) then None else sys_find k a;
  delete_found key prune a : (sys_delete key prune a).2 = bool_decide (is_Some (sys_find key a));
  find_set key val a k : is_short val = true -> read_only key = false ->
    sys_find k (sys_set key val a) = if decide (k = key) then Some (info_of val) else sys_find k a;
  find_long key a pi : sys_find key a = Some pi -> pi_is_long pi = true -> read_only key = true;
  list_find a k v : (k, v) ∈ sys_list a <-> exists pi, sys_find k a = Some pi /\ pi_value pi = v }.

(** * Commands *)

Record ResetProp := mkResetProp {
  verbose : bool; wait_mode : bool; persist : bool; persist_only : bool; context : bool; skip_svc : bool;
  file : option bytes; delete_key : option bytes; args : list bytes }.

Definition ResetProp_default : ResetProp := mkResetProp false false false false false false None None [].

Section Commands.
Context {A : Type} `{PropArea A} (from_reader : bytes -> option Props) (write_message : Props -> bytes).

(** The property area and /data/property. *)
Record System := mkSystem { area : A; store : Store }.

Definition get (c : ResetProp) (key : bytes) (s : System) : option bytes :=
  if context c then Some (sys_context key (area s)) else
  let val := if negb (persist_only c) then pi_value <$> sys_find key (area s) else None in
  match val with
  | None => if (persist c || persist_only c) && persistent key then res_ok (persist_get_prop from_reader key (store s)) else None
  | Some _ => val
  end.

(** [print_all]: the map that is printed, then its lines. *)
Definition all_props (c : ResetProp) (s : System) : gmap bytes bytes :=
  let m := if negb (persist_only c) then foldl (fun m kv => <[kv.1 := kv.2]> m) ∅ (sys_list (area s)) else ∅ in
  if persist c || persist_only c then
    match persist_get_all_props from_reader (store s) with Ok p => p ∪ m | _ => m end
  else m.

Definition prop_text (k v : bytes) : bytes := #"[" ++ k ++ #"]: [" ++ v ++ #"]".

Definition print_all (c : ResetProp) (s : System) : list bytes :=
  map (fun kv => prop_text kv.1 (if context c then sys_context kv.1 (area s) else kv.2)) (btree_iter (all_props c s)).

Definition set (c : ResetProp) (key val : bytes) (s : System) : System :=
  let info := sys_find key (area s) in
  let '(skip, info, a) :=
    if read_only key then
      match info with
      | Some pi =>
          if pi_is_long pi || negb (is_short val) then (true, None, (sys_delete key false (area s)).1)
          else (true, info, area s)
      | None => (true, info, area s)
      end
    else (skip_svc c, info, area s) in
  let a :=
    match info with
    | Some _ => if (skip : bool) then sys_update key val a else sys_set key val a
    | None => if skip then sys_add key val a else sys_set key val a
    end in
  mkSystem a (if skip && persist c && persistent key then (persist_set_prop from_reader write_message key val (store s)).1 else store s).

Definition delete (c : ResetProp) (key : bytes) (s : System) : System * bool :=
  let '(a, ret) := sys_delete key true (area s) in
  if persist c && persistent key then
    let '(st, r) := persist_delete_prop from_reader write_message key (store s) in
    (mkSystem a st, ret || match r with Ok _ => true | _ => false end)
  else (mkSystem a (store s), ret).

(** [wait] sees the areas one after the other, at the start and after every change; the
    second loop reads the property that was found, [read], which may be gone by then.
    The area at which it ends, [None] if it is still waiting. *)
Fixpoint wait_exists (key : bytes) (areas : list A) : list A :=
  match areas with
  | [] => []
  | a :: areas' => match sys_find key a with Some _ => areas | None => wait_exists key areas' end
  end.

Fixpoint wait_changes (read : A -> bytes) (val : bytes) (areas : list A) : option A :=
  match areas with
  | [] => None
  | a :: areas => if negb (bool_decide (val = read a)) then Some a else wait_changes read val areas
  end.

Definition wait (c : ResetProp) (read : bytes -> A -> bytes) (areas : list A) : res unit (option A) :=
  match args c with
  | [] => Panic
  | key :: rest =>
      let areas := wait_exists key areas in
      Ok (match rest with [] => head areas | val :: _ => wait_changes (read key) val areas end)
  end.

Definition load_file (c : ResetProp) (open_ : bytes -> option bytes) (path : bytes) (s : System) : System * logged unit :=
  match open_ path with
  | None => (s, Err tt)
  | Some data => (for_each_prop (fun k v s => (set c k v s, true)) data s, Ok tt)
  end.

(** [run]: the system after it, what is printed, and the outcome; [None] if it waits. *)
Definition run (c : ResetProp) (open_ : bytes -> option bytes) (read : bytes -> A -> bytes) (later : list A) (s : System)
    : option (System * list bytes * logged unit) :=
  if wait_mode c then
    match wait c read (area s :: later) with
    | Ok None => None
    | Ok (Some a) => Some (mkSystem a (store s), [], Ok tt)
    | Err e => Some (s, [], Err e)
    | Panic => Some (s, [], Panic)
    end
  else Some (match file c, delete_key c with
  | Some path, _ => let '(s, r) := load_file c open_ path s in (s, [], r)
  | None, Some key => let '(s, ret) := delete c key s in (s, [], if (ret : bool) then Ok tt else Err tt)
  | None, None =>
      match args c with
      | [] => (s, print_all c s, Ok tt)
      | [key] => match get c key s with Some val => (s, [val], Ok tt) | None => (s, [], Err tt) end
      | [key; val] => (set c key val s, [], Ok tt)
      | _ => (s, [], Panic)
      end
  end).

(** * The command line, once parsed *)

Inductive EarlyExit := Missing (arg : bytes) | Message (msg : bytes).

Definition b2n (b : bool) : nat := if b then 1 else 0.
Definition is_some {B} (o : option B) : bool := match o with Some _ => true | None => false end.

Definition validate (cli : ResetProp) : res EarlyExit ResetProp :=
  if wait_mode cli && is_empty (args cli) then Err (Missing #"NAME") else
  let special_mode := (b2n (wait_mode cli) + b2n (is_some (file cli)) + b2n (is_some (delete_key cli)))%nat in
  if (1 <? special_mode)%nat then Err (Message (#"Multiple operation mode detected!" ++ [newline])) else
  match args cli with
  | _ :: _ :: extra :: _ => Err (Message (#"Unrecognized argument: " ++ extra ++ [newline]))
  | _ => Ok cli
  end.

(** * Internal use *)

Definition skip_service : ResetProp := mkResetProp false false false false false true None None [].
Definition set_prop (key val : bytes) (s : System) : System := set skip_service key val s.
Definition load_prop_file (open_ : bytes -> option bytes) (path : bytes) (s : System) : System :=
  (load_file skip_service open_ path s).1.
Definition get_prop (key : bytes) (s : System) : bytes :=
  default [] (get (mkResetProp false false (persistent key) false false false None None []) key s).
End Commands.
Arguments System A : clear implicits.
Arguments mkSystem {A}.
Arguments area {A}.
Arguments store {A}.

(** * Writing and reading back *)

Section Laws.
Context {A : Type} `{PropAreaLaws A} (from_reader : bytes -> option Props) (write_message : Props -> bytes).
Implicit Types (s : System A).

Abbreviation set' := (set from_reader write_message).
Abbreviation get' := (get from_reader).

(** A value the property can hold. *)
Definition fits (key val : bytes) : Prop := is_short val || read_only key = true.

Lemma set_find c key val s k :
  fits key val -> sys_find k (area (set' c key val s)) = if decide (k = key) then Some (info_of val) else sys_find k (area s).
Proof.
  unfold fits, set. intros Hfit. destruct (read_only key) eqn:Ero.
  - rewrite orb_true_r in Hfit. destruct (sys_find key (area s)) as [pi|] eqn:Ef.
    + destruct (pi_is_long pi || negb (is_short val)) eqn:El; cbn [area].
      * rewrite find_add; [| by rewrite find_delete, decide_True | by rewrite Ero, orb_true_r].
        case_decide; [done |]. by rewrite find_delete, decide_False.
      * apply orb_false_iff in El as [El1 El2%negb_false_iff]. by apply (find_update _ _ _ pi).
    + cbn [area]. apply find_add; [done |]. by rewrite Ero, orb_true_r.
  - rewrite orb_false_r in Hfit. destruct (sys_find key (area s)) as [pi|] eqn:Ef; cbn [area].
    + destruct (skip_svc c); [| by apply find_set]. apply (find_update _ _ _ pi); [done | | done].
      destruct (pi_is_long pi) eqn:El; [| done]. apply find_long in Ef; [congruence | done].
    + destruct (skip_svc c); [| by apply find_set]. apply find_add; [done |]. by rewrite Hfit.
Qed.

Lemma set_store c key val s :
  store (set' c key val s) =
  if (read_only key || skip_svc c) && persist c && persistent key
  then (persist_set_prop from_reader write_message key val (store s)).1 else store s.
Proof.
  unfold set. destruct (read_only key); [| done].
  destruct (sys_find key (area s)) as [pi|]; [destruct (pi_is_long pi || negb (is_short val)) |]; done.
Qed.

Lemma get_value key s v : pi_value <$> sys_find key (area s) = Some v -> get_prop from_reader key s = v.
Proof. intros Hv. unfold get_prop, get. cbn. by rewrite Hv. Qed.

(** The assignments of a property file, in order. *)
Definition assignments (data : bytes) : list (bytes * bytes) := for_each_prop (fun k v l => (l ++ [(k, v)], true)) data [].

Fixpoint assign (l : list (bytes * bytes)) (k : bytes) (dflt : option bytes) : option bytes :=
  match l with
  | [] => dflt
  | (key, val) :: l => assign l k (if decide (k = key) then Some val else dflt)
  end.

Lemma each_line_assign c lines l s :
  each_line (prop_line (fun k v s => (set' c k v s, true))) lines (foldl (fun s kv => set' c kv.1 kv.2 s) s l) =
  foldl (fun s kv => set' c kv.1 kv.2 s) s (each_line (prop_line (fun k v l => (l ++ [(k, v)], true))) lines l).
Proof.
  revert l. induction lines as [|line lines IH]; intros l; [done |]. cbn [each_line].
  unfold prop_line at 1 3. destruct (starts_with (trim line) #"#"); [apply IH |].
  destruct (split_once (bof 61) (trim line)) as [[k v]|]; [| apply IH]. rewrite <- IH. by rewrite foldl_app.
Qed.

Lemma load_file_assignments c open_ path data s :
  open_ path = Some data ->
  load_file from_reader write_message c open_ path s = (foldl (fun s kv => set' c kv.1 kv.2 s) s (assignments data), Ok tt).
Proof.
  intros Ho. unfold load_file, assignments, for_each_prop. rewrite Ho.
  by rewrite <- (each_line_assign c _ [] s).
Qed.

Lemma sets_find c l s k :
  Forall (fun kv => fits kv.1 kv.2) l ->
  pi_value <$> sys_find k (area (foldl (fun s kv => set' c kv.1 kv.2 s) s l)) = assign l k (pi_value <$> sys_find k (area s)).
Proof.
  revert s. induction l as [|[key val] l IH]; intros s Hf; [done |]. apply Forall_cons in Hf as [Hf Hl].
  cbn [foldl assign fst snd]. rewrite IH by done. rewrite set_find by done. by case_decide.
Qed.
End Laws.

(** Writing a property and reading it back: after [set], with any flags, the property
    has the value that was set and every other property is as before; the persistent
    store is written, with the same value, only for a persistent property, with [-p],
    when the property service is bypassed. Loading a file of properties amounts to its
    assignments in order, so that a property has the last value the file gives it. Long
    values are supposed to be given to read-only properties only. *)
Theorem set_get_prop {A} `{PropAreaLaws A} from_reader write_message c key val open_ path data (s : System A) :
  fits key val -> open_ path = Some data -> Forall (fun kv => fits kv.1 kv.2) (assignments data) ->
  let s' := set from_reader write_message c key val s in
  let '(s'', r) := load_file from_reader write_message c open_ path s in
  get_prop from_reader key s' = val /\
  (forall k, k <> key -> sys_find k (area s') = sys_find k (area s)) /\
  store s' = (if (read_only key || skip_svc c) && persist c && persistent key
              then (persist_set_prop from_reader write_message key val (store s)).1 else store s) /\
  r = Ok tt /\ (forall k, pi_value <$> sys_find k (area s'') = assign (assignments data) k (pi_value <$> sys_find k (area s))).
Proof.
  intros Hf Ho Hall s'. rewrite (load_file_assignments _ _ _ _ _ data) by done. subst s'. split_and!.
  - apply get_value. rewrite set_find by done. by rewrite decide_True.
  - intros k Hk. rewrite set_find by done. by rewrite decide_False.
  - apply set_store.
  - done.
  - intros k. by apply sets_find.
Qed.

(** ** A property area *)

(** Properties as a map; only read-only ones are kept as long properties. *)
#[export] Instance map_area : PropArea (gmap bytes bytes) := {
  sys_find key a := (fun v => mkPropInfo v (negb (is_short v) && read_only key)) <$> a !! key;
  sys_list a := map_to_list a;
  sys_context key a := #"u:object_r:default_prop:s0";
  sys_set key val a := <[key := val]> a;
  sys_update key val a := <[key := val]> a;
  sys_add key val a := <[key := val]> a;
  sys_delete key prune a := (base.delete key a, bool_decide (is_Some (a !! key))) }.

Lemma map_area_insert (key val : bytes) (a : gmap bytes bytes) k :
  is_short val || read_only key = true ->
  (fun v => mkPropInfo v (negb (is_short v) && read_only k)) <$> <[key := val]> a !! k =
  if decide (k = key) then Some (info_of val) else (fun v => mkPropInfo v (negb (is_short v) && read_only k)) <$> a !! k.
Proof.
  intros Hf. destruct (decide (k = key)) as [->|Hne]; [| by rewrite lookup_insert_ne].
  rewrite lookup_insert_eq. cbn. unfold info_of. destruct (is_short val), (read_only key); done.
Qed.

#[export] Instance map_area_laws : PropAreaLaws (gmap bytes bytes).
Proof.
  split; cbn.
  - intros key val a pi k _ _ Hs. apply map_area_insert. by rewrite Hs.
  - intros key val a k _ Hs. by apply map_area_insert.
  - intros key prune a k. case_decide as Hk; [subst; by rewrite lookup_delete_eq | by rewrite lookup_delete_ne].
  - intros key prune a. apply bool_decide_ext. by rewrite fmap_is_Some.
  - intros key val a k Hs _. apply map_area_insert. by rewrite Hs.
  - intros key a pi. destruct (a !! key); [| done]. intros [= <-]. cbn. by destruct (is_short _).
  - intros a k v. rewrite elem_of_map_to_list. destruct (a !! k) as [u|]; cbn; [| naive_solver]. split.
    + intros [= ->]. by eexists.
    + by intros (pi & [= <-] & <-).
Qed.

Definition demo_area : gmap bytes bytes := {[ #"ro.a" := #"1"; #"persist.b" := #"2" ]}.
Definition demo_system : System (gmap bytes bytes) := mkSystem demo_area (mkStore None ∅).
Definition demo_file : bytes := #"ro.a=x" ++ [newline] ++ #"# comment" ++ [newline] ++ #"c = y" ++ [newline] ++ #"ro.a=z" ++ [newline].

Lemma set_get_prop_witness :
  let cli := mkResetProp false false true false false true None None [] in
  let s' := set (fun _ => None) (fun _ => []) cli #"persist.b" #"3" demo_system in
  get_prop (fun _ => None) #"persist.b" s' = #"3" /\ prop_files (store s') !! #"persist.b" = Some #"3" /\
  assign (assignments demo_file) #"ro.a" None = Some #"z".
Proof.
  intros cli s'.
  pose proof (set_get_prop (fun _ => None) (fun _ => []) cli #"persist.b" #"3" (fun _ => Some demo_file) #"f" demo_file demo_system) as H.
  destruct (load_file _ _ _ _ _ _) as [s'' r]. destruct H as (H1 & _ & H2 & _); [vm_compute; done | done | |].
  { repeat (apply List.Forall_cons; [vm_compute; done |]). apply List.Forall_nil. }
  split_and!; [exact H1 | | vm_compute; done]. subst s'. rewrite H2. vm_compute. reflexivity.
Defined.

(** * The command line *)

(** A command line that passes the checks is run without aborting: the argument of
    wait mode is there, and no more arguments are left than can be handled. *)
Theorem validated_runs {A} `{PropArea A} from_reader write_message cli c open_ read later (s : System A) :
  validate cli = Ok c ->
  c = cli /\ match run from_reader write_message c open_ read later s with Some (_, _, r) => r <> Panic | None => wait_mode c = true end.
Proof.
  unfold validate. destruct (wait_mode cli && is_empty (args cli)) eqn:Ew; [done |]. destruct (1 <? _)%nat; [done |].
  intros Hv. assert (c = cli /\ (length (args cli) <= 2)%nat) as [-> Hl].
  { destruct (args cli) as [|a1 [|a2 [|a3 l]]]; try done; injection Hv as <-; (split; [done | cbn; lia]). }
  split; [done |]. unfold run. destruct (wait_mode cli) eqn:Em.
  - destruct (args cli) as [|key rest] eqn:Ea; [done |]. unfold wait. rewrite Ea.
    by destruct rest as [|v rest]; [destruct (head _) | destruct (wait_changes _ _ _)].
  - destruct (file cli); [unfold load_file; destruct (open_ _); done |]. destruct (delete_key cli).
    + by destruct (delete _ _ _ _ _) as [? []].
    + destruct (args cli) as [|a1 [|a2 [|a3 l]]]; [done | by destruct (get _ _ _ _) | done | cbn in Hl; lia].
Qed.

Lemma validated_runs_witness :
  let c := mkResetProp false false false false false true None None [ #"ro.a"; #"2"] in
  c = c /\ match run (fun _ => None) (fun _ => []) c (fun _ => None) (fun _ _ => []) [] demo_system with
            | Some (_, _, r) => r <> Panic | None => wait_mode c = true end.
Proof. intros c. apply validated_runs. vm_compute. reflexivity. Defined.

(** The usage text has wait mode with only a name wait until the property changes; it
    ends at once if the property exists. *)
Theorem wait_name_only {A} `{PropArea A} c read key a areas pi :
  args c = [key] -> sys_find key a = Some pi -> wait c read (a :: areas) = Ok (Some a).
Proof. intros Ha Hf. unfold wait. rewrite Ha. cbn [wait_exists]. by rewrite Hf. Qed.

(** With [-p], reading one property prefers the property area and printing all of them
    the persistent store. *)
Theorem persist_priorities :
  let s := mkSystem demo_area (mkStore None {[ #"persist.b" := #"5" ]}) in
  let c := mkResetProp false false true false false false None None [] in
  get (fun _ => None) c #"persist.b" s = Some #"2" /\ all_props (fun _ => None) c s !! #"persist.b" = Some #"5".
Proof. vm_compute. done. Qed.
End ResetProp.
