(* ===== verification/PropMain.v ===== *)
(** core/resetprop: how values of properties are read (mod.rs), and the command resetprop from
    its arguments to its exit code (cli.rs, base/misc.rs). *)

From S2P Require Import Prelude Text Lossy CStr Args Files Persist ResetProp.

Module PropMain.
Import Lossy CStr Args ResetProp.

(** * Readers *)

Inductive PropReader := RValue (v : bytes) | RValueSerial (v : bytes) (serial : Z) | RList (m : gmap bytes bytes).

(** The strings of the property area, up to their NUL. *)
Definition put_cstr (key val : bytes) (serial : Z) (r : PropReader) : PropReader :=
  match r with
  | RValue _ => RValue (from_utf8_lossy val)
  | RValueSerial _ _ => RValueSerial (from_utf8_lossy val) serial
  | RList m => RList (<[from_utf8_lossy key := from_utf8_lossy val]> m)
  end.
(** The strings of the persistent store. *)
Definition put_str (key val : bytes) (serial : Z) (r : PropReader) : PropReader :=
  match r with
  | RValue _ => RValue val
  | RValueSerial _ _ => RValueSerial val serial
  | RList m => RList (<[key := val]> m)
  end.

(** [SysProp::read] and [for_each], with what the C library passes to the callback. *)
Definition read (info : bytes * bytes * Z) (r : PropReader) : PropReader := let '(key, val, serial) := info in put_cstr key val serial r.
Definition for_each (infos : list (bytes * bytes * Z)) (r : PropReader) : PropReader := foldl (fun r info => read info r) r infos.

Definition utf8_info (i : bytes * bytes * Z) : Prop := utf8_valid i.1.1 = true /\ utf8_valid i.1.2 = true.

Lemma for_each_list infos m :
  Forall utf8_info infos -> for_each infos (RList m) = RList (foldl (fun m kv => <[kv.1 := kv.2]> m) m (map fst infos)).
Proof.
  intros H. revert m. induction H as [|[[k v] n] infos [Hk Hv] _ IH]; intros m; [done |]. cbn [for_each foldl map fst snd read put_cstr] in *.
  destruct (from_utf8_lossy_spec k) as [_ ->]; [| done]. destruct (from_utf8_lossy_spec v) as [_ ->]; [| done]. apply IH.
Qed.

(** What is read is always UTF-8; a property area that is UTF-8 is read as it is, as the
    list [all_props] of ResetProp starts from. *)
Theorem read_utf8 infos m :
  (forall k v, m !! k = Some v -> utf8_valid k = true /\ utf8_valid v = true) ->
  exists m', for_each infos (RList m) = RList m' /\ (forall k v, m' !! k = Some v -> utf8_valid k = true /\ utf8_valid v = true) /\
    (Forall utf8_info infos -> m' = foldl (fun m kv => <[kv.1 := kv.2]> m) m (map fst infos)).
Proof.
  revert m. induction infos as [|[[k v] n] infos IH]; intros m Hm; [by exists m |].
  destruct (IH (<[from_utf8_lossy k := from_utf8_lossy v]> m)) as (m' & Hf & Hv & _).
  { intros k' v' [[<- <-]|[_ H]]%lookup_insert_Some; [| by apply Hm]. split; apply from_utf8_lossy_spec. }
  exists m'. split_and!; [exact Hf | exact Hv |]. intros Hu. apply for_each_list with (m := m) in Hu.
  assert (for_each ((k, v, n) :: infos) (RList m) = RList m') as Hf' by exact Hf. rewrite Hf' in Hu. by injection Hu as ->.
Qed.

Lemma read_utf8_witness : exists m', for_each [(#"ro.a", [bof 255], 0)] (RList ∅) = RList m' /\ (forall k v, m' !! k = Some v -> utf8_valid k = true /\ utf8_valid v = true).
Proof.
  destruct (read_utf8 [(#"ro.a", [bof 255], 0)] ∅) as (m' & H1 & H2 & _); [intros k v H; by rewrite lookup_empty in H |]. exists m'. split; [exact H1 | exact H2].
Defined.

(** Two properties whose names differ only in bytes that are no UTF-8 are read as one. *)
Theorem names_merge : for_each [([bof 254], #"1", 0); ([bof 255], #"2", 0)] (RList ∅) = RList {[ REPLACEMENT := #"2" ]}.
Proof. vm_compute. reflexivity. Qed.

(** * The command line *)

(** [CmdArgs::new]: an argument that is null or no UTF-8 is replaced. *)
Definition CmdArgs_new (argv : list (option bytes)) : list bytes :=
  map (fun p => match from_ptr p with Ok s => s | _ => #"<invalid>" end) argv.

(** The struct from the slots of its fields. *)
Definition ResetProp_of (l : list (Slot bytes)) : option ResetProp :=
  match l with
  | [FlagBool v; FlagBool w; FlagBool p; FlagBool po; FlagBool z; FlagBool n; One file; One del; Many args] => Some (mkResetProp v w p po z n file del args)
  | _ => None
  end.
Definition slots_of (c : ResetProp) : list (Slot bytes) :=
  [FlagBool (verbose c); FlagBool (wait_mode c); FlagBool (persist c); FlagBool (persist_only c); FlagBool (context c); FlagBool (skip_svc c);
   One (file c); One (delete_key c); Many (ResetProp.args c)].

Definition missing_name : bytes :=
  match err_on_any (mkMissing [] None [ #"NAME"]) with Err m => m | _ => [] end.
Definition to_exit (e : ResetProp.EarlyExit) : Args.EarlyExit :=
  match e with Missing _ => early_exit missing_name | Message m => early_exit m end.

Definition parse (cmd : bytes) (args : list bytes) : res Args.EarlyExit ResetProp :=
  l ← from_args ResetProp_fields top_level_triggers [cmd] args;
  match ResetProp_of l with Some c => map_err to_exit (validate c) | None => Panic end.

Section Main.
Context {A : Type} `{PropArea A} (from_reader : bytes -> option Persist.Props) (write_message : Persist.Props -> bytes).
Context (open_ : bytes -> option bytes) (read_value : bytes -> A -> bytes) (later : list A).

(** The exit code, with the system and what is printed; waiting forever; an abort. *)
Inductive Outcome := Exit (code : Z) (s : System A) (out : list bytes) | Waits | Aborts.

(** [on_early_exit] *)
Definition exit_code (e : Args.EarlyExit) : Z := if is_help e then 0 else 1.

Definition resetprop_main (argv : list (option bytes)) (s : System A) : Outcome :=
  match CmdArgs_new argv with
  | [] => Aborts
  | cmd :: args =>
      match parse cmd args with
      | Err e => Exit (exit_code e) s []
      | Panic => Aborts
      | Ok cli =>
          match run from_reader write_message cli open_ read_value later s with
          | None => Waits
          | Some (s, out, Ok _) => Exit 0 s out
          | Some (s, out, Err _) => Exit 1 s out
          | Some (_, _, Panic) => Aborts
          end
      end
  end.
End Main.

(** ** Flags and arguments *)

Inductive Flag := FVerbose | FWait | FPersist | FPersistOnly | FContext | FSkip.
Definition flag_text (f : Flag) : bytes :=
  match f with FVerbose => #"-v" | FWait => #"-w" | FPersist => #"-p" | FPersistOnly => #"-P" | FContext => #"-Z" | FSkip => #"-n" end.
Definition with_flag (c : ResetProp) (f : Flag) : ResetProp :=
  let '(mkResetProp v w p po z n file del args) := c in
  match f with
  | FVerbose => mkResetProp true w p po z n file del args | FWait => mkResetProp v true p po z n file del args
  | FPersist => mkResetProp v w true po z n file del args | FPersistOnly => mkResetProp v w p true z n file del args
  | FContext => mkResetProp v w p po true n file del args | FSkip => mkResetProp v w p po z true file del args
  end.
Definition with_args (l : list bytes) (c : ResetProp) : ResetProp :=
  let '(mkResetProp v w p po z n file del args) := c in mkResetProp v w p po z n file del (args ++ l).

Lemma flag_round f c cmd args fuel :
  parse_loop ResetProp_fields top_level_triggers (S fuel) cmd (flag_text f :: args) (mkPState (slots_of c) false 0 false) =
  parse_loop ResetProp_fields top_level_triggers fuel cmd args (mkPState (slots_of (with_flag c f)) false 0 false).
Proof. destruct c, f; reflexivity. Qed.

Lemma ended_rest l c cmd fuel :
  (length l <= fuel)%nat ->
  parse_loop ResetProp_fields top_level_triggers fuel cmd l (mkPState (slots_of c) false 0 true) = Ok (mkPState (slots_of (with_args l c)) false 0 true).
Proof.
  revert c fuel. induction l as [|x l IH]; intros c fuel Hf; [destruct c, fuel; cbn; by rewrite app_nil_r |].
  destruct fuel as [|fuel]; [cbn in Hf; lia |]. cbn [parse_loop options_ended negb]. rewrite !andb_false_r. cbn [help slots positional_index].
  transitivity (parse_loop ResetProp_fields top_level_triggers fuel cmd l (mkPState (slots_of (with_args [x] c)) false 0 true)); [by destruct c |].
  rewrite IH by (cbn in Hf; lia). destruct c. cbn. by rewrite <- app_assoc.
Qed.

(** Flags in any order, then arguments of which the first does not begin with a dash. *)
Lemma parse_flags cmd fl l :
  match l with x :: _ => starts_with x #"-" = false | [] => True end ->
  from_args ResetProp_fields top_level_triggers [cmd] (map flag_text fl ++ l) = Ok (slots_of (with_args l (foldl with_flag ResetProp_default fl))).
Proof.
  intros Hl. unfold from_args, parse_struct_args. change (map init_slot ResetProp_fields) with (slots_of ResetProp_default).
  assert (exists ended, parse_loop ResetProp_fields top_level_triggers (length (map flag_text fl ++ l)) [cmd] (map flag_text fl ++ l) (mkPState (slots_of ResetProp_default) false 0 false) =
    Ok (mkPState (slots_of (with_args l (foldl with_flag ResetProp_default fl))) false 0 ended)) as [ended ->].
  { generalize ResetProp_default. induction fl as [|f fl IH]; intros c; [| cbn [map app length]; rewrite flag_round; apply IH].
    cbn [map app foldl]. destruct l as [|x l]; [exists false; destruct c; cbn; by rewrite app_nil_r |]. exists true. cbn [length parse_loop].
    assert (x ∉ top_level_triggers) as Hx by (intros [->|[->|[]%not_elem_of_nil]%elem_of_cons]%elem_of_cons; discriminate Hl).
    rewrite (bool_decide_eq_false_2 _ Hx), Hl. cbn [andb help slots positional_index].
    transitivity (parse_loop ResetProp_fields top_level_triggers (length l) [cmd] l (mkPState (slots_of (with_args [x] c)) false 0 true)); [by destruct c |].
    rewrite ended_rest by done. destruct c. cbn. by rewrite <- app_assoc. }
  cbn [mbind res_bind help slots]. destruct (with_args l _). reflexivity.
Qed.

(** * Theorems *)

Lemma ResetProp_of_slots c : ResetProp_of (slots_of c) = Some c.
Proof. by destruct c. Qed.

Definition good (s : bytes) : Prop := utf8_valid s = true /\ NUL ∉ s.

Lemma CmdArgs_good l : Forall good l -> CmdArgs_new (map (fun s => Some (s ++ [NUL])) l) = l.
Proof.
  induction 1 as [|s l [Hu Hn] _ IH]; [done |]. unfold CmdArgs_new in *. cbn [map]. rewrite IH. f_equal. cbn [from_ptr].
  unfold from_bytes_until_nul, cstr_from_bytes_until_nul. assert (split_once NUL (s ++ [NUL]) = Some (s, [])) as -> by (by apply split_once_Some).
  cbn. unfold from_cstr. by rewrite Hu.
Qed.

(** The command does what its usage says: with flags in any order and arguments after them,
    the arguments as they are even if they begin with a dash or are called like flags, it
    prints all properties, prints one, or sets one, and the exit code tells whether the
    property was there; more than two arguments change nothing and fail. *)
Theorem resetprop_usage {A} `{PropArea A} from_reader write_message open_ read_value later cmd fl l (s : System A) :
  let c := foldl with_flag ResetProp_default fl in
  let main args := resetprop_main from_reader write_message open_ read_value later (map (fun s => Some (s ++ [NUL])) (cmd :: map flag_text fl ++ args)) s in
  wait_mode c = false -> Forall good (cmd :: map flag_text fl ++ l) ->
  match l with x :: _ => starts_with x #"-" = false | [] => True end ->
  main l = match l with
           | [] => Exit 0 s (print_all from_reader c s)
           | [key] => match get from_reader c key s with Some val => Exit 0 s [val] | None => Exit 1 s [] end
           | [key; val] => Exit 0 (set from_reader write_message c key val s) []
           | _ => Exit 1 s []
           end.
Proof.
  intros c main Hw Hg Hl. subst main. cbn beta. unfold resetprop_main. rewrite CmdArgs_good by done. unfold parse. rewrite parse_flags by done.
  cbn [mbind res_bind]. rewrite ResetProp_of_slots. fold c.
  assert (file c = None /\ delete_key c = None /\ ResetProp.args c = []) as (Hf & Hd & Ha).
  { subst c. clear. generalize (conj (eq_refl : file ResetProp_default = None) (conj (eq_refl : delete_key ResetProp_default = None) (eq_refl : ResetProp.args ResetProp_default = []))).
    generalize ResetProp_default. induction fl as [|f fl IH]; intros c Hc; [exact Hc |]. apply IH. destruct c, f; exact Hc. }
  assert (with_args l c = mkResetProp (verbose c) false (persist c) (persist_only c) (context c) (skip_svc c) None None l) as ->
    by (destruct c; cbn in *; by subst).
  assert (forall l', get from_reader (mkResetProp (verbose c) false (persist c) (persist_only c) (context c) (skip_svc c) None None l') = get from_reader c) as Hget
    by (intros l'; by destruct c).
  destruct l as [|k [|v [|x l]]]; cbn; rewrite ?Hget; try (by destruct c).
  by destruct (get from_reader c k s).
Qed.

Lemma resetprop_usage_witness :
  resetprop_main (fun _ => None) (fun _ => []) (fun _ => None) (fun _ _ => []) [] (map (fun s => Some (s ++ [NUL])) [ #"resetprop"; #"-n"; #"ro.a"; #"-1"]) demo_system =
  Exit 0 (set (fun _ => None) (fun _ => []) (with_flag ResetProp_default FSkip) #"ro.a" #"-1" demo_system) [].
Proof.
  refine (resetprop_usage (fun _ => None) (fun _ => []) (fun _ => None) (fun _ _ => []) [] #"resetprop" [FSkip] [ #"ro.a"; #"-1"] demo_system eq_refl _ eq_refl).
  repeat (apply List.Forall_cons; [split; [vm_compute; reflexivity | apply (bool_decide_unpack _); vm_compute; exact I] |]). apply List.Forall_nil.
Defined.

End PropMain.
