(* ===== verification/Zygisk.v ===== *)
(** core/zygisk/daemon.rs: the native bridge property that loads Zygisk into zygote, the
    companion daemons, and what a process is told about itself and the modules.

    Properties are those of ResetProp, the manager and the root policy those of Package
    and Su.  [is_deny_target] and the denylist switch (core/deny/utils.cpp) are C++, their
    answers are arguments; so is what polling, forking and the first answer of a companion
    give.  Writes to the client succeed. *)

From S2P Require Import Prelude Text Numeric Files Db Package Su Access Socket Persist ResetProp.

Module Zygisk.
Import Files Db Package Su Socket ResetProp.

(** * The native bridge *)

Definition NBPROP : bytes := #"ro.dalvik.vm.native.bridge".
Definition MAPLE : bytes := #"ro.maple.enable".
Definition ZYGISKLDR : bytes := #"libzygisk.so".

(** The sockets are those of the 32-bit and the 64-bit companion. *)
Record ZygiskState := mkZygisk { lib_name : bytes; sockets : option Z * option Z; start_count : Z }.

Definition ZygiskState_default : ZygiskState := mkZygisk [] (None, None) 1.

Section Bridge.
Context {A : Type} `{PropArea A} (oc : bool) (from_reader : bytes -> option Persist.Props) (write_message : Persist.Props -> bytes).

Abbreviation getp := (get_prop from_reader).
Abbreviation setp := (ResetProp.set_prop from_reader write_message).

Definition set_prop (z : ZygiskState) (s : System A) : ZygiskState * System A :=
  if negb (is_empty (lib_name z)) then (z, s) else
  let orig := getp NBPROP s in
  let lib := if is_empty orig || bool_decide (orig = #"0") then ZYGISKLDR else ZYGISKLDR ++ orig in
  let s := setp NBPROP lib s in
  let s := if bool_decide (getp MAPLE s = #"1") then setp MAPLE #"0" s else s in
  (mkZygisk lib (sockets z) (start_count z), s).

Definition restore_prop (z : ZygiskState) (s : System A) : ZygiskState * System A :=
  let orig := if zlen ZYGISKLDR <? zlen (lib_name z) then drop (length ZYGISKLDR) (lib_name z) else #"0" in
  (mkZygisk [] (sockets z) (start_count z), setp NBPROP orig s).

(** The counter is a [u32]. *)
Definition reset (restore : bool) (z : ZygiskState) (s : System A) : logged (ZygiskState * System A) :=
  if restore then Ok (restore_prop (mkZygisk (lib_name z) (sockets z) 1) s) else
  count ← u_arith oc 32 (start_count z + 1);
  let z := mkZygisk (lib_name z) (None, None) count in
  Ok (if 3 <? count then restore_prop z s else set_prop z s).

Fixpoint restarts (n : nat) (z : ZygiskState) (s : System A) : logged (ZygiskState * System A) :=
  match n with
  | O => Ok (z, s)
  | S n => '(z, s) ← reset false z s; restarts n z s
  end.
End Bridge.

(** * Companions *)

Inductive Action := Fork (is_64_bit : bool) | SendFds (sock : Z) (fds : list Z).

(** A module and the libraries that were opened for it, negative if there is none. *)
Record ModuleInfo := mkModule { mod_name : bytes; z32 : Z; z64 : Z }.

Definition STDOUT_FILENO : Z := 1.

Definition get_module_fds (module_list : option (list ModuleInfo)) (is_64_bit : bool) : option (list Z) :=
  map (fun m => let fd := if is_64_bit then z64 m else z32 m in if fd <? 0 then STDOUT_FILENO else fd) <$> module_list.

(** [alive]: polling the socket that is kept reports nothing; [sends]: whether [send_fds] of
    some descriptors succeeds; [pair]: the local end of a new pair of sockets; [answer]: what
    the new companion reports. *)
Definition connect_zygiskd (module_list : option (list ModuleInfo)) (is_64_bit : bool) (client : Z) (alive : Z -> bool)
    (sends : list Z -> bool) (pair : option Z) (answer : option Z) (z : ZygiskState) : ZygiskState * list Action * logged unit :=
  let get z := if is_64_bit then (sockets z).2 else (sockets z).1 in
  let put v z := mkZygisk (lib_name z) (if is_64_bit then ((sockets z).1, v) else (v, (sockets z).2)) (start_count z) in
  let z := match get z with Some fd => if alive fd then z else put None z | None => z end in
  match get z with
  | Some fd => (z, [SendFds fd [client]], if sends [client] then Ok tt else Err tt)
  | None =>
      match pair with
      | None => (z, [], Err tt)
      | Some local =>
          let fds := get_module_fds module_list is_64_bit in
          let acts := Fork is_64_bit :: match fds with Some fds => [SendFds local fds] | None => [] end in
          if negb (match fds with Some fds => sends fds | None => true end) then (z, acts, Err tt) else
          match answer with
          | Some 0 => if sends [client] then (put (Some local) z, acts ++ [SendFds local [client]], Ok tt) else (z, acts ++ [SendFds local [client]], Err tt)
          | _ => (z, acts, Err tt)
          end
      end
  end.

(** * What a process is told *)

Definition ProcessGrantedRoot : Z := 1.
Definition ProcessOnDenyList : Z := 2.
Definition DenyListEnforced : Z := 0x40000000.
Definition ProcessIsMagiskApp : Z := 0x80000000.
Definition UNMOUNT_MASK : Z := Z.lor ProcessOnDenyList DenyListEnforced.

Definition zygisk_should_load_module (flags : Z) : bool :=
  negb (Z.land flags UNMOUNT_MASK =? UNMOUNT_MASK) && (Z.land flags ProcessIsMagiskApp =? 0).

Definition update_deny_flags (target enforced : bool) (flags : Z) : Z :=
  let flags := if target then Z.lor flags ProcessOnDenyList else flags in
  if enforced then Z.lor flags DenyListEnforced else flags.

Inductive Reply := Flags (flags : Z) | Fds (fds : list Z).

(** The modules that are marked as unloaded: [list.get(id as usize)] of an [i32]. *)
Definition get_module (ml : list ModuleInfo) (id : Z) : option ModuleInfo := if id <? 0 then None else ml !! Z.to_nat id.

Definition unloaded (has_dir : bytes -> bool) (ml : list ModuleInfo) (ids : list Z) : list bytes :=
  filter (fun n => has_dir n = true) (omap (fun id => mod_name <$> get_module ml id) ids).

Section Info.
Context {S : Type} `{Sqlite S} (read_certificate : bytes -> Z -> bytes) (MAGISK_VER_CODE : Z) (check_signature : bool) (sdk_int : Z) (is_emulator : bool).
Context (is_deny_target : Z -> bytes -> bool) (denylist_enforced : bool).

Definition process_flags (uid mgr_uid : Z) (process : bytes) (granted : bool) : Z :=
  let flags := update_deny_flags (is_deny_target uid process) denylist_enforced 0 in
  let flags := if mgr_uid =? uid then Z.lor flags ProcessIsMagiskApp else flags in
  if granted then Z.lor flags ProcessGrantedRoot else flags.

(** The state after it, the replies, the modules marked, and the outcome. *)
Definition get_process_info (e : Env) (ml : option (list ModuleInfo)) (has_dir : bytes -> bool) (client : bytes) (p : Package.St (S:=S))
    : Package.St (S:=S) * list Reply * list bytes * io unit :=
  match ('(uid, s) ← decode c_i32 client; '(process, s) ← decode c_string s; '(is_64_bit, s) ← decode c_bool s;
         Ok (uid, process, is_64_bit, s)) with
  | Err err => (p, [], [], Err err)
  | Panic => (p, [], [], Panic)
  | Ok (uid, process, is_64_bit, s) =>
      match get_manager_uid read_certificate MAGISK_VER_CODE check_signature sdk_int is_emulator (fs e) (now e) (to_user_id uid) p with
      | Err _ => (p, [], [], Err OtherIo)
      | Panic => (p, [], [], Panic)
      | Ok (p, mgr_uid) =>
          let '(db, granted) := uid_granted_root is_emulator (now e) uid (db p) in
          let p := mkSt (info p) db (effects p) in
          let flags := process_flags uid mgr_uid process granted in
          let replies := Flags flags ::
            (if zygisk_should_load_module flags then match get_module_fds ml is_64_bit with Some fds => [Fds fds] | None => [] end else []) in
          if negb (uid =? 1000) || negb (bool_decide (process = #"system_server")) then (p, replies, [], Ok tt) else
          match decode (c_vec c_i32) s with
          | Err err => (p, replies, [], Err err)
          | Panic => (p, replies, [], Panic)
          | Ok (failed_ids, _) => (p, replies, match ml with Some ml => unloaded has_dir ml failed_ids | None => [] end, Ok tt)
          end
      end
  end.
End Info.

(** [get_mod_dir]: the module whose directory is opened and sent. *)
Definition get_mod_dir (ml : option (list ModuleInfo)) (client : bytes) : io (option bytes) :=
  '(id, _) ← decode c_i32 client;
  Ok (ml ← ml; mod_name <$> get_module ml id).

(** * The bridge is restored *)

Section Restore.
Context {A : Type} `{PropAreaLaws A} (oc : bool) (from_reader : bytes -> option Persist.Props) (write_message : Persist.Props -> bytes).
Implicit Types (s : System A) (z : ZygiskState).

Abbreviation value s := (get_prop from_reader NBPROP s).

(** What the property is put back to. *)
Definition original (orig : bytes) : bytes := if is_empty orig || bool_decide (orig = #"0") then #"0" else orig.
Definition injected (orig : bytes) : bytes := if is_empty orig || bool_decide (orig = #"0") then ZYGISKLDR else ZYGISKLDR ++ orig.

(** What the other properties are once Zygisk is loaded: the Maple switch is turned off,
    and never turned on again. *)
Definition without_maple s (k : bytes) : option PropInfo :=
  if bool_decide (k = MAPLE) && bool_decide (get_prop from_reader MAPLE s = #"1") then Some (info_of #"0") else sys_find k (area s).

Lemma setp_find key val s k :
  fits key val ->
  sys_find k (area (ResetProp.set_prop from_reader write_message key val s)) = if decide (k = key) then Some (info_of val) else sys_find k (area s).
Proof. apply set_find. Qed.

Lemma getp_setp key val s : fits key val -> get_prop from_reader key (ResetProp.set_prop from_reader write_message key val s) = val.
Proof. intros Hf. apply get_value. rewrite setp_find by done. by rewrite decide_True. Qed.

Lemma fits_ro key val : read_only key = true -> fits key val.
Proof. unfold fits. intros ->. by rewrite orb_true_r. Qed.

Lemma getp_other key s s' : persistent key = false -> sys_find key (area s) = sys_find key (area s') ->
  get_prop from_reader key s = get_prop from_reader key s'.
Proof. intros Hp Hf. unfold get_prop, get. cbn. rewrite Hp, Hf. by destruct (pi_value <$> sys_find key (area s')). Qed.

Lemma set_prop_first z s z' s' :
  lib_name z = [] -> set_prop from_reader write_message z s = (z', s') ->
  z' = mkZygisk (injected (value s)) (sockets z) (start_count z) /\ value s' = injected (value s) /\
  forall k, k <> NBPROP -> sys_find k (area s') = without_maple s k.
Proof.
  unfold without_maple. intros Hl. unfold set_prop. rewrite Hl. cbn [is_empty negb]. fold (injected (value s)).
  set (s1 := ResetProp.set_prop from_reader write_message NBPROP _ s). intros [= <- <-].
  assert (value s1 = injected (value s)) as H1 by (apply getp_setp, fits_ro; reflexivity).
  assert (forall k, k <> NBPROP -> sys_find k (area s1) = sys_find k (area s)) as H2.
  { intros k Hk. unfold s1. rewrite setp_find by (apply fits_ro; reflexivity). by rewrite decide_False. }
  assert (get_prop from_reader MAPLE s1 = get_prop from_reader MAPLE s) as -> by (apply getp_other; [reflexivity | by apply H2]).
  split; [done |]. case_bool_decide as Hm; cbn [andb]; [| split; [done | intros k Hk; rewrite andb_false_r; by apply H2]]. split.
  - rewrite <- H1. apply getp_other; [reflexivity |]. rewrite setp_find by (apply fits_ro; reflexivity). by rewrite decide_False.
  - intros k Hk. rewrite setp_find by (apply fits_ro; reflexivity). rewrite andb_true_r. case_bool_decide; [by rewrite decide_True | rewrite decide_False by done; by apply H2].
Qed.

Lemma injected_nonempty orig : is_empty (injected orig) = false.
Proof. unfold injected. by destruct (is_empty orig || _). Qed.

Lemma restore_prop_injected z s orig z' s' :
  lib_name z = injected orig -> restore_prop from_reader write_message z s = (z', s') ->
  z' = mkZygisk [] (sockets z) (start_count z) /\ value s' = original orig /\
  forall k, k <> NBPROP -> sys_find k (area s') = sys_find k (area s).
Proof.
  intros Hl [= <- <-]. split; [done |]. split.
  - rewrite getp_setp by (apply fits_ro; reflexivity). rewrite Hl. unfold injected, original.
    destruct (is_empty orig || bool_decide (orig = #"0")) eqn:E; [done |].
    change 12%nat with (length ZYGISKLDR). rewrite length_app, drop_app_length. destruct orig; [done |]. rewrite (proj2 (Z.ltb_lt _ _)); [done | cbn [length]; lia].
  - intros k Hk. rewrite setp_find by (apply fits_ro; reflexivity). by rewrite decide_False.
Qed.

Lemma reset_false_injected z s orig :
  lib_name z = injected orig -> 0 <= start_count z < 3 ->
  reset oc from_reader write_message false z s = Ok (mkZygisk (lib_name z) (None, None) (start_count z + 1), s).
Proof.
  intros Hl Hc. unfold reset. rewrite u_arith_small by lia. cbn [mbind res_bind]. rewrite (proj2 (Z.ltb_ge _ _)) by lia.
  unfold set_prop. cbn [lib_name]. rewrite Hl, injected_nonempty. done.
Qed.

(** The bridge after [n] restarts of zygote: the loader stays in front of it for two, the
    third puts the original back, and every later one puts "0". *)
Definition bridge (n : nat) (orig : bytes) : bytes :=
  if (n <=? 2)%nat then injected orig else if (n =? 3)%nat then original orig else #"0".

Lemma restore_prop_empty z s z' s' :
  lib_name z = [] -> restore_prop from_reader write_message z s = (z', s') ->
  z' = mkZygisk [] (sockets z) (start_count z) /\ value s' = #"0" /\ forall k, k <> NBPROP -> sys_find k (area s') = sys_find k (area s).
Proof.
  intros Hl [= <- <-]. rewrite Hl. split; [done |]. split; [by rewrite getp_setp by (apply fits_ro; reflexivity) |].
  intros k Hk. rewrite setp_find by (apply fits_ro; reflexivity). by rewrite decide_False.
Qed.

Lemma restarts_snoc n z s :
  restarts oc from_reader write_message (S n) z s =
  '(z, s) ← restarts oc from_reader write_message n z s; reset oc from_reader write_message false z s.
Proof.
  revert z s. induction n as [|n IH]; intros z s.
  - cbn [restarts mbind res_bind]. by destruct (reset _ _ _ false z s) as [[]| |].
  - cbn [restarts] in IH |- *. destruct (reset _ _ _ false z s) as [[z' s']| |]; cbn [mbind res_bind]; [apply IH | done | done].
Qed.

Lemma restarts_bridge n z s orig :
  lib_name z = injected orig -> start_count z = 1 -> value s = injected orig -> Z.of_nat n + 1 < 2 ^ 32 ->
  exists z' s', restarts oc from_reader write_message n z s = Ok (z', s') /\
    lib_name z' = (if (n <=? 2)%nat then injected orig else []) /\ start_count z' = 1 + Z.of_nat n /\ value s' = bridge n orig /\
    forall k, k <> NBPROP -> sys_find k (area s') = sys_find k (area s).
Proof.
  intros Hl Hc Hv. induction n as [|n IH]; intros Hn; [exists z, s; by rewrite Hc |].
  rewrite restarts_snoc. destruct (IH ltac:(lia)) as (z1 & s1 & -> & Hl1 & Hc1 & Hv1 & Hk1).
  cbn [mbind res_bind]. destruct (Nat.leb_spec (S n) 2) as [Hle|Hgt].
  - rewrite (proj2 (Nat.leb_le n 2)) in Hl1 by lia. rewrite (reset_false_injected z1 s1 orig) by (done || lia).
    do 2 eexists. split; [done |]. cbn [lib_name start_count]. split_and!; [done | lia | | done].
    rewrite Hv1. unfold bridge. by rewrite !(proj2 (Nat.leb_le _ 2)) by lia.
  - unfold reset. rewrite u_arith_small by lia. cbn [mbind res_bind]. rewrite (proj2 (Z.ltb_lt _ _)) by lia.
    destruct (restore_prop _ _ _ s1) as [z2 s2] eqn:E. exists z2, s2. split; [done |].
    unfold bridge. rewrite (proj2 (Nat.leb_gt (S n) 2)) by lia. destruct (Nat.eqb_spec (S n) 3) as [Hn3|Hn3].
    + rewrite (proj2 (Nat.leb_le n 2)) in Hl1 by lia. apply (restore_prop_injected _ _ orig) in E as (-> & Hv2 & Hk2); [| exact Hl1].
      cbn [lib_name start_count]. split_and!; [done | lia | done | intros k Hk; by rewrite Hk2, Hk1].
    + rewrite (proj2 (Nat.leb_gt n 2)) in Hl1 by lia. apply restore_prop_empty in E as (-> & Hv2 & Hk2); [| exact Hl1].
      cbn [lib_name start_count]. split_and!; [done | lia | done | intros k Hk; by rewrite Hk2, Hk1].
Qed.
End Restore.

(** C17: What becomes of the native bridge, exactly. [set_prop] puts the loader in front of
    its value; up to two restarts of zygote leave it there, the third puts back the original
    value (or "0" if there was none), and each later one sets it to "0". The end of the
    boot puts back the original after at most two restarts; after a rollback it sets "0".
    Of all other properties only the Maple switch is changed: [set_prop] turns it off where
    it was on, and nothing turns it on again. *)
Theorem native_bridge_restored {A} `{PropAreaLaws A} oc from_reader write_message n (s : System A) :
  Z.of_nat n + 1 < 2 ^ 32 ->
  let value s := get_prop from_reader NBPROP s in
  let '(z1, s1) := set_prop from_reader write_message ZygiskState_default s in
  exists z2 s2 z3 s3,
    restarts oc from_reader write_message n z1 s1 = Ok (z2, s2) /\ value s2 = bridge n (value s) /\
    reset oc from_reader write_message true z2 s2 = Ok (z3, s3) /\
    value s3 = (if (n <=? 2)%nat then original (value s) else #"0") /\ lib_name z3 = [] /\ start_count z3 = 1 /\
    (forall k, k <> NBPROP -> sys_find k (area s2) = without_maple from_reader s k /\ sys_find k (area s3) = without_maple from_reader s k).
Proof.
  intros Hn value. destruct (set_prop _ _ _ s) as [z1 s1] eqn:E1.
  apply set_prop_first in E1 as (Hz1 & Hv1 & Hk1); [| done].
  assert (lib_name z1 = injected (value s) /\ start_count z1 = 1) as [Hl Hc] by by subst z1.
  destruct (restarts_bridge oc from_reader write_message n z1 s1 (value s) Hl Hc Hv1 Hn) as (z2 & s2 & Hr & Hl2 & Hc2 & Hv2 & Hk2).
  destruct (restore_prop from_reader write_message (mkZygisk (lib_name z2) (sockets z2) 1) s2) as [z3 s3] eqn:E3.
  exists z2, s2, z3, s3. split; [exact Hr |]. split; [exact Hv2 |]. unfold reset. rewrite E3. split; [done |].
  assert (z3 = mkZygisk [] (sockets z2) 1 /\ value s3 = (if (n <=? 2)%nat then original (value s) else #"0") /\
    forall k, k <> NBPROP -> sys_find k (area s3) = sys_find k (area s2)) as (-> & Hv3 & Hk3).
  { destruct (n <=? 2)%nat; [by apply (restore_prop_injected _ _ _ _ (value s)) in E3 | by apply restore_prop_empty in E3]. }
  split_and!; [done.. |]. intros k Hk. by rewrite Hk3, Hk2, Hk1 by done.
Qed.

Definition demo_bridge : System (gmap bytes bytes) := mkSystem {[ NBPROP := #"libhoudini.so"; MAPLE := #"1" ]} (Persist.mkStore None ∅).

Lemma native_bridge_restored_witness :
  let '(z1, s1) := set_prop (fun _ => None) (fun _ => []) ZygiskState_default demo_bridge in
  exists z2 s2 z3 s3, restarts true (fun _ => None) (fun _ => []) 2 z1 s1 = Ok (z2, s2) /\
    get_prop (fun _ => None) NBPROP s2 = #"libzygisk.solibhoudini.so" /\
    reset true (fun _ => None) (fun _ => []) true z2 s2 = Ok (z3, s3) /\ get_prop (fun _ => None) NBPROP s3 = #"libhoudini.so" /\
    pi_value <$> sys_find MAPLE (area s3) = Some #"0".
Proof.
  pose proof (native_bridge_restored true (fun _ => None) (fun _ => []) 2 demo_bridge ltac:(lia)) as H.
  destruct (set_prop _ _ _ _) as [z1 s1]. destruct H as (z2 & s2 & z3 & s3 & H1 & H2 & H3 & H4 & _ & _ & H5).
  exists z2, s2, z3, s3. split; [exact H1 |]. split; [rewrite H2; vm_compute; reflexivity |]. split; [exact H3 |]. split; [rewrite H4; vm_compute; reflexivity |].
  rewrite (proj2 (H5 MAPLE ltac:(done))). vm_compute. reflexivity.
Defined.

(** A second [restore_prop] loses the original value: after the third restart of zygote
    has rolled back and the boot completes, and when the daemon is stopped after the boot
    is complete. *)
Theorem restore_prop_not_idempotent :
  let run f := match f with Ok (z, s) => Some (get_prop (fun _ => None) NBPROP s) | _ => None end in
  let reset' := reset true (fun _ => None) (fun _ => []) in
  let '(z1, s1) := set_prop (fun _ => None) (fun _ => []) ZygiskState_default demo_bridge in
  run ('(z, s) ← restarts true (fun _ => None) (fun _ => []) 3 z1 s1; reset' true z s) = Some #"0" /\
  run ('(z, s) ← reset' true z1 s1; Ok (restore_prop (fun _ => None) (fun _ => []) z s)) = Some #"0".
Proof. vm_compute. done. Qed.

(** * Who gets the modules *)

Lemma process_flags_bits target enforced uid mgr process granted :
  let f := process_flags (fun _ _ => target) enforced uid mgr process granted in
  0 <= f < 2 ^ 32 /\ Z.testbit f 0 = granted /\ Z.testbit f 1 = target /\ Z.testbit f 30 = enforced /\ Z.testbit f 31 = (mgr =? uid) /\
  zygisk_should_load_module f = negb (target && enforced) && negb (mgr =? uid).
Proof. unfold process_flags. destruct target, enforced, (mgr =? uid), granted; vm_compute; done. Qed.

Lemma module_fds_valid ml is_64_bit fds :
  get_module_fds (Some ml) is_64_bit = Some fds -> length fds = length ml /\ Forall (fun fd => 0 <= fd) fds.
Proof.
  intros [= <-]. rewrite length_map. split; [done |]. apply Forall_forall. intros fd (m & -> & _)%list_elem_of_fmap.
  destruct is_64_bit; cbn; destruct (_ <? 0) eqn:E; unfold STDOUT_FILENO; try lia; apply Z.ltb_ge in E; done.
Qed.

Lemma unloaded_sub has_dir ml ids n : n ∈ unloaded has_dir ml ids -> has_dir n = true /\ exists m, m ∈ ml /\ mod_name m = n.
Proof.
  intros [Hd (id & _ & Hm)%list_elem_of_omap]%list_elem_of_filter. split; [done |]. unfold get_module in Hm.
  destruct (id <? 0); [done |]. destruct (ml !! Z.to_nat id) as [m|] eqn:E; [| done]. injection Hm as <-.
  exists m. split; [by eapply list_elem_of_lookup_2 | done].
Qed.

(** C13: A process that asks about itself is told, in the four bits of the reply, whether
    it has root, is on the denylist, whether the denylist is enforced, and whether it is
    the manager. The libraries of the modules, one valid file descriptor for each module
    in order, are sent exactly if it is not the manager and not on an enforced denylist.
    Only the system server can have modules marked as unloaded, and only modules that are
    loaded. *)
Theorem process_info_modules {S} `{Sqlite S} read_certificate ver check_sig sdk_int em deny enforced e ml has_dir uid process is_64_bit rest
    (p p1 : Package.St (S:=S)) mgr :
  is_i32 uid -> short process /\ utf8_valid process = true ->
  get_manager_uid read_certificate ver check_sig sdk_int em (fs e) (now e) (to_user_id uid) p = Ok (p1, mgr) ->
  let client := encode c_i32 uid ++ encode c_string process ++ encode c_bool is_64_bit ++ rest in
  let '(_, replies, markers, _) := get_process_info read_certificate ver check_sig sdk_int em deny enforced e ml has_dir client p in
  exists f, 0 <= f < 2 ^ 32 /\ Z.testbit f 0 = (uid_granted_root em (now e) uid (db p1)).2 /\
    Z.testbit f 1 = deny uid process /\ Z.testbit f 30 = enforced /\ Z.testbit f 31 = (mgr =? uid) /\
    replies = Flags f :: (if negb (deny uid process && enforced) && negb (mgr =? uid)
                          then match get_module_fds ml is_64_bit with Some fds => [Fds fds] | None => [] end else []) /\
    (forall l fds, ml = Some l -> get_module_fds ml is_64_bit = Some fds -> length fds = length l /\ Forall (fun fd => 0 <= fd) fds) /\
    (markers <> [] -> uid = 1000 /\ process = #"system_server") /\
    (forall n, n ∈ markers -> exists l m, ml = Some l /\ m ∈ l /\ mod_name m = n).
Proof.
  intros Huid Hproc Hmgr client. unfold get_process_info, client.
  rewrite (roundtrip (c := c_i32)) by done. cbn [mbind res_bind]. rewrite (roundtrip (c := c_string)) by done. cbn [mbind res_bind].
  rewrite (roundtrip (c := c_bool)) by done. cbn [mbind res_bind]. rewrite Hmgr.
  destruct (uid_granted_root em (now e) uid (db p1)) as [db' granted]. cbn [snd].
  pose proof (process_flags_bits (deny uid process) enforced uid mgr process granted) as (H1 & H2 & H3 & H4 & H5 & H6).
  change (process_flags (fun _ _ => deny uid process) enforced uid mgr process granted) with
    (process_flags deny enforced uid mgr process granted) in *.
  rewrite H6. set (f := process_flags deny enforced uid mgr process granted) in *.
  assert (forall l fds, ml = Some l -> get_module_fds ml is_64_bit = Some fds -> length fds = length l /\ Forall (fun fd => 0 <= fd) fds) as Hfds.
  { intros l fds ->. apply module_fds_valid. }
  destruct (Z.eqb_spec uid 1000) as [->|]; cbn [negb orb].
  2: { exists f. split_and!; try (apply H1 || exact Hfds); try done. intros n0 Hn0. by apply not_elem_of_nil in Hn0. }
  case_bool_decide as Hp; cbn [negb].
  2: { exists f. split_and!; try (apply H1 || exact Hfds); try done. intros n0 Hn0. by apply not_elem_of_nil in Hn0. }
  destruct (decode (c_vec c_i32) rest) as [[ids r]| |]; exists f; split_and!; try (apply H1 || exact Hfds); try done; try (by intros _); intros n0 Hn0; try by apply not_elem_of_nil in Hn0.
  destruct ml as [l|]; [| by apply not_elem_of_nil in Hn0]. apply unloaded_sub in Hn0 as (_ & m & Hm & Hn). by exists l, m.
Qed.

Definition demo_manager : Package.St (S:=TableDb) * Z :=
  match get_manager_uid Access.no_cert 1 true 30 false Access.no_files 1000 0 Access.demo_pst with Ok r => r | _ => (Access.demo_pst, 0) end.

Lemma process_info_modules_witness :
  let client := encode c_i32 10123 ++ encode c_string #"com.app" ++ encode c_bool true ++ [] in
  let '(_, replies, _, _) := get_process_info Access.no_cert 1 true 30 false (fun _ _ => false) true (Access.demo_env 5)
    (Some [mkModule #"m" (-1) 7; mkModule #"n" 6 (-1)]) (fun _ => true) client Access.demo_pst in
  exists f, Z.testbit f 0 = true /\ replies = [Flags f; Fds [7; 1]].
Proof.
  intros client.
  pose proof (process_info_modules Access.no_cert 1 true 30 false (fun _ _ => false) true (Access.demo_env 5)
    (Some [mkModule #"m" (-1) 7; mkModule #"n" 6 (-1)]) (fun _ => true) 10123 #"com.app" true [] Access.demo_pst demo_manager.1 demo_manager.2) as H.
  fold client in H. cbv zeta in H. destruct (get_process_info _ _ _ _ _ _ _ _ _ _ client _) as [[[p' replies] markers] r].
  destruct H as (f & _ & Hb & _ & _ & _ & Hr & _); [vm_compute; split; done | vm_compute; split; done | vm_compute; reflexivity |].
  exists f. split; [rewrite Hb | rewrite Hr]; vm_compute; reflexivity.
Defined.

(** A companion is started exactly when none is running, it is given the libraries of
    the modules first, and the other one is left alone. *)
Theorem connect_zygiskd_spec ml is_64_bit client alive sends pair answer z z' acts :
  connect_zygiskd ml is_64_bit client alive sends pair answer z = (z', acts, Ok tt) ->
  exists sock, (if is_64_bit then (sockets z').2 else (sockets z').1) = Some sock /\
    (if is_64_bit then (sockets z').1 = (sockets z).1 else (sockets z').2 = (sockets z).2) /\
    last acts = Some (SendFds sock [client]) /\
    (Fork is_64_bit ∈ acts <-> match (if is_64_bit then (sockets z).2 else (sockets z).1) with Some fd => alive fd = false | None => True end).
Proof.
  unfold connect_zygiskd. destruct z as [lib [s32 s64] count]. cbn [sockets fst snd lib_name start_count].
  destruct is_64_bit; cbn [sockets fst snd].
  - destruct s64 as [fd|]; [destruct (alive fd) eqn:Ea |]; cbn [sockets fst snd].
    1: destruct (sends [client]); intros [= <- <-]; exists fd; cbn; split_and!; try done; set_solver.
    all: destruct pair as [local|]; [| done]; cbv zeta; destruct (negb _); [done |]; destruct answer as [[| |]|]; try done; destruct (sends [client]); [| done].
    all: intros [= <- <-]; exists local; cbn [sockets fst snd]; split_and!; [done | done | by rewrite app_comm_cons, last_snoc | set_solver].
  - destruct s32 as [fd|]; [destruct (alive fd) eqn:Ea |]; cbn [sockets fst snd].
    1: destruct (sends [client]); intros [= <- <-]; exists fd; cbn; split_and!; try done; set_solver.
    all: destruct pair as [local|]; [| done]; cbv zeta; destruct (negb _); [done |]; destruct answer as [[| |]|]; try done; destruct (sends [client]); [| done].
    all: intros [= <- <-]; exists local; cbn [sockets fst snd]; split_and!; [done | done | by rewrite app_comm_cons, last_snoc | set_solver].
Qed.
End Zygisk.
