(* ===== verification/Companion.v ===== *)
(** The companion daemon of Zygisk, from both ends: how the daemon starts and calls it
    (core/zygisk/daemon.rs), the program it executes for that (core/applets.cpp,
    core/zygisk/entry.cpp), and how a request is run (core/zygisk/mod.rs).

    Loading a library, and what its handler does to the descriptors of the process, are
    arguments. *)

From S2P Require Import Prelude Text Numeric CStr Db Package Su Access Notify Socket FdPass Persist ResetProp Zygisk.

Module Companion.
Import CStr Db Package Su Socket Zygisk.

(** * Starting it *)

(** [exec_zygiskd]: the file and the arguments of [execl], after the descriptor was made to
    survive it. *)
Definition exec_zygiskd (lp64 is_64_bit : bool) (magisk_tmp : bytes) (remote : Z) : bytes * list bytes :=
  let magisk := if lp64 then if is_64_bit then #"magisk" else #"magisk32" else #"magisk" in
  let exe := append_path magisk (append_path magisk_tmp (FixedBuf_new 64)) in
  let fd_str := (push_str (fmt_dec remote) (FixedBuf_new 16)).1 in
  (as_str exe, [ []; #"zygisk"; #"companion"; as_str fd_str]).

(** ** The program *)

Inductive Program := MagiskMain | SuMain | ResetpropMain | ZygiskMain.

(** [basename] of libgen: the last component. *)
Definition basename (s : bytes) : bytes :=
  default (if is_empty s then #"." else [slash]) (last (filter (fun c => c <> []) (split_on slash s))).

Definition applets : list (bytes * Program) := [(#"su", SuMain); (#"resetprop", ResetpropMain)].
Definition private_applets : list (bytes * Program) := [(#"zygisk", ZygiskMain)].

Definition find_applet (name : bytes) (l : list (bytes * Program)) : option Program :=
  snd <$> List.find (fun a => bool_decide (a.1 = name)) l.

(** [main]: the program with its arguments, or the exit code 1. *)
Definition main (argv : list bytes) : option (Program * list bytes) :=
  match argv with
  | [] => None
  | [] :: argv =>
      match argv with
      | [] => None
      | a :: _ => (fun p => (p, argv)) <$> find_applet a private_applets
      end
  | path :: args =>
      let argv0 := basename path in
      if bool_decide (argv0 ∈ [ #"magisk"; #"magisk32"; #"magisk64"]) then
        match args with
        | a :: _ => if starts_with a #"-" then Some (MagiskMain, argv) else (fun p => (p, args)) <$> find_applet a applets
        | [] => Some (MagiskMain, argv)
        end
      else (fun p => (p, argv)) <$> find_applet argv0 applets
  end.

(** [parse_num<int, 10>]; overflow is undefined in C++. *)
Definition parse_int (s : bytes) : Z := default (-1) (parse_digits 10 0 s).

(** [zygisk_main]: the descriptor that [zygiskd] serves. *)
Definition zygisk_main (argv : list bytes) : option Z :=
  match argv with
  | [_; cmd; fd] => if bool_decide (cmd = #"companion") then Some (parse_int fd) else None
  | _ => None
  end.

(** * Serving requests *)

Section Serve.
Context {H : Type} (is_reg : Z -> bool) (dlsym : Z -> option H).

(** The libraries: one entry for each descriptor. *)
Definition load (fd : Z) : option H := if is_reg fd then dlsym fd else None.
Definition load_modules (fds : list Z) : list (option H) := map load fds.

(** [module_id >= 0 && module_id < modules.size() && modules[module_id]]: the entry, or the client is closed. *)
Definition serve (modules : list (option H)) (module_id : Z) : option H :=
  if (0 <=? module_id) && (module_id <? zlen modules) then mjoin (modules !! Z.to_nat module_id) else None.
End Serve.

(** [exec_companion_entry] on the descriptors of the process, as device and inode of their files. *)
Abbreviation FdTable := (gmap Z (Z * Z)).
Definition exec_companion_entry (client : Z) (companion_handler : Z -> FdTable -> FdTable) (s : FdTable) : FdTable :=
  match s !! client with
  | None => s
  | Some s1 =>
      let s := companion_handler client s in
      match s !! client with
      | Some s2 => if bool_decide (s1.1 = s2.1) && bool_decide (s1.2 = s2.2) then delete client s else s
      | None => s
      end
  end.

(** * The first exchange, as interleaved steps *)

(** [connect_zygiskd] from the fork on, and [zygiskd]. *)
Inductive DaemonPc := DSend | DAck | DClient | DDone | DFail.
Inductive CompanionPc := CRecv | CLoad (fds : list Z) | CAck | CServe | CExit.

Record Exchange := mkExchange {
  dpc : DaemonPc; cpc : CompanionPc;
  to_companion : list (list Z);     (** descriptors that were sent and not received *)
  to_daemon : list Z;
  loaded : option (list Z);         (** the libraries of the companion, once they are loaded *)
  served : list Z;                  (** clients it got *)
  sent : list (list Z)              (** what the daemon sent so far *)
}.

(** The steps of the two programs.  A socket that the daemon gave up is at its end for the
    companion, which then loads nothing and exits. *)
Inductive xstep (module_fds : option (list Z)) (client : Z) : Exchange -> Exchange -> Prop :=
| d_send l c q r ld sv st : module_fds = Some l -> zlen l <= FdPass.SCM_MAX_FD ->
    xstep module_fds client (mkExchange DSend c q r ld sv st) (mkExchange DAck c (q ++ [l]) r ld sv (st ++ [l]))
| d_send_fails l c q r ld sv st : module_fds = Some l -> FdPass.SCM_MAX_FD < zlen l ->
    xstep module_fds client (mkExchange DSend c q r ld sv st) (mkExchange DFail c q r ld sv st)
| d_send_none c q r ld sv st : module_fds = None ->
    xstep module_fds client (mkExchange DSend c q r ld sv st) (mkExchange DAck c q r ld sv st)
| d_ack a c q r ld sv st :
    xstep module_fds client (mkExchange DAck c q (a :: r) ld sv st) (mkExchange (if a =? 0 then DClient else DFail) c q r ld sv st)
| d_client c q r ld sv st :
    xstep module_fds client (mkExchange DClient c q r ld sv st) (mkExchange DDone c (q ++ [[client]]) r ld sv (st ++ [[client]]))
| c_recv d l q r ld sv st :
    xstep module_fds client (mkExchange d CRecv (l :: q) r ld sv st) (mkExchange d (CLoad l) q r ld sv st)
| c_recv_eof r ld sv st :
    xstep module_fds client (mkExchange DFail CRecv [] r ld sv st) (mkExchange DFail (CLoad []) [] r ld sv st)
| c_load d l q r ld sv st :
    xstep module_fds client (mkExchange d (CLoad l) q r ld sv st) (mkExchange d CAck q r (Some l) sv st)
| c_ack d q r ld sv st :
    xstep module_fds client (mkExchange d CAck q r ld sv st) (mkExchange d CServe q (r ++ [0]) ld sv st)
| c_serve d c q r ld sv st :
    xstep module_fds client (mkExchange d CServe ([c] :: q) r ld sv st) (mkExchange d CServe q r ld (sv ++ [c]) st)
| c_quit r ld sv st :
    xstep module_fds client (mkExchange DFail CServe [] r ld sv st) (mkExchange DFail CExit [] r ld sv st).

(** What may go wrong at any time: the companion ends (its program cannot be executed, it is
    killed, a library crashes while it is loaded or called), or a call of the daemon fails.
    The daemon keeps the other end of the pair open until [connect_zygiskd] returns, so the
    end of the companion is no end of file to it. *)
Inductive xfault : Exchange -> Exchange -> Prop :=
| c_exit d c q r ld sv st : c <> CExit -> xfault (mkExchange d c q r ld sv st) (mkExchange d CExit q r ld sv st)
| d_error d c q r ld sv st : d = DSend \/ d = DAck \/ d = DClient -> xfault (mkExchange d c q r ld sv st) (mkExchange DFail c q r ld sv st).

Definition xany (module_fds : option (list Z)) (client : Z) (x y : Exchange) : Prop := xstep module_fds client x y \/ xfault x y.

(** After the fork, and after a fork that failed. *)
Definition started : Exchange := mkExchange DSend CRecv [] [] None [] [].
Definition unforked : Exchange := mkExchange DSend CExit [] [] None [] [].

(** * The requests of Zygisk in an app *)

Definition GetInfo : Z := 0.
Definition ConnectCompanion : Z := 1.
Definition GetModDir : Z := 2.

Section Handler.
Context {S : Type} `{Sqlite S} (read_certificate : bytes -> Z -> bytes) (MAGISK_VER_CODE : Z) (check_signature : bool) (sdk_int : Z) (is_emulator : bool).
Context (is_deny_target : Z -> bytes -> bool) (denylist_enforced : bool) (e : Env) (ml : option (list ModuleInfo)) (has_dir : bytes -> bool).
Context (client : Z) (alive : Z -> bool) (sends : list Z -> bool) (pair answer : option Z).

(** The state and what is done for the client. *)
Record Handled := mkHandled {
  h_state : Package.St (S:=S); h_zygisk : ZygiskState; h_replies : list Reply; h_marked : list bytes; h_actions : list Action; h_dir : option bytes
}.

(** [zygisk_handler]: errors are logged; nothing stands for an abort. *)
Definition zygisk_handler (input : bytes) (p : Package.St (S:=S)) (z : ZygiskState) : option Handled :=
  let idle := mkHandled p z [] [] [] None in
  match decode c_i32 input with
  | Err _ => Some idle
  | Panic => None
  | Ok (code, s) =>
      if code =? GetInfo then
        let '(p, replies, marked, r) := get_process_info read_certificate MAGISK_VER_CODE check_signature sdk_int is_emulator is_deny_target denylist_enforced e ml has_dir s p in
        match r with Panic => None | _ => Some (mkHandled p z replies marked [] None) end
      else if code =? ConnectCompanion then
        match decode c_bool s with
        | Ok (is_64_bit, _) => let '(z, actions, _) := connect_zygiskd ml is_64_bit client alive sends pair answer z in Some (mkHandled p z [] [] actions None)
        | Err _ => Some idle
        | Panic => None
        end
      else if code =? GetModDir then
        match get_mod_dir ml s with Ok dir => Some (mkHandled p z [] [] [] dir) | Err _ => Some idle | Panic => None end
      else Some idle
  end.
End Handler.

(** * Theorems *)

Lemma fd_text fd : 0 <= fd < 2 ^ 31 -> as_str (push_str (fmt_dec fd) (FixedBuf_new 16)).1 = fmt_dec fd.
Proof.
  intros Hfd. pose proof (Notify.fmt_dec_length fd Hfd). destruct (FixedBuf_push_fits (FixedBuf_new 16) (fmt_dec fd)) as (_ & _ & ->); [reflexivity | | done].
  cbn [buf FixedBuf_new]. rewrite length_replicate. cbn. lia.
Qed.

(** The companion is started on the right descriptor: the program that is executed
    finds its way by the empty name and the arguments to [zygiskd], and reads back the
    number.  The file is the one of the directory, if its name is not too long. *)
Theorem companion_started lp64 is_64_bit tmp fd :
  0 <= fd < 2 ^ 31 ->
  let '(exe, argv) := exec_zygiskd lp64 is_64_bit tmp fd in
  main argv = Some (ZygiskMain, tail argv) /\ zygisk_main (tail argv) = Some fd /\
  (starts_with tmp #"/" = true -> ends_with tmp #"/" = false -> (length tmp <= 54)%nat ->
   exe = tmp ++ #"/" ++ (if lp64 && negb is_64_bit then #"magisk32" else #"magisk")).
Proof.
  intros Hfd. unfold exec_zygiskd. rewrite fd_text by done. split_and!.
  - reflexivity.
  - cbn [tail zygisk_main]. rewrite bool_decide_eq_true_2 by done. f_equal. unfold parse_int, fmt_dec. rewrite (proj2 (Z.ltb_ge _ _)) by lia. by rewrite parse_print by lia.
  - intros Hs He Hl. set (m := if lp64 then _ else _). assert (m = if lp64 && negb is_64_bit then #"magisk32" else #"magisk") as <- by (subst m; by destruct lp64, is_64_bit).
    assert (length m <= 8)%nat as Hm by (subst m; destruct lp64, is_64_bit; apply Nat.leb_le; reflexivity). assert (starts_with m #"/" = false) as Hms by (subst m; by destruct lp64, is_64_bit).
    assert (sized 64 (FixedBuf_new 64)) as H0 by (split; [reflexivity | apply length_replicate]).
    assert (append_path tmp (nul_terminate []) = nul_terminate tmp) as H1 by (unfold append_path; change [slash] with #"/"; by rewrite Hs).
    assert (append_path m (nul_terminate tmp) = nul_terminate (tmp ++ #"/" ++ m)) as H2.
    { unfold append_path. change [slash] with #"/". rewrite Hms. cbn [as_str Utf8CString_buf inner nul_terminate]. rewrite He.
      assert (buf_is_empty (nul_terminate tmp) = false) as -> by (destruct tmp; [done | reflexivity]). cbn. by rewrite <- app_assoc. }
    pose proof (buf_op_agrees 64 (FixedBuf_new 64) (nul_terminate []) (OPath tmp) H0 eq_refl eq_refl) as A1. cbn [buf_op] in A1. rewrite H1 in A1. specialize (A1 ltac:(cbn [inner nul_terminate]; lia)).
    pose proof (buf_op_agrees 64 (append_path tmp (FixedBuf_new 64)) (nul_terminate tmp) (OPath m) (append_path_sized 64 tmp _ H0) A1 eq_refl) as A2.
    cbn [buf_op] in A2. rewrite H2 in A2. apply A2. cbn [inner nul_terminate]. rewrite !length_app. change (length #"/") with 1%nat. lia.
Qed.

Lemma companion_started_witness :
  main (exec_zygiskd true false #"/debug_ramdisk" 57).2 = Some (ZygiskMain, [ #"zygisk"; #"companion"; #"57"]) /\
  (exec_zygiskd true false #"/debug_ramdisk" 57).1 = #"/debug_ramdisk/magisk32".
Proof.
  pose proof (companion_started true false #"/debug_ramdisk" 57 ltac:(lia)) as Hc. destruct (exec_zygiskd true false #"/debug_ramdisk" 57) as [exe argv] eqn:E.
  destruct Hc as (H1 & _ & H3). cbn [fst snd]. split; [rewrite H1; injection E as _ <-; vm_compute; reflexivity | apply H3; [reflexivity | reflexivity | apply Nat.leb_le; reflexivity]].
Defined.

(** Nothing but an empty name leads to the private program, and the commands of Magisk are
    the same under their own name and as a word after magisk. *)
Theorem main_dispatch argv l :
  (main argv = Some (ZygiskMain, l) -> head argv = Some []) /\
  (forall p args, p ∈ applets -> main (p.1 :: args) = Some (p.2, p.1 :: args) /\ main (#"magisk" :: p.1 :: args) = Some (p.2, p.1 :: args)).
Proof.
  split.
  - destruct argv as [|[|c path] args]; [done | done |]. cbn [head main]. assert (forall n (q l' : list bytes), ((fun p => (p, q)) <$> find_applet n applets) <> Some (ZygiskMain, l')) as Hn.
    { intros n q l'. unfold find_applet. cbn. by repeat case_bool_decide. }
    case_bool_decide; [destruct args as [|a args]; [done |]; destruct (starts_with a _); [done |] |]; by intros ?%Hn.
  - intros p args Hp. unfold applets in Hp. rewrite !elem_of_cons, elem_of_nil in Hp. destruct Hp as [->|[->|[]]]; split; vm_compute; reflexivity.
Qed.

Lemma main_dispatch_witness : main [ #"magisk"; #"su"; #"-c"; #"id"] = Some (SuMain, [ #"su"; #"-c"; #"id"]).
Proof. apply (main_dispatch [] []) with (p := (#"su", SuMain)). unfold applets. apply list_elem_of_here. Defined.

(** The number of a module means the same to the daemon and to the companion: the entry that
    a request for module [i] runs is the one of the library of the [i]-th module, and a
    module without a library, which is sent as the null device, has none. *)
Theorem module_ids_agree {H} (is_reg : Z -> bool) (dlsym : Z -> option H) ml is_64_bit q i :
  is_reg STDOUT_FILENO = false -> zlen ml <= FdPass.SCM_MAX_FD ->
  exists fds q', get_module_fds (Some ml) is_64_bit = Some fds /\ FdPass.send_fds fds [] = (q', Ok tt) /\
    (let '(rest, got) := FdPass.recv_fds_for_cxx (q' ++ q) in
     rest = q /\
     serve (load_modules is_reg dlsym got) i =
     (m ← (if (0 <=? i) then ml !! Z.to_nat i else None); let fd := if is_64_bit then z64 m else z32 m in if fd <? 0 then None else load is_reg dlsym fd)).
Proof.
  intros Hreg Hlen. eexists _, _. split; [reflexivity |]. set (f := fun m => _). rewrite FdPass.send_fds_Ok by (by rewrite length_map). split; [reflexivity |].
  cbn [app]. unfold FdPass.recv_fds_for_cxx, FdPass.recv_fds. rewrite FdPass.recvmsg_whole by done. split; [done |].
  unfold serve, load_modules. rewrite !length_map. destruct (Z.leb_spec 0 i) as [Hi|Hi]; [| done]. cbn [andb]. rewrite map_map.
  destruct (Z.ltb_spec i (zlen ml)) as [Hl|Hl].
  - rewrite list_lookup_fmap. destruct (ml !! Z.to_nat i) as [m|]; [| done]. cbn. subst f. cbn. destruct (Z.ltb_spec (if is_64_bit then z64 m else z32 m) 0); [| done].
    unfold load. by rewrite Hreg.
  - rewrite lookup_ge_None_2 by lia. done.
Qed.

(** A client that the handler left open is closed; every other descriptor, and one that was
    closed and opened again as another file, is left as the handler left it. *)
Theorem exec_companion_entry_spec client handler s f :
  s !! client = Some f ->
  let s' := handler client s in let r := exec_companion_entry client handler s in
  (forall fd, fd <> client -> r !! fd = s' !! fd) /\
  r !! client = match s' !! client with Some g => if bool_decide (f = g) then None else Some g | None => None end.
Proof.
  intros Hf s' r. subst r. unfold exec_companion_entry. rewrite Hf. fold s'. destruct (s' !! client) as [g|] eqn:Eg; [| split; [done | exact Eg]].
  assert (bool_decide (f.1 = g.1) && bool_decide (f.2 = g.2) = bool_decide (f = g)) as -> by (destruct f, g; cbn; repeat case_bool_decide; naive_solver).
  case_bool_decide; [| split; [done | exact Eg]]. split; [intros fd Hne; by rewrite lookup_delete_ne | apply lookup_delete_eq].
Qed.

Lemma exec_companion_entry_spec_witness :
  exec_companion_entry 7 (fun c s => <[c := (1, 99)]> (delete c s)) {[ 7 := (1, 5) ]} !! 7 = Some (1, 99).
Proof. exact (proj2 (exec_companion_entry_spec 7 (fun c s => <[c := (1, 99)]> (delete c s)) {[ 7 := (1, 5) ]} (1, 5) eq_refl)). Defined.

(** ** The exchange *)

(** The daemon got the answer: it is about to hand over the client, or did so. *)
Definition acknowledged (x : Exchange) : Prop := dpc x = DClient \/ dpc x = DDone.

(** What holds in every state, whatever fails: what was sent is what was received and what is
    on its way, and what was received is the libraries and then the clients; nothing is
    acknowledged before the libraries are loaded.  Only when the daemon gave up before
    it sent anything the companion loads nothing. *)
Record exchange_ok (l : list Z) (client : Z) (x : Exchange) : Prop := {
  ok_sent : match dpc x with
            | DSend => sent x = []
            | DAck | DClient => sent x = [l]
            | DDone => sent x = [l; [client]]
            | DFail => sent x = [] \/ sent x = [l]
            end;
  ok_received : match cpc x, loaded x with
                | CRecv, None => sent x = to_companion x
                | CLoad fds, None => sent x = fds :: to_companion x \/ (dpc x = DFail /\ sent x = [] /\ to_companion x = [])
                | (CAck | CServe | CExit), Some fds => sent x = fds :: map (fun c => [c]) (served x) ++ to_companion x \/ (dpc x = DFail /\ sent x = [] /\ to_companion x = [])
                | CExit, None => True
                | _, _ => False
                end;
  ok_served : loaded x = None \/ sent x = [] -> served x = [];
  ok_ack : loaded x = None -> to_daemon x = [] /\ ~ acknowledged x
}.

Lemma exchange_ok_start l client x : x = started \/ x = unforked -> exchange_ok l client x.
Proof. intros [-> | ->]; constructor; cbn; unfold acknowledged; naive_solver. Qed.

Lemma exchange_ok_step l client x y : exchange_ok l client x -> xany (Some l) client x y -> exchange_ok l client y.
Proof.
  unfold acknowledged. intros [Hs Hr Hv Ha] [Hxy|Hxy]; unfold acknowledged in *; inversion Hxy; subst; clear Hxy; cbn in *; simplify_eq.
  all: repeat match goal with c : CompanionPc |- _ => destruct c | ld : option (list Z) |- _ => destruct ld end; try done.
  all: constructor; unfold acknowledged; cbn; rewrite ?map_app, <- ?app_assoc; try solve [naive_solver (eauto using app_nil_r)].
  all: try match goal with |- context [if ?a =? 0 then _ else _] => destruct (a =? 0); solve [naive_solver] end.
  all: destruct Hr as [Hr|(Hd & Hst & Hq)]; [| naive_solver]; left; try done.
  all: change [l; [client]] with ([l] ++ [[client]]); by rewrite Hr, app_assoc.
Qed.

Lemma exchange_ok_reach l client x0 x : x0 = started \/ x0 = unforked -> rtc (xany (Some l) client) x0 x -> exchange_ok l client x.
Proof. intros H0 Hx. apply exchange_ok_start with (l := l) (client := client) in H0. induction Hx; [done | eauto using exchange_ok_step]. Qed.

(** The states of the exchange when nothing fails, in the order in which they occur. *)
Definition stages (l : list Z) (client : Z) : list Exchange :=
  [started; mkExchange DAck CRecv [l] [] None [] [l]; mkExchange DAck (CLoad l) [] [] None [] [l]; mkExchange DAck CAck [] [] (Some l) [] [l];
   mkExchange DAck CServe [] [0] (Some l) [] [l]; mkExchange DClient CServe [] [] (Some l) [] [l];
   mkExchange DDone CServe [[client]] [] (Some l) [] [l; [client]]; mkExchange DDone CServe [] [] (Some l) [client] [l; [client]] ].

Lemma stages_step l client n x y :
  zlen l <= FdPass.SCM_MAX_FD -> stages l client !! n = Some x -> (xstep (Some l) client x y <-> stages l client !! S n = Some y).
Proof.
  intros Hl. destruct n as [|[|[|[|[|[|[|[|n]]]]]]]]; cbn; intros [= <-]; (split; [intros Hs; inversion Hs; simplify_eq; (done || lia) |]); intros [= <-].
  all: first [exact (d_send _ _ l CRecv [] [] None [] [] eq_refl Hl) | exact (d_ack _ _ 0 _ _ _ _ _ _) | exact (d_client _ _ CServe [] [] _ [] [l]) |
    exact (c_ack _ _ DAck [] [] _ [] [l]) | exact (c_serve _ _ DDone client [] [] _ [] _) | constructor].
Qed.

Lemma stages_reach l client n x :
  zlen l <= FdPass.SCM_MAX_FD -> nsteps (xstep (Some l) client) n started x -> stages l client !! n = Some x.
Proof.
  intros Hl. revert x. induction n as [|n IH]; intros x Hn; [inversion Hn; by subst |].
  apply nsteps_inv_r in Hn as (y & Hy & Hxy). apply (stages_step l client n y x Hl (IH y Hy)), Hxy.
Qed.

Lemma stages_end l client k n x :
  zlen l <= FdPass.SCM_MAX_FD -> stages l client !! n = Some x -> (n + k = 7)%nat ->
  nsteps (xstep (Some l) client) k x (mkExchange DDone CServe [] [] (Some l) [client] [l; [client]]).
Proof.
  intros Hl. revert n x. induction k as [|k IH]; intros n x Hn Hk.
  - assert (n = 7)%nat as -> by lia. cbn in Hn. injection Hn as <-. constructor.
  - destruct (stages l client !! S n) as [y|] eqn:Ey; [| apply lookup_ge_None in Ey; cbn in Ey; lia].
    apply (nsteps_l _ _ _ y); [by apply (stages_step l client n) | apply (IH (S n)); [done | lia]].
Qed.



(** What the interleaved steps do is what [connect_zygiskd] does: an exchange that ended well
    has the daemon keep the socket, after it sent what the steps sent; one in which the daemon
    gave up leaves the state as it is. *)
Theorem exchange_is_connect_zygiskd ml is_64_bit l client local alive z x0 x :
  get_module_fds ml is_64_bit = Some l -> zlen l <= FdPass.SCM_MAX_FD -> (if is_64_bit then (sockets z).2 else (sockets z).1) = None ->
  x0 = started \/ x0 = unforked -> rtc (xany (Some l) client) x0 x -> dpc x = DDone ->
  connect_zygiskd ml is_64_bit client alive (fun fds => zlen fds <=? FdPass.SCM_MAX_FD) (Some local) (Some 0) z =
  (mkZygisk (lib_name z) (if is_64_bit then ((sockets z).1, Some local) else (Some local, (sockets z).2)) (start_count z),
   Fork is_64_bit :: map (SendFds local) (sent x), Ok tt).
Proof.
  intros Hm Hl Hz H0 [Hs _ _ _]%(exchange_ok_reach l client x0 x H0) Hd. rewrite Hd in Hs. rewrite Hs. unfold connect_zygiskd. rewrite Hm.
  assert ((zlen l <=? FdPass.SCM_MAX_FD) = true) as Hl' by (by apply Z.leb_le).
  destruct is_64_bit; rewrite Hz, Hz; cbv zeta; rewrite Hl'; done.
Qed.

(** A companion that ends before it acknowledged, and a fork that failed, leave the daemon
    waiting for ever: it holds the other end of the socket itself. *)
Theorem lost_companion_blocks l client x0 :
  zlen l <= FdPass.SCM_MAX_FD -> x0 = started \/ x0 = unforked ->
  rtc (xany (Some l) client) x0 (mkExchange DAck CExit [l] [] None [] [l]) /\
  forall y, ~ xstep (Some l) client (mkExchange DAck CExit [l] [] None [] [l]) y.
Proof.
  intros Hl [-> | ->]; (split; [| intros y Hy; inversion Hy]).
  - apply (rtc_l _ _ (mkExchange DAck CRecv [l] [] None [] [l])); [left; by apply (d_send _ _ l CRecv [] [] None [] []) |].
    apply rtc_once. right. by constructor.
  - apply rtc_once. left. by apply (d_send _ _ l CExit [] [] None [] []).
Qed.

(** Without a list of modules nothing is sent, and both wait for each other. *)
Theorem exchange_without_modules client :
  rtc (xstep None client) started (mkExchange DAck CRecv [] [] None [] []) /\ forall y, ~ xstep None client (mkExchange DAck CRecv [] [] None [] []) y.
Proof.
  split; [apply rtc_once; by constructor | intros y Hy; inversion Hy].
Qed.

(** Each request touches only what it is for, and an unknown one nothing. *)
Theorem zygisk_handler_frame {S} `{Sqlite S} cert ver sig sdk em deny enforced e ml has_dir client alive sends pair answer code rest p z r :
  is_i32 code ->
  zygisk_handler (S:=S) cert ver sig sdk em deny enforced e ml has_dir client alive sends pair answer (encode c_i32 code ++ rest) p z = Some r ->
  (code <> GetInfo -> h_state r = p /\ h_replies r = [] /\ h_marked r = []) /\
  (code <> ConnectCompanion -> h_zygisk r = z /\ h_actions r = []) /\ (code <> GetModDir -> h_dir r = None).
Proof.
  intros Hc. unfold zygisk_handler. rewrite (roundtrip (wf := is_i32)) by done. cbv zeta.
  destruct (Z.eqb_spec code GetInfo) as [->|]; [| destruct (Z.eqb_spec code ConnectCompanion) as [->|]; [| destruct (Z.eqb_spec code GetModDir) as [->|]]].
  - destruct (get_process_info _ _ _ _ _ _ _ _ _ _ _ _) as [[[p' rs] ms] []]; intros [= <-]; cbn; naive_solver.
  - destruct (decode c_bool rest) as [[b s']| |]; [destruct (connect_zygiskd _ _ _ _ _ _ _ _) as [[z' acts] o] |..]; intros [= <-]; cbn; naive_solver.
  - destruct (get_mod_dir ml rest); intros [= <-]; cbn; naive_solver.
  - intros [= <-]. cbn. naive_solver.
Qed.

End Companion.
