(* ===== verification/Preinit.v ===== *)
(** core/mount.rs: the choice of the partition that holds the preinit directory, the
    list of mounts that are undone for a process on the denylist.

    The mount table is what file Files parses; what is created and unmounted is in
    PreinitDir. *)

From S2P Require Import Prelude Text Numeric Files.

Module Preinit.
Import Files.

(** * Paths *)

(** [Path::parent], [Path::file_name] and [Path::starts_with] on components. *)
Definition parent_comps (p : bytes) : option (list bytes) :=
  match comps p with [] => None | cs => Some (removelast cs) end.

Definition file_name (p : bytes) : option bytes :=
  match List.last (comps p) [] with
  | [] => None
  | c => if decide (c = #"..") then None else Some c
  end.

Fixpoint prefix_comps (p q : list bytes) : bool :=
  match p, q with
  | [], _ => true
  | a :: p, b :: q => bool_decide (a = b) && prefix_comps p q
  | _, _ => false
  end.

Definition path_starts_with (p base : bytes) : bool := prefix_comps (comps base) (comps p).

(** * The preinit device *)

Inductive PartId := Data | Cache | Metadata | Persist.
Inductive EncryptType := NoEncrypt | BlockEncrypt | FileEncrypt | MetadataEncrypt.

#[export] Instance PartId_eq_dec : EqDecision PartId.
Proof. solve_decision. Defined.

(** The derived [Ord]. *)
Definition part_rank (p : PartId) : Z := match p with Data => 0 | Cache => 1 | Metadata => 2 | Persist => 3 end.

Definition encrypt_type (get_prop : bytes -> bytes) : EncryptType :=
  if negb (bool_decide (get_prop #"ro.crypto.state" = #"encrypted")) then NoEncrypt
  else if bool_decide (get_prop #"ro.crypto.type" = #"block") then BlockEncrypt
  else if bool_decide (get_prop #"ro.crypto.metadata.enabled" = #"true") then MetadataEncrypt
  else FileEncrypt.

Definition is_rw (info : MountInfo) : bool := existsb (fun s => bool_decide (s = #"rw")) (split_on ","%char (fs_option info)).
Definition is_ext4 (info : MountInfo) : bool := bool_decide (fs_type info = #"ext4").

(** The closure of [filter_map]. *)
Definition candidate (enc : EncryptType) (info : MountInfo) : option (PartId * MountInfo) :=
  if negb (bool_decide (root info = #"/")) || negb (starts_with (source info) #"/") || contains (source info) #"/dm-" then None else
  if negb (is_ext4 info || bool_decide (fs_type info = #"f2fs")) then None else
  if negb (is_rw info) then None else
  match parent_comps (source info) with
  | None => None
  | Some path =>
      let dir := List.last path [] in
      if negb (bool_decide (dir = #"by-name")) && negb (bool_decide (dir = #"block")) then None else
      let t := target info in
      if bool_decide (t = #"/persist") || bool_decide (t = #"/mnt/vendor/persist") then Some (Persist, info)
      else if bool_decide (t = #"/metadata") then Some (Metadata, info)
      else if bool_decide (t = #"/cache") then Some (Cache, info)
      else if bool_decide (t = #"/data") then
        match enc with NoEncrypt | FileEncrypt => Some (Data, info) | _ => None end
      else None
  end.

(** The comparison of two candidates, by partition and by whether they are ext4. *)
Definition part_cmp (a b : PartId * bool) : comparison :=
  let ord := Z.compare (part_rank a.1) (part_rank b.1) in
  match a, b with
  | (Metadata, _), (_, true) | (_, true), (Metadata, _) => ord
  | (_, true), (_, false) => Lt
  | (_, false), (_, true) => Gt
  | _, _ => ord
  end.

Definition cls (c : PartId * MountInfo) : PartId * bool := (c.1, is_ext4 c.2).

(** [select_nth_unstable_by] at 0 is the running minimum. *)
Definition select_min (acc c : PartId * MountInfo) : PartId * MountInfo :=
  match part_cmp (cls c) (cls acc) with Lt => c | _ => acc end.

Definition find_preinit_device (get_prop : bytes -> bytes) (infos : list MountInfo) : bytes :=
  match omap (candidate (encrypt_type get_prop)) infos with
  | [] => []
  | c :: cs => default [] (file_name (source (foldl select_min c cs).2))
  end.

(** * Unmounting *)

(** The closure of [retain]. *)
Fixpoint retain_roots (prev : option bytes) (targets : list bytes) : list bytes :=
  match targets with
  | [] => []
  | t :: targets =>
      if match prev with Some p => path_starts_with t p | None => false end
      then retain_roots prev targets
      else t :: retain_roots (Some t) targets
  end.

(** [revert_unmount]: the targets in the order they are unmounted. *)
Definition is_magisk_mount (info : MountInfo) : bool :=
  bool_decide (source info = #"magisk") || starts_with (root info) #"/adb/modules".

Definition magisk_targets (infos : list MountInfo) : list bytes :=
  map target (filter (fun info => is_magisk_mount info = true) infos).

Definition revert_unmount (infos : list MountInfo) : list bytes :=
  retain_roots None (merge_sort ble (magisk_targets infos)).

(** * The choice *)

(** What a candidate is, in words: a writable ext4 or f2fs partition mounted in full
    from a named block device, other than device mapper, at one of the known places;
    the data partition only if it can be read before it is decrypted. *)
Record eligible (get_prop : bytes -> bytes) (p : PartId) (info : MountInfo) : Prop := {
  el_root : root info = #"/";
  el_source : starts_with (source info) #"/" = true /\ contains (source info) #"/dm-" = false;
  el_fs : fs_type info = #"ext4" \/ fs_type info = #"f2fs";
  el_rw : #"rw" ∈ split_on ","%char (fs_option info);
  el_dir : exists path, parent_comps (source info) = Some path /\ (List.last path [] = #"by-name" \/ List.last path [] = #"block");
  el_target : match p with
    | Persist => target info = #"/persist" \/ target info = #"/mnt/vendor/persist"
    | Metadata => target info = #"/metadata"
    | Cache => target info = #"/cache"
    | Data => target info = #"/data" /\
        (get_prop #"ro.crypto.state" <> #"encrypted" \/
         (get_prop #"ro.crypto.type" <> #"block" /\ get_prop #"ro.crypto.metadata.enabled" <> #"true"))
    end }.

Lemma candidate_eligible get_prop info p info' :
  candidate (encrypt_type get_prop) info = Some (p, info') -> info' = info /\ eligible get_prop p info.
Proof.
  unfold candidate. destruct (negb _ || _ || _) eqn:E1; [done |]. destruct (negb (is_ext4 info || _)) eqn:E2; [done |].
  destruct (negb (is_rw info)) eqn:E3; [done |]. destruct (parent_comps (source info)) as [path|] eqn:E4; [| done].
  destruct (negb _ && negb _) eqn:E5; [done |]. intros H.
  apply orb_false_iff in E1 as [[E1 E1']%orb_false_iff E1'']. apply negb_false_iff, bool_decide_eq_true in E1.
  apply negb_false_iff in E1', E2, E3. rewrite andb_false_iff, !negb_false_iff, !bool_decide_eq_true in E5.
  unfold is_ext4 in E2. rewrite orb_true_iff, !bool_decide_eq_true in E2.
  unfold is_rw in E3. apply existsb_exists in E3 as (s & Hs%list_elem_of_In & ->%bool_decide_eq_true).
  assert (info' = info /\ match p with
    | Persist => target info = #"/persist" \/ target info = #"/mnt/vendor/persist"
    | Metadata => target info = #"/metadata"
    | Cache => target info = #"/cache"
    | Data => target info = #"/data" /\ (encrypt_type get_prop = NoEncrypt \/ encrypt_type get_prop = FileEncrypt)
    end) as [-> Ht].
  { revert H. repeat case_bool_decide; cbn [orb]; try done; try (intros [= <- <-]; auto).
    destruct (encrypt_type get_prop); try done; intros [= <- <-]; auto. }
  split; [done |]. split; [done | done | done | done | by exists path |].
  destruct p; try done. destruct Ht as [Ht Henc]. split; [done |].
  unfold encrypt_type in Henc. repeat case_bool_decide; cbn in Henc; naive_solver.
Qed.

(** ** The comparison *)

Definition all_cls : list (PartId * bool) :=
  [(Data, true); (Data, false); (Cache, true); (Cache, false); (Metadata, true); (Metadata, false); (Persist, true); (Persist, false)].

(** Three kinds of candidates among which the comparison goes in a circle. *)
Definition m_f2fs (x : PartId * bool) : bool := bool_decide (x = (Metadata, false)).
Definition late_ext4 (x : PartId * bool) : bool := bool_decide (x = (Persist, true)) || bool_decide (x = (Metadata, true)).
Definition early_f2fs (x : PartId * bool) : bool := bool_decide (x = (Data, false)) || bool_decide (x = (Cache, false)).
Definition circular (xs : list (PartId * bool)) : bool := existsb m_f2fs xs && existsb late_ext4 xs && existsb early_f2fs xs.

Definition le_b (a b : PartId * bool) : bool := match part_cmp a b with Gt => false | _ => true end.
Definition lt_b (a b : PartId * bool) : bool := match part_cmp a b with Lt => true | _ => false end.

Lemma cmp_table :
  forallb (fun x => forallb (fun a => forallb (fun c =>
    circular [x; a; c] || negb (lt_b x a && le_b a c) || le_b x c) all_cls) all_cls) all_cls = true.
Proof. vm_compute. reflexivity. Qed.

Lemma all_cls_full x : List.In x all_cls.
Proof. destruct x as [[] []]; cbn; tauto. Qed.

Lemma cmp_trans xs x a c :
  circular xs = false -> x ∈ xs -> a ∈ xs -> c ∈ xs -> lt_b x a = true -> le_b a c = true -> le_b x c = true.
Proof.
  intros Hc Hx Ha Hcc H1 H2. pose proof cmp_table as H. rewrite forallb_forall in H. specialize (H x (all_cls_full x)).
  rewrite forallb_forall in H. specialize (H a (all_cls_full a)). rewrite forallb_forall in H. specialize (H c (all_cls_full c)).
  rewrite H1, H2 in H. cbn [andb negb] in H. rewrite orb_false_r in H. apply orb_true_iff in H as [H|H]; [| done].
  exfalso. unfold circular in H, Hc.
  assert (forall P, existsb P [x; a; c] = true -> existsb P xs = true) as Hmono.
  { intros P (y & Hy & HP)%existsb_exists. apply existsb_exists. exists y. split; [| done]. apply list_elem_of_In.
    cbn in Hy. destruct Hy as [<-|[<-|[<-|[]]]]; done. }
  apply andb_true_iff in H as [[H3 H4]%andb_true_iff H5]. by rewrite !Hmono in Hc by done.
Qed.

Lemma le_b_refl a : le_b a a = true.
Proof. by destruct a as [[] []]. Qed.

Lemma le_lt a b : lt_b a b = false -> le_b b a = true.
Proof. by destruct a as [[] []], b as [[] []]. Qed.

Lemma lt_le a b : lt_b a b = true -> le_b a b = true.
Proof. unfold lt_b, le_b. by destruct (part_cmp a b). Qed.

Lemma select_min_in cs c : foldl select_min c cs ∈ c :: cs.
Proof.
  revert c. induction cs as [|d cs IH]; intros c; cbn [foldl]; [set_solver |].
  specialize (IH (select_min c d)). unfold select_min in *. destruct (part_cmp _ _); set_solver.
Qed.

Lemma select_min_le xs cs c :
  circular xs = false -> (forall d, d ∈ c :: cs -> cls d ∈ xs) ->
  forall d, d ∈ c :: cs -> le_b (cls (foldl select_min c cs)) (cls d) = true.
Proof.
  intros Hc. assert (forall (done_ : list (PartId * MountInfo)) cs c,
    (forall d, d ∈ done_ ++ c :: cs -> cls d ∈ xs) -> (forall d, d ∈ done_ -> le_b (cls c) (cls d) = true) ->
    forall d, d ∈ done_ ++ c :: cs -> le_b (cls (foldl select_min c cs)) (cls d) = true) as Hgen.
  2: { intros Hin. apply (Hgen []); [done | set_solver]. }
  intros done_ cs'. revert done_. induction cs' as [|e cs' IH]; intros done_ c' Hin Hle d Hd; cbn [foldl].
  - apply elem_of_app in Hd as [Hd|Hd]; [by apply Hle |]. apply list_elem_of_singleton in Hd as ->. apply le_b_refl.
  - unfold select_min at 2. destruct (lt_b (cls e) (cls c')) eqn:El.
    + assert (part_cmp (cls e) (cls c') = Lt) as -> by (unfold lt_b in El; by destruct (part_cmp _ _)).
      apply (IH (done_ ++ [c'])); [intros x Hx; apply Hin; set_solver | | set_solver].
      intros x Hx. apply elem_of_app in Hx as [Hx|Hx].
      * apply (cmp_trans xs (cls e) (cls c') (cls x)); auto; apply Hin; set_solver.
      * apply list_elem_of_singleton in Hx as ->. by apply lt_le.
    + assert (match part_cmp (cls e) (cls c') with Lt => e | _ => c' end = c') as ->
        by (unfold lt_b in El; by destruct (part_cmp _ _)).
      apply (IH (done_ ++ [e])); [intros x Hx; apply Hin; set_solver | | set_solver].
      intros x Hx. apply elem_of_app in Hx as [Hx|Hx]; [by apply Hle |].
      apply list_elem_of_singleton in Hx as ->. by apply le_lt.
Qed.

(** The order the comments of the source describe: ext4 before f2fs, except that a
    metadata partition on f2fs is compared with any other by its rank. *)
Definition no_worse (a b : PartId * bool) : Prop :=
  if bool_decide (a.2 = b.2) || m_f2fs a || m_f2fs b then part_rank a.1 <= part_rank b.1 else a.2 = true.

Lemma le_b_no_worse a b : le_b a b = true -> no_worse a b.
Proof. destruct a as [[] []], b as [[] []]; vm_compute; done. Qed.

Lemma eligible_candidate get_prop p info :
  eligible get_prop p info -> candidate (encrypt_type get_prop) info = Some (p, info).
Proof.
  intros [Hr [Hs Hd] Hfs Hrw (path & Hpath & Hdir) Ht]. unfold candidate. rewrite Hr, Hs, Hd, (bool_decide_eq_true_2 (#"/" = #"/")) by done.
  cbn [negb orb]. assert (is_ext4 info || bool_decide (fs_type info = #"f2fs") = true) as ->.
  { unfold is_ext4. rewrite orb_true_iff, !bool_decide_eq_true. done. }
  assert (is_rw info = true) as ->.
  { unfold is_rw. apply existsb_exists. exists #"rw". by rewrite <- list_elem_of_In, bool_decide_eq_true. }
  cbn [negb]. rewrite Hpath. destruct Hdir as [-> | ->].
  all: rewrite ?(bool_decide_eq_true_2 (#"block" = #"block")), ?(bool_decide_eq_true_2 (#"by-name" = #"by-name")) by done.
  all: rewrite ?andb_false_r; cbn [negb andb].
  all: destruct p; [destruct Ht as [-> Henc] | rewrite Ht | rewrite Ht | destruct Ht as [-> | ->]]; try reflexivity.
  all: unfold encrypt_type; repeat case_bool_decide; try reflexivity; naive_solver.
Qed.

(** C34: [find_preinit_device] answers with the name of a block device that may hold the
    preinit directory: of a mount in the table that is writable, ext4 or f2fs, not device
    mapper, named under "by-name" or "block", mounted at one of the four known places,
    and, for the data partition, readable before decryption. Unless the table mixes f2fs
    metadata, ext4 persist or metadata, and f2fs data or cache, no eligible mount is
    preferred to the one that is chosen. The answer is empty if no mount is eligible. *)
Theorem find_preinit_device_best get_prop infos :
  ((forall p info, info ∈ infos -> ~ eligible get_prop p info) /\ find_preinit_device get_prop infos = []) \/
  exists p info, info ∈ infos /\ eligible get_prop p info /\
    find_preinit_device get_prop infos = default [] (file_name (source info)) /\
    (circular (map cls (omap (candidate (encrypt_type get_prop)) infos)) = false ->
     forall q info', info' ∈ infos -> eligible get_prop q info' -> no_worse (p, is_ext4 info) (q, is_ext4 info')).
Proof.
  unfold find_preinit_device. destruct (omap _ infos) as [|c cs] eqn:Ec.
  - left. split; [| done]. intros p info Hin Hel. apply (not_elem_of_nil (A := PartId * MountInfo) (p, info)). rewrite <- Ec.
    apply list_elem_of_omap. exists info. split; [done |]. by apply eligible_candidate.
  - right. pose proof (select_min_in cs c) as Hin. rewrite <- Ec in Hin at 1.
    apply list_elem_of_omap in Hin as (info & Hinfo & Hcand).
    destruct (foldl select_min c cs) as [p info'] eqn:Em. destruct (candidate_eligible _ _ _ _ Hcand) as [-> Hel].
    exists p, info. do 3 (split; [done |]). intros Hcirc q info' Hin' Hel'. apply le_b_no_worse.
    change (p, is_ext4 info) with (cls (p, info)). change (q, is_ext4 info') with (cls (q, info')). rewrite <- Em.
    apply (select_min_le (map cls (c :: cs))); [by rewrite Ec in Hcirc || done | |].
    + intros d Hd. by apply (list_elem_of_fmap_2 cls).
    + rewrite <- Ec. apply list_elem_of_omap. exists info'. split; [done |]. by apply eligible_candidate.
Qed.

(** Otherwise the choice depends on the order of the mount table: of f2fs metadata, ext4
    persist and f2fs data each is preferred to the next, and data to metadata. *)
Definition mnt (src tgt fs : bytes) : MountInfo :=
  {| Files.id := 1; parent := 0; device := 0; root := #"/"; target := tgt; vfs_option := #"rw"; shared := 0; master := 0; propagation_from := 0;
     unbindable := false; fs_type := fs; source := src; fs_option := #"rw" |}.

Definition meta_mnt : MountInfo := mnt #"/dev/block/by-name/metadata" #"/metadata" #"f2fs".
Definition persist_mnt : MountInfo := mnt #"/dev/block/by-name/persist" #"/mnt/vendor/persist" #"ext4".
Definition data_mnt : MountInfo := mnt #"/dev/block/by-name/userdata" #"/data" #"f2fs".

Theorem choice_depends_on_order :
  let get_prop (_ : bytes) : bytes := [] in
  find_preinit_device get_prop [meta_mnt; persist_mnt; data_mnt] = #"userdata" /\
  find_preinit_device get_prop [data_mnt; meta_mnt; persist_mnt] = #"persist" /\
  find_preinit_device get_prop [persist_mnt; data_mnt; meta_mnt] = #"metadata".
Proof. vm_compute. done. Qed.

(** * What is unmounted *)

Lemma prefix_comps_refl p : prefix_comps p p = true.
Proof. induction p; cbn; [done |]. by rewrite bool_decide_eq_true_2. Qed.

Lemma retain_roots_sub prev ts t : t ∈ retain_roots prev ts -> t ∈ ts.
Proof.
  revert prev. induction ts as [|u ts IH]; intros prev; cbn [retain_roots]; [done |].
  destruct prev as [p|]; [destruct (path_starts_with u p) |]; intros; set_solver.
Qed.

Lemma retain_roots_covers prev ts t :
  t ∈ ts -> exists r, (prev = Some r \/ r ∈ retain_roots prev ts) /\ path_starts_with t r = true.
Proof.
  revert prev. induction ts as [|u ts IH]; intros prev Hin; cbn [retain_roots]; [by apply not_elem_of_nil in Hin |].
  assert (path_starts_with u u = true) as Hu by (apply prefix_comps_refl).
  apply elem_of_cons in Hin as [-> | Hin].
  - destruct prev as [p|]; [destruct (path_starts_with u p) eqn:E; [by exists p; auto |] |]; exists u; split; auto; right; set_solver.
  - destruct prev as [p|]; [destruct (path_starts_with u p) eqn:E; [by apply IH |] |].
    all: destruct (IH (Some u) Hin) as (r & [[= ->] | Hr] & Hs); exists r; (split; [right; set_solver | done]).
Qed.

(** For a process on the denylist [revert_unmount] unmounts only mount points of
    Magisk's own file systems and of module files, and every such mount point is one of
    the unmounted directories or lies under one. *)
Theorem revert_unmount_covers infos :
  (forall t, t ∈ revert_unmount infos -> exists info, info ∈ infos /\ target info = t /\
     (source info = #"magisk" \/ starts_with (root info) #"/adb/modules" = true)) /\
  (forall info, info ∈ infos -> source info = #"magisk" \/ starts_with (root info) #"/adb/modules" = true ->
     exists r, r ∈ revert_unmount infos /\ path_starts_with (target info) r = true).
Proof.
  assert (forall info, is_magisk_mount info = true <-> source info = #"magisk" \/ starts_with (root info) #"/adb/modules" = true) as Hm.
  { intros. unfold is_magisk_mount. by rewrite orb_true_iff, bool_decide_eq_true. }
  unfold revert_unmount. split.
  - intros t Ht%retain_roots_sub. rewrite merge_sort_Permutation in Ht.
    apply list_elem_of_fmap in Ht as (info & -> & [Hmi Hin]%list_elem_of_filter). exists info. rewrite Hm in Hmi. done.
  - intros info Hin Hmi. apply Hm in Hmi.
    destruct (retain_roots_covers None (merge_sort ble (magisk_targets infos)) (target info)) as (r & [? | Hr] & Hs); [| done | by exists r].
    rewrite merge_sort_Permutation. apply (list_elem_of_fmap_2 target). by apply list_elem_of_filter.
Qed.

(** A target is not always dropped when a directory above it is unmounted: "/a-b" sorts
    between "/a" and "/a/c". *)
Theorem revert_unmount_nested :
  retain_roots None (merge_sort ble [ #"/a"; #"/a/c"; #"/a-b"]) = [ #"/a"; #"/a-b"; #"/a/c"].
Proof. vm_compute. done. Qed.
End Preinit.
