(* ===== verification/PreinitDir.v ===== *)
(** core/mount.rs and base/base.cpp: [find_preinit_device] and [setup_preinit_dir] with all that
    they create in the file system: directories, the link to them among the files of Magisk,
    and the device node; and [revert_unmount] on the mounts of a namespace.

    What the kernel lets a call create is an argument; paths are shorter than their buffers. *)

From S2P Require Import Prelude Text Numeric CStr Files Preinit.

Module PreinitDir.
Import CStr Files Preinit.

Inductive Node := Dir | Lnk (target : bytes) | Blk (dev : Z) | Reg.
Record World := mkWorld { fs : gmap bytes Node; mounts : list bytes }.

Definition PREINITMIRR : bytes := #".magisk/preinit".
Definition PREINITDEV : bytes := #".magisk/device/preinit".

Definition join_path (a b : bytes) : bytes := inner (append_path b (nul_terminate a)).

Section Calls.
Context (may : World -> bytes -> bool).

Definition exists_ (p : bytes) (w : World) : bool := bool_decide (is_Some (fs w !! p)).
Definition put (p : bytes) (n : Node) (w : World) : World := mkWorld (<[p := n]> (fs w)) (mounts w).

(** [mkdir]: what exists already is no error. *)
Definition mkdir (p : bytes) (w : World) : World * bool :=
  if exists_ p w then (w, true) else if may w p then (put p Dir w, true) else (w, false).
(** [mkdirs]: every prefix, up to the first error. *)
Fixpoint mkdirs_from (path : bytes) (cs : list bytes) (w : World) : World * bool :=
  match cs with
  | [] => (w, true)
  | s :: cs => let path := join_path path s in let '(w, ok) := mkdir path w in if ok then mkdirs_from path cs w else (w, false)
  end.
Definition mkdirs (p : bytes) (w : World) : World * bool :=
  mkdirs_from (if starts_with p #"/" then #"/" else []) (filter (fun s => s <> []) (split_on slash p)) w.
(** [remove]: not a mount point, not a directory with something in it. *)
Definition is_parent (p : bytes) (w : World) : bool := existsb (fun q => starts_with q (p ++ #"/")) (map_to_list (fs w)).*1.
Definition remove (p : bytes) (w : World) : World :=
  if bool_decide (p ∈ mounts w) || is_parent p w then w else mkWorld (delete p (fs w)) (mounts w).
Definition unmount (p : bytes) (w : World) : World := mkWorld (fs w) (filter (fun m => m <> p) (mounts w)).
Definition create (p : bytes) (n : Node) (w : World) : World * bool :=
  if exists_ p w then (w, false) else if may w p then (put p n w, true) else (w, false).

(** [resolve_preinit_dir] *)
Definition resolve_preinit_dir (base_dir : bytes) (w : World) : bytes :=
  if exists_ (base_dir ++ #"/unencrypted") w then base_dir ++ #"/unencrypted/magisk"
  else if exists_ (base_dir ++ #"/adb") w then base_dir ++ #"/adb"
  else if exists_ (base_dir ++ #"/watchdog") w then base_dir ++ #"/watchdog/magisk"
  else base_dir ++ #"/magisk".

(** The [try] block of [setup_preinit_dir]. *)
Definition link_dir (preinit_dir mnt_path : bytes) (w : World) : World * bool :=
  let '(w, ok) := mkdir preinit_dir w in
  if negb ok then (w, false) else
  let '(w, ok) := mkdirs mnt_path w in
  if negb ok then (w, false) else create mnt_path (Lnk preinit_dir) (remove mnt_path w).

(** The loop over the mounts. *)
Fixpoint try_mounts (dev : Z) (mnt_path : bytes) (infos : list MountInfo) (w : World) : World * option bytes :=
  match infos with
  | [] => (w, None)
  | info :: infos =>
      if bool_decide (root info = #"/") && (device info =? dev) && is_rw info then
        let preinit_dir := resolve_preinit_dir (target info) w in
        let '(w, ok) := link_dir preinit_dir mnt_path w in
        if ok then (w, Some preinit_dir) else try_mounts dev mnt_path infos w
      else try_mounts dev mnt_path infos w
  end.

Definition setup_preinit_dir (magisk_tmp : bytes) (infos : list MountInfo) (w : World) : World * option bytes :=
  match fs w !! join_path magisk_tmp PREINITDEV with
  | Some (Blk dev) => try_mounts dev (join_path magisk_tmp PREINITMIRR) infos w
  | _ => (w, None)
  end.

(** [find_preinit_device]: [tmp] is the variable MAGISKTMP, [makedev] whether MAKEDEV is set. *)
Definition find_preinit_device (get_prop : bytes -> bytes) (infos : list MountInfo) (is_root : bool) (tmp : option bytes) (makedev : bool) (w : World) : World * bytes :=
  match omap (candidate (encrypt_type get_prop)) infos with
  | [] => (w, [])
  | c :: cs =>
      let info := (foldl select_min c cs).2 in
      let preinit_dir := resolve_preinit_dir (target info) w in
      let w :=
        match tmp with
        | Some tmp =>
            if is_root && negb (is_empty tmp) then
              let mirror_dir := join_path tmp PREINITMIRR in
              let w :=
                let '(w, ok) := mkdirs preinit_dir w in
                if negb ok then w else
                let '(w, ok) := mkdirs mirror_dir w in
                if negb ok then w else (create mirror_dir (Lnk preinit_dir) (remove mirror_dir (unmount mirror_dir w))).1 in
              if makedev then (create (join_path tmp PREINITDEV) (Blk (device info)) w).1 else w
            else w
        | None => w
        end in
      (w, default [] (file_name (source info)))
  end.

(** ** [revert_unmount] *)

(** [umount2] with MNT_DETACH takes what is mounted below with it; it may fail. *)
Definition detach (can : bytes -> bool) (ms : list bytes) (t : bytes) : list bytes :=
  if bool_decide (t ∈ ms) && can t then filter (fun m => path_starts_with m t = false) ms else ms.
(** The mounts of the namespace that is entered; the number is what [switch_mnt_ns] gives. *)
Definition revert_unmount (can : bytes -> bool) (pid switched : Z) (infos : list MountInfo) (ms : list bytes) : list bytes :=
  if (0 <? pid) && negb (switched =? 0) then ms else foldl (detach can) ms (Preinit.revert_unmount infos).

(** * Theorems *)

(** What was there stays there, one path apart. *)
Definition keeps (except : bytes) (w w' : World) : Prop := forall p n, p <> except -> fs w !! p = Some n -> fs w' !! p = Some n.

#[local] Instance keeps_refl except : Reflexive (keeps except).
Proof. intros w p n _ H. exact H. Qed.
#[local] Instance keeps_trans except : Transitive (keeps except).
Proof. intros w1 w2 w3 H12 H23 p n Hp H. by apply H23, H12. Qed.

Lemma put_keeps except p n w : fs w !! p = None -> keeps except w (put p n w).
Proof. intros Hp q m _ Hq. cbn. rewrite lookup_insert_ne; [done | congruence]. Qed.

Lemma not_exists p w : exists_ p w = false -> fs w !! p = None.
Proof. unfold exists_. intros H%bool_decide_eq_false. by destruct (fs w !! p); [destruct H; eexists |]. Qed.

Lemma mkdir_spec except p w w' ok : mkdir p w = (w', ok) -> keeps except w w' /\ (ok = true -> is_Some (fs w' !! p)).
Proof.
  unfold mkdir. destruct (exists_ p w) eqn:E; [| destruct (may w p)]; intros [= <- <-].
  - split; [done |]. by apply bool_decide_eq_true in E.
  - split; [by apply put_keeps, not_exists |]. cbn. rewrite lookup_insert_eq. by eexists.
  - done.
Qed.

Lemma mkdirs_keeps except p w w' ok : mkdirs p w = (w', ok) -> keeps except w w'.
Proof.
  unfold mkdirs. generalize (if starts_with p #"/" then #"/" else []) as path, (filter (fun s => s <> []) (split_on slash p)) as cs.
  intros path cs. revert path w. induction cs as [|s cs IH]; intros path w; cbn [mkdirs_from]; [by intros [= <- <-] |].
  destruct (mkdir (join_path path s) w) as [w1 ok1] eqn:E. destruct (mkdir_spec except _ _ _ _ E) as [H1 _]. destruct ok1; [| by intros [= <- <-]].
  intros H. etransitivity; [exact H1 | by eapply IH].
Qed.

Lemma remove_keeps p w : keeps p w (remove p w).
Proof. intros q n Hq H. unfold remove. destruct (_ || _); [done |]. cbn. by rewrite lookup_delete_ne. Qed.

Lemma create_spec except p n w w' ok :
  create p n w = (w', ok) -> keeps except w w' /\ (ok = true -> fs w' !! p = Some n) /\ (ok = false -> w' = w).
Proof.
  unfold create. destruct (exists_ p w) eqn:E; [by intros [= <- <-] |]. destruct (may w p); intros [= <- <-]; [| done].
  split; [by apply put_keeps, not_exists | split; [| done]]. intros _. cbn. apply lookup_insert_eq.
Qed.

Lemma link_dir_spec dir mnt w w' ok :
  link_dir dir mnt w = (w', ok) ->
  keeps mnt w w' /\ (ok = true -> fs w' !! mnt = Some (Lnk dir) /\ (dir <> mnt -> is_Some (fs w' !! dir))).
Proof.
  unfold link_dir. destruct (mkdir dir w) as [w1 ok1] eqn:E1. destruct (mkdir_spec mnt _ _ _ _ E1) as [K1 D1]. destruct ok1; cbn [negb]; [| by intros [= <- <-]].
  destruct (mkdirs mnt w1) as [w2 ok2] eqn:E2. pose proof (mkdirs_keeps mnt _ _ _ _ E2) as K2. destruct ok2; cbn [negb]; [| intros [= <- <-]; split; [by etransitivity | done]].
  intros E3. destruct (create_spec mnt _ _ _ _ _ E3) as (K3 & C3 & _).
  assert (keeps mnt w1 w') as K by (etransitivity; [exact K2 |]; etransitivity; [apply remove_keeps | exact K3]).
  split; [by etransitivity |]. intros Hok. split; [by apply C3 |]. intros Hne. destruct (D1 eq_refl) as [n Hn]. exists n. by apply K.
Qed.

(** The directory is below the place where the partition is mounted. *)
Lemma resolve_below base w : exists rest, resolve_preinit_dir base w = base ++ #"/" ++ rest.
Proof.
  unfold resolve_preinit_dir. destruct (exists_ _ _); [by exists #"unencrypted/magisk" |]. destruct (exists_ _ _); [by exists #"adb" |].
  destruct (exists_ _ _); [by exists #"watchdog/magisk" | by exists #"magisk"].
Qed.

(** Whatever the kernel allows, nothing but the link is replaced.  If a directory is
    returned, it exists, below a writable mount of the whole device that the node is for,
    and the link leads to it. *)
Theorem setup_preinit_dir_spec magisk_tmp infos w w' r :
  setup_preinit_dir magisk_tmp infos w = (w', r) ->
  let mnt := join_path magisk_tmp PREINITMIRR in
  keeps mnt w w' /\
  match r with
  | Some dir =>
      fs w' !! mnt = Some (Lnk dir) /\ (dir <> mnt -> is_Some (fs w' !! dir)) /\
      exists info dev rest, info ∈ infos /\ root info = #"/" /\ fs w !! join_path magisk_tmp PREINITDEV = Some (Blk dev) /\ device info = dev /\
        is_rw info = true /\ dir = target info ++ #"/" ++ rest
  | None => True
  end.
Proof.
  unfold setup_preinit_dir. cbv zeta. set (mnt := join_path magisk_tmp PREINITMIRR). destruct (fs w !! join_path magisk_tmp PREINITDEV) as [[| |dev|]|]; try (by intros [= <- <-]; split).
  assert (forall infos w, try_mounts dev mnt infos w = (w', r) -> keeps mnt w w' /\ match r with
    | Some dir => fs w' !! mnt = Some (Lnk dir) /\ (dir <> mnt -> is_Some (fs w' !! dir)) /\
        exists info rest, info ∈ infos /\ root info = #"/" /\ device info = dev /\ is_rw info = true /\ dir = target info ++ #"/" ++ rest
    | None => True end) as Hgen.
  { clear infos w. intros infos. induction infos as [|info infos IH]; intros w; cbn [try_mounts]; [by intros [= <- <-]; split |].
    assert (forall w1, keeps mnt w w1 -> try_mounts dev mnt infos w1 = (w', r) -> keeps mnt w w' /\ match r with
      | Some dir => fs w' !! mnt = Some (Lnk dir) /\ (dir <> mnt -> is_Some (fs w' !! dir)) /\
          exists i rest, i ∈ info :: infos /\ root i = #"/" /\ device i = dev /\ is_rw i = true /\ dir = target i ++ #"/" ++ rest
      | None => True end) as Hnext.
    { intros w1 Hk Ht. destruct (IH w1 Ht) as [Hk' Hr]. split; [by etransitivity |]. destruct r as [dir|]; [| done]. destruct Hr as (H1 & H2 & i & rest & Hi & H3).
      split_and!; [done | done |]. exists i, rest. split; [by apply list_elem_of_further | exact H3]. }
    destruct (_ && is_rw info) eqn:Ec; [| by apply Hnext]. apply andb_true_iff in Ec as [[Hroot Hdev]%andb_true_iff Hrw].
    destruct (link_dir _ mnt w) as [w1 ok] eqn:El. destruct (link_dir_spec _ _ _ _ _ El) as [Hk Hok]. destruct ok; [| by apply Hnext].
    intros [= <- <-]. split; [done |]. destruct (Hok eq_refl) as [H1 H2]. split_and!; [done | done |]. destruct (resolve_below (target info) w) as [rest Hrest].
    exists info, rest. apply bool_decide_eq_true in Hroot. apply Z.eqb_eq in Hdev. split_and!; try done. apply list_elem_of_here. }
  intros H. destruct (Hgen infos w H) as [Hk Hr]. split; [done |]. destruct r as [dir|]; [| done]. destruct Hr as (H1 & H2 & i & rest & Hi & H3 & H4 & H5 & H6).
  split_and!; [done | done |]. by exists i, dev, rest.
Qed.

(** The name that is returned is the one of Preinit, whatever can be created; only a root
    process with MAGISKTMP changes anything, and then nothing but the link is replaced. *)
Theorem find_preinit_device_spec get_prop infos is_root tmp makedev w w' name :
  find_preinit_device get_prop infos is_root tmp makedev w = (w', name) ->
  name = Preinit.find_preinit_device get_prop infos /\
  (is_root = false \/ default [] tmp = [] -> w' = w) /\ keeps (join_path (default [] tmp) PREINITMIRR) w w'.
Proof.
  unfold find_preinit_device, Preinit.find_preinit_device. destruct (omap _ infos) as [|c cs]; [by intros [= <- <-] |]. cbv zeta.
  set (info := (foldl select_min c cs).2). intros [= <- <-]. split; [done |]. destruct tmp as [tmp|]; [| done]. change (default [] (Some tmp)) with tmp.
  destruct (is_root && negb (is_empty tmp)) eqn:Ec.
  - split; [intros [->| ->]; [done | by rewrite andb_false_r in Ec] |]. set (dir := resolve_preinit_dir (target info) w). set (mirror := join_path tmp PREINITMIRR).
    assert (keeps mirror w (let '(w, ok) := mkdirs dir w in if negb ok then w else let '(w, ok) := mkdirs mirror w in
      if negb ok then w else (create mirror (Lnk dir) (remove mirror (unmount mirror w))).1)) as Hk.
    { destruct (mkdirs dir w) as [w1 ok1] eqn:E1. pose proof (mkdirs_keeps mirror _ _ _ _ E1) as K1. destruct ok1; [| done]. cbn [negb].
      destruct (mkdirs mirror w1) as [w2 ok2] eqn:E2. pose proof (mkdirs_keeps mirror _ _ _ _ E2) as K2. destruct ok2; cbn [negb]; [| by etransitivity].
      destruct (create mirror (Lnk dir) _) as [w3 ok3] eqn:E3. destruct (create_spec mirror _ _ _ _ _ E3) as (K3 & _). cbn [fst].
      etransitivity; [exact K1 |]. etransitivity; [exact K2 |]. etransitivity; [| exact K3].
      etransitivity; [| apply remove_keeps]. intros p n _ Hp. exact Hp. }
    destruct makedev; [| exact Hk]. etransitivity; [exact Hk |]. destruct (create _ _ _) as [w3 ok3] eqn:E3. exact (proj1 (create_spec mirror _ _ _ _ _ E3)).
  - split; done.
Qed.

Lemma detach_sub can ts ms m : m ∈ foldl (detach can) ms ts -> m ∈ ms.
Proof.
  revert ms. induction ts as [|t ts IH]; intros ms; cbn [foldl]; [done |]. intros H%IH. unfold detach in H. destruct (_ && _); [| done].
  by apply list_elem_of_filter in H as [_ H].
Qed.

(** A prefix of the targets is undone at its turn, or was undone with one above it. *)
Lemma detach_covers can ts ms t m :
  t ∈ ts -> (forall u, can u = true) -> t ∈ ms -> path_starts_with m t = true -> path_starts_with t t = true ->
  m ∈ foldl (detach can) ms ts -> exists u, u ∈ ts /\ path_starts_with t u = true /\ path_starts_with m u = false.
Proof.
  intros Ht Hcan. revert ms. induction ts as [|u ts IH]; intros ms Hms Hm Hself Hin; [by apply not_elem_of_nil in Ht |]. cbn [foldl] in Hin.
  apply elem_of_cons in Ht as [->|Ht].
  - apply detach_sub in Hin. unfold detach in Hin. rewrite bool_decide_eq_true_2, Hcan in Hin by done. cbn in Hin. apply list_elem_of_filter in Hin as [Hin _]. congruence.
  - unfold detach in Hin at 2. destruct (_ && _) eqn:E; [| destruct (IH Ht ms Hms Hm Hself Hin) as (v & Hv & H); exists v; split; [by apply list_elem_of_further | done]].
    destruct (path_starts_with t u) eqn:Etu.
    + exists u. split; [apply list_elem_of_here | split; [done |]]. apply detach_sub in Hin. by apply list_elem_of_filter in Hin as [Hin _].
    + destruct (IH Ht (filter (fun m => path_starts_with m u = false) ms)) as (v & Hv & H); [by apply list_elem_of_filter | done | done | done |].
      exists v. split; [by apply list_elem_of_further | done].
Qed.

Lemma prefix_comps_trans a b c : prefix_comps a b = true -> prefix_comps b c = true -> prefix_comps a c = true.
Proof.
  revert b c. induction a as [|x a IH]; intros [|y b] [|z c]; cbn; try done. intros [->%bool_decide_eq_true H1]%andb_true_iff [->%bool_decide_eq_true H2]%andb_true_iff.
  rewrite bool_decide_eq_true_2 by done. cbn. by apply (IH b).
Qed.

(** For a process nothing is undone unless its namespace was entered; once it is, and the
    kernel lets go, no mount of Magisk or of a module is left in it, and none appears. *)
Theorem revert_unmount_clean pid switched infos ms can :
  (0 < pid -> switched <> 0 -> revert_unmount can pid switched infos ms = ms) /\
  (forall m, m ∈ revert_unmount can pid switched infos ms -> m ∈ ms) /\
  (pid <= 0 \/ switched = 0 -> (forall t, can t = true) -> (forall info, info ∈ infos -> target info ∈ ms) ->
   forall info, info ∈ infos -> source info = #"magisk" \/ starts_with (root info) #"/adb/modules" = true ->
   target info ∉ revert_unmount can pid switched infos ms).
Proof.
  unfold revert_unmount. split_and!.
  - intros Hp Hs. rewrite (proj2 (Z.ltb_lt 0 pid)) by done. by destruct (Z.eqb_spec switched 0).
  - intros m. destruct (_ && _); [done | apply detach_sub].
  - intros Hg Hcan Hall info Hin Hm. assert ((0 <? pid) && negb (switched =? 0) = false) as -> by (destruct Hg as [H| ->]; [destruct (Z.ltb_spec 0 pid); [lia | done] | apply andb_false_r]).
    destruct (revert_unmount_covers infos) as [Honly Hcov]. destruct (Hcov info Hin Hm) as (r & Hr & Hpre). intros Hleft.
    destruct (Honly r Hr) as (info' & Hin' & Hr' & _).
    destruct (detach_covers can (Preinit.revert_unmount infos) ms r (target info) Hr Hcan) as (u & Hu & H1 & H2); [rewrite <- Hr'; by apply Hall | done | apply prefix_comps_refl | done |].
    unfold path_starts_with in *. rewrite (prefix_comps_trans _ _ _ H1 Hpre) in H2. done.
Qed.

End Calls.

Definition demo_info : MountInfo := mkMountInfo 1 0 5 #"/" #"/data" [] 0 0 0 false #"ext4" #"/dev/block/sda1" #"rw,seclabel".
Definition demo_world : World := mkWorld {[ #"/tmp/.magisk/device/preinit" := Blk 5; #"/data/adb" := Dir ]} [].

Lemma setup_preinit_dir_spec_witness :
  fs (setup_preinit_dir (fun _ _ => true) #"/tmp" [demo_info] demo_world).1 !! #"/tmp/.magisk/preinit" = Some (Lnk #"/data/adb").
Proof.
  pose proof (setup_preinit_dir_spec (fun _ _ => true) #"/tmp" [demo_info] demo_world _ (Some #"/data/adb") eq_refl) as H. cbv zeta in H. destruct H as (_ & H & _). exact H.
Defined.

End PreinitDir.
