(* ===== verification/SwitchRoot.v ===== *)
(** init/mount.rs: moving the mounts of the early root to the new one, and the queries of
    the mount table.

    The kernel's mounts are the list of the places where they are, in the order of
    mountinfo.  Moving a mount takes the ones below it along, and fails where nothing is
    mounted. *)

From S2P Require Import Prelude Text Numeric Files.

Module SwitchRoot.
Import Files.

Definition SLASH : bytes := #"/".

Fixpoint trim_start_matches (c : byte) (s : bytes) : bytes :=
  match s with x :: s' => if bool_decide (x = c) then trim_start_matches c s' else s | [] => [] end.

(** [join_path] of the new root and a mount point. *)
Definition new_path (path target : bytes) : bytes := path ++ SLASH ++ trim_start_matches "/"%char target.

(** * The kernel *)

(** [mount(MS_MOVE)] of the topmost mount at [from], with what is mounted below it. *)
Fixpoint replace_last (from to : bytes) (tbl : list bytes) : option (list bytes) :=
  match tbl with
  | [] => None
  | t :: tbl =>
      match replace_last from to tbl with
      | Some tbl' => Some (t :: tbl')
      | None => if bool_decide (t = from) then Some (to :: tbl) else None
      end
  end.

Definition below (from t : bytes) : bool := starts_with t (from ++ SLASH).
Definition rebase (from to t : bytes) : bytes := if below from t then to ++ drop (length from) t else t.

Definition move_mount_to (from to : bytes) (tbl : list bytes) : option (list bytes) :=
  replace_last from to (map (rebase from to) tbl).

(** * switch_root *)

(** [mounts.range(..target).last()]: the greatest element that is less. *)
Definition greater (target : bytes) (acc : option bytes) (m : bytes) : option bytes :=
  if bool_decide (blt m target) then match acc with Some x => if bool_decide (blt x m) then Some m else acc | None => Some m end else acc.
Definition last_below (target : bytes) (mounts : list bytes) : option bytes := fold_left (greater target) mounts None.

(** The loop: the targets still to look at, the set of the moved mounts, and the kernel's. *)
Fixpoint move_mounts (path : bytes) (infos : list bytes) (mounts tbl : list bytes) : option (list bytes * list bytes) :=
  match infos with
  | [] => Some (mounts, tbl)
  | target :: infos =>
      if bool_decide (target = SLASH) || bool_decide (target = path) then move_mounts path infos mounts tbl else
      match last_below target mounts with
      | Some last_mount =>
          if starts_with target (last_mount ++ SLASH) then move_mounts path infos mounts tbl else
          tbl ← move_mount_to target (new_path path target) tbl; move_mounts path infos (mounts ++ [target]) tbl
      | None => tbl ← move_mount_to target (new_path path target) tbl; move_mounts path infos (mounts ++ [target]) tbl
      end
  end.

(** The mounts as seen from the new root: it is moved to "/", and what is below it is seen
    below the root.  [None] is an error of a move, which is not reported; the other calls
    are taken to succeed. *)
Definition seen_from (path t : bytes) : option bytes :=
  if bool_decide (t = path) then Some SLASH else if below path t then Some (drop (length path) t) else None.

Definition switch_root (path : bytes) (tbl : list bytes) : option (list bytes) :=
  match move_mounts path tbl [] tbl with
  | Some (_, tbl) => Some (omap (seen_from path) tbl)
  | None => None
  end.

(** [is_device_mounted]. *)
Definition is_device_mounted (infos : list MountInfo) (dev : Z) : option bytes :=
  target <$> List.find (fun m => bool_decide (root m = SLASH) && (device m =? dev)) infos.

(** [is_rootfs], from the type of the file system at the root. *)
Definition RAMFS_MAGIC : Z := 0x858458f6.
Definition TMPFS_MAGIC : Z := 0x01021994.
Definition is_rootfs (statfs : option Z) : bool :=
  match statfs with Some t => (t =? RAMFS_MAGIC) || (t =? TMPFS_MAGIC) | None => false end.

(** * The predecessor of a path in a set of mounts *)

Lemma greater_cases target acc y :
  (blt y target /\ greater target acc y = Some y /\ forall x, acc = Some x -> blt x y) \/
  (greater target acc y = acc /\ (~ blt y target \/ exists x, acc = Some x /\ ble y x)).
Proof.
  unfold greater. case_bool_decide as Hy; [| by right; auto]. destruct acc as [x|]; [| by left].
  case_bool_decide as Hx; [left; split_and!; [done | done | by intros ? [= <-]] |]. right. split; [done |]. right. exists x. split; [done |].
  destruct (total ble y x) as [?|Hle]; [done |]. apply ble_lt_eq in Hle as [?| ->]; [done | by apply ble_lt_eq; right].
Qed.

Lemma last_below_spec target mounts :
  match last_below target mounts with
  | Some m => m ∈ mounts /\ blt m target /\ forall y, y ∈ mounts -> blt y target -> ble y m
  | None => forall y, y ∈ mounts -> ~ blt y target
  end.
Proof.
  unfold last_below. assert (forall acc l,
    match acc with Some x => blt x target | None => True end ->
    match fold_left (greater target) l acc with
    | Some m => (m ∈ l \/ acc = Some m) /\ blt m target /\ (forall y, y ∈ l -> blt y target -> ble y m) /\ (forall x, acc = Some x -> ble x m)
    | None => acc = None /\ forall y, y ∈ l -> ~ blt y target
    end) as H.
  { intros acc l. revert acc. induction l as [|y l IH]; intros acc Hacc; cbn [fold_left].
    - destruct acc as [x|]; [| split; [done | by intros y ?%not_elem_of_nil]]. split_and!; [by right | done | by intros y ?%not_elem_of_nil | intros ? [= ->]; by apply ble_lt_eq; right].
    - destruct (greater_cases target acc y) as [(Hy & -> & Hx)|[-> Hy]].
      + specialize (IH (Some y) Hy). destruct (fold_left _ l (Some y)) as [m|]; [| by destruct IH]. destruct IH as (Hin & Hlt & Hall & Hge).
        specialize (Hge y eq_refl). split_and!; [rewrite elem_of_cons; naive_solver | done | intros z [-> | Hz]%elem_of_cons Hz'; auto |].
        intros x Hacc'. etrans; [| exact Hge]. apply ble_lt_eq. left. auto.
      + specialize (IH acc Hacc). destruct (fold_left _ l acc) as [m|].
        * destruct IH as (Hin & Hlt & Hall & Hge). split_and!; [rewrite elem_of_cons; tauto | done | | done].
          intros z [-> | Hz]%elem_of_cons Hz'; [| auto]. destruct Hy as [? | (x & Hx & Hyx)]; [done |]. etrans; [exact Hyx | auto].
        * destruct IH as [-> Hall]. split; [done |]. intros z [-> | Hz]%elem_of_cons; [| auto]. by destruct Hy as [? | (? & ? & _)]. }
  specialize (H None mounts I). destruct (fold_left _ mounts None) as [m|]; [| by apply H]. destruct H as ([?|?] & ? & ? & _); [| done]. done.
Qed.

(** Between a path and one below it, in the order of strings, are only strings that extend
    the path with a character not greater than the slash. *)
Lemma between a y r : ble a y -> blt y (a ++ SLASH ++ r) -> y = a \/ exists c s, y = a ++ c :: s /\ bval c <= bval "/"%char.
Proof.
  revert y. induction a as [|x a IH]; intros y Hay Hy; cbn [app] in *.
  - destruct y as [|c s]; [by left |]. right. exists c, s. split; [done |]. unfold blt in Hy. change (SLASH ++ r) with ("/"%char :: r) in Hy. cbn [bcmp] in Hy.
    destruct (Z.compare_spec (bval c) (bval "/"%char)); [lia | lia | done].
  - destruct y as [|c s]; [by unfold ble in Hay |]. unfold ble, blt in *. cbn [bcmp] in *.
    destruct (Z.compare_spec (bval x) (bval c)) as [E|E|E]; [| | done].
    + apply bval_inj in E as ->. rewrite Z.compare_refl in Hy. destruct (IH s Hay Hy) as [->|(c' & s' & -> & Hc)]; [by left |]. right. by exists c', s'.
    + rewrite (proj2 (Z.compare_gt_iff _ _)) in Hy by done. done.
Qed.

(** * Tables *)

Definition absolute (t : bytes) : Prop := exists c s, t = "/"%char :: c :: s /\ c <> "/"%char.

(** What the kernel and the callers guarantee: mount points are absolute paths, a mount
    comes after the one it is mounted on, the new root is a mount point of its own with
    nothing on it yet.  And what they do not guarantee, that no mount point extends
    another one with a character that sorts before the slash. *)
Record table_ok (path : bytes) (tbl : list bytes) : Prop := {
  ok_unique : NoDup tbl;
  ok_absolute t : t ∈ tbl -> t = SLASH \/ absolute t;
  ok_path : absolute path;
  ok_inside t : t ∈ tbl -> below path t = false;
  ok_outside t : t ∈ tbl -> below t path = false;
  ok_order l1 t l2 a : tbl = l1 ++ t :: l2 -> a ∈ l2 -> below a t = false;
  ok_between a c s : a ∈ tbl -> a ++ c :: s ∈ tbl -> a <> SLASH -> bval "/"%char <= bval c }.

Lemma below_spec a t : below a t = true <-> exists r, t = a ++ SLASH ++ r.
Proof. unfold below. rewrite starts_with_spec. by setoid_rewrite <- app_assoc. Qed.

Lemma below_irrefl t : below t t = false.
Proof.
  destruct (below t t) eqn:E; [| done]. apply below_spec in E as [r Hr]. apply (f_equal length) in Hr. rewrite !length_app in Hr. change (length SLASH) with 1%nat in Hr. lia.
Qed.

Lemma absolute_not_slash t : absolute t -> t <> SLASH.
Proof. by intros (c & s & -> & _). Qed.

Lemma new_path_absolute path t : absolute t -> new_path path t = path ++ t.
Proof.
  intros (c & s & -> & Hc). unfold new_path. cbn [trim_start_matches]. rewrite bool_decide_eq_true_2 by done. by rewrite bool_decide_eq_false_2.
Qed.

Section Table.
Context (path : bytes) (tbl : list bytes) (Hok : table_ok path tbl).

(** A mount has been moved if it or one above it has. *)
Definition covered (moved : list bytes) (t : bytes) : bool := existsb (fun m => bool_decide (m = t) || below m t) moved.
Definition place (moved : list bytes) (t : bytes) : bytes := if covered moved t then path ++ t else t.

Lemma covered_spec moved t : covered moved t = true <-> exists m, m ∈ moved /\ (m = t \/ below m t = true).
Proof.
  unfold covered. rewrite existsb_exists. setoid_rewrite orb_true_iff. setoid_rewrite bool_decide_eq_true. by setoid_rewrite <- list_elem_of_In.
Qed.

(** The mounts above the current one are found. *)
Lemma last_below_ancestor moved a t :
  (forall m, m ∈ moved -> m ∈ tbl /\ m <> SLASH) -> (forall m n, m ∈ moved -> n ∈ moved -> below m n = false) -> a ∈ moved -> below a t = true ->
  last_below t moved = Some a.
Proof.
  intros Hsub Hanti Ha Hat. pose proof (last_below_spec t moved) as H. apply below_spec in Hat as [r ->].
  assert (blt a (a ++ SLASH ++ r)) as Hlt.
  { clear. unfold blt. induction a as [|x a IH]; [done |]. cbn [app bcmp]. by rewrite Z.compare_refl. }
  destruct (last_below (a ++ SLASH ++ r) moved) as [m|]; [| by destruct (H a Ha)]. destruct H as (Hm & Hmlt & Hmax). f_equal.
  destruct (between a m r (Hmax a Ha Hlt) Hmlt) as [-> | (c & s & -> & Hc)]; [done |]. exfalso. destruct (Hsub a Ha) as [Hat Hne], (Hsub _ Hm) as [Hmt _].
  pose proof (ok_between _ _ Hok a c s Hat Hmt Hne) as Hc'. assert (c = "/"%char) as -> by (apply bval_inj; lia).
  specialize (Hanti a _ Ha Hm). assert (below a (a ++ "/"%char :: s) = true) as Hb by (apply below_spec; by exists s). congruence.
Qed.

Lemma replace_last_unique from to l1 l2 : from ∉ l2 -> replace_last from to (l1 ++ from :: l2) = Some (l1 ++ to :: l2).
Proof.
  intros Hn. induction l1 as [|x l1 IH]; cbn [app replace_last].
  - assert (replace_last from to l2 = None) as ->; [| by rewrite bool_decide_eq_true_2].
    induction l2 as [|y l2 IH]; [done |]. cbn [replace_last]. rewrite IH by set_solver. by rewrite bool_decide_eq_false_2 by set_solver.
  - by rewrite IH.
Qed.

(** A mount point that is not the new root or below it, and has nothing to do with it. *)
Lemma moved_not_below t u : t ∈ tbl -> absolute u -> t <> path -> below t (path ++ u) = false.
Proof.
  intros Ht Hu Hne. destruct (below t (path ++ u)) eqn:E; [| done]. exfalso. apply below_spec in E as [r Hr].
  destruct Hu as (c & s & -> & Hc). symmetry in Hr. apply app_eq_app in Hr as [l [[-> Hl]|[-> Hl]]].
  - (* t extends the new root *) destruct l as [|x l]; [by rewrite app_nil_r in Hne |]. cbn [app] in Hl. injection Hl as <- _.
    pose proof (ok_inside _ _ Hok _ Ht) as Hi. assert (below path (path ++ "/"%char :: l) = true) as Hb by (apply below_spec; by exists l). congruence.
  - (* the new root extends t *) pose proof (ok_outside _ _ Hok _ Ht) as Hi. destruct l as [|x l]; [by rewrite app_nil_r in Hne |].
    cbn [app] in Hl. injection Hl as <- _. assert (below t (t ++ "/"%char :: l) = true) as Hb by (apply below_spec; by exists l). congruence.
Qed.

Definition skipped (t : bytes) : bool := bool_decide (t = SLASH) || bool_decide (t = path).

Record inv (seen moved : list bytes) : Prop := {
  inv_sub m : m ∈ moved -> m ∈ seen /\ m ∈ tbl /\ skipped m = false;
  inv_all t : t ∈ seen -> skipped t = false -> covered moved t = true;
  inv_anti m n : m ∈ moved -> n ∈ moved -> below m n = false }.

Lemma not_skipped_absolute t : t ∈ tbl -> skipped t = false -> absolute t /\ t <> path.
Proof.
  intros Ht Hs. unfold skipped in Hs. apply orb_false_iff in Hs as [H1%bool_decide_eq_false H2%bool_decide_eq_false].
  destruct (ok_absolute _ _ Hok t Ht); [done | by split].
Qed.

Lemma below_trans a b c : below a b = true -> below b c = true -> below a c = true.
Proof. rewrite !below_spec. intros [r ->] [r' ->]. exists (r ++ SLASH ++ r'). by rewrite <- !app_assoc. Qed.

(** Two mounts above the same one are above each other. *)
Lemma below_linear a b c : below a c = true -> below b c = true -> a = b \/ below a b = true \/ below b a = true.
Proof.
  rewrite !below_spec. intros [r ->] [r' Hr]. apply app_eq_app in Hr as [l [[-> Hl]|[-> Hl]]].
  - destruct l as [|x l]; [left; by rewrite app_nil_r |]. right; right. exists l. cbn [app] in Hl. by injection Hl as <- _.
  - destruct l as [|x l]; [left; by rewrite app_nil_r |]. right; left. exists l. cbn [app] in Hl. by injection Hl as <- _.
Qed.

Lemma covered_app moved t u : covered (moved ++ [t]) u = covered moved u || (bool_decide (t = u) || below t u).
Proof. unfold covered. rewrite existsb_app. cbn [existsb]. by rewrite orb_false_r. Qed.

(** Moving a mount that has not been moved moves it and what is below it. *)
Lemma move_mount_place seen rest moved t :
  tbl = seen ++ t :: rest -> inv seen moved -> skipped t = false -> covered moved t = false ->
  move_mount_to t (new_path path t) (map (place moved) tbl) = Some (map (place (moved ++ [t])) tbl).
Proof.
  intros Htbl Hinv Hs Hc. assert (t ∈ tbl) as Ht by (rewrite Htbl; set_solver). destruct (not_skipped_absolute t Ht Hs) as [Habs Hne].
  rewrite new_path_absolute by done. unfold move_mount_to.
  assert (forall u, u ∈ tbl -> u <> t -> rebase t (path ++ t) (place moved u) = place (moved ++ [t]) u /\ place (moved ++ [t]) u <> t) as Hother.
  { intros u Hu Hut. unfold place. rewrite covered_app. rewrite (bool_decide_eq_false_2 (t = u)) by congruence. cbn [orb].
    destruct (covered moved u) eqn:Ecu; cbn [orb].
    - assert (absolute u) as Hau.
      { destruct (ok_absolute _ _ Hok u Hu) as [-> | ?]; [| done]. exfalso. apply covered_spec in Ecu as (m & Hm & [-> | Hb]).
        - apply (inv_sub _ _ Hinv) in Hm as (_ & _ & Hm). done.
        - apply below_spec in Hb as [r Hr]. apply (inv_sub _ _ Hinv) in Hm as (_ & Hm & Hm'). destruct (not_skipped_absolute m Hm Hm') as [(c & s & -> & _) _]. done. }
      unfold rebase. rewrite moved_not_below by done. split; [done |]. intros <-. destruct Hau as (c & s & -> & _).
      pose proof (ok_inside _ _ Hok _ Ht) as Hi. assert (below path (path ++ "/"%char :: c :: s) = true) by (apply below_spec; by exists (c :: s)). congruence.
    - unfold rebase. destruct (below t u) eqn:Eb; [| done]. apply below_spec in Eb as [r ->]. rewrite drop_app_length, <- app_assoc. split; [done |].
      intros Heq. pose proof (ok_inside _ _ Hok _ Ht) as Hi. destruct Habs as (c & s & Htc & _). rewrite <- Heq in Hi at 1.
      assert (below path (path ++ t ++ SLASH ++ r) = true) by (apply below_spec; exists (c :: s ++ SLASH ++ r); by rewrite Htc). congruence. }
  assert (rebase t (path ++ t) (place moved t) = t) as Hself by (unfold place, rebase; by rewrite Hc, below_irrefl).
  assert (place (moved ++ [t]) t = path ++ t) as Hself' by (unfold place; rewrite covered_app, bool_decide_eq_true_2 by done; by rewrite orb_true_r).
  pose proof (ok_unique _ _ Hok) as Hnd. rewrite Htbl in Hnd. apply NoDup_app in Hnd as (_ & Hn1 & Hn2). apply NoDup_cons in Hn2 as [Hn2 _].
  assert (forall l, (forall u, u ∈ l -> u ∈ tbl /\ u <> t) -> map (rebase t (path ++ t)) (map (place moved) l) = map (place (moved ++ [t])) l /\ t ∉ map (place (moved ++ [t])) l) as Hmap.
  { induction l as [|u l IH]; intros Hl; [split; [done | set_solver] |]. destruct IH as [IH1 IH2]; [set_solver |]. destruct (Hl u) as [Hu1 Hu2]; [set_solver |].
    destruct (Hother u Hu1 Hu2) as [H1 H2]. cbn [map]. rewrite H1, IH1. split; [done | set_solver]. }
  rewrite Htbl, !map_app. cbn [map]. rewrite Hself, Hself'.
  rewrite (proj1 (Hmap seen ltac:(intros u Hu; split; [rewrite Htbl; set_solver | set_solver]))).
  destruct (Hmap rest) as [-> Hr]; [intros u Hu; split; [rewrite Htbl; set_solver | set_solver] |]. by apply replace_last_unique.
Qed.

Lemma inv_step seen rest moved t :
  tbl = seen ++ t :: rest -> inv seen moved -> skipped t = false -> (forall a, a ∈ moved -> below a t = false) -> inv (seen ++ [t]) (moved ++ [t]).
Proof.
  intros Htbl Hinv Hs Ha. assert (t ∈ tbl) as Ht by (rewrite Htbl; set_solver). split.
  - intros m [Hm | ->%list_elem_of_singleton]%elem_of_app; [| set_solver]. destruct (inv_sub _ _ Hinv m Hm) as (? & ? & ?). set_solver.
  - intros u [Hu | ->%list_elem_of_singleton]%elem_of_app Hu'; rewrite covered_app; [by rewrite (inv_all _ _ Hinv u) | rewrite bool_decide_eq_true_2 by done; apply orb_true_r].
  - intros m n [Hm | ->%list_elem_of_singleton]%elem_of_app [Hn | ->%list_elem_of_singleton]%elem_of_app; [by apply (inv_anti _ _ Hinv) | auto | | apply below_irrefl].
    destruct (inv_sub _ _ Hinv n Hn) as (Hns & _). apply list_elem_of_split in Hns as (l1 & l2 & ->).
    apply (ok_order _ _ Hok l1 n (l2 ++ t :: rest) t); [by rewrite Htbl, <- app_assoc | set_solver].
Qed.

Lemma inv_skip seen moved t : inv seen moved -> (skipped t = false -> covered moved t = true) -> inv (seen ++ [t]) moved.
Proof.
  intros Hinv Hc. split; [| | apply Hinv].
  - intros m Hm. destruct (inv_sub _ _ Hinv m Hm) as (? & ? & ?). set_solver.
  - intros u [Hu | ->%list_elem_of_singleton]%elem_of_app; [by apply Hinv | auto].
Qed.

Lemma move_mounts_place seen todo moved :
  tbl = seen ++ todo -> inv seen moved ->
  exists moved', move_mounts path todo moved (map (place moved) tbl) = Some (moved', map (place moved') tbl) /\ inv tbl moved'.
Proof.
  revert seen moved. induction todo as [|t todo IH]; intros seen moved Htbl Hinv; cbn [move_mounts].
  { exists moved. rewrite app_nil_r in Htbl. by subst seen. }
  assert (tbl = (seen ++ [t]) ++ todo) as Htbl' by by rewrite <- app_assoc.
  fold (skipped t). destruct (skipped t) eqn:Es; [apply (IH _ _ Htbl'), inv_skip; [done | congruence] |].
  destruct (existsb (fun a => below a t) moved) eqn:Ea.
  - apply existsb_exists in Ea as (a & Ha & Hat). rewrite <- list_elem_of_In in Ha.
    rewrite (last_below_ancestor moved a t); [| | apply Hinv | done | done].
    + change (starts_with t (a ++ SLASH)) with (below a t). rewrite Hat. apply (IH _ _ Htbl'), inv_skip; [done |]. intros _. apply covered_spec. eauto.
    + intros m Hm. destruct (inv_sub _ _ Hinv m Hm) as (_ & H1 & H2). split; [done |]. destruct (not_skipped_absolute m H1 H2) as [H _]. by apply absolute_not_slash.
  - assert (forall a, a ∈ moved -> below a t = false) as Hna.
    { intros a Ha. destruct (below a t) eqn:E; [| done]. assert (existsb (fun a => below a t) moved = true); [| congruence].
      apply existsb_exists. exists a. by rewrite <- list_elem_of_In. }
    assert (covered moved t = false) as Hc.
    { destruct (covered moved t) eqn:E; [| done]. apply covered_spec in E as (m & Hm & [-> | Hb]); [| rewrite Hna in Hb by done; done].
      destruct (inv_sub _ _ Hinv t Hm) as (Hseen & _). pose proof (ok_unique _ _ Hok) as Hnd. rewrite Htbl in Hnd. apply NoDup_app in Hnd as (_ & Hnd & _). by destruct (Hnd t Hseen); set_solver. }
    assert (match last_below t moved with Some m => starts_with t (m ++ SLASH) = false | None => True end) as Hlast.
    { pose proof (last_below_spec t moved) as H. destruct (last_below t moved) as [m|]; [| done]. destruct H as (Hm & _). by apply (Hna m). }
    pose proof (IH _ _ Htbl' (inv_step seen todo moved t Htbl Hinv Es Hna)) as Hrec.
    destruct (last_below t moved) as [m|]; [rewrite Hlast |]; rewrite (move_mount_place seen todo moved t Htbl Hinv Es Hc); exact Hrec.
Qed.
End Table.

(** What is seen from the new root of a mount of the old one. *)
Definition kept (path t : bytes) : option bytes :=
  if bool_decide (t = SLASH) then None else if bool_decide (t = path) then Some SLASH else Some t.

(** C22: switching the root moves every mount: from the new root, the new root itself is at
    "/" and every other mount is where it was before, each mount with those below it; no
    move fails.  This needs that no mount point extends another with a character that
    sorts before the slash. *)
Theorem switch_root_keeps_mounts path tbl :
  table_ok path tbl -> switch_root path tbl = Some (omap (kept path) tbl).
Proof.
  intros Hok. unfold switch_root.
  destruct (move_mounts_place path tbl Hok [] tbl []) as (moved & Hm & Hinv); [done | split; [by intros ? ?%not_elem_of_nil | by intros ? ?%not_elem_of_nil | by intros ? ? ?%not_elem_of_nil] |].
  assert (map (place path []) tbl = tbl) as Hmap by (clear; induction tbl; [done | by cbn [map]; f_equal]).
  rewrite Hmap in Hm. rewrite Hm. f_equal. clear Hm Hmap.
  assert (forall l, (forall t, t ∈ l -> t ∈ tbl) -> omap (seen_from path) (map (place path moved) l) = omap (kept path) l) as H; [| by apply H].
  induction l as [|t l IH]; intros Hl; [done |]. cbn [map omap list_omap]. rewrite IH by set_solver. f_equal.
  assert (t ∈ tbl) as Ht by (apply Hl; set_solver). assert (seen_from path (place path moved t) = kept path t) as ->; [| done].
  unfold kept, place. destruct (skipped path t) eqn:Es.
  - assert (covered moved t = false) as ->.
    { destruct (covered moved t) eqn:Ec; [| done]. apply covered_spec in Ec as (m & Hm & Hb). destruct (inv_sub _ _ _ _ Hinv m Hm) as (_ & Hmt & Hms).
      unfold skipped in Es. apply orb_true_iff in Es as [->%bool_decide_eq_true | ->%bool_decide_eq_true].
      - destruct (not_skipped_absolute path tbl Hok m Hmt Hms) as [(c & s & -> & _) _]. by destruct Hb as [?|?].
      - destruct Hb as [-> | Hb]; [unfold skipped in Hms; by rewrite (bool_decide_eq_true_2 (path = path) eq_refl), orb_true_r in Hms |]. by rewrite (ok_outside _ _ Hok m Hmt) in Hb. }
    unfold seen_from, skipped in *. apply orb_true_iff in Es as [->%bool_decide_eq_true | ->%bool_decide_eq_true].
    + rewrite bool_decide_eq_false_2 by (intros H; by apply (absolute_not_slash path); [apply Hok |]). rewrite (ok_inside _ _ Hok) by done. by rewrite bool_decide_eq_true_2.
    + rewrite (bool_decide_eq_true_2 (path = path)) by done. rewrite bool_decide_eq_false_2; [done |]. apply absolute_not_slash, Hok.
  - rewrite (inv_all _ _ _ _ Hinv t Ht Es). destruct (not_skipped_absolute path tbl Hok t Ht Es) as [Habs Hne]. unfold seen_from.
    rewrite bool_decide_eq_false_2 by (intros H; rewrite <- (app_nil_r path) in H at 2; apply app_inv_head in H; by destruct Habs as (? & ? & -> & _)).
    assert (below path (path ++ t) = true) as -> by (apply below_spec; destruct Habs as (c & s & -> & _); by exists (c :: s)).
    rewrite drop_app_length. rewrite !bool_decide_eq_false_2; [done | done |]. by apply absolute_not_slash.
Qed.

(** A table is checked by computation. *)
Definition absoluteb (t : bytes) : bool := match t with a :: c :: _ => bool_decide (a = "/"%char) && negb (bool_decide (c = "/"%char)) | _ => false end.

Lemma absoluteb_spec t : absoluteb t = true -> absolute t.
Proof.
  destruct t as [|a [|c s]]; try done. cbn. rewrite andb_true_iff, negb_true_iff, bool_decide_eq_true, bool_decide_eq_false. intros [-> ?]. by exists c, s.
Qed.

Fixpoint ordered (tbl : list bytes) : bool :=
  match tbl with [] => true | t :: tbl => forallb (fun a => negb (below a t)) tbl && ordered tbl end.

Lemma ordered_spec tbl l1 t l2 a : ordered tbl = true -> tbl = l1 ++ t :: l2 -> a ∈ l2 -> below a t = false.
Proof.
  intros Ho ->. induction l1 as [|x l1 IH]; cbn [app ordered] in Ho; apply andb_true_iff in Ho as [H1 H2]; [| by apply IH].
  intros Ha. rewrite forallb_forall in H1. apply negb_true_iff, H1. by rewrite <- list_elem_of_In.
Qed.

Definition apart (a y : bytes) : bool :=
  bool_decide (a = SLASH) || negb (starts_with y a) || match drop (length a) y with c :: _ => bval "/"%char <=? bval c | [] => true end.

Definition table_okb (path : bytes) (tbl : list bytes) : bool :=
  bool_decide (NoDup tbl) && forallb (fun t => bool_decide (t = SLASH) || absoluteb t) tbl && absoluteb path &&
  forallb (fun t => negb (below path t) && negb (below t path)) tbl && ordered tbl && forallb (fun a => forallb (apart a) tbl) tbl.

Lemma table_okb_spec path tbl : table_okb path tbl = true -> table_ok path tbl.
Proof.
  unfold table_okb. rewrite !andb_true_iff, bool_decide_eq_true, !forallb_forall. setoid_rewrite <- list_elem_of_In.
  intros [[[[[H1 H2] H3] H4] H5] H6]. split; [done | | by apply absoluteb_spec | | | by intros; eapply ordered_spec |].
  - intros t Ht. apply H2, orb_true_iff in Ht as [?%bool_decide_eq_true | ?%absoluteb_spec]; auto.
  - intros t Ht. apply H4, andb_true_iff in Ht as [? _]. by apply negb_true_iff.
  - intros t Ht. apply H4, andb_true_iff in Ht as [_ ?]. by apply negb_true_iff.
  - intros a c s Ha Hy Hne. specialize (H6 a Ha). rewrite forallb_forall in H6. specialize (H6 _ (proj1 (list_elem_of_In _ _) Hy)). unfold apart in H6.
    rewrite bool_decide_eq_false_2, drop_app_length, starts_with_app in H6 by done. cbn in H6. by apply Z.leb_le in H6.
Qed.

Definition demo_table : list bytes := [ #"/"; #"/dev"; #"/proc"; #"/dev/pts"; #"/system_root"; #"/sys"; #"/sys/fs/selinux"; #"/metadata"].

Lemma switch_root_keeps_mounts_witness :
  switch_root #"/system_root" demo_table = Some [ #"/dev"; #"/proc"; #"/dev/pts"; #"/"; #"/sys"; #"/sys/fs/selinux"; #"/metadata"].
Proof. rewrite switch_root_keeps_mounts; [vm_compute; reflexivity | apply table_okb_spec; vm_compute; reflexivity]. Defined.

(** With /mnt and /mnt-a mounted, the mount below /mnt is not recognised as moved with it,
    moving it fails, and the switch stops half way, with the new root not in place. *)
Lemma switch_root_fails : switch_root #"/system_root" [ #"/"; #"/system_root"; #"/mnt"; #"/mnt-a"; #"/mnt/vendor"; #"/proc"] = None.
Proof. vm_compute. reflexivity. Qed.
End SwitchRoot.
