(* ===== verification/Init.v ===== *)
(** init/init.rs, init/twostage.rs, init/getinfo.rs, init/rootdir.rs and the rest of
    init/mount.rs: the first process.  magiskinit takes the place of /init in the ramdisk,
    prepares the root it finds, and runs the original init.

    The file system is a map from paths to nodes, with the mounts that were bound over
    paths on top; system calls succeed when their paths allow it.  The parts in C++
    (mount_system_root, patch_ro_root, patch_rw_root and the detection of the boot
    configuration) are arguments, as is xz. *)

From S2P Require Import Prelude Text Numeric Files Patch Dir.

Module Init.
Import Files Patch.

(** * Files *)

Inductive Node := Reg (data : bytes) | Lnk (target : bytes) | DirN.

(** [binds]: what is mounted over a path, the topmost first. *)
Record World := mkWorld { fs : gmap bytes Node; binds : list (bytes * Node) }.

Definition bound (w : World) (p : bytes) : option Node := snd <$> List.find (fun b => bool_decide (b.1 = p)) (binds w).
Definition look (w : World) (p : bytes) : option Node := match bound w p with Some n => Some n | None => fs w !! p end.
Definition exists_ (w : World) (p : bytes) : bool := match look w p with Some _ => true | None => false end.
Definition is_bound (w : World) (p : bytes) : bool := match bound w p with Some _ => true | None => false end.

Definition set_fs (f : gmap bytes Node) (w : World) : World := mkWorld f (binds w).

(** A mount point cannot be removed or renamed.  The paths that are removed here are those
    of files. *)
Definition remove (p : bytes) (w : World) : World := if is_bound w p then w else set_fs (delete p (fs w)) w.
Definition rename_to (p q : bytes) (w : World) : World :=
  match fs w !! p with
  | Some n => if is_bound w p || is_bound w q then w else set_fs (<[q := n]> (delete p (fs w))) w
  | None => w
  end.
Definition create_symlink_to (p target : bytes) (w : World) : World := if exists_ w p then w else set_fs (<[p := Lnk target]> (fs w)) w.
Definition mkdir (p : bytes) (w : World) : World := if exists_ w p then w else set_fs (<[p := DirN]> (fs w)) w.

(** The directories above and including a path. *)
Fixpoint prefixes (base : bytes) (cs : list bytes) : list bytes :=
  match cs with [] => [] | c :: cs => (base ++ #"/" ++ c) :: prefixes (base ++ #"/" ++ c) cs end.
Definition mkdirs (p : bytes) (w : World) : World := fold_left (fun w d => mkdir d w) (prefixes [] (comps p)) w.

(** [create(O_CREAT)] of an empty file. *)
Definition create (p : bytes) (w : World) : World := if exists_ w p then w else set_fs (<[p := Reg []]> (fs w)) w.

Definition bind_mount_to (src dest : bytes) (w : World) : option World :=
  match look w src, look w dest with
  | Some n, Some _ => Some (mkWorld (fs w) ((dest, n) :: binds w))
  | _, _ => None
  end.

Fixpoint remove_first (p : bytes) (l : list (bytes * Node)) : list (bytes * Node) :=
  match l with [] => [] | b :: l => if bool_decide (b.1 = p) then l else b :: remove_first p l end.
Definition unmount (p : bytes) (w : World) : World := mkWorld (fs w) (remove_first p (binds w)).

Definition under (dir p : bytes) : bool := starts_with p (dir ++ #"/").
Definition in_tree (dir p : bytes) : bool := bool_decide (p = dir) || under dir p.

(** A file system mounted on a directory hides what is in it. *)
Definition mount_tmpfs (p : bytes) (w : World) : World := set_fs (filter (fun e => under p e.1 = false) (fs w)) w.

(** [copy_to] of a file or of a directory with what is in it. *)
Definition copy_to (src dest : bytes) (w : World) : World :=
  let moved := omap (fun e => if in_tree src e.1 then Some (dest ++ drop (length src) e.1, e.2) else None) (map_to_list (fs w)) in
  set_fs (list_to_map moved ∪ fs w) w.

(** * MagiskInit *)

Record BootConfig := mkConfig {
  skip_initramfs : bool; force_normal_boot : bool; rootwait : bool; emulator : bool;
  slot : bytes; dt_dir : bytes; fstab_suffix : bytes; hardware : bytes; hardware_plat : bytes;
  partition_map : list (bytes * bytes) }.

(** The configuration [MagiskInit::new] starts with, before [BootConfig::init] reads the
    command line of the kernel. *)
Definition BootConfig_new : BootConfig := mkConfig false false false false [] [] [] [] [] [].

Definition BACKUP_INIT : bytes := #"/.backup/init".

Definition BACKUP_XZ : bytes := #"/.backup/init.xz".

Section Init.
Context (config : BootConfig) (unxz : bytes -> bytes) (bind_from_rootfs : bool).
Context (mount_system_root : World -> World * bool) (patch_ro_root patch_rw_root : World -> World) (is_rootfs : bool).

(** [backup_init] of init/rootdir.cpp: the backup is decompressed when it is first asked
    for; its path is [BACKUP_INIT]. *)
Definition backup_init (w : World) : World :=
  match fs w !! BACKUP_XZ with
  | Some (Reg x) => set_fs (<[BACKUP_INIT := Reg (unxz x)]> (delete BACKUP_XZ (fs w))) w
  | _ => w
  end.

Definition prepare_data (w : World) : World :=
  let w := mount_tmpfs #"/data" (mkdir #"/data" w) in
  let w := copy_to #"/init" #"/data/magiskinit" w in
  let w := copy_to #"/.backup" #"/data/.backup" w in
  copy_to #"/overlay.d" #"/data/overlay.d" w.

Definition restore_ramdisk_init (w : World) : World :=
  let w := backup_init (remove #"/init" w) in
  if exists_ w BACKUP_INIT then rename_to BACKUP_INIT #"/init" w else create_symlink_to #"/init" #"/system/bin/init" w.

(** The file that is opened at a path. *)
Definition follow (w : World) (p : bytes) : option (bytes * bytes) :=
  match look w p with
  | Some (Reg d) => Some (p, d)
  | Some (Lnk t) => match look w t with Some (Reg d) => Some (t, d) | _ => None end
  | _ => None
  end.

Definition put_data (p d : bytes) (w : World) : World :=
  if is_bound w p then mkWorld (fs w) (map (fun b => if bool_decide (b.1 = p) then (p, Reg d) else b) (binds w)) else set_fs (<[p := Reg d]> (fs w)) w.

(** [init.patch(from, to)]; the two have the same length. *)
Definition patched (d : bytes) : bytes :=
  match mut_u8_patch d #"/system/bin/init" #"/data/magiskinit" with Some (d', _) => d' | None => d end.

Definition hexpatch_init_for_second_stage (writable : bool) (w : World) : World :=
  match follow w #"/init" with
  | None => w
  | Some (p, d) =>
      if writable then put_data p (patched d) w
      else
        let w := set_fs (<[ #"/data/init" := Reg (patched d)]> (fs w)) w in
        default w (bind_mount_to #"/data/init" #"/init" w)
  end.

Definition hijack_init_with_switch_root (w : World) : World :=
  let w :=
    if force_normal_boot config then
      let w := mkdirs #"/first_stage_ramdisk/storage/self" w in
      let w := create_symlink_to #"/first_stage_ramdisk/storage/self/primary" #"/system/system/bin/init" w in
      create #"/first_stage_ramdisk/sdcard" w
    else
      let w := mkdirs #"/storage/self" w in
      create_symlink_to #"/storage/self/primary" #"/system/system/bin/init" w in
  let w := rename_to #"/init" #"/sdcard" w in
  match (if bind_from_rootfs then bind_mount_to #"/sdcard" #"/sdcard" w else None) with
  | Some w => w
  | None => default w (bind_mount_to #"/data/magiskinit" #"/sdcard" w)
  end.

Definition first_stage (w : World) : World :=
  let w := prepare_data w in
  if negb (exists_ w #"/sdcard") && negb (exists_ w #"/first_stage_ramdisk/sdcard")
  then restore_ramdisk_init (hijack_init_with_switch_root w)
  else hexpatch_init_for_second_stage true (restore_ramdisk_init w).

Definition second_stage (w : World) : World :=
  let w := unmount #"/system/bin/init" (unmount #"/init" w) in
  let w := remove #"/data/init" w in
  if is_rootfs then
    let w := remove #"/init" w in
    patch_rw_root (create_symlink_to #"/init" #"/system/bin/init" w)
  else patch_ro_root w.

Definition legacy_system_as_root (w : World) : World :=
  let '(w, is_two_stage) := mount_system_root (prepare_data w) in
  if is_two_stage then hexpatch_init_for_second_stage false w else patch_ro_root w.

Definition rootfs (w : World) : World := patch_rw_root (restore_ramdisk_init (prepare_data w)).

Definition recovery (w : World) : World :=
  let w := restore_ramdisk_init w in set_fs (filter (fun e => in_tree #"/.backup" e.1 = false) (fs w)) w.

(** [check_two_stage]; the backup is unpacked in any case. *)
Definition check_two_stage (w : World) : World * bool :=
  if exists_ w #"/first_stage_ramdisk" || exists_ w #"/second_stage_resources" || exists_ w #"/system/bin/init" || exists_ w #"/apex" then (w, true) else
  let w := backup_init w in
  let p := if exists_ w #"/init.real" then #"/init.real" else BACKUP_INIT in
  (w, match follow w p with Some (_, d) => contains d #"selinux_setup" | None => false end).

Inductive Stage := SecondStage | LegacySAR | FirstStage | Recovery | RootFS.

Definition select_stage (argv1 : option bytes) (w : World) : World * Stage :=
  if bool_decide (argv1 = Some #"selinux_setup") then (w, SecondStage)
  else if skip_initramfs config then (w, LegacySAR)
  else if force_normal_boot config then (w, FirstStage)
  else if exists_ w #"/sbin/recovery" || exists_ w #"/system/bin/recovery" then (w, Recovery)
  else let '(w, two) := check_two_stage w in (w, if two : bool then FirstStage else RootFS).

Definition run_stage (s : Stage) (w : World) : World :=
  match s with
  | SecondStage => second_stage w | LegacySAR => legacy_system_as_root w | FirstStage => first_stage w
  | Recovery => recovery w | RootFS => rootfs w
  end.

(** [exec_init]: the mounts of the list are undone, the last one first, and /init is run. *)
Definition exec_init (mount_list : list bytes) (w : World) : World * option Node :=
  let w := fold_left (fun w p => unmount p w) (rev mount_list) w in (w, look w #"/init").

(** The first part of [start]: /proc and /sys are mounted if they are not there. *)
Definition kernel_mounts (w : World) : World * list bytes :=
  let '(w, l) := if exists_ w #"/proc/cmdline" then (w, []) else (mkdir #"/proc" w, [ #"/proc"]) in
  if exists_ w #"/sys/block" then (w, l) else (mkdir #"/sys" w, l ++ [ #"/sys"]).

(** [start].  The mounts made by C++ are not in the list of this model. *)
Definition start (argv1 : option bytes) (w : World) : World * option Node :=
  let '(w, mount_list) := kernel_mounts w in
  let '(w, s) := select_stage argv1 w in
  exec_init mount_list (run_stage s w).
End Init.

(** * What an operation leaves alone *)

Lemma under_app d p : under d (d ++ #"/" ++ p) = true.
Proof. unfold under. rewrite app_assoc. apply starts_with_app. Qed.

Lemma copy_to_frame src dest w p :
  (forall k, in_tree src k = true -> dest ++ drop (length src) k <> p) -> fs (copy_to src dest w) !! p = fs w !! p.
Proof.
  intros H. unfold copy_to. cbn [set_fs fs]. rewrite lookup_union_r; [done |]. apply not_elem_of_list_to_map_1. intros Hin.
  apply list_elem_of_fmap in Hin as ([k n] & -> & Hin). apply list_elem_of_omap in Hin as ([k' n'] & _ & Heq). cbn [fst snd] in *.
  destruct (in_tree src k') eqn:E; [| done]. injection Heq as <- <-. by destruct (H k' E).
Qed.

Lemma copy_to_binds src dest w : binds (copy_to src dest w) = binds w.
Proof. done. Qed.

(** The paths that are not in /data. *)
Definition outside (p : bytes) : Prop := in_tree #"/data" p = false.

Lemma in_tree_dest d rest p : d ++ rest = p -> in_tree #"/data" p = false -> starts_with (d ++ rest) #"/data/" = false.
Proof. intros -> H. unfold in_tree, under in H. by apply orb_false_iff in H as [_ H]. Qed.

Lemma prepare_data_frame w p : outside p -> fs (prepare_data w) !! p = fs w !! p.
Proof.
  intros Hp. unfold prepare_data. cbv zeta.
  rewrite !copy_to_frame; try (intros k _ Hk; pose proof (in_tree_dest _ _ _ Hk Hp) as Hf; discriminate Hf).
  unfold mount_tmpfs, mkdir. cbn [set_fs fs]. rewrite map_lookup_filter.
  assert (under #"/data" p = false) as Hu by (unfold outside, in_tree in Hp; by apply orb_false_iff in Hp as [_ ?]).
  assert (fs (if exists_ w #"/data" then w else set_fs (<[ #"/data" := DirN]> (fs w)) w) !! p = fs w !! p) as ->.
  { destruct (exists_ w #"/data"); [done |]. cbn [set_fs fs]. apply lookup_insert_ne. intros <-. unfold outside, in_tree in Hp. by rewrite bool_decide_eq_true_2 in Hp. }
  destruct (fs w !! p) as [n|]; [| done]. cbn. by rewrite option_guard_True.
Qed.

Lemma prepare_data_binds w : binds (prepare_data w) = binds w.
Proof. unfold prepare_data. rewrite !copy_to_binds. unfold mount_tmpfs, mkdir. by destruct (exists_ w #"/data"). Qed.

Lemma mkdir_frame d w p : p <> d -> fs (mkdir d w) !! p = fs w !! p.
Proof. intros H. unfold mkdir. destruct (exists_ w d); [done |]. cbn [set_fs fs]. by apply lookup_insert_ne. Qed.

Lemma mkdir_binds d w : binds (mkdir d w) = binds w.
Proof. unfold mkdir. by destruct (exists_ w d). Qed.

Lemma mkdirs_frame d w p : p ∉ prefixes [] (comps d) -> fs (mkdirs d w) !! p = fs w !! p.
Proof.
  unfold mkdirs. revert w. induction (prefixes [] (comps d)) as [|x l IH]; intros w Hp; [done |]. cbn [fold_left]. rewrite IH by set_solver.
  apply mkdir_frame. set_solver.
Qed.

Lemma mkdirs_binds d w : binds (mkdirs d w) = binds w.
Proof. unfold mkdirs. revert w. induction (prefixes [] (comps d)) as [|x l IH]; intros w; [done |]. cbn [fold_left]. by rewrite IH, mkdir_binds. Qed.

Lemma symlink_frame q target w p : p <> q -> fs (create_symlink_to q target w) !! p = fs w !! p.
Proof. intros H. unfold create_symlink_to. destruct (exists_ w q); [done |]. cbn [set_fs fs]. by apply lookup_insert_ne. Qed.

Lemma symlink_binds q target w : binds (create_symlink_to q target w) = binds w.
Proof. unfold create_symlink_to. by destruct (exists_ w q). Qed.

Lemma create_frame q w p : p <> q -> fs (create q w) !! p = fs w !! p.
Proof. intros H. unfold create. destruct (exists_ w q); [done |]. cbn [set_fs fs]. by apply lookup_insert_ne. Qed.

Lemma create_binds q w : binds (create q w) = binds w.
Proof. unfold create. by destruct (exists_ w q). Qed.

(** * The original init *)

Section Original.
Context (unxz : bytes -> bytes).

(** The original init: the backup, compressed or not, or what the link leads to. *)
Definition original (w : World) : Node :=
  match fs w !! BACKUP_XZ with
  | Some (Reg x) => Reg (unxz x)
  | _ => default (Lnk #"/system/bin/init") (fs w !! BACKUP_INIT)
  end.

Lemma original_ext w w' : fs w' !! BACKUP_XZ = fs w !! BACKUP_XZ -> fs w' !! BACKUP_INIT = fs w !! BACKUP_INIT -> original w' = original w.
Proof. intros H1 H2. unfold original. by rewrite H1, H2. Qed.

Lemma original_unpacked w : original (backup_init unxz w) = original w.
Proof.
  unfold backup_init, original. destruct (fs w !! BACKUP_XZ) as [[x| |]|] eqn:E; rewrite ?E; try done. cbn [set_fs fs].
  rewrite lookup_insert_ne, lookup_delete_eq, lookup_insert_eq by done. done.
Qed.

Lemma backup_init_frame w p : p <> BACKUP_XZ -> p <> BACKUP_INIT -> fs (backup_init unxz w) !! p = fs w !! p.
Proof. intros H1 H2. unfold backup_init. destruct (fs w !! BACKUP_XZ) as [[x| |]|]; try done. cbn [set_fs fs]. by rewrite lookup_insert_ne, lookup_delete_ne. Qed.

Lemma backup_init_binds w : binds (backup_init unxz w) = binds w.
Proof. unfold backup_init. by destruct (fs w !! BACKUP_XZ) as [[x| |]|]. Qed.

Definition unbound (w : World) (p : bytes) : Prop := bound w p = None.

Lemma unbound_binds w w' p : binds w' = binds w -> unbound w p -> unbound w' p.
Proof. unfold unbound, bound. by intros ->. Qed.

Lemma look_unbound w p : unbound w p -> look w p = fs w !! p.
Proof. unfold look. by intros ->. Qed.

(** Whatever /init was, afterwards it is the original one. *)
Lemma restore_original w :
  unbound w #"/init" -> unbound w BACKUP_INIT ->
  look (restore_ramdisk_init unxz w) #"/init" = Some (original w) /\ binds (restore_ramdisk_init unxz w) = binds w /\
  (forall p, p <> #"/init" -> p <> BACKUP_XZ -> p <> BACKUP_INIT -> fs (restore_ramdisk_init unxz w) !! p = fs w !! p).
Proof.
  intros H1 H2. unfold restore_ramdisk_init. cbv zeta. set (w1 := remove #"/init" w).
  assert (fs w1 = delete #"/init" (fs w) /\ binds w1 = binds w) as [Hf1 Hb1].
  { unfold w1, remove, is_bound. by rewrite H1. }
  set (w2 := backup_init unxz w1). assert (binds w2 = binds w) as Hb2 by (unfold w2; by rewrite backup_init_binds).
  assert (unbound w2 #"/init" /\ unbound w2 BACKUP_INIT) as [U1 U2] by (split; by eapply unbound_binds).
  assert (fs w2 !! #"/init" = None) as Hinit by (unfold w2; rewrite backup_init_frame, Hf1, lookup_delete_eq by done; done).
  assert (original w = default (Lnk #"/system/bin/init") (fs w2 !! BACKUP_INIT)) as Ho.
  { unfold original, w2, backup_init. rewrite Hf1, lookup_delete_ne by done. destruct (fs w !! BACKUP_XZ) as [[x| |]|]; cbn [set_fs fs];
      rewrite ?lookup_insert_eq, ?Hf1, ?lookup_delete_ne by done; done. }
  assert (forall p, p <> #"/init" -> p <> BACKUP_XZ -> p <> BACKUP_INIT -> fs w2 !! p = fs w !! p) as Hfr.
  { intros p Hp1 Hp2 Hp3. unfold w2. rewrite backup_init_frame, Hf1, lookup_delete_ne by done. done. }
  unfold exists_. rewrite (look_unbound w2 BACKUP_INIT) by done. rewrite Ho. destruct (fs w2 !! BACKUP_INIT) as [n|] eqn:En; cbn [default from_option Datatypes.id].
  - assert (rename_to BACKUP_INIT #"/init" w2 = set_fs (<[ #"/init" := n]> (delete BACKUP_INIT (fs w2))) w2) as ->.
    { unfold rename_to, is_bound. rewrite En. unfold unbound in *. by rewrite U1, U2. }
    split_and!; [| done |].
    + rewrite look_unbound by done. cbn [set_fs fs]. apply lookup_insert_eq.
    + intros p Hp1 Hp2 Hp3. cbn [set_fs fs]. rewrite lookup_insert_ne, lookup_delete_ne by done. auto.
  - assert (create_symlink_to #"/init" #"/system/bin/init" w2 = set_fs (<[ #"/init" := Lnk #"/system/bin/init"]> (fs w2)) w2) as ->.
    { unfold create_symlink_to, exists_. by rewrite look_unbound, Hinit. }
    split_and!; [| done |].
    + rewrite look_unbound by done. cbn [set_fs fs]. apply lookup_insert_eq.
    + intros p Hp1 Hp2 Hp3. cbn [set_fs fs]. rewrite lookup_insert_ne by done. auto.
Qed.

(** What is copied is found at its new place. *)
Lemma copy_to_lookup src dest w k n :
  fs w !! k = Some n -> in_tree src k = true -> fs (copy_to src dest w) !! (dest ++ drop (length src) k) = Some n.
Proof.
  intros Hk Ht. unfold copy_to. cbn [set_fs fs]. apply lookup_union_Some_l. apply elem_of_list_to_map_1.
  - assert (forall k, in_tree src k = true -> k = src ++ drop (length src) k) as Hsplit.
    { intros k'. unfold in_tree, under. rewrite orb_true_iff, bool_decide_eq_true, starts_with_spec. intros [-> | [r ->]].
      - by rewrite drop_all, app_nil_r.
      - rewrite <- app_assoc. by rewrite drop_app_length. }
    pose proof (NoDup_fst_map_to_list (fs w)) as Hnd. revert Hnd. generalize (map_to_list (fs w)) as l. induction l as [|[k' n'] l IH]; intros Hnd; [constructor |].
    cbn [fmap list_fmap fst] in Hnd. apply NoDup_cons in Hnd as [Hn Hnd]. cbn [omap list_omap fst snd]. destruct (in_tree src k') eqn:E; [| by apply IH].
    cbn [fmap list_fmap fst]. apply NoDup_cons. split; [| by apply IH]. intros Hin. apply Hn. apply list_elem_of_fmap in Hin as ([k2 n2] & Heq & Hin).
    apply list_elem_of_omap in Hin as ([k3 n3] & Hin3 & Heq3). cbn [fst snd] in *. destruct (in_tree src k3) eqn:E3; [| done]. injection Heq3 as <- <-.
    apply app_inv_head in Heq. apply list_elem_of_fmap. exists (k3, n3). split; [| done]. cbn. rewrite (Hsplit k' E), (Hsplit k3 E3). congruence.
  - apply list_elem_of_omap. exists (k, n). rewrite elem_of_map_to_list. split; [done |]. cbn [fst snd]. by rewrite Ht.
Qed.

(** The copy of magiskinit in /data. *)
Lemma prepare_data_magiskinit w n : fs w !! #"/init" = Some n -> fs (prepare_data w) !! #"/data/magiskinit" = Some n.
Proof.
  intros Hn. unfold prepare_data. cbv zeta. set (w1 := mount_tmpfs _ _).
  assert (fs w1 !! #"/init" = Some n) as H1.
  { unfold w1, mount_tmpfs. cbn [set_fs fs]. rewrite map_lookup_filter, mkdir_frame, Hn by done. done. }
  rewrite copy_to_frame by (intros k _ Hk; discriminate Hk). rewrite copy_to_frame by (intros k _ Hk; discriminate Hk).
  apply (copy_to_lookup #"/init" #"/data/magiskinit" w1 #"/init" n H1). reflexivity.
Qed.

Section Hijack.
Context (config : BootConfig) (bind_from_rootfs : bool).

Lemma hijack_spec w n :
  binds w = [] -> fs w !! #"/init" = Some n -> fs w !! #"/data/magiskinit" = Some n ->
  let w' := hijack_init_with_switch_root config bind_from_rootfs w in
  unbound w' #"/init" /\ unbound w' BACKUP_INIT /\ fs w' !! BACKUP_XZ = fs w !! BACKUP_XZ /\ fs w' !! BACKUP_INIT = fs w !! BACKUP_INIT /\
  look w' #"/sdcard" = Some n.
Proof.
  intros Hb Hi Hd. unfold hijack_init_with_switch_root. cbv zeta.
  set (w1 := if force_normal_boot config then _ else _).
  assert (binds w1 = [] /\ (forall p, p ∈ [ #"/init"; #"/data/magiskinit"; BACKUP_XZ; BACKUP_INIT] -> fs w1 !! p = fs w !! p)) as [Hb1 Hf1].
  { unfold w1. destruct (force_normal_boot config).
    - split; [by rewrite create_binds, symlink_binds, mkdirs_binds |]. intros p Hp.
      rewrite create_frame, symlink_frame, mkdirs_frame; [done | | |].
      all: rewrite !elem_of_cons, elem_of_nil in Hp; destruct Hp as [-> | [-> | [-> | [-> | []]]]]; try done; apply (bool_decide_eq_true (_ ∉ _)); vm_compute; reflexivity.
    - split; [by rewrite symlink_binds, mkdirs_binds |]. intros p Hp. rewrite symlink_frame, mkdirs_frame; [done | |].
      all: rewrite !elem_of_cons, elem_of_nil in Hp; destruct Hp as [-> | [-> | [-> | [-> | []]]]]; try done; apply (bool_decide_eq_true (_ ∉ _)); vm_compute; reflexivity. }
  assert (rename_to #"/init" #"/sdcard" w1 = set_fs (<[ #"/sdcard" := n]> (delete #"/init" (fs w1))) w1) as ->.
  { unfold rename_to, is_bound, bound. rewrite Hf1, Hi, Hb1 by set_solver. done. }
  set (w2 := set_fs _ w1). assert (binds w2 = []) as Hb2 by done.
  assert (fs w2 !! #"/sdcard" = Some n /\ fs w2 !! #"/data/magiskinit" = Some n /\ fs w2 !! BACKUP_XZ = fs w !! BACKUP_XZ /\ fs w2 !! BACKUP_INIT = fs w !! BACKUP_INIT) as (F1 & F2 & F3 & F4).
  { unfold w2. cbn [set_fs fs]. rewrite lookup_insert_eq, !lookup_insert_ne, !lookup_delete_ne by done. rewrite !Hf1 by set_solver. done. }
  assert (forall p, look w2 p = fs w2 !! p) as Hlook by (intros p; apply look_unbound; unfold unbound, bound; by rewrite Hb2).
  unfold bind_mount_to. rewrite !Hlook, F1, F2. unfold unbound, bound, look. destruct bind_from_rootfs; cbn [default from_option binds fs List.find Datatypes.id]; rewrite Hb2; split_and!; done.
Qed.

(** What is left in place of a node by the patch of the second stage. *)
Definition patched_node (n : Node) : Node := match n with Reg d => Reg (patched d) | n => n end.

Lemma hexpatch_writable w n :
  binds w = [] -> look w #"/init" = Some n -> look (hexpatch_init_for_second_stage true w) #"/init" = Some (patched_node n).
Proof.
  intros Hb Hn. assert (forall w p, binds w = [] -> look w p = fs w !! p) as Hl by (intros w0 p H0; apply look_unbound; unfold unbound, bound; by rewrite H0).
  unfold hexpatch_init_for_second_stage, follow. rewrite Hn. unfold put_data, is_bound, bound. rewrite Hb. cbn [List.find fmap option_fmap option_map].
  destruct n as [d|t|]; [| | done].
  - rewrite Hl by done. cbn [set_fs fs]. apply lookup_insert_eq.
  - destruct (look w t) as [[d| |]|] eqn:Et; try done. rewrite Hl by done. cbn [set_fs fs].
    rewrite lookup_insert_ne, <- (Hl w) by congruence. done.
Qed.

(** There is no /sdcard of the ramdisk's own. *)
Definition no_sdcard (w : World) : bool := negb (exists_ w #"/sdcard") && negb (exists_ w #"/first_stage_ramdisk/sdcard").

Lemma no_sdcard_ext w w' :
  binds w' = binds w -> fs w' !! #"/sdcard" = fs w !! #"/sdcard" -> fs w' !! #"/first_stage_ramdisk/sdcard" = fs w !! #"/first_stage_ramdisk/sdcard" ->
  no_sdcard w' = no_sdcard w.
Proof. intros Hb H1 H2. unfold no_sdcard, exists_, look, bound. by rewrite Hb, H1, H2. Qed.

Lemma first_stage_spec w n :
  binds w = [] -> fs w !! #"/init" = Some n ->
  let w' := first_stage config unxz bind_from_rootfs w in
  if no_sdcard w then look w' #"/init" = Some (original w) /\ look w' #"/sdcard" = Some n
  else look w' #"/init" = Some (patched_node (original w)).
Proof.
  intros Hb Hn. unfold first_stage. cbv zeta. fold (no_sdcard (prepare_data w)).
  assert (no_sdcard (prepare_data w) = no_sdcard w) as ->.
  { apply no_sdcard_ext; [apply prepare_data_binds | by apply prepare_data_frame..]. }
  assert (binds (prepare_data w) = []) as Hb1 by by rewrite prepare_data_binds.
  assert (original (prepare_data w) = original w) as Ho by (apply original_ext; by apply prepare_data_frame).
  destruct (no_sdcard w).
  - destruct (hijack_spec (prepare_data w) n) as (U1 & U2 & E1 & E2 & Hs); [done | by rewrite prepare_data_frame | by apply prepare_data_magiskinit |].
    destruct (restore_original _ U1 U2) as (Hi & Hb2 & Hf). rewrite Hi. split; [by rewrite <- Ho, (original_ext _ _ E1 E2) |].
    revert Hs. unfold look, bound. by rewrite Hb2, Hf.
  - destruct (restore_original (prepare_data w)) as (Hi & Hb2 & _); [by unfold unbound, bound; rewrite Hb1.. |].
    apply hexpatch_writable; [by rewrite Hb2 | by rewrite Hi, Ho].
Qed.
End Hijack.

(** What the choice of the stage and the mounts of the kernel leave as they were. *)
Definition same_ramdisk (w w' : World) : Prop :=
  binds w' = binds w /\ original w' = original w /\ (forall p, p ∈ [ #"/init"; #"/sdcard"; #"/first_stage_ramdisk/sdcard"] -> fs w' !! p = fs w !! p).

Lemma same_ramdisk_trans w1 w2 w3 : same_ramdisk w1 w2 -> same_ramdisk w2 w3 -> same_ramdisk w1 w3.
Proof. intros (A1 & A2 & A3) (B1 & B2 & B3). split_and!; [congruence.. |]. intros p Hp. by rewrite B3, A3. Qed.

Lemma mkdir_same d w :
  d ∉ [ #"/init"; #"/sdcard"; #"/first_stage_ramdisk/sdcard"; BACKUP_XZ; BACKUP_INIT] -> same_ramdisk w (mkdir d w).
Proof.
  intros Hd. split_and!; [apply mkdir_binds | apply original_ext; apply mkdir_frame; set_solver |]. intros p Hp. apply mkdir_frame. set_solver.
Qed.

Lemma kernel_mounts_same w : same_ramdisk w (kernel_mounts w).1 /\ (forall p, p ∈ (kernel_mounts w).2 -> p <> #"/init" /\ p <> #"/sdcard").
Proof.
  unfold kernel_mounts.
  assert (forall w0, same_ramdisk w0 w0) as Hrefl by (intros w0; by split_and!).
  assert (forall w0 d, d ∈ [ #"/proc"; #"/sys"] -> same_ramdisk w0 (mkdir d w0)) as Hmk.
  { intros w0 d Hd. apply mkdir_same. rewrite !elem_of_cons, elem_of_nil in Hd. destruct Hd as [-> | [-> | []]]; by apply (bool_decide_eq_true (_ ∉ _)). }
  destruct (exists_ w #"/proc/cmdline"); [| assert (same_ramdisk w (mkdir #"/proc" w)) by (apply Hmk; set_solver)].
  all: destruct (exists_ _ #"/sys/block"); cbn [fst snd app]; split; auto.
  all: try (eapply same_ramdisk_trans; [done |]); try (apply Hmk; set_solver).
  all: intros p; rewrite ?elem_of_cons, elem_of_nil; intros Hp; repeat destruct Hp as [-> | Hp]; try done.
Qed.

Lemma backup_init_same w : same_ramdisk w (backup_init unxz w).
Proof.
  split_and!; [apply backup_init_binds | apply original_unpacked |]. intros p Hp.
  apply backup_init_frame; rewrite !elem_of_cons, elem_of_nil in Hp; destruct Hp as [-> | [-> | [-> | []]]]; done.
Qed.

Lemma select_stage_same config argv1 w : same_ramdisk w (select_stage config unxz argv1 w).1.
Proof.
  unfold select_stage, check_two_stage. repeat (case_match; simplify_eq; cbn [fst]; try by split_and!).
  all: repeat (case_match; simplify_eq); try by split_and!. all: apply backup_init_same.
Qed.

Lemma unmounts_look l w p : p ∉ l -> look (fold_left (fun w p => unmount p w) l w) p = look w p.
Proof.
  revert w. induction l as [|q l IH]; intros w Hp; [done |]. cbn [fold_left]. rewrite IH by set_solver. unfold look, bound, unmount. cbn [fs binds].
  assert (List.find (fun b => bool_decide (b.1 = p)) (remove_first q (binds w)) = List.find (fun b => bool_decide (b.1 = p)) (binds w)) as ->; [| done].
  induction (binds w) as [|b bs IHb]; [done |]. cbn [remove_first List.find].
  destruct (decide (b.1 = q)) as [Hq | Hq].
  - rewrite bool_decide_eq_true_2, bool_decide_eq_false_2 by set_solver. done.
  - rewrite bool_decide_eq_false_2 by done. cbn [List.find]. by rewrite IHb.
Qed.

(** The second stage of a root that cannot be written: its init is covered by a patched copy,
    if there is one to patch. *)
Lemma hexpatch_bound w :
  unbound w #"/data/init" -> look (hexpatch_init_for_second_stage false w) #"/init" =
  match follow w #"/init" with Some (_, d) => Some (Reg (patched d)) | None => look w #"/init" end.
Proof.
  intros Hu. unfold hexpatch_init_for_second_stage. destruct (follow w #"/init") as [[p d]|] eqn:Ef; [| done].
  set (w1 := set_fs _ w). assert (look w1 #"/data/init" = Some (Reg (patched d))) as H1.
  { rewrite look_unbound by done. unfold w1. cbn [set_fs fs]. apply lookup_insert_eq. }
  assert (is_Some (look w1 #"/init")) as [n H2].
  { unfold w1, look, bound. cbn [set_fs binds fs]. rewrite lookup_insert_ne by done. fold (bound w #"/init"). fold (look w #"/init").
    unfold follow in Ef. by destruct (look w #"/init"). }
  unfold bind_mount_to. rewrite H1, H2. cbn [default from_option Datatypes.id]. unfold look, bound. cbn [binds List.find fst]. by rewrite bool_decide_eq_true_2.
Qed.

(** What the second stage gives to the part that patches the root: on the rootfs of the
    ramdisk a link to the init of the system, else what is below the mount on /init. *)
Lemma second_stage_root w n :
  unbound (unmount #"/init" w) #"/init" -> fs w !! #"/init" = Some n ->
  let w0 := remove #"/data/init" (unmount #"/system/bin/init" (unmount #"/init" w)) in
  look (create_symlink_to #"/init" #"/system/bin/init" (remove #"/init" w0)) #"/init" = Some (Lnk #"/system/bin/init") /\ look w0 #"/init" = Some n.
Proof.
  intros Hu Hn. cbv zeta. set (w1 := unmount #"/system/bin/init" (unmount #"/init" w)).
  assert (unbound w1 #"/init") as Hu1.
  { pose proof (unmounts_look [ #"/system/bin/init"] (unmount #"/init" (mkWorld ∅ (binds w))) #"/init" ltac:(set_solver)) as H.
    assert (look (unmount #"/init" (mkWorld ∅ (binds w))) #"/init" = None) as H0 by (rewrite look_unbound by exact Hu; apply lookup_empty).
    rewrite H0 in H. unfold unbound. destruct (bound w1 #"/init") eqn:E; [| done]. unfold look in H. cbn [fold_left] in H.
    assert (bound (unmount #"/system/bin/init" (unmount #"/init" (mkWorld ∅ (binds w)))) #"/init" = bound w1 #"/init") as Hb by done. rewrite Hb, E in H. done. }
  set (w0 := remove #"/data/init" w1). assert (unbound w0 #"/init") as Hu0 by (unfold w0, remove; by destruct (is_bound w1 #"/data/init")).
  assert (fs w0 !! #"/init" = Some n) as Hf0 by (unfold w0, remove; destruct (is_bound w1 #"/data/init"); cbn [set_fs fs]; rewrite ?lookup_delete_ne by done; exact Hn).
  split; [| by rewrite look_unbound]. assert (remove #"/init" w0 = set_fs (delete #"/init" (fs w0)) w0) as -> by (unfold remove, is_bound; by rewrite Hu0).
  clearbody w0. assert (forall f, look (set_fs f w0) #"/init" = f !! #"/init") as Hlk by (intros f; by apply look_unbound).
  unfold create_symlink_to, exists_. rewrite Hlk, lookup_delete_eq.
  change (look (set_fs (<[ #"/init" := Lnk #"/system/bin/init"]> (delete #"/init" (fs w0))) w0) #"/init" = Some (Lnk #"/system/bin/init")).
  rewrite Hlk. apply lookup_insert_eq.
Qed.

End Original.

Definition sample_ramdisk : World :=
  mkWorld (list_to_map [( #"/init", Reg #"magiskinit"); ( #"/.backup", DirN); (BACKUP_XZ, Reg #"xz:init"); ( #"/system/bin/init", Reg #"init"); ( #"/proc/cmdline", Reg [])]) [].

Definition sample_config : BootConfig := mkConfig false true false false #"_a" [] [] #"hw" [] [].

End Init.
