(* ===== verification/InitLog.v ===== *)
(** init/logging.rs: the log of magiskinit in the kernel's message buffer.

    The state is which device nodes exist, the open descriptors with the device each leads
    to, and the descriptor for messages.  Which nodes can be created and opened are
    arguments.  A [&File] that is passed to a C function with variable arguments is passed as
    its address, of which the call takes the lower 32 bits. *)

From S2P Require Import Prelude Text Numeric.

Module InitLog.

Abbreviation Dev := (Z * Z)%type.
Definition null_dev : Dev := (1, 3).
Definition kmsg_dev : Dev := (1, 11).

Record St := mkSt { nodes : gmap bytes Dev; fds : gmap Z Dev; KMSG : Z; kernel_log : list bytes; rate_limit_off : bool }.

Section Klog.
(** Opening a path that exists, creating a node; where the first [File] is in memory. *)
Context (openable : bytes -> bool) (mknod_ok : bytes -> bool) (addr : Z).

(** The lowest number that is not open. *)
Fixpoint lowest (n : nat) (i : Z) (m : gmap Z Dev) : Z :=
  match n with O => i | S n => match m !! i with Some _ => lowest n (i + 1) m | None => i end end.
Definition next_fd (m : gmap Z Dev) : Z := lowest (S (size m)) 0 m.

Definition open (path : bytes) (s : St) : St * option Z :=
  match nodes s !! path with
  | Some d => if openable path then let fd := next_fd (fds s) in (mkSt (nodes s) (<[fd := d]> (fds s)) (KMSG s) (kernel_log s) (rate_limit_off s), Some fd) else (s, None)
  | None => (s, None)
  end.
Definition mknod (path : bytes) (d : Dev) (s : St) : St :=
  match nodes s !! path with
  | None => if mknod_ok path then mkSt (<[path := d]> (nodes s)) (fds s) (KMSG s) (kernel_log s) (rate_limit_off s) else s
  | Some _ => s
  end.
Definition remove (path : bytes) (s : St) : St := mkSt (delete path (nodes s)) (fds s) (KMSG s) (kernel_log s) (rate_limit_off s).
Definition close (fd : Z) (s : St) : St := mkSt (nodes s) (delete fd (fds s)) (KMSG s) (kernel_log s) (rate_limit_off s).

(** [dup3] *)
Definition dup3 (old new : Z) (s : St) : St :=
  match fds s !! old with
  | Some d => if old =? new then s else mkSt (nodes s) (<[new := d]> (fds s)) (KMSG s) (kernel_log s) (rate_limit_off s)
  | None => s
  end.

(** A device in /dev, or a node of our own that is removed again. *)
Definition open_device (path own : bytes) (d : Dev) (s : St) : St * option Z :=
  match open path s with
  | (s, Some fd) => (s, Some fd)
  | (s, None) => let '(s, fd) := open own (mknod own d s) in (remove own s, fd)
  end.

(** [setup_klog]; the first [File] is closed at the end of the block. *)
Definition setup_klog (s : St) : St :=
  let '(s, null) := open_device #"/dev/null" #"/null" null_dev s in
  let s := match null with Some _ => let old := uwrap 32 addr in dup3 old 2 (dup3 old 1 (dup3 old 0 s)) | None => s end in
  let '(s, kmsg) := open_device #"/dev/kmsg" #"/kmsg" kmsg_dev s in
  let s := mkSt (nodes s) (fds s) (default (-1) kmsg) (kernel_log s) (rate_limit_off s) in
  let s := match null with Some fd => close fd s | None => s end in
  if bool_decide (is_Some (nodes s !! #"/proc/sys/kernel/printk_devkmsg")) && openable #"/proc/sys/kernel/printk_devkmsg"
  then mkSt (nodes s) (fds s) (KMSG s) (kernel_log s) true else s.

(** [kmsg_log_write] *)
Definition kmsg_log_write (msg : bytes) (s : St) : St :=
  if 0 <=? KMSG s then
    match fds s !! KMSG s with
    | Some d => if bool_decide (d = kmsg_dev) then mkSt (nodes s) (fds s) (KMSG s) (kernel_log s ++ [ #"magiskinit: " ++ msg]) (rate_limit_off s) else s
    | None => s
    end
  else s.

(** * Theorems *)

Lemma lowest_free n i m :
  m !! lowest n i m = None \/ (forall k, i <= k < i + Z.of_nat n -> is_Some (m !! k)).
Proof.
  revert i. induction n as [|n IH]; intros i; [right; lia |]. cbn [lowest]. destruct (m !! i) as [d|] eqn:E; [| by left].
  destruct (IH (i + 1)) as [H|H]; [by left | right]. intros k Hk. destruct (decide (k = i)) as [->|]; [by eexists | apply H; lia].
Qed.

Lemma lowest_ge n i m : i <= lowest n i m.
Proof. revert i. induction n as [|n IH]; intros i; cbn; [lia |]. destruct (m !! i); [specialize (IH (i + 1)); lia | lia]. Qed.

(** A number is always found, by counting. *)
Lemma next_fd_free m : m !! next_fd m = None /\ 0 <= next_fd m.
Proof.
  split; [| apply lowest_ge]. unfold next_fd. destruct (lowest_free (S (size m)) 0 m) as [H|H]; [done |]. exfalso.
  assert (list_to_set (seqZ 0 (Z.of_nat (S (size m)))) ⊆ dom m) as Hsub.
  { intros k Hk. apply elem_of_list_to_set, elem_of_seqZ in Hk. apply elem_of_dom. apply H. lia. }
  apply subseteq_size in Hsub. rewrite size_list_to_set in Hsub by apply NoDup_seqZ. rewrite length_seqZ, size_dom, Nat2Z.id in Hsub. lia.
Qed.

Lemma open_device_spec path own d s s' r :
  own <> path -> open_device path own d s = (s', r) ->
  nodes s' ⊆ nodes s /\ kernel_log s' = kernel_log s /\ KMSG s' = KMSG s /\
  match r with
  | Some fd => fds s !! fd = None /\ 0 <= fd /\ exists e, fds s' = <[fd := e]> (fds s) /\ (nodes s !! path = Some d -> nodes s !! own = None -> e = d)
  | None => fds s' = fds s
  end.
Proof.
  intros Hne. pose proof (next_fd_free (fds s)) as [Hfree Hpos]. unfold open_device, open.
  assert (forall (m : gmap bytes Dev) k, delete k m ⊆ m) as Hdel by (intros m k; apply delete_subseteq).
  assert (delete own (<[own := d]> (nodes s)) ⊆ nodes s) as Hins by (rewrite delete_insert_eq; apply Hdel).
  destruct (nodes s !! path) as [e|] eqn:Ep; [destruct (openable path) |].
  - intros [= <- <-]. cbn. split_and!; [done | done | done | done | done |]. exists e. split; [done |]. by intros [= ->].
  - unfold mknod. destruct (nodes s !! own) as [f|] eqn:Eo; [| destruct (mknod_ok own)]; cbn [nodes]; rewrite ?lookup_insert_eq, ?Eo.
    + destruct (openable own); intros [= <- <-]; cbn; split_and!; try done. exists f. by split.
    + destruct (openable own); intros [= <- <-]; cbn; split_and!; try done. exists d. by split.
    + intros [= <- <-]. cbn. by split_and!.
  - unfold mknod. destruct (nodes s !! own) as [f|] eqn:Eo; [| destruct (mknod_ok own)]; cbn [nodes]; rewrite ?lookup_insert_eq, ?Eo.
    + destruct (openable own); intros [= <- <-]; cbn; split_and!; try done. exists f. by split.
    + destruct (openable own); intros [= <- <-]; cbn; split_and!; try done. exists d. by split.
    + intros [= <- <-]. cbn. by split_and!.
Qed.

Lemma dup3_grows old new s :
  nodes (dup3 old new s) = nodes s /\ kernel_log (dup3 old new s) = kernel_log s /\ (forall fd, is_Some (fds s !! fd) -> is_Some (fds (dup3 old new s) !! fd)) /\
  (fds s !! old = None -> dup3 old new s = s).
Proof.
  unfold dup3. destruct (fds s !! old) as [d|]; [| by split_and!]. destruct (old =? new); [by split_and! |]. cbn. split_and!; try done.
  intros fd Hfd. destruct (decide (fd = new)) as [->|]; [by rewrite lookup_insert_eq; eexists | by rewrite lookup_insert_ne].
Qed.

(** The three calls together. *)
Lemma dups_grow old s :
  let s' := dup3 old 2 (dup3 old 1 (dup3 old 0 s)) in
  nodes s' = nodes s /\ kernel_log s' = kernel_log s /\ (forall fd, is_Some (fds s !! fd) -> is_Some (fds s' !! fd)) /\ (fds s !! old = None -> s' = s).
Proof.
  intros s'. subst s'. destruct (dup3_grows old 0 s) as (A1 & A2 & A3 & A4), (dup3_grows old 1 (dup3 old 0 s)) as (B1 & B2 & B3 & B4),
    (dup3_grows old 2 (dup3 old 1 (dup3 old 0 s))) as (C1 & C2 & C3 & C4).
  rewrite C1, C2, B1, B2. split_and!; [done | done | auto |]. intros H. specialize (A4 H). rewrite A4 in *. specialize (B4 H). rewrite B4 in *. by apply C4.
Qed.

(** The state between the two devices. *)
Lemma first_part s s1 null :
  open_device #"/dev/null" #"/null" null_dev s = (s1, null) ->
  let s2 := match null with Some _ => let old := uwrap 32 addr in dup3 old 2 (dup3 old 1 (dup3 old 0 s1)) | None => s1 end in
  nodes s2 ⊆ nodes s /\ kernel_log s2 = kernel_log s /\ match null with Some fd => is_Some (fds s2 !! fd) /\ fds s !! fd = None /\ 0 <= fd | None => True end.
Proof.
  intros H s2. apply open_device_spec in H as (Hn & Hk & _ & Hr); [| done]. subst s2. destruct null as [fd|]; [| by split_and!].
  destruct (dups_grow (uwrap 32 addr) s1) as (D1 & D2 & D3 & _). cbn zeta in *. rewrite D1, D2. destruct Hr as (Hfree & Hpos & e & He & _).
  split_and!; try done. apply D3. rewrite He, lookup_insert_eq. by eexists.
Qed.

(** Device nodes of our own are gone again, nothing is logged before the log is set up, and
    the descriptor for messages is open if there is one; with a device for messages, what
    is logged arrives, under our name. *)
Theorem setup_klog_spec s msg :
  let s' := setup_klog s in
  nodes s' ⊆ nodes s /\ kernel_log s' = kernel_log s /\ (KMSG s' = -1 \/ 0 <= KMSG s' /\ is_Some (fds s' !! KMSG s')) /\
  (nodes s !! #"/dev/kmsg" = Some kmsg_dev -> nodes s !! #"/kmsg" = None -> openable #"/dev/kmsg" = true ->
   kernel_log (kmsg_log_write msg s') = kernel_log s ++ [ #"magiskinit: " ++ msg]).
Proof.
  intros s'. subst s'. unfold setup_klog. destruct (open_device #"/dev/null" #"/null" null_dev s) as [s1 null] eqn:E1.
  pose proof (first_part _ _ _ E1) as (F1 & F2 & F3). cbn zeta in F1, F2, F3 |- *. set (s2 := match null with Some _ => _ | None => s1 end) in *.
  assert (nodes s !! #"/dev/kmsg" = Some kmsg_dev -> nodes s2 !! #"/dev/kmsg" = Some kmsg_dev) as Hkeep.
  { intros Hk. subst s2. assert (nodes s1 !! #"/dev/kmsg" = Some kmsg_dev) as H1; [| destruct null; [| done]; by destruct (dups_grow (uwrap 32 addr) s1) as (-> & _)].
    unfold open_device, open, mknod in E1. repeat (case_match; simplify_eq/=; try done); rewrite ?lookup_delete_ne, ?lookup_insert_ne by done; done. }
  destruct (open_device #"/dev/kmsg" #"/kmsg" kmsg_dev s2) as [s3 kmsg] eqn:E3. pose proof E3 as E3'. apply open_device_spec in E3 as (K1 & K2 & _ & Kr); [| done].
  set (s4 := mkSt (nodes s3) (fds s3) (default (-1) kmsg) (kernel_log s3) (rate_limit_off s3)). set (s5 := match null with Some fd => close fd s4 | None => s4 end).
  assert (nodes s5 = nodes s3 /\ kernel_log s5 = kernel_log s3 /\ KMSG s5 = default (-1) kmsg) as (G1 & G2 & G3) by (subst s5 s4; by destruct null).
  assert (forall fd e, kmsg = Some fd -> fds s3 !! fd = Some e -> fds s5 !! fd = Some e) as G4.
  { intros fd e -> He. subst s5 s4. destruct null as [fd'|]; [| done]. cbn [close fds]. destruct Kr as (Hfree & _). destruct F3 as ([x Hx] & _).
    rewrite lookup_delete_ne; [done |]. congruence. }
  set (s6 := if _ && _ then _ else _). assert (nodes s6 = nodes s5 /\ kernel_log s6 = kernel_log s5 /\ KMSG s6 = KMSG s5 /\ fds s6 = fds s5) as (P1 & P2 & P3 & P4) by (subst s6; by destruct (_ && _)).
  rewrite P1, P2, P3, P4, G1, G2, G3, K2, F2. split_and!; [by etransitivity | done | |].
  - destruct kmsg as [fd|]; [| by left]. right. change (default (-1) (Some fd)) with fd. destruct Kr as (_ & Hpos & e & He & _). split; [done |]. rewrite (G4 fd e eq_refl); [by eexists |]. by rewrite He, lookup_insert_eq.
  - intros Hk Hown Hop. specialize (Hkeep Hk). assert (nodes s2 !! #"/kmsg" = None) as Hown2 by (eapply lookup_weaken_None; eassumption).
    destruct kmsg as [fd|]; [| exfalso; unfold open_device, open in E3'; rewrite Hkeep, Hop in E3'; done].
    destruct Kr as (_ & Hpos & e & He & Hd). specialize (Hd Hkeep Hown2) as ->.
    unfold kmsg_log_write. rewrite P3, G3, P4. change (default (-1) (Some fd)) with fd. rewrite (proj2 (Z.leb_le 0 fd)) by done. rewrite (G4 fd kmsg_dev eq_refl) by (by rewrite He, lookup_insert_eq).
    rewrite bool_decide_eq_true_2 by done. cbn [kernel_log]. by rewrite P2, G2, K2, F2.
Qed.

Lemma lowest_le n i m : lowest n i m <= i + Z.of_nat n.
Proof. revert i. induction n as [|n IH]; intros i; cbn [lowest]; [lia |]. destruct (m !! i); [specialize (IH (i + 1)); lia | lia]. Qed.

(** The first three descriptors are not shut down: [dup3] is given the address of the [File]
    and not its descriptor.  Whatever was open stays open and leads where it did. *)
Theorem stdio_not_redirected s fd d :
  fds s !! uwrap 32 addr = None -> Z.of_nat (size (fds s)) + 1 < uwrap 32 addr -> fds s !! fd = Some d -> fds (setup_klog s) !! fd = Some d.
Proof.
  intros Ha Hs Hfd. unfold setup_klog. destruct (open_device #"/dev/null" #"/null" null_dev s) as [s1 null] eqn:E1. pose proof E1 as E1'.
  apply open_device_spec in E1 as (_ & _ & _ & Hr); [| done].
  assert (fds s1 !! uwrap 32 addr = None) as Ha1.
  { destruct null as [k|]; [| by rewrite Hr]. destruct Hr as (_ & _ & e & -> & _). rewrite lookup_insert_ne; [done |]. pose proof (lowest_le (S (size (fds s))) 0 (fds s)).
    assert (k = next_fd (fds s)) as -> by (unfold open_device, open, mknod in E1'; repeat (case_match; simplify_eq/=; try done)). unfold next_fd. lia. }
  destruct (dups_grow (uwrap 32 addr) s1) as (_ & _ & _ & Hsame). cbn zeta in *. rewrite (Hsame Ha1).
  replace (match null with Some _ => s1 | None => s1 end) with s1 by (by destruct null).
  destruct (open_device #"/dev/kmsg" #"/kmsg" kmsg_dev s1) as [s3 kmsg] eqn:E3. apply open_device_spec in E3 as (_ & _ & _ & Kr); [| done].
  assert (fds s1 !! fd = Some d /\ null <> Some fd) as [H1 Hnn].
  { destruct null as [k|]; [| by rewrite Hr]. destruct Hr as (Hfree & _ & e & -> & _). assert (k <> fd) by congruence. rewrite lookup_insert_ne by done. split; congruence. }
  assert (fds s3 !! fd = Some d) as H3 by (destruct kmsg as [k|]; [destruct Kr as (Hfree & _ & e & -> & _); rewrite lookup_insert_ne; [done | congruence] | by rewrite Kr]).
  assert (fds (match null with Some k => close k (mkSt (nodes s3) (fds s3) (default (-1) kmsg) (kernel_log s3) (rate_limit_off s3)) | None => mkSt (nodes s3) (fds s3) (default (-1) kmsg) (kernel_log s3) (rate_limit_off s3) end) !! fd = Some d) as H5.
  { destruct null as [k|]; [| done]. cbn [close fds]. rewrite lookup_delete_ne; [done | congruence]. }
  destruct (_ && _); exact H5.
Qed.
End Klog.

Definition demo : St := mkSt {[ #"/dev/kmsg" := kmsg_dev; #"/dev/null" := null_dev ]} {[ 0 := (5, 1); 1 := (5, 1); 2 := (5, 1) ]} (-1) [] false.

Lemma setup_klog_spec_witness : kernel_log (kmsg_log_write #"hi" (setup_klog (fun _ => true) (fun _ => true) 140733193388032 demo)) = [ #"magiskinit: hi"].
Proof. apply (setup_klog_spec (fun _ => true) (fun _ => true) 140733193388032 demo #"hi"); vm_compute; reflexivity. Defined.

Lemma stdio_not_redirected_witness : fds (setup_klog (fun _ => true) (fun _ => true) 140736193388032 demo) !! 1 = Some (5, 1).
Proof. apply (stdio_not_redirected (fun _ => true) (fun _ => true) 140736193388032 demo 1 (5, 1)); vm_compute; reflexivity. Defined.

End InitLog.
