(* ===== verification/InitPolicy.v ===== *)
(** init/selinux.rs and init/rootdir.rs: how magiskinit gets its rules into the policy that
    the original init loads, and the files it mounts over those of the root.

    magiskinit replaces files that init reads or writes by its own, and leaves a process
    that waits until init uses them, loads the changed policy and lets init go on.  The
    calls of the two processes are recorded in a trace, with their outcome; which of them
    succeed is an argument.  A descriptor of a fifo that is dropped is a call too: it ends the
    wait of the one who reads from it. *)

From S2P Require Import Prelude Text Numeric Statement Policy.

Module InitPolicy.
Import Statement Policy.

(** * The calls *)

Definition SELINUXMOCK : bytes := #".magisk/selinux".
Definition MOCK_VERSION : bytes := SELINUXMOCK ++ #"/version".
Definition MOCK_LOAD : bytes := SELINUXMOCK ++ #"/load".
Definition MOCK_ENFORCE : bytes := SELINUXMOCK ++ #"/enforce".
Definition MOCK_REQPROT : bytes := SELINUXMOCK ++ #"/checkreqprot".

Definition SELINUX_MNT : bytes := #"/sys/fs/selinux".
Definition SELINUX_ENFORCE : bytes := SELINUX_MNT ++ #"/enforce".
Definition SELINUX_LOAD : bytes := SELINUX_MNT ++ #"/load".
Definition SELINUX_REQPROT : bytes := SELINUX_MNT ++ #"/checkreqprot".

(** From init/init.hpp. *)
Definition PRELOAD_LIB : bytes := #"/dev/preload.so".
Definition PRELOAD_POLICY : bytes := #"/dev/sepolicy".
Definition PRELOAD_ACK : bytes := #"/dev/ack".
Definition SPLIT_PLAT_CIL : bytes := #"/system/etc/selinux/plat_sepolicy.cil".

Definition RULE_FILE : bytes := #"/data/.magisk/preinit/sepolicy.rule".

Section Calls.
Context {SePolicy : Type}.

Inductive Call :=
| Mkdir (p : bytes) | ReadFile (p : bytes) | MapFile (p : bytes)
| CopyTo (src dest : bytes) | SetEnv (name value : bytes)
| MkFifo (p : bytes) | CreateFile (p : bytes) | BindMount (src dest : bytes)
| Remount (p options : bytes) | MountSelinuxFs (p : bytes)
| WaitFor (p : bytes) | Unmount (p : bytes) | OpenForWriting (p : bytes) | OpenForReading (p : bytes)
| ToFile (p : bytes) (sp : SePolicy) | Remove (p : bytes) | SetCon (p con : bytes)
| KeepMounts (l : list bytes) | Stat (p : bytes) | WriteTo (p data : bytes) | ReadToEnd (p : bytes) | Close (p : bytes).

(** * Programs *)

(** A call and whether it succeeded. *)
Abbreviation Event := (Call * bool)%type.

(** A program adds calls to the trace; an error ends it. *)
Definition Prog (A : Type) : Type := list Event -> list Event * logged A.

#[export] Instance prog_ret : MRet Prog := fun A a t => (t, Ok a).
#[export] Instance prog_bind : MBind Prog := fun A B f m t =>
  match m t with
  | (t, Ok a) => f a t
  | (t, Err e) => (t, Err e)
  | (t, Panic) => (t, Panic)
  end.

Section Run.
(** Whether a call succeeds after the calls before it. *)
Context (ok : list Event -> Call -> bool).

Definition call (c : Call) : Prog unit := fun t => (t ++ [(c, ok t c)], if ok t c then Ok tt else Err tt).

(** [.ok()] and [.log_ok()]. *)
Definition attempt (c : Call) : Prog unit := fun t => (t ++ [(c, ok t c)], Ok tt).

(** The scope of a descriptor: it is closed when the rest returns, with an error or to the
    exit of the process. *)
Definition closing (p : bytes) (m : Prog unit) : Prog unit := fun t =>
  match m t with
  | (t, Panic) => (t, Panic)
  | (t, r) => (t ++ [(Close p, true)], r)
  end.

Fixpoint attempt_all (l : list Call) : Prog unit :=
  match l with [] => mret tt | c :: l => attempt c ≫= fun _ => attempt_all l end.

(** * The hijacked files *)

Definition mock_fifo (target mock : bytes) : Prog unit := call (MkFifo mock) ≫= fun _ => call (BindMount mock target).
Definition mock_file (target mock : bytes) : Prog unit := call (CreateFile mock) ≫= fun _ => call (BindMount mock target).

(** What is there: the custom rules, /system/bin/init, the contents of /init, whether
    selinuxfs is mounted, and whether a file of a policy version exists. *)
Record Env := mkEnv {
  rule_file : option bytes; system_bin_init : bool; init_data : bytes; selinux_mounted : bool; version_exists : bytes -> bool }.

Context (apply_op : PolicyOp -> SePolicy -> SePolicy) (from_file : bytes -> SePolicy).

(** The contexts of the mounted files, from [mount_overlay]. *)
Context (overlay_con : list (bytes * bytes)).

Definition restore_overlay_contexts : Prog unit := attempt_all (map (fun a => SetCon a.1 a.2) overlay_con).

(** [from_file], [magisk_rules], [load_rules] and [to_file]. *)
Definition patched (src rules : bytes) : SePolicy := load_rules apply_op (apply_ops apply_op magisk_rules (from_file src)) rules.

Definition cleanup_and_load (rules : bytes) : Prog unit :=
  attempt (Unmount #"/init") ≫= fun _ =>
  attempt (Unmount SELINUX_LOAD) ≫= fun _ =>
  attempt (Unmount SELINUX_ENFORCE) ≫= fun _ =>
  attempt (Unmount SELINUX_REQPROT) ≫= fun _ =>
  attempt (ToFile SELINUX_LOAD (patched MOCK_LOAD rules)) ≫= fun _ =>
  attempt (SetCon #"/init" #"u:object_r:init_exec:s0") ≫= fun _ =>
  restore_overlay_contexts.

Inductive SePatchStrategy := LdPreload | SelinuxFs | Legacy.

(** Step 0; the strategy and the file of the version. *)
Definition choose (e : Env) : Prog (option (SePatchStrategy * bytes)) :=
  if system_bin_init e then mret (Some (LdPreload, #"/selinux_version")) else
  call (MapFile #"/init") ≫= fun _ =>
  mret (if contains (init_data e) SPLIT_PLAT_CIL then Some (SelinuxFs, #"/selinux_version")
        else if contains (init_data e) #"/selinux_version" then Some (Legacy, #"/selinux_version")
        else if contains (init_data e) #"/sepolicy_version" then Some (Legacy, #"/sepolicy_version")
        else None).

(** Step 1. *)
Definition setup (e : Env) (strat : SePatchStrategy) (policy_ver : bytes) : Prog unit :=
  match strat with
  | LdPreload =>
      call (CopyTo #"init-ld" PRELOAD_LIB) ≫= fun _ =>
      attempt (SetEnv #"LD_PRELOAD" PRELOAD_LIB) ≫= fun _ =>
      call (MkFifo PRELOAD_ACK)
  | SelinuxFs =>
      (if selinux_mounted e then mret tt
       else
         call (Remount #"/proc" #"hidepid=2,gid=3009") ≫= fun _ =>
         attempt (KeepMounts [ #"/proc"; #"/sys"]) ≫= fun _ =>
         call (MountSelinuxFs SELINUX_MNT)) ≫= fun _ =>
      mock_file SELINUX_LOAD MOCK_LOAD ≫= fun _ =>
      mock_fifo SELINUX_ENFORCE MOCK_ENFORCE
  | Legacy =>
      (if version_exists e policy_ver then mret tt else call (CreateFile policy_ver)) ≫= fun _ =>
      mock_fifo policy_ver MOCK_VERSION
  end.

(** The loop that waits until the policy is written, on the sizes that are seen: it ends
    when a size is seen twice.  [Panic]: it is still waiting. *)
Fixpoint wait_size (sz : Z) (sizes : list Z) : Prog unit :=
  match sizes with
  | [] => fun t => (t, Panic)
  | n :: sizes => call (Stat MOCK_LOAD) ≫= fun _ => if negb (sz =? 0) && (sz =? n) then mret tt else wait_size n sizes
  end.

(** Steps 2 and 3: the process that waits. *)
Definition child (strat : SePatchStrategy) (policy_ver rules enforce : bytes) (sizes : list Z) : Prog unit :=
  (match strat with
   | Legacy =>
       attempt (WaitFor SELINUX_ENFORCE) ≫= fun _ =>
       mock_file SELINUX_LOAD MOCK_LOAD ≫= fun _ =>
       mock_fifo SELINUX_REQPROT MOCK_REQPROT ≫= fun _ =>
       call (OpenForWriting MOCK_VERSION) ≫= fun _ =>
       call (Unmount policy_ver)
   | _ => mret tt
   end) ≫= fun _ =>
  match strat with
  | LdPreload =>
      call (OpenForWriting PRELOAD_ACK) ≫= fun _ =>
      closing PRELOAD_ACK (
      call (Remove PRELOAD_POLICY) ≫= fun _ =>
      call (Remove PRELOAD_ACK) ≫= fun _ =>
      attempt (ToFile SELINUX_LOAD (patched PRELOAD_POLICY rules)) ≫= fun _ =>
      restore_overlay_contexts ≫= fun _ =>
      call (WriteTo PRELOAD_ACK #"0"))
  | SelinuxFs =>
      call (OpenForWriting MOCK_ENFORCE) ≫= fun _ =>
      closing MOCK_ENFORCE (
      cleanup_and_load rules ≫= fun _ =>
      call (OpenForReading SELINUX_ENFORCE) ≫= fun _ =>
      call (ReadToEnd SELINUX_ENFORCE) ≫= fun _ =>
      call (WriteTo MOCK_ENFORCE enforce))
  | Legacy =>
      wait_size 0 sizes ≫= fun _ =>
      cleanup_and_load rules ≫= fun _ =>
      call (OpenForWriting SELINUX_REQPROT) ≫= fun _ =>
      call (WriteTo SELINUX_REQPROT #"0") ≫= fun _ =>
      call (OpenForReading MOCK_REQPROT) ≫= fun _ =>
      call (ReadToEnd MOCK_REQPROT)
  end.

(** What becomes of the two processes: the one that called, and the one that waits, if it
    was made, which exits at its end and returns to the caller on an error. *)
Inductive Process := NotForked | Exited | ReturnedError | Waiting.

Definition setup_all (e : Env) : Prog (option (SePatchStrategy * bytes * bytes)) :=
  call (Mkdir SELINUXMOCK) ≫= fun _ =>
  (match rule_file e with Some r => call (ReadFile RULE_FILE) ≫= fun _ => mret r | None => mret [] end) ≫= fun rules =>
  choose e ≫= fun c =>
  match c with
  | Some (strat, policy_ver) => setup e strat policy_ver ≫= fun _ => mret (Some (strat, policy_ver, rules))
  | None => mret None
  end.

(** [handle_sepolicy_impl]: the trace up to the fork and the result of the caller, and the
    trace of the other process. *)
Definition handle_sepolicy_impl (e : Env) (enforce : bytes) (sizes : list Z) : (list Event * logged unit) * (list Event * Process) :=
  match setup_all e [] with
  | (t, Ok (Some (strat, policy_ver, rules))) =>
      ((t, Ok tt), match child strat policy_ver rules enforce sizes t with (t, Ok _) => (t, Exited) | (t, Err _) => (t, ReturnedError) | (t, Panic) => (t, Waiting) end)
  | (t, Ok None) => ((t, Ok tt), (t, NotForked))
  | (t, Err e) => ((t, Err e), (t, NotForked))
  | (t, Panic) => ((t, Panic), (t, NotForked))
  end.

(** * The order of the calls *)

(** What lets init go on after it has handed over its policy: an answer to the preloaded
    library or to the one who reads enforce, also the end of the file that closing the fifo
    gives them, and the reader that the one who writes checkreqprot waits for. *)
Definition continues (e : Event) : bool :=
  match e with
  | (WriteTo p _, true) | (Close p, _) => bool_decide (p = PRELOAD_ACK) || bool_decide (p = MOCK_ENFORCE)
  | (OpenForReading p, true) => bool_decide (p = MOCK_REQPROT)
  | _ => false
  end.

(** Where the policy stands: whether one was loaded into the kernel, whether the file it is
    loaded through is replaced by the one that catches init's own, and whether one of the
    calls failed without which it is not loaded. *)
Record Stand := mkStand { loaded : bool; hijacked : bool; failed : bool }.

Definition needed (c : Call) : bool :=
  match c with
  | Unmount p | ToFile p _ => bool_decide (p = SELINUX_LOAD)
  | Remove p => bool_decide (p = PRELOAD_POLICY) || bool_decide (p = PRELOAD_ACK)
  | _ => false
  end.

Definition step (s : Stand) (e : Event) : Stand :=
  if e.2 then
    match e.1 with
    | BindMount _ p => if bool_decide (p = SELINUX_LOAD) then mkStand (loaded s) true (failed s) else s
    | Unmount p => if bool_decide (p = SELINUX_LOAD) then mkStand (loaded s) false (failed s) else s
    | ToFile p _ => if bool_decide (p = SELINUX_LOAD) && negb (hijacked s) then mkStand true (hijacked s) (failed s) else s
    | _ => s
    end
  else mkStand (loaded s) (hijacked s) (failed s || needed e.1).

Definition stand (t : list Event) : Stand := foldl step (mkStand false false false) t.

(** Init goes on only when a policy was loaded, or one of those calls had failed. *)
Definition blocked_until_loaded (t : list Event) : Prop :=
  forall t1 e t2, t = t1 ++ e :: t2 -> continues e = true -> loaded (stand t1) = true \/ failed (stand t1) = true.

(** ** A logic for the programs *)

(** From a state with [P] a program stays within the order and ends with [Q], or fails with
    [R]. *)
Definition triple {A} (P : Stand -> Prop) (m : Prog A) (Q R : Stand -> Prop) : Prop :=
  forall t, blocked_until_loaded t -> P (stand t) ->
    blocked_until_loaded (m t).1 /\ match (m t).2 with Ok _ => Q (stand (m t).1) | Err _ => R (stand (m t).1) | Panic => True end.

Definition good (s : Stand) : Prop := loaded s = true \/ failed s = true.

(** The file is the real one. *)
Definition clear (s : Stand) : Prop := hijacked s = false \/ failed s = true.

Lemma stand_snoc t e : stand (t ++ [e]) = step (stand t) e.
Proof. unfold stand. by rewrite foldl_app. Qed.

Lemma blocked_snoc t e : blocked_until_loaded t -> (continues e = true -> good (stand t)) -> blocked_until_loaded (t ++ [e]).
Proof.
  intros Ht He t1 e' t2 Heq Hc. destruct t2 as [|x t2 _] using rev_ind.
  - apply app_inj_tail in Heq as [-> ->]. by apply He.
  - rewrite app_comm_cons, app_assoc in Heq. apply app_inj_tail in Heq as [-> _]. by eapply Ht.
Qed.

Lemma blocked_nil : blocked_until_loaded [].
Proof. intros t1 e t2 Heq. by destruct t1. Qed.

Lemma triple_call (P Q R : Stand -> Prop) c :
  (forall s, P s -> (forall b, continues (c, b) = true -> good s) /\ Q (step s (c, true)) /\ R (step s (c, false))) -> triple P (call c) Q R.
Proof.
  intros H t Ht HP. destruct (H _ HP) as (H1 & H2 & H3). unfold call. cbn [fst snd]. split; [by apply blocked_snoc; [| apply H1] |].
  destruct (ok t c); by rewrite stand_snoc.
Qed.

Lemma triple_attempt (P Q : Stand -> Prop) c :
  (forall s b, P s -> (continues (c, b) = true -> good s) /\ Q (step s (c, b))) -> triple P (attempt c) Q (fun _ => False).
Proof.
  intros H t Ht HP. unfold attempt. cbn [fst snd]. split; [apply blocked_snoc; [done | by apply (H _ _ HP)] |]. rewrite stand_snoc. by apply H.
Qed.

Lemma triple_ret {A} (P R : Stand -> Prop) (a : A) : triple P (mret a) P R.
Proof. done. Qed.

Lemma triple_bind {A B} (P Q' Q R : Stand -> Prop) (m : Prog A) (f : A -> Prog B) :
  triple P m Q' R -> (forall a, triple Q' (f a) Q R) -> triple P (m ≫= f) Q R.
Proof.
  intros Hm Hf t Ht HP. unfold mbind, prog_bind. destruct (Hm t Ht HP) as [H1 H2]. destruct (m t) as [t' [a|e|]]; cbn [fst snd] in *; [by apply Hf | done | done].
Qed.

Lemma triple_weaken {A} (P P' Q Q' R R' : Stand -> Prop) (m : Prog A) :
  triple P m Q R -> (forall s, P' s -> P s) -> (forall s, Q s -> Q' s) -> (forall s, R s -> R' s) -> triple P' m Q' R'.
Proof. intros Hm HP HQ HR t Ht H. destruct (Hm t Ht (HP _ H)) as [H1 H2]. split; [done |]. destruct (m t).2; auto. Qed.

Lemma triple_closing p (P : Stand -> Prop) m : triple P m good good -> triple P (closing p m) good good.
Proof.
  intros Hm t Ht HP. unfold closing. destruct (Hm t Ht HP) as [H1 H2]. destruct (m t) as [t' [a|e|]]; cbn [fst snd] in *; [| | done].
  all: split; [by apply blocked_snoc | by rewrite stand_snoc].
Qed.

(** Calls that change nothing of this. *)
Definition idle (c : Call) : bool :=
  match c with
  | BindMount _ p => negb (bool_decide (p = SELINUX_LOAD))
  | Unmount p => negb (bool_decide (p = SELINUX_LOAD))
  | ToFile _ _ | Remove _ | WriteTo _ _ | Close _ => false
  | OpenForReading p => negb (bool_decide (p = MOCK_REQPROT))
  | _ => true
  end.

Lemma idle_step c s b : idle c = true -> continues (c, b) = false /\ step s (c, b) = mkStand (loaded s) (hijacked s) (failed s).
Proof. destruct s, c; cbn; try done; intros H; try (apply negb_true_iff in H); destruct b; cbn; rewrite ?H, ?orb_false_r; done. Qed.

Lemma triple_idle (P R : Stand -> Prop) c : (forall s, P s -> R s) -> idle c = true -> triple P (call c) P R.
Proof.
  intros HPR Hc. apply triple_call. intros s HP. destruct s. split; [intros b; by destruct (idle_step c (mkStand loaded0 hijacked0 failed0) b Hc) as [-> _] |].
  destruct (idle_step c (mkStand loaded0 hijacked0 failed0) true Hc) as [_ ->], (idle_step c (mkStand loaded0 hijacked0 failed0) false Hc) as [_ ->]. cbn. auto.
Qed.

Lemma triple_skip (P R : Stand -> Prop) c : idle c = true -> triple P (attempt c) P R.
Proof.
  intros Hc. eapply triple_weaken; [apply (triple_attempt P P c) | done | done | done]. intros s b HP. destruct s.
  by destruct (idle_step c (mkStand loaded0 hijacked0 failed0) b Hc) as [-> ->].
Qed.

Lemma triple_overlay (P R : Stand -> Prop) : triple P restore_overlay_contexts P R.
Proof.
  unfold restore_overlay_contexts. induction overlay_con as [|c l IH]; [apply triple_ret |]. cbn [map attempt_all].
  apply (triple_bind _ P); [by apply triple_skip | done].
Qed.

(** The policy is loaded when its file is the real one. *)
Lemma triple_load (R : Stand -> Prop) sp : triple clear (attempt (ToFile SELINUX_LOAD sp)) good R.
Proof.
  eapply triple_weaken; [apply (triple_attempt clear good) | done | done | done]. intros [l h f] b Hc. split; [by destruct b |].
  unfold clear, good, step in *. cbn [hijacked failed loaded fst snd] in *. destruct b; cbn [needed].
  - rewrite bool_decide_eq_true_2 by done. cbn [andb]. destruct h; cbn; naive_solver.
  - rewrite bool_decide_eq_true_2 by done. cbn. rewrite orb_true_r. by right.
Qed.

Lemma triple_cleanup (R : Stand -> Prop) rules : triple (fun _ => True) (cleanup_and_load rules) good R.
Proof.
  unfold cleanup_and_load. apply (triple_bind _ (fun _ => True)); [by apply triple_skip | intros _].
  apply (triple_bind _ clear); [| intros _].
  { eapply triple_weaken; [apply (triple_attempt (fun _ => True) clear) | done | done | done]. intros [l h f] b _. split; [by destruct b |].
    unfold clear, step. cbn [hijacked failed loaded fst snd]. destruct b; [by left | right; cbn; apply orb_true_r]. }
  do 2 (apply (triple_bind _ clear); [by apply triple_skip | intros _]).
  apply (triple_bind _ good); [apply triple_load | intros _]. apply (triple_bind _ good); [by apply triple_skip | intros _]. apply triple_overlay.
Qed.

Lemma triple_wait (P R : Stand -> Prop) sz sizes : (forall s, P s -> R s) -> triple P (wait_size sz sizes) P R.
Proof.
  intros HPR. revert sz. induction sizes as [|n sizes IH]; intros sz; cbn [wait_size]; [by intros t Ht HP |].
  apply (triple_bind _ P); [by apply triple_idle | intros _]. destruct (negb (sz =? 0) && (sz =? n)); [apply triple_ret | apply IH].
Qed.

(** Answering init when the policy is loaded. *)
Lemma triple_answer c : (forall s b, good s -> good (step s (c, b))) -> triple good (call c) good good.
Proof. intros H. apply triple_call. auto. Qed.

(** A call that must succeed for the policy to be loaded. *)
Lemma triple_remove p : bool_decide (p = PRELOAD_POLICY) || bool_decide (p = PRELOAD_ACK) = true -> triple clear (call (Remove p)) clear good.
Proof. intros Hp. apply triple_call. intros [l h f] Hc. split; [done |]. split; [done |]. unfold good, step. cbn. rewrite Hp, orb_true_r. by right. Qed.

Lemma triple_child strat policy_ver rules enforce sizes :
  triple (fun s => strat = LdPreload -> hijacked s = false) (child strat policy_ver rules enforce sizes) good (fun _ => True).
Proof.
  unfold child. destruct strat.
  - apply (triple_bind _ clear); [eapply triple_weaken; [apply (triple_ret clear (fun _ => True) tt) | intros s H; left; by apply H | done | done] | intros _].
    apply (triple_bind _ clear); [by apply triple_idle | intros _]. eapply triple_weaken; [apply (triple_closing _ clear) | done | done | done].
    do 2 (apply (triple_bind _ clear); [by apply triple_remove | intros _]). apply (triple_bind _ good); [apply triple_load | intros _].
    apply (triple_bind _ good); [apply triple_overlay | intros _]. apply triple_answer. intros [l h f] [] H; exact H || (unfold good in *; cbn in *; by rewrite orb_false_r).
  - apply (triple_bind _ (fun _ => True)); [by intros t Ht _ | intros _].
    apply (triple_bind _ (fun _ => True)); [by apply triple_idle | intros _]. eapply triple_weaken; [apply (triple_closing _ (fun _ => True)) | done | done | done].
    apply (triple_bind _ good); [apply triple_cleanup | intros _]. do 2 (apply (triple_bind _ good); [by apply triple_idle | intros _]).
    apply triple_answer. intros [l h f] [] H; exact H || (unfold good in *; cbn in *; by rewrite orb_false_r).
  - apply (triple_bind _ (fun _ => True)).
    { unfold mock_file, mock_fifo. apply (triple_bind _ (fun _ => True)); [eapply triple_weaken; [by apply (triple_skip (fun _ => True) (fun _ => True)) | done..] | intros _].
      apply (triple_bind _ (fun _ => True)); [apply (triple_bind _ (fun _ => True)); [by apply triple_idle | intros _; apply triple_call; by intros [] _] | intros _].
      apply (triple_bind _ (fun _ => True)); [apply (triple_bind _ (fun _ => True)); [by apply triple_idle | intros _; by apply triple_idle] | intros _].
      apply (triple_bind _ (fun _ => True)); [by apply triple_idle | intros _; apply triple_call; by intros [] _]. }
    intros _. apply (triple_bind _ (fun _ => True)); [by apply triple_wait | intros _].
    apply (triple_bind _ good); [apply triple_cleanup | intros _].
    apply (triple_bind _ good); [by apply triple_idle | intros _].
    apply (triple_bind _ good); [eapply triple_weaken; [apply triple_answer | done | done | done]; intros [l h f] [] H; exact H || (unfold good in *; cbn in *; by rewrite orb_false_r) | intros _].
    apply (triple_bind _ good); [| intros _; by apply triple_idle].
    eapply triple_weaken; [apply triple_answer | done | done | done]; intros [l h f] [] H; exact H || (unfold good in *; cbn in *; by rewrite orb_false_r).
Qed.

(** ** What the calls are *)

(** A program all of whose calls have a property. *)
Definition adds {A} (P : Event -> Prop) (m : Prog A) : Prop := forall t, exists l, (m t).1 = t ++ l /\ Forall P l.

Lemma adds_call (P : Event -> Prop) c : (forall b, P (c, b)) -> adds P (call c) /\ adds P (attempt c).
Proof. intros H. split; intros t; exists [(c, ok t c)]; split; try done; by constructor. Qed.

Lemma adds_ret {A} P (a : A) : adds P (mret a).
Proof. intros t. exists []. cbn. by rewrite app_nil_r. Qed.

Lemma adds_bind {A B} P (m : Prog A) (f : A -> Prog B) : adds P m -> (forall a, adds P (f a)) -> adds P (m ≫= f).
Proof.
  intros Hm Hf t. unfold mbind, prog_bind. destruct (Hm t) as (l & Hl & HP). destruct (m t) as [t' [a | e |]]; cbn [fst] in *; [| by exists l..].
  destruct (Hf a t') as (l2 & Hl2 & HP2). exists (l ++ l2). rewrite Hl2, Hl, app_assoc. split; [done |]. by apply Forall_app.
Qed.

Lemma adds_closing (P : Event -> Prop) p m : P (Close p, true) -> adds P m -> adds P (closing p m).
Proof.
  intros Hp Hm t. unfold closing. destruct (Hm t) as (l & Hl & HP). destruct (m t) as [t' [a | e |]]; cbn [fst] in *; [| | by exists l].
  all: exists (l ++ [(Close p, true)]); rewrite Hl, app_assoc; split; [done |]; apply Forall_app; by repeat constructor.
Qed.

(** Calls of the preparation. *)
Definition preparing (e : Event) : Prop := continues e = false /\ needed e.1 = false.

Ltac adds_ :=
  lazymatch goal with
  | |- adds _ (call _) => apply adds_call; intros []; reflexivity || (split; reflexivity)
  | |- adds _ (attempt _) => apply adds_call; intros []; reflexivity || (split; reflexivity)
  | |- adds _ (mret _) => apply adds_ret
  | |- adds _ (mbind _ _) => apply adds_bind; [adds_ | intros ?; adds_]
  | |- adds _ (match ?x with _ => _ end) => destruct x; adds_
  | |- adds _ (mock_file _ _) => unfold mock_file; adds_
  | |- adds _ (mock_fifo _ _) => unfold mock_fifo; adds_
  | _ => idtac
  end.

Lemma setup_prepares e : adds preparing (setup_all e).
Proof. unfold setup_all, choose, setup. adds_. Qed.

Definition no_hijack (e : Event) : Prop := match e.1 with BindMount _ p => bool_decide (p = SELINUX_LOAD) = false | _ => True end.

Lemma setup_no_hijack e policy_ver : adds no_hijack (setup e LdPreload policy_ver).
Proof. unfold setup. adds_; apply adds_call; by intros []. Qed.

Lemma stand_no_hijack t : Forall no_hijack t -> hijacked (stand t) = false.
Proof.
  induction t as [|e t IH] using rev_ind; [done |]. intros [Ht He]%Forall_app. apply Forall_cons in He as [He _]. rewrite stand_snoc.
  specialize (IH Ht). destruct (stand t) as [l h f]. cbn in IH. subst h. destruct e as [c b]. unfold step, no_hijack in *. cbn in *.
  destruct b; [| done]. destruct c; cbn; try done; repeat case_bool_decide; try done.
Qed.

Lemma preparing_blocked t : Forall preparing t -> blocked_until_loaded t /\ (forall q sp b, (ToFile q sp, b) ∈ t -> q <> SELINUX_LOAD).
Proof.
  intros H. rewrite Forall_forall in H. split.
  - intros t1 e t2 -> Hc. destruct (H e) as [Hn _]; [set_solver |]. congruence.
  - intros q sp b [_ Hn]%H. cbn in Hn. by apply bool_decide_eq_false in Hn.
Qed.

Lemma bind_Ok {A B} (m : Prog A) (f : A -> Prog B) t b :
  ((m ≫= f) t).2 = Ok b -> exists t1 a, m t = (t1, Ok a) /\ (f a t1).2 = Ok b.
Proof. unfold mbind, prog_bind. destruct (m t) as [t1 [a | |]]; [eauto | done..]. Qed.

(** What is known when the process that waits is made. *)
Lemma setup_spec e strat policy_ver rules :
  (setup_all e []).2 = Ok (Some (strat, policy_ver, rules)) ->
  rules = default [] (rule_file e) /\ (strat = LdPreload -> hijacked (stand (setup_all e []).1) = false).
Proof.
  intros H. assert (rules = default [] (rule_file e) /\ (strat = LdPreload -> system_bin_init e = true)) as [Hr Hsys].
  { unfold setup_all in H. apply bind_Ok in H as (t1 & [] & _ & H). apply bind_Ok in H as (t2 & r & Hr & H). apply bind_Ok in H as (t3 & c & Hc & H).
    destruct c as [[st pv]|]; [| done]. apply bind_Ok in H as (t4 & [] & _ & H). injection H as -> -> ->. split.
    - destruct (rule_file e) as [x|]; [| by injection Hr]. assert ((call (ReadFile RULE_FILE) ≫= fun _ => mret x) t1 = (t2, Ok rules)) as Hx by exact Hr.
      apply (f_equal snd), bind_Ok in Hx as (t5 & [] & _ & Hx). by injection Hx.
    - intros ->. unfold choose in Hc. destruct (system_bin_init e); [done |]. apply (f_equal snd), bind_Ok in Hc as (t5 & [] & _ & Hc). revert Hc.
      destruct (contains _ _); [done |]. destruct (contains _ _); [done |]. by destruct (contains _ _). }
  split; [done |]. intros Hst. specialize (Hsys Hst).
  assert (adds no_hijack (setup_all e)) as Ha.
  { unfold setup_all, choose. rewrite Hsys. apply adds_bind; [adds_; apply adds_call; by intros [] | intros _]. apply adds_bind; [adds_; apply adds_call; by intros [] | intros r].
    intros t. change (mret (Some (LdPreload, #"/selinux_version")) ≫= _) with (setup e LdPreload #"/selinux_version" ≫= fun _ : unit => mret (Some (LdPreload, #"/selinux_version", r))).
    apply adds_bind; [apply setup_no_hijack | intros _; apply adds_ret]. }
  destruct (Ha []) as (l & -> & Hl). by apply stand_no_hijack.
Qed.

(** The policies that are loaded. *)
Definition load_ok (rules : bytes) (e : Event) : Prop :=
  match e.1 with ToFile p sp => p = SELINUX_LOAD /\ exists src, src ∈ [PRELOAD_POLICY; MOCK_LOAD] /\ sp = patched src rules | _ => True end.

Ltac loads_ :=
  lazymatch goal with
  | |- adds _ (call _) => apply adds_call; intros []; exact I || (split; [done |]; eexists; split; [| reflexivity]; set_solver)
  | |- adds _ (attempt _) => apply adds_call; intros []; exact I || (split; [done |]; eexists; split; [| reflexivity]; set_solver)
  | |- adds _ (mret _) => apply adds_ret
  | |- adds _ (mbind _ _) => apply adds_bind; [loads_ | intros ?; loads_]
  | |- adds _ (closing _ _) => apply adds_closing; [exact I | loads_]
  | |- adds _ (mock_file _ _) => unfold mock_file; loads_
  | |- adds _ (mock_fifo _ _) => unfold mock_fifo; loads_
  | |- adds _ (cleanup_and_load _) => unfold cleanup_and_load; loads_
  | _ => idtac
  end.

Lemma child_loads strat policy_ver rules enforce sizes : adds (load_ok rules) (child strat policy_ver rules enforce sizes).
Proof.
  assert (adds (load_ok rules) restore_overlay_contexts) as Ho.
  { unfold restore_overlay_contexts. induction overlay_con as [|c l IH]; [apply adds_ret |]. apply adds_bind; [by apply adds_call | done]. }
  assert (forall sz, adds (load_ok rules) (wait_size sz sizes)) as Hw.
  { induction sizes as [|n l IH]; intros sz; cbn [wait_size]; [intros t; exists []; by rewrite app_nil_r |]. apply adds_bind; [by apply adds_call | intros _].
    destruct (_ && _); [apply adds_ret | apply IH]. }
  unfold child. destruct strat; loads_; done.
Qed.

Lemma patched_ops src rules : patched src rules = apply_ops apply_op (magisk_rules ++ text_ops rules) (from_file src).
Proof. unfold patched. by rewrite load_rules_ops, apply_ops_app. Qed.

(** Every call succeeds. *)
Definition total {A} (m : Prog A) : Prop := forall t, Forall (fun e => e.2 = true) t -> exists a, (m t).2 = Ok a /\ Forall (fun e => e.2 = true) (m t).1.

Lemma total_bind {A B} (m : Prog A) (f : A -> Prog B) : total m -> (forall a, total (f a)) -> total (m ≫= f).
Proof. intros Hm Hf t Ht. unfold mbind, prog_bind. destruct (Hm t Ht) as (a & Ha & Ht'). destruct (m t) as [t' r]. cbn in Ha, Ht'. subst r. by apply Hf. Qed.

Section AllOk.
Hypothesis all_ok : forall t c, ok t c = true.

Lemma total_call c : total (call c) /\ total (attempt c).
Proof. split; intros t Ht; exists tt; unfold call, attempt; rewrite all_ok; (split; [done |]); apply Forall_app; by repeat constructor. Qed.

Lemma total_ret {A} (a : A) : total (mret a).
Proof. intros t Ht. by exists a. Qed.

Lemma total_all l : total (attempt_all l).
Proof. induction l as [|c l IH]; [apply total_ret |]. apply total_bind; [apply total_call | intros _; exact IH]. Qed.

Lemma total_closing p m : total m -> total (closing p m).
Proof.
  intros Hm t Ht. unfold closing. destruct (Hm t Ht) as (a & Ha & Ht'). destruct (m t) as [t' r]. cbn in Ha, Ht'. subst r. exists a. split; [done |]. apply Forall_app. by repeat constructor.
Qed.

(** The size is seen twice, and is not zero. *)
Lemma total_wait sz sizes : (exists l n r, sz :: sizes = l ++ n :: n :: r /\ n <> 0) -> total (wait_size sz sizes).
Proof.
  revert sz. induction sizes as [|x sizes IH]; intros sz (l & n & r & Heq & Hn).
  - by destruct l as [|? [|? ?]].
  - cbn [wait_size]. apply total_bind; [apply total_call | intros _]. destruct (negb (sz =? 0) && (sz =? x)) eqn:E; [apply total_ret |].
    apply IH. destruct l as [|y l].
    + injection Heq as -> -> ->. rewrite Z.eqb_refl, andb_true_r in E. apply negb_false_iff, Z.eqb_eq in E. done.
    + injection Heq as -> Heq. eauto 10.
Qed.

Ltac total_ :=
  lazymatch goal with
  | |- total (call _) => apply total_call
  | |- total (attempt _) => apply total_call
  | |- total (attempt_all _) => apply total_all
  | |- total restore_overlay_contexts => apply total_all
  | |- total (mret _) => apply total_ret
  | |- total (closing _ _) => apply total_closing; total_
  | |- total (mbind _ _) => apply total_bind; [total_ | intros ?; total_]
  | |- total (mock_file _ _) => unfold mock_file; total_
  | |- total (mock_fifo _ _) => unfold mock_fifo; total_
  | |- total (cleanup_and_load _) => unfold cleanup_and_load; total_
  | _ => idtac
  end.

Lemma child_total strat policy_ver rules enforce sizes :
  (exists l n r, sizes = l ++ n :: n :: r /\ n <> 0) -> total (child strat policy_ver rules enforce sizes).
Proof.
  intros (l & n & r & Hs & Hn). unfold child. destruct strat; total_. apply total_wait. exists (0 :: l), n, r. by rewrite Hs.
Qed.

Lemma setup_total e strat policy_ver : total (setup e strat policy_ver).
Proof. unfold setup. destruct strat; [| destruct (selinux_mounted e) | destruct (version_exists e policy_ver)]; total_. Qed.
End AllOk.

Lemma all_ok_not_failed t : Forall (fun e => e.2 = true) t -> failed (stand t) = false.
Proof.
  induction t as [|[c b] t IH] using rev_ind; [done |]. intros [Ht He]%Forall_app. apply Forall_cons in He as [He _]. cbn in He. subst b. rewrite stand_snoc.
  specialize (IH Ht). unfold step. cbn. destruct c; try done; repeat case_match; done.
Qed.

(** The setup of the policy is one that is known. *)
Definition known (e : Env) : bool :=
  system_bin_init e || contains (init_data e) SPLIT_PLAT_CIL || contains (init_data e) #"/selinux_version" || contains (init_data e) #"/sepolicy_version".

Lemma choose_known e t : (forall t c, ok t c = true) -> known e = true -> Forall (fun e => e.2 = true) t ->
  exists c t', choose e t = (t', Ok (Some c)) /\ Forall (fun e => e.2 = true) t'.
Proof.
  intros Hok Hk Ht. unfold choose, known in *. destruct (system_bin_init e); [by do 2 eexists |].
  unfold mbind, prog_bind, call. rewrite Hok. cbn [orb] in Hk.
  assert (Forall (fun e => e.2 = true) (t ++ [(MapFile #"/init", true)])) as Ht' by (apply Forall_app; by repeat constructor).
  destruct (contains (init_data e) SPLIT_PLAT_CIL); [by do 2 eexists |]. destruct (contains (init_data e) #"/selinux_version"); [by do 2 eexists |].
  cbn [orb] in Hk. rewrite Hk. by do 2 eexists.
Qed.

Lemma setup_known e : (forall t c, ok t c = true) -> known e = true -> exists x, (setup_all e []).2 = Ok (Some x) /\ Forall (fun e => e.2 = true) (setup_all e []).1.
Proof.
  intros Hok Hk. cut (exists t x, setup_all e [] = (t, Ok (Some x)) /\ Forall (fun e => e.2 = true) t); [intros (t & x & -> & Ht); by exists x |].
  unfold setup_all. unfold mbind at 1, prog_bind at 1. unfold call at 1. rewrite Hok. cbn [app]. set (t0 := [_]).
  assert (Forall (fun e => e.2 = true) t0) as H0 by by repeat constructor. clearbody t0.
  set (rd := match rule_file e with Some r => call (ReadFile RULE_FILE) ≫= fun _ => mret r | None => mret [] end).
  assert (total rd) as Hr
    by (subst rd; destruct (rule_file e); [apply total_bind; [by apply total_call | intros _; apply total_ret] | apply total_ret]).
  unfold mbind at 1, prog_bind at 1. destruct (Hr t0 H0) as (r & Hr1 & H1). destruct (rd t0) as [t1 r1]. cbn in Hr1, H1. subst r1.
  destruct (choose_known e t1 Hok Hk H1) as ([strat pv] & t2 & Hc & H2). unfold mbind at 1, prog_bind at 1. rewrite Hc.
  destruct (total_bind _ (fun _ => mret (Some (strat, pv, r))) (setup_total Hok e strat pv) (fun _ => total_ret _) t2 H2) as (x & Hx & H3).
  unfold mbind, prog_bind in Hx, H3 |- *. destruct (setup e strat pv t2) as [t3 [[]| |]]; try done. by exists t3, (strat, pv, r).
Qed.

End Run.
End Calls.
Arguments Call : clear implicits.

(** Policies as the operations that made them. *)
Definition demo_env : Env := mkEnv (Some (#"permissive { untrusted_app }" ++ [newline])) false (#"x" ++ #"/sepolicy_version" ++ #"y") false (fun _ => false).
Definition demo_handle (ok : list (Call (list PolicyOp) * bool) -> Call (list PolicyOp) -> bool) (e : Env) :=
  handle_sepolicy_impl ok (fun op sp => sp ++ [op]) (fun _ => []) [(#"/system/bin/adbd", #"u:object_r:adbd_exec:s0")] e #"1" [0; 5; 9; 9].


(** With a preloaded library, and with one that reads enforce. *)
Definition demo_preload : Env := mkEnv None true [] false (fun _ => false).
Definition demo_selinuxfs : Env := mkEnv None false SPLIT_PLAT_CIL true (fun _ => false).

(** The failures matter: when the file that catches init's policy cannot be unmounted, the
    changed policy is written to it and init goes on without one; and when a file of the
    preloaded library cannot be removed, the process returns before it loads anything, its
    descriptor is closed, and init goes on. *)
Theorem init_released_without_policy :
  let released ok e := existsb continues (demo_handle ok e).2.1 && negb (loaded (stand (demo_handle ok e).2.1)) in
  released (fun _ c => match c with Unmount p => negb (bool_decide (p = SELINUX_LOAD)) | _ => true end) demo_selinuxfs = true /\
  released (fun _ c => match c with Remove _ => false | _ => true end) demo_preload = true.
Proof. vm_compute. done. Qed.

(** An error in the process that waits, here that the file of the version cannot be unmounted,
    makes it return to the caller: a second process goes on with the start of the system,
    while init waits for an answer that does not come. *)
Theorem child_returns_on_error :
  let ok (_ : list (Call (list PolicyOp) * bool)) c := match c with Unmount _ => false | _ => true end in
  (demo_handle ok demo_env).1.2 = Ok tt /\ (demo_handle ok demo_env).2.2 = ReturnedError /\ existsb continues (demo_handle ok demo_env).2.1 = false.
Proof. vm_compute. done. Qed.
End InitPolicy.
