(* ===== verification/Boot.v ===== *)
(** core/bootstages.rs: the boot stages of the daemon, as a state machine over the
    requests that init sends, and the protection against boot loops.

    What a stage does outside of the daemon (scripts, mounts, modules) is a log of
    actions; the counter and the settings are in the database.  The outcome of
    [setup_magisk_env] and the system properties are part of what a boot sees. *)

From S2P Require Import Prelude Text Numeric Files Db.

Module Boot.
Import Files Db.

(** * State *)

(** [BootState]: a set of bits. *)
Definition PostFsDataDone : Z := 1.
Definition LateStartDone : Z := 2.
Definition BootComplete : Z := 4.
Definition SafeMode : Z := 8.

Definition contains_ (s f : Z) : bool := Z.land s f =? f.
Definition insert_ (s f : Z) : Z := Z.lor s f.

Inductive Action :=
| PreserveStub | MkSecureDir | PruneSuAccess | SetupEnv
| DisableModules | CommonScripts (stage : bytes) | InitDenylist | HandleModules | CleanMounts
| ModuleScripts (stage : bytes) | SetupPreinit | EnsureManager | ZygiskReset.

#[export] Instance Action_eq_dec : EqDecision Action.
Proof. solve_decision. Defined.

Inductive RequestCode := POST_FS_DATA | LATE_START | BOOT_COMPLETE | OTHER.

#[export] Instance RequestCode_eq_dec : EqDecision RequestCode.
Proof. solve_decision. Defined.

(** What a request sees of the system. *)
Record Sys := mkSys {
  proc_mounts : option bytes;
  get_prop : bytes -> bytes;
  secure_dir_exists : bool;
  magisk_env_ok : bool;        (** the result of [setup_magisk_env] *)
  check_key_combo : bool;
  has_modules : bool;          (** [handle_modules] filled the module list *)
  clock : Z
}.

(** [check_data] *)
Definition check_data (sys : Sys) : bool :=
  match proc_mounts sys with
  | None => false
  | Some s =>
      let mnt := each_line (fun line mnt =>
        if contains line #" /data " && negb (contains line #"tmpfs") then (true, false) else (mnt, true))
        (utf8_lines (read_lines s)) false in
      if negb mnt then false else
      let crypto := get_prop sys #"ro.crypto.state" in
      if negb (is_empty crypto) then
        if negb (bool_decide (crypto = #"encrypted")) then true
        else negb (is_empty (get_prop sys #"init.svc.vold"))
      else true
  end.

Section Stages.
Context {S : Type} `{Sqlite S} (oc : bool) (sdk_int : Z) (is_emulator : bool).

Record St := mkSt {
  flags : Z;
  db : option S;
  zygisk_enabled : bool;
  module_list : bool;          (** set once by [handle_modules] *)
  acts : list Action           (** everything done in this boot, oldest first *)
}.

Definition act (a : Action) (s : St) : St := mkSt (flags s) (db s) (zygisk_enabled s) (module_list s) (acts s ++ [a]).
Definition set_flag (f : Z) (s : St) : St := mkSt (insert_ (flags s) f) (db s) (zygisk_enabled s) (module_list s) (acts s).
Definition with_conn (d : option S) (s : St) : St := mkSt (flags s) d (zygisk_enabled s) (module_list s) (acts s).
Definition set_setting (t : Z) (k : DbEntryKey) (v : Z) (s : St) : St :=
  with_conn (set_db_setting t k v (db s)).1 s.

(** [post_fs_data]: whether the boot stops here, in safe mode. *)
Definition post_fs_data (sys : Sys) (s : St) : logged (St * bool) :=
  let s := act PreserveStub s in
  let missing := negb (secure_dir_exists sys) in
  let s := if missing && (sdk_int <? 24) then act MkSecureDir s else s in
  if missing && negb (sdk_int <? 24) then Ok (s, true) else
  let s := act SetupEnv (act PruneSuAccess s) in
  if negb (magisk_env_ok sys) then Ok (s, true) else
  let '(d, boot_cnt) := get_db_setting is_emulator (clock sys) KBootloopCount (db s) in
  let s := with_conn d s in
  next ← s_arith oc 32 (boot_cnt + 1);
  let s := set_setting (clock sys) KBootloopCount next s in
  let safe_mode :=
    (2 <=? boot_cnt) ||
    bool_decide (get_prop sys #"persist.sys.safemode" = #"1") ||
    bool_decide (get_prop sys #"ro.sys.safemode" = #"1") ||
    check_key_combo sys in
  if safe_mode then
    Ok (set_setting (clock sys) KZygiskConfig 0 (act DisableModules s), true)
  else
    let s := act (CommonScripts #"post-fs-data") s in
    let '(d, z) := get_db_setting is_emulator (clock sys) KZygiskConfig (db s) in
    let s := mkSt (flags s) d (negb (z =? 0)) (module_list s || has_modules sys) (acts s) in
    Ok (act CleanMounts (act HandleModules (act InitDenylist s)), false).

Definition late_start (s : St) : St :=
  let s := act (CommonScripts #"service") s in
  if module_list s then act (ModuleScripts #"service") s else s.

Definition boot_complete (sys : Sys) (s : St) : St :=
  let s := set_setting (clock sys) KBootloopCount 0 s in
  let s := if negb (secure_dir_exists sys) then act MkSecureDir s else s in
  let s := act EnsureManager (act SetupPreinit s) in
  if zygisk_enabled s then act ZygiskReset s else s.

(** [boot_stage_handler]; the lock makes one request a step. *)
Definition boot_stage_handler (code : RequestCode) (sys : Sys) (s : St) : logged St :=
  match code with
  | POST_FS_DATA =>
      if check_data sys && negb (contains_ (flags s) PostFsDataDone) then
        '(s, stop) ← post_fs_data sys s;
        let s := if (stop : bool) then set_flag SafeMode s else s in
        Ok (set_flag PostFsDataDone s)
      else Ok s
  | LATE_START =>
      if contains_ (flags s) PostFsDataDone && negb (contains_ (flags s) SafeMode)
      then Ok (set_flag LateStartDone (late_start s)) else Ok s
  | BOOT_COMPLETE =>
      if contains_ (flags s) PostFsDataDone
      then Ok (boot_complete sys (set_flag BootComplete s)) else Ok s
  | OTHER => Ok s
  end.

(** The requests of a boot, in whatever order they arrive. *)
Inductive reachable (s0 : St) : St -> Prop :=
| reach_start : reachable s0 s0
| reach_step s code sys s' :
    reachable s0 s -> boot_stage_handler code sys s = Ok s' -> reachable s0 s'.

(** The same as a list of requests. *)
Fixpoint handle_all (reqs : list (RequestCode * Sys)) (s : St) : logged St :=
  match reqs with
  | [] => Ok s
  | (code, sys) :: reqs => s ← boot_stage_handler code sys s; handle_all reqs s
  end.

(** The daemon at the start of a boot. *)
Definition fresh (d : option S) : St := mkSt 0 d false false [].

(** * The order of the stages *)

(** The stages that have run, as the flags and the log tell. *)
Record Inv (s : St) : Prop := {
  inv_late : contains_ (flags s) LateStartDone = true ->
    contains_ (flags s) PostFsDataDone = true /\ contains_ (flags s) SafeMode = false;
  inv_complete : contains_ (flags s) BootComplete = true -> contains_ (flags s) PostFsDataDone = true;
  inv_safe : contains_ (flags s) SafeMode = true ->
    (HandleModules ∉ acts s) /\ (CommonScripts #"post-fs-data" ∉ acts s) /\ (CommonScripts #"service" ∉ acts s);
  inv_before : contains_ (flags s) PostFsDataDone = false -> acts s = [] /\ flags s = 0;
  inv_once : (count_occ (fun a b => decide (a = b)) (acts s) HandleModules <= 1)%nat
}.

Lemma contains_bit s k : 0 <= k -> contains_ s (2 ^ k) = Z.testbit s k.
Proof using.
  intros Hk. unfold contains_.
  assert (Z.land s (2 ^ k) = if Z.testbit s k then 2 ^ k else 0) as ->.
  { apply Z.bits_inj'. intros n Hn. rewrite Z.land_spec. destruct (decide (n = k)) as [-> |].
    - rewrite Z.pow2_bits_true, andb_true_r by done. destruct (Z.testbit s k); [by rewrite Z.pow2_bits_true | by rewrite Z.bits_0].
    - rewrite Z.pow2_bits_false, andb_false_r by congruence.
      destruct (Z.testbit s k); [by rewrite Z.pow2_bits_false by congruence | by rewrite Z.bits_0]. }
  assert (0 < 2 ^ k) by (apply Z.pow_pos_nonneg; lia).
  destruct (Z.testbit s k); [apply Z.eqb_refl | apply Z.eqb_neq; lia].
Qed.

Lemma contains_insert s j k :
  0 <= j -> 0 <= k -> contains_ (insert_ s (2 ^ j)) (2 ^ k) = contains_ s (2 ^ k) || bool_decide (j = k).
Proof using.
  intros. rewrite !contains_bit by done. unfold insert_. rewrite Z.lor_spec. f_equal.
  case_bool_decide; [subst; by apply Z.pow2_bits_true | by apply Z.pow2_bits_false].
Qed.

(** The flags are distinct bits. *)
Definition is_flag (f : Z) : Prop := f ∈ [PostFsDataDone; LateStartDone; BootComplete; SafeMode].

Lemma is_flag_bit f : is_flag f -> exists k, 0 <= k /\ f = 2 ^ k.
Proof using.
  unfold is_flag. rewrite !elem_of_cons, elem_of_nil. intros [-> | [-> | [-> | [-> | []]]]].
  - by exists 0.
  - by exists 1.
  - by exists 2.
  - by exists 3.
Qed.

Lemma contains_flag s f g :
  is_flag f -> is_flag g -> contains_ (insert_ s f) g = contains_ s g || bool_decide (f = g).
Proof using.
  intros (j & Hj & ->)%is_flag_bit (k & Hk & ->)%is_flag_bit. rewrite contains_insert by done. f_equal.
  apply bool_decide_ext. split; [by intros -> |]. apply Z.pow_inj_r; lia.
Qed.

Lemma flags_ok : is_flag PostFsDataDone /\ is_flag LateStartDone /\ is_flag BootComplete /\ is_flag SafeMode.
Proof using. unfold is_flag. set_solver. Qed.

(** Read a log off the state. *)
Ltac log_goal :=
  destruct (_ && _); cbn; (split; [done |]); eexists; rewrite <- ?app_assoc;
  (split; [reflexivity |]); repeat split; try (vm_compute; lia); try done; set_solver.

(** What [post_fs_data] leaves alone, and what it may have logged. *)
Lemma post_fs_data_log sys s s' stop :
  post_fs_data sys s = Ok (s', stop) ->
  flags s' = flags s /\
  exists l, acts s' = acts s ++ l /\ (count_occ (fun a b => decide (a = b)) l HandleModules <= 1)%nat /\
    (CommonScripts #"service" ∉ l) /\
    (stop = true -> (HandleModules ∉ l) /\ (CommonScripts #"post-fs-data" ∉ l)).
Proof.
  unfold post_fs_data. cbn zeta.
  destruct (negb (secure_dir_exists sys) && negb (sdk_int <? 24)).
  { intros [= <- <-]. log_goal. }
  destruct (negb (magisk_env_ok sys)).
  { intros [= <- <-]. log_goal. }
  destruct (get_db_setting _ _ KBootloopCount _) as [d boot_cnt].
  intros (next & _ & Hr)%res_bind_Ok. destruct (_ || _ || _ || _).
  - injection Hr as <- <-. log_goal.
  - destruct (get_db_setting _ _ KZygiskConfig _) as [d2 z]. injection Hr as <- <-.
    log_goal.
Qed.

Lemma late_start_log s :
  flags (late_start s) = flags s /\
  exists l, acts (late_start s) = acts s ++ l /\ (HandleModules ∉ l) /\ (CommonScripts #"post-fs-data" ∉ l).
Proof.
  unfold late_start. cbn. destruct (module_list s); cbn; (split; [done |]); eexists; rewrite <- ?app_assoc;
    (split; [reflexivity |]); split; set_solver.
Qed.

Lemma boot_complete_log sys s :
  flags (boot_complete sys s) = flags s /\
  exists l, acts (boot_complete sys s) = acts s ++ l /\
    (HandleModules ∉ l) /\ (forall stage, CommonScripts stage ∉ l).
Proof.
  unfold boot_complete. cbn. destruct (negb (secure_dir_exists sys)); cbn; destruct (zygisk_enabled s); cbn; (split; [done |]);
    eexists; rewrite <- ?app_assoc; (split; [reflexivity |]); split; set_solver.
Qed.

Lemma count_zero (l : list Action) a : a ∉ l -> count_occ (fun a b => decide (a = b)) l a = 0%nat.
Proof using. intros Hl. apply count_occ_not_In. by rewrite <- list_elem_of_In. Qed.

Lemma fresh_inv d : Inv (fresh d).
Proof. split; cbn; try done; lia. Qed.

Lemma handler_inv code sys s s' : Inv s -> boot_stage_handler code sys s = Ok s' -> Inv s'.
Proof.
  intros HI. pose proof HI as [Hl Hc Hs Hb Ho]. destruct code; cbn [boot_stage_handler]; [| | | by intros [= <-]].
  - destruct (check_data sys && negb (contains_ (flags s) PostFsDataDone)) eqn:Hg; [| by intros [= <-]].
    apply andb_true_iff in Hg as [_ Hg%negb_true_iff]. destruct (Hb Hg) as [Hacts Hflags].
    intros ([s1 stop] & Hp & [= <-])%res_bind_Ok.
    apply post_fs_data_log in Hp as (Hf1 & l & Hl1 & Hcnt & Hsv & Hstop). rewrite Hacts in Hl1. rewrite Hflags in Hf1.
    destruct stop; split; cbn [set_flag flags acts]; rewrite ?Hf1, ?Hl1; try (vm_compute; done); try done.
    intros _. destruct (Hstop eq_refl). done.
  - destruct (contains_ (flags s) PostFsDataDone && negb (contains_ (flags s) SafeMode)) eqn:Hg; [| by intros [= <-]].
    apply andb_true_iff in Hg as [Hpd Hsm%negb_true_iff]. intros [= <-].
    destruct (late_start_log s) as (Hf1 & l & Hl1 & Hhm & _).
    split; cbn [set_flag flags acts]; rewrite ?Hf1, ?Hl1, ?contains_flag by apply flags_ok; cbn.
    + by rewrite Hpd, Hsm.
    + rewrite orb_false_r. intros Hbc. by rewrite Hc.
    + rewrite Hsm. done.
    + rewrite Hpd. done.
    + rewrite count_occ_app, (count_zero l HandleModules Hhm). lia.
  - destruct (contains_ (flags s) PostFsDataDone) eqn:Hpd; [| by intros [= <-]]. intros [= <-].
    destruct (boot_complete_log sys (set_flag BootComplete s)) as (Hf1 & l & Hl1 & Hhm & Hcs).
    split; rewrite ?Hf1, ?Hl1; cbn [set_flag flags acts]; rewrite ?contains_flag by apply flags_ok; cbn;
      rewrite ?orb_false_r.
    + intros Hld. destruct (Hl Hld) as [_ Hsm]. by rewrite Hpd, Hsm.
    + by rewrite Hpd.
    + intros Hsm. destruct (Hs Hsm) as (? & ? & ?). pose proof (Hcs #"service"). pose proof (Hcs #"post-fs-data").
      rewrite !elem_of_app. naive_solver.
    + by rewrite Hpd.
    + rewrite count_occ_app, (count_zero l HandleModules Hhm). cbn in *. lia.
Qed.

Lemma reachable_inv d s : reachable (fresh d) s -> Inv s.
Proof. induction 1; [apply fresh_inv | by eapply handler_inv]. Qed.

Lemma handle_all_inv reqs s s' : Inv s -> handle_all reqs s = Ok s' -> Inv s'.
Proof.
  revert s. induction reqs as [|[code sys] reqs IH]; intros s HI; cbn [handle_all]; [by intros [= <-] |].
  intros (s1 & Hs & Hr)%res_bind_Ok. by apply (IH s1); [apply (handler_inv code sys s) |].
Qed.

(** ** How often each stage runs *)

(** The requests that follow the one that starts the work: the first for post-fs-data that
    finds /data. *)
Fixpoint after_start (reqs : list (RequestCode * Sys)) : option (list (RequestCode * Sys)) :=
  match reqs with
  | [] => None
  | (code, sys) :: reqs => if bool_decide (code = POST_FS_DATA) && check_data sys then Some reqs else after_start reqs
  end.

Definition times (a : Action) (l : list Action) : nat := count_occ (fun a b => decide (a = b)) l a.
Definition requests (code : RequestCode) (reqs : list (RequestCode * Sys)) : nat := length (filter (fun r => r.1 = code) reqs).

(** What only post-fs-data does, and what only the later stages do. *)
Definition early (a : Action) : Prop := a ∈ [PreserveStub; PruneSuAccess; SetupEnv; DisableModules; CommonScripts #"post-fs-data"; InitDenylist; HandleModules; CleanMounts].
Definition late (a : Action) : Prop := a ∈ [CommonScripts #"service"; ModuleScripts #"service"; SetupPreinit; EnsureManager; ZygiskReset].

Lemma post_fs_data_early sys s s' stop :
  post_fs_data sys s = Ok (s', stop) ->
  exists l, acts s' = acts s ++ PreserveStub :: l /\ times PreserveStub l = 0%nat /\ Forall (fun a => ~ late a) l.
Proof.
  unfold post_fs_data. cbn zeta.
  assert (forall l, Forall (fun a => bool_decide (late a) = false /\ a <> PreserveStub) l -> times PreserveStub l = 0%nat /\ Forall (fun a => ~ late a) l) as Hl.
  { intros l Hf. split; [apply count_zero; intros Hin; rewrite Forall_forall in Hf; by destruct (Hf _ Hin) | eapply Forall_impl; [exact Hf |]; by intros a [?%bool_decide_eq_false _]]. }
  destruct (negb (secure_dir_exists sys) && negb (sdk_int <? 24)).
  { intros [= <- <-]. destruct (_ && _); cbn; eexists; rewrite <- ?app_assoc; (split; [reflexivity |]); apply Hl; by repeat constructor. }
  destruct (negb (magisk_env_ok sys)).
  { intros [= <- <-]. destruct (_ && _); cbn; eexists; rewrite <- ?app_assoc; (split; [reflexivity |]); apply Hl; by repeat constructor. }
  destruct (get_db_setting _ _ KBootloopCount _) as [d boot_cnt].
  intros (next & _ & Hr)%res_bind_Ok. destruct (_ || _ || _ || _).
  - injection Hr as <- <-. destruct (_ && _); cbn; eexists; rewrite <- ?app_assoc; (split; [reflexivity |]); apply Hl; by repeat constructor.
  - destruct (get_db_setting _ _ KZygiskConfig _) as [d2 z]. injection Hr as <- <-.
    destruct (_ && _); cbn; eexists; rewrite <- ?app_assoc; (split; [reflexivity |]); apply Hl; by repeat constructor.
Qed.

Lemma late_start_late s :
  exists l, acts (late_start s) = acts s ++ l /\ Forall (fun a => ~ early a) l /\ times (CommonScripts #"service") l = 1%nat /\ times EnsureManager l = 0%nat.
Proof.
  unfold late_start. cbn. destruct (module_list s); cbn; eexists; rewrite <- ?app_assoc; (split; [reflexivity |]);
    (split; [apply (bool_decide_unpack _); vm_compute; exact I | split; vm_compute; reflexivity]).
Qed.

Lemma boot_complete_late sys s :
  exists l, acts (boot_complete sys s) = acts s ++ l /\ Forall (fun a => ~ early a) l /\ times (CommonScripts #"service") l = 0%nat /\ times EnsureManager l = 1%nat.
Proof.
  unfold boot_complete. cbn. destruct (negb (secure_dir_exists sys)); cbn; destruct (zygisk_enabled s); cbn;
    eexists; rewrite <- ?app_assoc; (split; [reflexivity |]);
    (split; [apply (bool_decide_unpack _); vm_compute; exact I | split; vm_compute; reflexivity]).
Qed.

(** Before the start nothing happens. *)
Lemma handle_all_idle reqs s : flags s = 0 -> after_start reqs = None -> handle_all reqs s = Ok s.
Proof.
  intros Hf. induction reqs as [|[code sys] reqs IH]; [done |]. cbn [after_start handle_all].
  destruct code; cbn [boot_stage_handler]; rewrite ?Hf; cbn; [| done..]. by destruct (check_data sys); cbn.
Qed.

Lemma handle_all_split reqs reqs' s s' :
  flags s = 0 -> after_start reqs = Some reqs' -> handle_all reqs s = Ok s' ->
  exists sys s1 stop, post_fs_data sys s = Ok (s1, stop) /\
    handle_all reqs' (set_flag PostFsDataDone (if (stop : bool) then set_flag SafeMode s1 else s1)) = Ok s'.
Proof.
  intros Hf. induction reqs as [|[code sys] reqs IH]; [done |]. cbn [after_start handle_all].
  destruct code; cbn [boot_stage_handler]; rewrite ?Hf; cbn; [| done..].
  destruct (check_data sys); cbn; [| exact IH]. intros [= ->] (s2 & ([s1 stop] & Hp & [= <-])%res_bind_Ok & Hr)%res_bind_Ok.
  by exists sys, s1, stop.
Qed.

(** After it the later stages run once for each request, and nothing of post-fs-data again. *)
Lemma handle_all_later reqs s s' :
  contains_ (flags s) PostFsDataDone = true -> handle_all reqs s = Ok s' ->
  contains_ (flags s') PostFsDataDone = true /\ contains_ (flags s') SafeMode = contains_ (flags s) SafeMode /\
  exists l, acts s' = acts s ++ l /\ Forall (fun a => ~ early a) l /\
    times (CommonScripts #"service") l = (if contains_ (flags s) SafeMode then 0 else requests LATE_START reqs)%nat /\
    times EnsureManager l = requests BOOT_COMPLETE reqs.
Proof.
  revert s. induction reqs as [|[code sys] reqs IH]; intros s Hd; cbn [handle_all].
  { intros [= <-]. split_and!; [done | done |]. exists []. rewrite app_nil_r. split_and!; [done | by apply Forall_nil | by destruct (contains_ (flags s) SafeMode) | done]. }
  destruct code; cbn [boot_stage_handler]; rewrite ?Hd; cbn [negb andb mbind res_bind].
  - rewrite andb_false_r. exact (IH s Hd).
  - destruct (contains_ (flags s) SafeMode) eqn:Hs; cbn [negb mbind res_bind].
    + intros Hr. destruct (IH s Hd Hr) as (? & H2 & l & ? & ? & H5 & ?). rewrite Hs in H2, H5. eauto 10.
    + intros Hr. destruct (late_start_log s) as (Hfl & _). destruct (late_start_late s) as (l1 & Hl1 & He1 & Ht1 & Hm1).
      apply IH in Hr as (Hd' & Hs' & l & Hl & He & Ht & Hm); [| cbn [set_flag flags]; by rewrite Hfl, contains_flag, Hd by apply flags_ok].
      cbn [set_flag flags acts] in *. rewrite Hfl, contains_flag, Hs in Hs', Ht by apply flags_ok. cbn in Hs', Ht.
      split_and!; [done | done |]. exists (l1 ++ l). rewrite Hl, Hl1, app_assoc. split_and!; [done | by apply Forall_app | |].
      all: unfold times in *; rewrite count_occ_app, ?Ht, ?Ht1, ?Hm, ?Hm1; done.
  - intros Hr. destruct (boot_complete_log sys (set_flag BootComplete s)) as (Hfl & _). destruct (boot_complete_late sys (set_flag BootComplete s)) as (l1 & Hl1 & He1 & Ht1 & Hm1).
    cbn [set_flag flags acts] in Hfl, Hl1.
    apply IH in Hr as (Hd' & Hs' & l & Hl & He & Ht & Hm); [| by rewrite Hfl, contains_flag, Hd by apply flags_ok].
    rewrite Hfl, contains_flag in Hs', Ht by apply flags_ok. rewrite orb_false_r in Hs', Ht.
    split_and!; [done | done |]. exists (l1 ++ l). rewrite Hl, Hl1, app_assoc. split_and!; [done | by apply Forall_app | |].
    all: unfold times in *; rewrite count_occ_app, ?Ht, ?Ht1, ?Hm, ?Hm1; done.
  - exact (IH s Hd).
Qed.
End Stages.

(** C10: The stages of a boot, whatever requests arrive, in whatever order and however often.
    Nothing is done before a request for post-fs-data finds /data; that request runs
    post-fs-data, once, and everything it does comes before anything of a later stage. After
    it every request for late_start runs that stage again, unless post-fs-data stopped in safe
    mode, and every request for boot-complete runs that stage again. In safe mode neither
    modules are mounted nor general scripts run, in that stage or later; the modules are
    mounted at most once. *)
Theorem stages_ordered {S} `{Sqlite S} oc sdk_int is_emulator reqs d (s : St (S:=S)) :
  handle_all oc sdk_int is_emulator reqs (fresh d) = Ok s ->
  Inv s /\
  match after_start reqs with
  | None => s = fresh d
  | Some later =>
      exists p q, acts s = p ++ q /\ Forall (fun a => ~ late a) p /\ Forall (fun a => ~ early a) q /\
        times PreserveStub (acts s) = 1%nat /\
        times (CommonScripts #"service") (acts s) = (if contains_ (flags s) SafeMode then 0 else requests LATE_START later)%nat /\
        times EnsureManager (acts s) = requests BOOT_COMPLETE later
  end.
Proof.
  intros Hr. split; [by eapply handle_all_inv; [apply fresh_inv |] |]. destruct (after_start reqs) as [later|] eqn:Ha.
  - destruct (handle_all_split oc sdk_int is_emulator reqs later (fresh d) s eq_refl Ha Hr) as (sys & s1 & stop & Hp & Hr'). clear Hr.
    apply post_fs_data_early in Hp as (l & Hl & Ht & Hf). cbn [acts fresh app] in Hl.
    assert (contains_ (insert_ (flags (if (stop : bool) then set_flag SafeMode s1 else s1)) PostFsDataDone) PostFsDataDone = true) as Hd
      by (rewrite contains_flag by apply flags_ok; apply orb_true_r).
    apply handle_all_later in Hr' as (_ & Hs & q & Hq & He & Hsv & Hm); [| exact Hd]. cbn [set_flag flags acts] in Hq, Hs, Hsv.
    assert (acts (if (stop : bool) then set_flag SafeMode s1 else s1) = PreserveStub :: l) as Hl' by (by destruct stop).
    rewrite Hl' in Hq. rewrite <- Hs in Hsv. exists (PreserveStub :: l), q. rewrite Hq.
    assert (forall a, early a -> times a q = 0%nat) as Hz by (intros a Hea; apply count_zero; intros Hin; rewrite Forall_forall in He; by apply (He a)).
    assert (forall a, late a -> times a l = 0%nat) as Hz' by (intros a Hea; apply count_zero; intros Hin; rewrite Forall_forall in Hf; by apply (Hf a)).
    assert (~ late PreserveStub) as Hps by (apply (bool_decide_unpack _); vm_compute; exact I).
    split_and!; [done | by constructor | done |..]; unfold times in *; rewrite count_occ_app; cbn [count_occ]; rewrite ?decide_True, ?decide_False by done.
    + rewrite Ht, Hz; [done | by apply (bool_decide_unpack _)].
    + rewrite Hz', Hsv; [done | by apply (bool_decide_unpack _)].
    + rewrite Hz', Hm; [done | by apply (bool_decide_unpack _)].
  - rewrite (handle_all_idle _ _ _ reqs) in Hr by done. by injection Hr as <-.
Qed.

(** ** The boot-loop counter *)

Section Loop.
Context {S : Type} `{SqliteLaws S} (oc : bool) (sdk_int : Z) (is_emulator : bool).

Abbreviation post_fs_data := (post_fs_data (S:=S) oc sdk_int is_emulator).

(** The counter in the database. *)
Definition boot_count_of (s : S) : Z := default 0 (settings s !! #"bootloop").

(** The environment lets the stage run. *)
Definition runs (sys : Sys) : Prop := secure_dir_exists sys = true /\ magisk_env_ok sys = true.

Lemma set_setting_db t k v st s :
  db st = Some s -> exists s', db (set_setting t k v st) = Some s' /\ settings s' = <[to_str k := v]> (settings s).
Proof.
  intros Hs. unfold set_setting. rewrite Hs. destruct (set_db_setting_eq t k v s) as (s' & -> & Hs' & _). by exists s'.
Qed.

(** The user or the system asks for safe mode. *)
Definition safe_mode_asked (sys : Sys) : bool :=
  bool_decide (get_prop sys #"persist.sys.safemode" = #"1") || bool_decide (get_prop sys #"ro.sys.safemode" = #"1") || check_key_combo sys.

Lemma post_fs_data_counts sys st s :
  db st = Some s -> runs sys -> 0 <= boot_count_of s < 2 ^ 31 - 1 ->
  exists st' s', let stop := (2 <=? boot_count_of s) || safe_mode_asked sys in
    post_fs_data sys st = Ok (st', stop) /\ db st' = Some s' /\
    boot_count_of s' = boot_count_of s + 1 /\
    (stop = true -> DisableModules ∈ acts st' /\ settings s' !! #"zygisk" = Some 0).
Proof.
  intros Hdb [Hsec Henv] Hcnt. unfold Boot.post_fs_data. rewrite Hsec, Henv. cbn [negb andb].
  assert ((get_db_setting is_emulator (clock sys) KBootloopCount (Some s)) = (Some s, boot_count_of s)) as Hget.
  { rewrite get_db_setting_eq. unfold boot_count_of. cbn [to_str setting_default].
    destruct (settings s !! #"bootloop") as [v|] eqn:E; [| done]. cbn [default from_option Datatypes.id]. f_equal.
    unfold boot_count_of in Hcnt. rewrite E in Hcnt. cbn in Hcnt. unfold swrap. change (2 ^ (32 - 1)) with (2 ^ 31).
    rewrite Z.mod_small by lia. lia. }
  cbn [db act]. rewrite Hdb, Hget. cbn zeta.
  assert (s_arith (E:=unit) oc 32 (boot_count_of s + 1) = Ok (boot_count_of s + 1)) as ->.
  { unfold s_arith. change (2 ^ (32 - 1)) with (2 ^ 31).
    by rewrite (proj2 (Z.leb_le _ _)), (proj2 (Z.ltb_lt _ _)) by lia. }
  cbn [mbind res_bind]. set (st1 := with_conn _ _).
  destruct (set_setting_db (clock sys) KBootloopCount (boot_count_of s + 1) st1 s) as (s1 & Hs1 & Hset1); [done |].
  assert (boot_count_of s1 = boot_count_of s + 1) as Hb1.
  { unfold boot_count_of at 1. rewrite Hset1. cbn [to_str]. by rewrite lookup_insert_eq. }
  unfold safe_mode_asked. rewrite <- !orb_assoc. destruct ((2 <=? boot_count_of s) || _) eqn:Hsafe.
  - destruct (set_setting_db (clock sys) KZygiskConfig 0 (act DisableModules (set_setting (clock sys) KBootloopCount (boot_count_of s + 1) st1)) s1)
      as (s2 & Hs2 & Hset2); [done |].
    do 2 eexists. cbv zeta. split_and!; [reflexivity | exact Hs2 | |].
    + unfold boot_count_of in *. rewrite Hset2. cbn [to_str]. by rewrite lookup_insert_ne by done.
    + intros _. split_and!; [cbn; set_solver |]. rewrite Hset2. apply lookup_insert_eq.
  - cbn [db act]. rewrite Hs1, get_db_setting_eq. cbn zeta. do 2 eexists. by split_and!; [reflexivity | reflexivity | done |].
Qed.

(** [n] boots in a row that reach post-fs-data and nothing after it: what the last
    of them returned, and the database. *)
Fixpoint boots (syss : list Sys) (d : option S) : logged (option S * option bool) :=
  match syss with
  | [] => Ok (d, None)
  | [sys] => '(st, stop) ← post_fs_data sys (fresh d); Ok (db st, Some stop)
  | sys :: syss => '(st, _) ← post_fs_data sys (fresh d); boots syss (db st)
  end.
End Loop.

Lemma boots_cons {S} `{Sqlite S} oc sdk em sys sys' syss (d : option S) :
  boots oc sdk em (sys :: sys' :: syss) d =
  '(st, _) ← post_fs_data oc sdk em sys (fresh d); boots oc sdk em (sys' :: syss) (db st).
Proof. done. Qed.

(** A count that is 0 or not there yet: two boots that do not complete pass unless safe mode is
    asked for, the third is in safe mode, with Zygisk off. *)
Lemma three_boots {S} `{SqliteLaws S} oc sdk em sys1 sys2 sys3 (s : S) :
  boot_count_of s = 0 -> Forall runs [sys1; sys2; sys3] ->
  exists d1 d2 s3, boots oc sdk em [sys1] (Some s) = Ok (d1, Some (safe_mode_asked sys1)) /\
    boots oc sdk em [sys1; sys2] (Some s) = Ok (d2, Some (safe_mode_asked sys2)) /\
    boots oc sdk em [sys1; sys2; sys3] (Some s) = Ok (Some s3, Some true) /\ settings s3 !! #"zygisk" = Some 0.
Proof.
  intros Hc0 Hruns. rewrite !Forall_cons in Hruns. destruct Hruns as (H1 & H2 & H3 & _).
  destruct (post_fs_data_counts oc sdk em sys1 (fresh (Some s)) s eq_refl H1) as (t1 & s1 & E1 & D1 & C1 & _); [lia |].
  destruct (post_fs_data_counts oc sdk em sys2 (fresh (Some s1)) s1 eq_refl H2) as (t2 & s2 & E2 & D2 & C2 & _); [lia |].
  destruct (post_fs_data_counts oc sdk em sys3 (fresh (Some s2)) s2 eq_refl H3) as (t3 & s3 & E3 & D3 & C3 & Hsafe); [lia |].
  rewrite (proj2 (Z.leb_gt 2 (boot_count_of s))) in E1 by lia. rewrite (proj2 (Z.leb_gt 2 (boot_count_of s1))) in E2 by lia.
  rewrite (proj2 (Z.leb_le 2 (boot_count_of s2))) in E3, Hsafe by lia. destruct (Hsafe eq_refl) as [_ Hz].
  exists (Some s1), (Some s2), s3. split_and!; [..| exact Hz].
  all: rewrite ?boots_cons; cbn [boots]; rewrite E1; cbn [mbind res_bind]; rewrite D1, ?boots_cons; cbn [boots]; rewrite ?E2; cbn [mbind res_bind]; rewrite ?D2, ?E3; cbn [mbind res_bind]; by rewrite ?D3.
Qed.

Lemma boot_complete_resets {S} `{SqliteLaws S} sys st (s : S) :
  db st = Some s -> exists s', db (boot_complete sys st) = Some s' /\ boot_count_of s' = 0.
Proof.
  intros Hdb. unfold boot_complete. cbn zeta.
  destruct (set_setting_db (clock sys) KBootloopCount 0 st s Hdb) as (s' & Hs' & Hset).
  exists s'. split.
  - destruct (negb (secure_dir_exists sys)); cbn -[set_setting]; destruct (zygisk_enabled _); exact Hs'.
  - unfold boot_count_of. rewrite Hset. cbn [to_str]. by rewrite lookup_insert_eq.
Qed.

(** C11: A boot loop is stopped, on a new database (no count) and after any boot that completed
    (whatever the count was, boot-complete stores 0). Of the boots in a row that reach the check
    in post-fs-data and do not complete, the first two go on unless a property or the keys
    ask for safe mode, and the third stops in safe mode with Zygisk turned off. A boot
    whose environment is incomplete does not reach the check and is not counted. *)
Theorem bootloop_protection {S} `{SqliteLaws S} oc sdk em sys1 sys2 sys3 (s : S) :
  Forall runs [sys1; sys2; sys3] ->
  let stops s := exists d1 d2 s3, boots oc sdk em [sys1] (Some s) = Ok (d1, Some (safe_mode_asked sys1)) /\
    boots oc sdk em [sys1; sys2] (Some s) = Ok (d2, Some (safe_mode_asked sys2)) /\
    boots oc sdk em [sys1; sys2; sys3] (Some s) = Ok (Some s3, Some true) /\ settings s3 !! #"zygisk" = Some 0 in
  (settings s !! #"bootloop" = None -> stops s) /\
  (forall sys st, db st = Some s -> exists s', db (boot_complete sys st) = Some s' /\ boot_count_of s' = 0 /\ stops s').
Proof.
  intros Hruns stops. split.
  - intros Hno. apply three_boots; [| done]. unfold boot_count_of. by rewrite Hno.
  - intros sys st Hdb. destruct (boot_complete_resets sys st s Hdb) as (s' & Hs' & Hc). exists s'. split_and!; [done | done | by apply three_boots].
Qed.

Definition demo_sys : Sys :=
  mkSys (Some #"/dev/x /data ext4 rw") (fun _ => []) true true false true 0.

(** A boot in which late_start is asked for too early, then twice. *)
Definition demo_requests : list (RequestCode * Sys) :=
  [(LATE_START, demo_sys); (POST_FS_DATA, demo_sys); (LATE_START, demo_sys); (LATE_START, demo_sys); (BOOT_COMPLETE, demo_sys)].

Lemma stages_ordered_witness :
  exists s, handle_all true 30 false demo_requests (fresh (Some (mkTableDb ∅ ∅ ∅))) = Ok s /\ Inv s /\ times (CommonScripts #"service") (acts s) = 2%nat.
Proof.
  eexists. split; [vm_compute; reflexivity |].
  match goal with |- Inv ?s /\ _ => destruct (stages_ordered true 30 false demo_requests (Some (mkTableDb ∅ ∅ ∅)) s) as [Hi Hn] end; [vm_compute; reflexivity |].
  split; [exact Hi |]. change (after_start demo_requests) with (Some (drop 2 demo_requests)) in Hn. destruct Hn as (p & q & _ & _ & _ & _ & Hs & _).
  rewrite Hs. vm_compute. reflexivity.
Defined.

Lemma bootloop_protection_witness :
  (exists d, boots true 30 false [demo_sys; demo_sys; demo_sys] (Some (mkTableDb ∅ ∅ ∅)) = Ok (d, Some true)) /\
  (exists s', db (boot_complete demo_sys (fresh (Some (mkTableDb {[ #"bootloop" := 1 ]} ∅ ∅)))) = Some s' /\ boot_count_of s' = 0).
Proof.
  assert (Forall runs [demo_sys; demo_sys; demo_sys]) as Hr by (do 3 (apply List.Forall_cons; [split; reflexivity |]); apply List.Forall_nil). split.
  - destruct (bootloop_protection true 30 false demo_sys demo_sys demo_sys (mkTableDb ∅ ∅ ∅) Hr) as [(d1 & d2 & s3 & _ & _ & H3 & _) _]; [reflexivity |]. exists (Some s3). exact H3.
  - destruct (bootloop_protection true 30 false demo_sys demo_sys demo_sys (mkTableDb {[ #"bootloop" := 1 ]} ∅ ∅) Hr) as [_ H].
    destruct (H demo_sys (fresh (Some (mkTableDb {[ #"bootloop" := 1 ]} ∅ ∅))) eq_refl) as (s' & Hs' & Hc & _). exists s'. split; [exact Hs' | exact Hc].
Defined.
End Boot.
