(* ===== verification/Module.v ===== *)
(** core/module.rs: the module directories (upgrade, removal, selection) and the
    virtual tree of files that modules add under /system.

    /data/adb/modules and the real partitions are directory trees; system calls on
    them succeed where the tree allows it.  Attributes (owner, mode, context) are not
    modelled. *)

From S2P Require Import Prelude Text Dir.

#[local] Set Warnings "-register-all".

Module Module_.
Import Dir.

(** * Ordered maps as the tree's [BTreeMap]

    Association lists in the order of the keys. *)

Section Bt.
Context {A : Type}.

Fixpoint bt_get (k : bytes) (l : list (bytes * A)) : option A :=
  match l with
  | [] => None
  | (j, a) :: l => if decide (j = k) then Some a else bt_get k l
  end.

(** [*entry(k).or_insert_with(|| dflt)] changed by [f]. *)
Fixpoint bt_entry (k : bytes) (dflt : A) (f : A -> A) (l : list (bytes * A)) : list (bytes * A) :=
  match l with
  | [] => [(k, f dflt)]
  | (j, a) :: l' =>
      match bcmp k j with
      | Eq => (j, f a) :: l'
      | Lt => (k, f dflt) :: l
      | Gt => (j, a) :: bt_entry k dflt f l'
      end
  end.

Definition bt_insert (k : bytes) (a : A) (l : list (bytes * A)) : list (bytes * A) := bt_entry k a (fun _ => a) l.

Fixpoint bt_remove (k : bytes) (l : list (bytes * A)) : list (bytes * A) :=
  match l with
  | [] => []
  | (j, a) :: l => if decide (j = k) then l else (j, a) :: bt_remove k l
  end.
End Bt.

(** * The virtual tree *)

Inductive FsNode :=
| Directory (children : list (bytes * FsNode))
| FFile (src : bytes)
| FSymlink (target : bytes)
| MagiskLink
| Whiteout.

Definition new_dir : FsNode := Directory [].

(** [FsNode::collect]; [mnt] is the path the files are mounted from. *)
Definition child_path (mnt name : bytes) : bytes := mnt ++ #"/" ++ name.

Definition collect_entries (collect : bytes -> node -> FsNode -> FsNode) (mnt : bytes)
    : entries -> list (bytes * FsNode) -> list (bytes * FsNode) :=
  fix go (es : entries) (ch : list (bytes * FsNode)) : list (bytes * FsNode) :=
    match es with
    | [] => ch
    | (name, c) :: es =>
        if hidden name then go es ch else
        let path := child_path mnt name in
        go es
          match c with
          | Folder _ => bt_entry name new_dir (collect path c) ch
          | Lnk link => bt_entry name (FSymlink link) (fun n => n) ch
          | Special true => bt_entry name Whiteout (fun n => n) ch
          | _ => bt_entry name (FFile path) (fun n => n) ch
          end
    end.

Fixpoint collect (mnt : bytes) (m : node) (t : FsNode) : FsNode :=
  match t, m with
  | Directory ch, Folder es => Directory (collect_entries collect mnt es ch)
  | _, _ => t
  end.

Definition has (name : bytes) (es : entries) : bool :=
  match lookup_entry name es with Some _ => true | None => false end.

(** Step 1 of [apply_modules]: every module that does not skip mounting, in order. *)
Definition collect_module (mnt_root : bytes) (t : FsNode) (m : bytes * entries) : FsNode :=
  if has #"skip_mount" m.2 then t else
  match lookup_entry #"system" m.2 with
  | Some sys => collect (child_path (child_path mnt_root m.1) #"system") sys t
  | None => t
  end.

Definition collect_all (mnt_root : bytes) (mods : list (bytes * entries)) : FsNode :=
  foldl (collect_module mnt_root) new_dir mods.

(** [inject_magisk_bins], the nodes that are added to a directory. *)
Definition inject (tmp : bytes) (ch : list (bytes * FsNode)) : list (bytes * FsNode) :=
  let ch := bt_insert #"magisk" (FFile (child_path tmp #"magisk")) ch in
  let ch := bt_insert #"magiskpolicy" (FFile (child_path tmp #"magiskpolicy")) ch in
  let ch := bt_insert #"su" MagiskLink ch in
  let ch := bt_insert #"resetprop" MagiskLink ch in
  bt_insert #"supolicy" MagiskLink ch.

(** The walk down the components of a candidate path: the directories are created,
    and something that is not a directory in the way ends the attempt. *)
Fixpoint inject_at (tmp : bytes) (comps : list bytes) (n : FsNode) : FsNode * bool :=
  match n with
  | Directory ch =>
      match comps with
      | [] => (Directory (inject tmp ch), true)
      | dir :: comps =>
          let '(c, ok) := inject_at tmp comps (default new_dir (bt_get dir ch)) in
          (Directory (bt_insert dir c ch), ok)
      end
  | _ => (n, false)
  end.

Fixpoint inject_first (tmp : bytes) (candidates : list (list bytes)) (system : FsNode) : FsNode :=
  match candidates with
  | [] => (inject_at tmp [ #"bin"] system).1
  | c :: candidates =>
      match system with
      | Directory _ =>
          let '(system, ok) := inject_at tmp c system in
          if (ok : bool) then system else inject_first tmp candidates system
      | _ => inject_first tmp candidates system
      end
  end.

(** The directories of PATH in which the binaries can be put: on a known partition,
    outside of apex, and not xbin on an emulator. *)
Definition MAGISK_BIN_INJECT_PARTITIONS : list bytes := [ #"/system/"; #"/vendor/"; #"/product/"; #"/system_ext/"].

Definition suitable (is_emulator : bool) (item : bytes) : bool :=
  existsb (fun p => starts_with item p) MAGISK_BIN_INJECT_PARTITIONS &&
  negb (starts_with item #"/system/apex/") &&
  negb (is_emulator && starts_with item #"/system/xbin").

Definition strip_system_prefix (orig_item : bytes) : bytes :=
  match strip_prefix orig_item #"/system/" with
  | Some rest => #"/" ++ rest
  | None => orig_item
  end.

(** [su_exists] tells whether there is a su in a directory, [file_count] the number of
    files below it, if the directory is searchable and can be walked. *)
Fixpoint candidates (is_emulator : bool) (su_exists : bytes -> bool) (file_count : bytes -> option Z)
    (items : list bytes) : list (bytes * Z) :=
  match items with
  | [] => []
  | item :: items =>
      if negb (suitable is_emulator item) then candidates is_emulator su_exists file_count items
      else if su_exists item then [(strip_system_prefix item, 0)]
      else
        match file_count item with
        | Some n => (strip_system_prefix item, n) :: candidates is_emulator su_exists file_count items
        | None => candidates is_emulator su_exists file_count items
        end
  end.

Definition fewer (a b : bytes * Z) : Prop := a.2 <= b.2.
#[export] Instance fewer_dec : RelDecision fewer := fun a b => decide (a.2 <= b.2).

(** The normal components of a path. *)
Definition components (p : bytes) : list bytes :=
  filter (fun c => c <> [] /\ c <> #"." /\ c <> #"..") (split_on "/"%char p).

Definition inject_magisk_bins (tmp path_env : bytes) (is_emulator : bool) (su_exists : bytes -> bool)
    (file_count : bytes -> option Z) (system : FsNode) : FsNode :=
  let found := candidates is_emulator su_exists file_count (split_on ":"%char path_env) in
  inject_first tmp (map (fun c => components c.1) (merge_sort fewer found)) system.

(** [inject_zygisk_bins] of a 64-bit daemon: the library in lib and lib64, where the
    system has a linker; [bin_exists] tells whether a file exists. *)
Definition inject_lib (lib name : bytes) (src : option bytes) (system : FsNode) : FsNode :=
  match system with
  | Directory ch =>
      Directory (bt_entry lib new_dir (fun n =>
        match n, src with
        | Directory lch, Some src => Directory (bt_insert name (FFile src) lch)
        | n, _ => n
        end) ch)
  | _ => system
  end.

Definition inject_zygisk_bins (bin_exists : bytes -> bool) (tmp name : bytes) (system : FsNode) : FsNode :=
  let system :=
    if bin_exists #"/system/bin/linker" then
      let bin_path := child_path tmp #"magisk32" in
      inject_lib #"lib" name (if bin_exists bin_path then Some bin_path else None) system
    else system in
  if bin_exists #"/system/bin/linker64" then inject_lib #"lib64" name (Some (child_path tmp #"magisk")) system
  else system.

(** Step 3 of [apply_modules]: the partitions that are directories of their own. *)
Definition SECONDARY_READ_ONLY_PARTITIONS : list bytes := [ #"vendor"; #"product"; #"system_ext"].

Definition extract_root (is_real_dir : bytes -> bool) (s : list (bytes * FsNode) * list (bytes * FsNode)) (name : bytes)
    : list (bytes * FsNode) * list (bytes * FsNode) :=
  let '(ch, roots) := s in
  if is_real_dir name then
    match bt_get name ch with
    | Some root => (bt_remove name ch, bt_insert name root roots)
    | None => (ch, roots)
    end
  else (ch, roots).

Definition extract_roots (is_real_dir : bytes -> bool) (system : FsNode) : list (bytes * FsNode) :=
  match system with
  | Directory ch =>
      let '(ch, roots) := foldl (extract_root is_real_dir) (ch, []) SECONDARY_READ_ONLY_PARTITIONS in
      bt_insert #"system" (Directory ch) roots
  | _ => bt_insert #"system" system []
  end.

(** What the first three steps of [apply_modules] hand over to be mounted. *)
Record Env := mkEnv {
  magisk_tmp : bytes; path_env : bytes; is_emulator : bool; zygisk_lib : option bytes;
  file_exists : bytes -> bool; su_in : bytes -> bool; files_in : bytes -> option Z; is_real_dir : bytes -> bool }.

Definition virtual_tree (env : Env) (mnt_root : bytes) (mods : list (bytes * entries)) : list (bytes * FsNode) :=
  let system := collect_all mnt_root mods in
  let system :=
    if negb (bool_decide (magisk_tmp env = #"/sbin")) || forallb (fun s => negb (bool_decide (s = #"/sbin"))) (split_on ":"%char (path_env env))
    then inject_magisk_bins (magisk_tmp env) (path_env env) (is_emulator env) (su_in env) (files_in env) system
    else system in
  let system :=
    match zygisk_lib env with
    | Some lib => inject_zygisk_bins (file_exists env) (magisk_tmp env) lib system
    | None => system
    end in
  extract_roots (is_real_dir env) system.

(** * Module directories *)

Fixpoint remove_entry (name : bytes) (es : entries) : entries :=
  match es with
  | [] => []
  | (k, n) :: es => if decide (k = name) then es else (k, n) :: remove_entry name es
  end.

(** [open(O_RDONLY | O_CREAT)]: fails on a directory, keeps a file. *)
Definition create_file (name : bytes) (es : entries) : option entries :=
  match lookup_entry name es with
  | Some (Folder _) => None
  | Some _ => Some es
  | None => Some (put_entry name (Reg []) es)
  end.

(** The loop of [upgrade_modules]: what is left of modules_update, the modules, and
    whether it got to the end. *)
Fixpoint upgrade_loop (es stay root : entries) : entries * entries * bool :=
  match es with
  | [] => (stay, root, true)
  | (name, e) :: es =>
      if hidden name then upgrade_loop es (stay ++ [(name, e)]) root else
      match e with
      | Folder new =>
          match lookup_entry name root with
          | Some (Folder old) =>
              let root := remove_entry name root in
              if has #"disable" old then
                match create_file #"disable" new with
                | Some new => upgrade_loop es stay (put_entry name (Folder new) root)
                | None => (stay ++ es, put_entry name (Folder new) root, false)
                end
              else upgrade_loop es stay (put_entry name (Folder new) root)
          | Some _ => (stay ++ (name, e) :: es, root, false)
          | None => upgrade_loop es stay (put_entry name (Folder new) root)
          end
      | _ => upgrade_loop es (stay ++ [(name, e)]) root
      end
  end.

(** [upgrade_modules].  The directory has been read to its end when [remove_all]
    goes on reading it: there is nothing left to read, and the final [remove] only
    succeeds on an empty directory. *)
Definition upgrade_modules (upgrade : option entries) (root : entries) : option entries * entries * logged unit :=
  match upgrade with
  | None => (None, root, Err tt)
  | Some es =>
      let '(stay, root, done_) := upgrade_loop es [] root in
      if negb done_ then (Some stay, root, Err tt) else
      match remove_all [] with
      | Ok _ => if is_empty stay then (None, root, Ok tt) else (Some stay, root, Err tt)
      | Err e => (Some stay, root, Err e)
      | Panic => (Some stay, root, Panic)
      end
  end.

Definition is_module (e : bytes * node) : bool :=
  negb (hidden e.1) && is_dir e.2 && negb (bool_decide (e.1 = #".core")).

(** [disable_modules]: [for_each_module] stops at the first error. *)
Fixpoint disable_modules (root : entries) : entries :=
  match root with
  | [] => []
  | (name, e) :: root =>
      if is_module (name, e) then
        match e with
        | Folder es =>
            match create_file #"disable" es with
            | Some es => (name, Folder es) :: disable_modules root
            | None => (name, e) :: root
            end
        | _ => (name, e) :: disable_modules root
        end
      else (name, e) :: disable_modules root
  end.

(** [ModuleInfo]; the zygisk libraries as whether they are opened. *)
Record ModuleInfo := mkModuleInfo { name : bytes; z_opened : bool }.

(** What [collect_modules] does with one module. *)
Inductive Fate := Removed (uninstall : bool) | Ignored | Loaded (zygisk : bool).

Definition module_fate (zygisk_enabled open_zygisk : bool) (nm : bytes) (es : entries) : Fate :=
  if has #"remove" es then Removed (has #"uninstall.sh" es)
  else if has #"disable" es then Ignored
  else
    let is_zygisk := has #"zygisk" es in
    if zygisk_enabled then
      if bool_decide (nm = #"riru-core") || has #"riru" es then Ignored
      else Loaded (open_zygisk && is_zygisk)
    else if is_zygisk then Ignored else Loaded false.

(** [unlink] of a file: a directory of that name stays. *)
Definition unlink_file (nm : bytes) (es : entries) : entries :=
  match lookup_entry nm es with Some (Folder _) => es | _ => remove_entry nm es end.

(** [collect_modules]: the modules directory, the list, and the uninstall scripts run. *)
Fixpoint collect_modules (zygisk_enabled open_zygisk : bool) (root : entries)
    : entries * list ModuleInfo * list bytes :=
  match root with
  | [] => ([], [], [])
  | (nm, e) :: root =>
      let '(root', mods, scripts) := collect_modules zygisk_enabled open_zygisk root in
      match is_module (nm, e), e with
      | true, Folder es =>
          match module_fate zygisk_enabled open_zygisk nm es with
          | Removed u => (root', mods, if u then nm :: scripts else scripts)
          | Ignored => ((nm, Folder (unlink_file #"update" es)) :: root', mods, scripts)
          | Loaded z => ((nm, Folder (unlink_file #"update" es)) :: root', mkModuleInfo nm z :: mods, scripts)
          end
      | _, _ => ((nm, e) :: root', mods, scripts)
      end
  end.

(** * Lemmas *)

Lemma lookup_remove k name es :
  NoDup es.*1 -> lookup_entry k (remove_entry name es) = if decide (k = name) then None else lookup_entry k es.
Proof.
  induction es as [|[j m] es IH]; cbn [remove_entry lookup_entry fmap list_fmap fst]; [by case_decide |].
  rewrite NoDup_cons. intros [Hj Hn]. destruct (decide (j = name)) as [->|].
  - destruct (decide (k = name)) as [->|]; [by apply lookup_entry_None | by rewrite decide_False].
  - cbn [lookup_entry]. rewrite IH by done. repeat case_decide; congruence.
Qed.

Lemma lookup_remove_ne k name es : k <> name -> lookup_entry k (remove_entry name es) = lookup_entry k es.
Proof.
  intros Hne. induction es as [|[j m] es IH]; [done |]. cbn [remove_entry lookup_entry].
  destruct (decide (j = name)) as [->|]; [by rewrite decide_False |]. cbn [lookup_entry]. by rewrite IH.
Qed.

Lemma remove_entry_id name es : lookup_entry name es = None -> remove_entry name es = es.
Proof.
  induction es as [|[j m] es IH]; [done |]. cbn [remove_entry lookup_entry]. case_decide; [done |].
  intros Hl. by rewrite IH.
Qed.

Lemma remove_entry_sub name es : forall x, x ∈ (remove_entry name es).*1 -> x ∈ es.*1.
Proof.
  induction es as [|[j m] es IH]; [done |]. intros x. cbn [remove_entry].
  case_decide; cbn [fmap list_fmap fst]; set_solver.
Qed.

Lemma remove_entry_NoDup name es : NoDup es.*1 -> NoDup (remove_entry name es).*1.
Proof.
  induction es as [|[j m] es IH]; [done |]. cbn [remove_entry fmap list_fmap fst]. rewrite NoDup_cons. intros [Hj Hn].
  case_decide; [done |]. cbn [fmap list_fmap fst]. constructor; [| auto].
  intros ?%remove_entry_sub. done.
Qed.

Lemma put_entry_names name n es : forall x, x ∈ (put_entry name n es).*1 -> x = name \/ x ∈ es.*1.
Proof.
  induction es as [|[j m] es IH]; intros x; cbn [put_entry].
  - cbn. set_solver.
  - case_decide; cbn [fmap list_fmap fst]; set_solver.
Qed.

Lemma put_entry_NoDup name n es : NoDup es.*1 -> NoDup (put_entry name n es).*1.
Proof.
  induction es as [|[j m] es IH]; cbn [put_entry]; [intros _; apply NoDup_singleton |].
  cbn [fmap list_fmap fst]. rewrite NoDup_cons. intros [Hj Hn]. case_decide as Hd; cbn [fmap list_fmap fst].
  - subst. by constructor.
  - constructor; [| auto]. intros [?|?]%put_entry_names; congruence.
Qed.

(** ** Upgrading *)

(** The new version of a module stays disabled if the old one was. *)
Definition carry_disable (old : option node) (new : entries) : entries :=
  match old with
  | Some (Folder es) => if has #"disable" es && negb (has #"disable" new) then put_entry #"disable" (Reg []) new else new
  | _ => new
  end.

Definition upgradable (root : entries) (e : bytes * node) : Prop :=
  match e.2 with
  | Folder new =>
      match lookup_entry e.1 root with
      | None => True
      | Some (Folder old) => has #"disable" old = true -> forall d, lookup_entry #"disable" new <> Some (Folder d)
      | Some _ => False
      end
  | _ => True
  end.

Definition is_upgrade (e : bytes * node) : bool := negb (hidden e.1) && is_dir e.2.

Definition upgraded (root : entries) (e : bytes * node) : option node :=
  match e.2 with Folder new => Some (Folder (carry_disable (lookup_entry e.1 root) new)) | _ => None end.

Lemma create_carry old new :
  has #"disable" old = true -> (forall d, lookup_entry #"disable" new <> Some (Folder d)) ->
  create_file #"disable" new = Some (carry_disable (Some (Folder old)) new).
Proof.
  intros H Hf. unfold create_file, carry_disable. rewrite H. unfold has.
  destruct (lookup_entry #"disable" new) as [[| | |d]|] eqn:E; try done. by destruct (Hf d).
Qed.

Lemma upgrade_loop_step name new es stay root :
  hidden name = false -> NoDup root.*1 -> upgradable root (name, Folder new) ->
  exists root', upgrade_loop ((name, Folder new) :: es) stay root = upgrade_loop es stay root' /\
    NoDup root'.*1 /\
    forall k, lookup_entry k root' =
      if decide (k = name) then Some (Folder (carry_disable (lookup_entry name root) new)) else lookup_entry k root.
Proof.
  intros Hh Hn Hu. cbn [upgrade_loop]. rewrite Hh. unfold upgradable in Hu. cbn [fst snd] in Hu.
  destruct (lookup_entry name root) as [[| | |old]|] eqn:E; try done.
  - assert (forall n k, lookup_entry k (put_entry name n (remove_entry name root)) =
        if decide (k = name) then Some n else lookup_entry k root) as Hl.
    { intros n k. rewrite lookup_put, lookup_remove by done. by case_decide. }
    destruct (has #"disable" old) eqn:Hd.
    + rewrite (create_carry old) by auto. eexists. split; [done |]. split; [| by intros k; rewrite Hl].
      by apply put_entry_NoDup, remove_entry_NoDup.
    + eexists. split; [done |]. split; [by apply put_entry_NoDup, remove_entry_NoDup |].
      intros k. rewrite Hl. unfold carry_disable. by rewrite Hd.
  - eexists. split; [done |]. split; [by apply put_entry_NoDup |]. intros k. by rewrite lookup_put.
Qed.

Lemma upgradable_ext root root' e :
  lookup_entry e.1 root' = lookup_entry e.1 root -> upgradable root e -> upgradable root' e.
Proof. unfold upgradable. by intros ->. Qed.

Lemma upgrade_loop_spec es stay root :
  NoDup es.*1 -> NoDup root.*1 -> Forall (upgradable root) es ->
  exists root', upgrade_loop es stay root = (stay ++ filter (fun e => is_upgrade e = false) es, root', true) /\
    forall k, lookup_entry k root' =
      match lookup_entry k (filter (fun e => is_upgrade e = true) es) with
      | Some e => upgraded root (k, e)
      | None => lookup_entry k root
      end.
Proof.
  revert stay root. induction es as [|[name e] es IH]; intros stay root Hnd Hr Hall.
  { exists root. cbn. by rewrite app_nil_r. }
  cbn [fmap list_fmap fst] in Hnd. apply NoDup_cons in Hnd as [Hname Hnd]. apply Forall_cons in Hall as [Hu Hall].
  destruct (is_upgrade (name, e)) eqn:E.
  - unfold is_upgrade in E. apply andb_true_iff in E as [Hh He]. cbn [fst snd] in *. destruct e as [| | |new]; try done.
    apply negb_true_iff in Hh. destruct (upgrade_loop_step name new es stay root Hh Hr Hu) as (r1 & -> & Hr1 & Hl).
    destruct (IH stay r1 Hnd Hr1) as (r2 & -> & H2).
    { rewrite Forall_forall in *. intros [k n] Hk. apply (upgradable_ext root); [| by apply Hall].
      cbn. rewrite Hl, decide_False; [done |]. intros ->. apply Hname. by apply (list_elem_of_fmap_2 fst _ (name, n)). }
    exists r2. assert (is_upgrade (name, Folder new) = true) as Hi by (unfold is_upgrade; cbn; by rewrite Hh).
    rewrite filter_cons_False by (by rewrite Hi). split; [done |]. intros k. rewrite filter_cons_True by done.
    cbn [lookup_entry]. rewrite H2. destruct (decide (name = k)) as [<-|Hne].
    + rewrite lookup_entry_None, Hl, decide_True by
        (try done; intros (x & Hx & (? & ?)%list_elem_of_filter)%list_elem_of_fmap;
         apply Hname; rewrite Hx; by apply list_elem_of_fmap_2). done.
    + destruct (lookup_entry k _) as [n|] eqn:En; rewrite ?Hl, ?decide_False by done; [| done].
      unfold upgraded. cbn [fst snd]. by rewrite Hl, decide_False.
  - rewrite filter_cons_True by done. rewrite filter_cons_False by (by rewrite E).
    assert (upgrade_loop ((name, e) :: es) stay root = upgrade_loop es (stay ++ [(name, e)]) root) as ->.
    { cbn [upgrade_loop]. unfold is_upgrade in E. cbn [fst snd] in E. destruct (hidden name); [done |].
      cbn in E. by destruct e. }
    destruct (IH (stay ++ [(name, e)]) root Hnd Hr Hall) as (r2 & -> & H2).
    exists r2. rewrite <- app_assoc. done.
Qed.

(** after an upgrade every directory of modules_update is a module, in place of
    the old version if there was one and disabled if that was, and all other modules
    are as before.  modules_update is removed exactly when it held nothing but
    directories: the loop has read the directory to its end, so the removal of what is
    left reads nothing, and an entry that is no directory makes the function fail and
    stays. *)
Theorem upgrade_modules_spec es root :
  NoDup es.*1 -> NoDup root.*1 -> Forall (upgradable root) es ->
  exists root',
    upgrade_modules (Some es) root =
      match filter (fun e => is_upgrade e = false) es with
      | [] => (None, root', Ok tt)
      | stay => (Some stay, root', Err tt)
      end /\
    forall k, lookup_entry k root' =
      match lookup_entry k (filter (fun e => is_upgrade e = true) es) with
      | Some e => upgraded root (k, e)
      | None => lookup_entry k root
      end.
Proof.
  intros Hnd Hr Hall. destruct (upgrade_loop_spec es [] root Hnd Hr Hall) as (root' & H & Hl).
  exists root'. split; [| done]. unfold upgrade_modules. rewrite H. cbn [app negb].
  by destruct (filter (fun e => is_upgrade e = false) es).
Qed.

Lemma upgrade_modules_spec_witness :
  exists root',
    upgrade_modules (Some [(#"a", Folder [(#"x", Reg #"2")]); (#"stray", Reg [])])
      [(#"a", Folder [(#"x", Reg #"1"); (#"disable", Reg [])]); (#"b", Folder [])] =
      (Some [(#"stray", Reg [])], root', Err tt) /\
    lookup_entry #"a" root' = Some (Folder [(#"x", Reg #"2"); (#"disable", Reg [])]) /\
    lookup_entry #"b" root' = Some (Folder []).
Proof.
  destruct (upgrade_modules_spec [(#"a", Folder [(#"x", Reg #"2")]); (#"stray", Reg [])]
      [(#"a", Folder [(#"x", Reg #"1"); (#"disable", Reg [])]); (#"b", Folder [])]) as (root' & H & Hl).
  - apply (bool_decide_unpack _). vm_compute. exact I.
  - apply (bool_decide_unpack _). vm_compute. exact I.
  - repeat constructor. intros _ d. by vm_compute.
  - exists root'. split; [exact H |]. split; apply Hl.
Defined.

(** ** Selection *)

Lemma has_put k name n es : has k (put_entry name n es) = if decide (k = name) then true else has k es.
Proof. unfold has. rewrite lookup_put. by case_decide. Qed.

Lemma create_file_has name es es' : create_file name es = Some es' -> has name es' = true.
Proof.
  unfold create_file. destruct (lookup_entry name es) as [[]|] eqn:E; intros [= <-]; unfold has.
  1-3: by rewrite E.
  by rewrite lookup_put, decide_True.
Qed.

Lemma disabled_not_loaded z o nm es zy : has #"disable" es = true -> module_fate z o nm es <> Loaded zy.
Proof. intros H. unfold module_fate. rewrite H. by destruct (has #"remove" es). Qed.

(** The module can be disabled by creating a file. *)
Definition can_disable (e : bytes * node) : Prop :=
  match e.2 with Folder es => create_file #"disable" es <> None | _ => True end.

(** in safe mode no module is loaded.  After the modules have been disabled none
    is collected, whatever the state of zygisk, as long as no module has a directory
    called disable: that would end the loop there. *)
Theorem disabled_modules_stay_out root z o :
  Forall can_disable root -> (collect_modules z o (disable_modules root)).1.2 = [].
Proof.
  induction root as [|[nm e] root IH]; [done |]. intros [Hc Hall]%Forall_cons. specialize (IH Hall).
  cbn [disable_modules]. destruct (is_module (nm, e)) eqn:Em.
  - destruct e as [| | |es]; try by unfold is_module in Em; rewrite andb_false_r in Em.
    unfold can_disable in Hc. cbn [snd] in Hc. destruct (create_file #"disable" es) as [es'|] eqn:Ec; [| done].
    cbn [collect_modules]. destruct (collect_modules z o _) as [[r m] s]. cbn in IH. subst m.
    assert (is_module (nm, Folder es') = true) as -> by exact Em.
    pose proof (create_file_has _ _ _ Ec) as Hd.
    destruct (module_fate z o nm es') as [u| |zy] eqn:Ef; [done.. |]. by apply disabled_not_loaded in Ef.
  - cbn [collect_modules]. destruct (collect_modules z o _) as [[r m] s]. cbn in IH. subst m.
    by rewrite Em.
Qed.

Lemma disabled_modules_stay_out_witness :
  (collect_modules true true (disable_modules [(#"a", Folder [(#"zygisk", Folder [])]); (#"b", Folder [])])).1.2 = [].
Proof. apply disabled_modules_stay_out. repeat constructor; by vm_compute. Defined.

Lemma lookup_unlink k name es : k <> name -> lookup_entry k (unlink_file name es) = lookup_entry k es.
Proof. intros Hne. unfold unlink_file. destruct (lookup_entry name es) as [[]|]; by rewrite ?lookup_remove_ne. Qed.

Lemma module_fate_unlink z o nm es : module_fate z o nm (unlink_file #"update" es) = module_fate z o nm es.
Proof. unfold module_fate, has. by rewrite !lookup_unlink by done. Qed.

Lemma unlink_twice name es : NoDup es.*1 -> unlink_file name (unlink_file name es) = unlink_file name es.
Proof.
  intros Hn. unfold unlink_file. destruct (lookup_entry name es) as [[]|] eqn:E; rewrite ?E; try done.
  all: rewrite lookup_remove, decide_True by done; apply remove_entry_id.
  all: rewrite lookup_remove, decide_True by done; done.
Qed.

(** Names are unique in every module directory. *)
Definition module_wf (e : bytes * node) : Prop := match e.2 with Folder es => NoDup es.*1 | _ => True end.

Definition opens (o : bool) (m : ModuleInfo) : ModuleInfo := mkModuleInfo m.(name) (o && m.(z_opened)).

Lemma module_fate_open z nm es :
  module_fate z false nm es =
  match module_fate z true nm es with Loaded _ => Loaded false | f => f end.
Proof. unfold module_fate. repeat (destruct (has _ es) || destruct z || destruct (bool_decide _) || cbn); done. Qed.

(** the first collection of the modules settles the module directory.  Collecting
    again, as is done after the post-fs-data scripts, finds the same modules in the
    same order (now with their zygisk libraries opened), runs no uninstall script and
    changes nothing. *)
Theorem collect_modules_stable z root :
  Forall module_wf root ->
  let first := collect_modules z false root in
  let again := collect_modules z true first.1.1 in
  again.1.1 = first.1.1 /\ map (opens false) again.1.2 = first.1.2 /\ again.2 = [].
Proof.
  induction root as [|[nm e] root IH]; [done |]. intros [Hc Hall]%Forall_cons.
  specialize (IH Hall). cbn zeta in *. cbn [collect_modules].
  destruct (collect_modules z false root) as [[r m] s]. cbn [fst snd] in *.
  destruct (is_module (nm, e)) eqn:Em.
  - destruct e as [| | |es]; try by unfold is_module in Em; rewrite andb_false_r in Em.
    unfold module_wf in Hc. cbn [snd] in Hc. rewrite module_fate_open.
    destruct (module_fate z true nm es) as [u| |zy] eqn:Ef; [done |..].
    all: cbn [fst snd collect_modules]; destruct (collect_modules z true r) as [[r' m'] s']; cbn [fst snd] in *.
    all: assert (is_module (nm, Folder (unlink_file #"update" es)) = true) as -> by exact Em.
    all: rewrite module_fate_unlink, Ef, unlink_twice by done; destruct IH as (-> & <- & ->); done.
  - cbn [fst snd collect_modules]. destruct (collect_modules z true r) as [[r' m'] s']; cbn [fst snd] in *.
    rewrite Em. destruct IH as (-> & <- & ->). done.
Qed.

Lemma collect_modules_stable_witness :
  let first := collect_modules true false
    [(#"a", Folder [(#"zygisk", Folder []); (#"update", Reg [])]); (#"b", Folder [(#"remove", Reg [])])] in
  let again := collect_modules true true first.1.1 in
  again.1.1 = first.1.1 /\ map (opens false) again.1.2 = first.1.2 /\ again.2 = [].
Proof.
  apply collect_modules_stable.
  repeat constructor; cbn [module_wf snd]; apply (bool_decide_unpack _); vm_compute; exact I.
Defined.
End Module_.
