(* ===== verification/ZygiskLibs.v ===== *)
(** core/module.rs: the libraries of Zygisk modules.  [collect_modules] opens the library of each
    module for the architecture, and copies it to a file in memory, so that processes that get
    the descriptor do not keep the file of the module open.

    The state is the table of open descriptors.  Which descriptor a call gets, and whether
    opening, creating and copying succeed, are arguments. *)

From S2P Require Import Prelude Text Numeric.

Module ZygiskLibs.

Inductive Arch := Arm | Aarch64 | X86 | X86_64 | Riscv64.

(** The names for 32 and 64 bits, by [target_arch]. *)
Definition lib_names (a : Arch) : option bytes * option bytes :=
  match a with
  | Arm => (Some #"zygisk/armeabi-v7a.so", None)
  | Aarch64 => (Some #"zygisk/armeabi-v7a.so", Some #"zygisk/arm64-v8a.so")
  | X86 => (Some #"zygisk/x86.so", None)
  | X86_64 => (Some #"zygisk/x86.so", Some #"zygisk/x86_64.so")
  | Riscv64 => (None, Some #"zygisk/riscv64.so")
  end.

Record File := mkFile { contents : bytes; in_memory : bool }.
Abbreviation Table := (gmap Z File).
Record ModuleInfo := mkModule { name : bytes; z32 : Z; z64 : Z }.

(** What the code relies on: a new descriptor is not in use. *)
Definition alloc_ok (alloc : Table -> option Z) : Prop := forall t fd, alloc t = Some fd -> t !! fd = None /\ 0 <= fd.

Section Libs.
Context (alloc : Table -> option Z) (sendfile : bytes -> option bytes) (arch : Arch).

(** [open_fd_safe]: -1 for an error. *)
Definition open_fd_safe (dir : gmap bytes bytes) (lib : option bytes) (t : Table) : Table * Z :=
  match lib with
  | None => (t, -1)
  | Some lib => match dir !! lib, alloc t with Some c, Some fd => (<[fd := mkFile c false]> t, fd) | _, _ => (t, -1) end
  end.

(** The libraries of a module, and the marker that is removed. *)
Definition open_libs (nm : bytes) (dir : gmap bytes bytes) (t : Table) : Table * ModuleInfo * gmap bytes bytes :=
  let '(t, z32) := open_fd_safe dir (lib_names arch).1 t in
  let '(t, z64) := open_fd_safe dir (lib_names arch).2 t in
  (t, mkModule nm z32 z64, delete #"zygisk/unloaded" dir).

(** [convert_to_memfd], with [use_memfd]. *)
Definition convert_to_memfd (fd : Z) (s : Table * bool) : Table * bool * Z :=
  let '(t, use_memfd) := s in
  if fd <? 0 then (t, use_memfd, fd) else
  if negb use_memfd then (t, use_memfd, fd) else
  match alloc t, t !! fd with
  | Some memfd, Some f =>
      match sendfile (contents f) with
      | Some c => (delete fd (<[memfd := mkFile c true]> t), true, memfd)
      | None => (t, false, fd)
      end
  | _, _ => (t, false, fd)
  end.

(** [modules.iter_mut().for_each] *)
Fixpoint convert_all (ms : list ModuleInfo) (s : Table * bool) : Table * bool * list ModuleInfo :=
  match ms with
  | [] => (s.1, s.2, [])
  | m :: ms =>
      let '(t, u, a) := convert_to_memfd (z32 m) s in
      let '(t, u, b) := convert_to_memfd (z64 m) (t, u) in
      let '(t, u, ms) := convert_all ms (t, u) in
      (t, u, mkModule (name m) a b :: ms)
  end.

(** * Theorems *)

Definition fds_of (ms : list ModuleInfo) : list Z := concat (map (fun m => [z32 m; z64 m]) ms).
Fixpoint convert_fds (l : list Z) (s : Table * bool) : Table * bool * list Z :=
  match l with
  | [] => (s.1, s.2, [])
  | fd :: l => let '(t, u, a) := convert_to_memfd fd s in let '(t, u, l) := convert_fds l (t, u) in (t, u, a :: l)
  end.

Lemma convert_all_fds ms s :
  let '(t, u, ms') := convert_all ms s in convert_fds (fds_of ms) s = (t, u, fds_of ms') /\ map name ms' = map name ms.
Proof.
  revert s. induction ms as [|m ms IH]; intros s; [done |]. cbn [convert_all]. change (fds_of (m :: ms)) with (z32 m :: z64 m :: fds_of ms). cbn [convert_fds].
  destruct (convert_to_memfd (z32 m) s) as [[t1 u1] a]. destruct (convert_to_memfd (z64 m) (t1, u1)) as [[t2 u2] b].
  specialize (IH (t2, u2)). destruct (convert_all ms (t2, u2)) as [[t3 u3] ms'] eqn:E. destruct IH as [-> Hn]. split; [done |]. cbn. by rewrite Hn.
Qed.

Context (Halloc : alloc_ok alloc) (Hsend : forall c c', sendfile c = Some c' -> c' = c).

Lemma Forall2_mono_in {A B} (P Q : A -> B -> Prop) l k : Forall2 P l k -> (forall x y, x ∈ l -> P x y -> Q x y) -> Forall2 Q l k.
Proof.
  induction 1 as [|x y l k Hxy _ IH]; intros H; constructor; [apply H; [apply list_elem_of_here | done] |]. apply IH. intros a b Ha. apply H. by apply list_elem_of_further.
Qed.

(** The descriptors that are not -1. *)
Definition valid (l : list Z) : list Z := filter (fun fd => 0 <= fd) l.

(** One descriptor: the same contents under the new number, the old one gone, the rest as it
    was. *)
Lemma convert_one fd t u t' u' a f :
  0 <= fd -> t !! fd = Some f -> convert_to_memfd fd (t, u) = (t', u', a) ->
  0 <= a /\ (contents <$> t' !! a = Some (contents f)) /\ size t' = size t /\ (a = fd \/ t !! a = None) /\
  (forall k, k <> fd -> is_Some (t !! k) -> t' !! k = t !! k).
Proof.
  intros Hp Hf. unfold convert_to_memfd. rewrite (proj2 (Z.ltb_ge fd 0)) by done. destruct u; cbn [negb]; [| intros [= <- <- <-]; rewrite Hf; split_and!; try done; by left].
  destruct (alloc t) as [m|] eqn:Ea; rewrite ?Hf; [| intros [= <- <- <-]; rewrite Hf; split_and!; try done; by left].
  destruct (sendfile (contents f)) as [c|] eqn:Es; [| intros [= <- <- <-]; rewrite Hf; split_and!; try done; by left].
  intros [= <- <- <-]. apply Hsend in Es as ->. destruct (Halloc _ _ Ea) as [Hm Hm0]. assert (fd <> m) as Hne by congruence.
  split_and!; [done | | | by right |].
  - rewrite lookup_delete_ne by done. by rewrite lookup_insert_eq.
  - rewrite map_size_delete, lookup_insert_ne, Hf, map_size_insert_None by done. lia.
  - intros k Hk [x Hx]. rewrite lookup_delete_ne by done. rewrite lookup_insert_ne; [done |]. congruence.
Qed.

Lemma convert_fds_spec l t u t' u' l' :
  NoDup (valid l) -> (forall fd, fd ∈ valid l -> is_Some (t !! fd)) -> convert_fds l (t, u) = (t', u', l') ->
  size t' = size t /\ (forall k, k ∉ valid l -> is_Some (t !! k) -> t' !! k = t !! k) /\
  Forall2 (fun fd fd' => (fd < 0 /\ fd' = fd) \/ (0 <= fd /\ 0 <= fd' /\ contents <$> t' !! fd' = contents <$> t !! fd)) l l'.
Proof.
  revert t u l'. induction l as [|fd l IH]; intros t u l' Hnd Hopen; cbn [convert_fds]; [intros [= <- <- <-]; split_and!; [done | done | constructor] |].
  destruct (convert_to_memfd fd (t, u)) as [[t1 u1] a] eqn:E1. destruct (convert_fds l (t1, u1)) as [[t2 u2] l2] eqn:E2. intros [= <- <- <-].
  destruct (decide (0 <= fd)) as [Hp|Hn].
  - unfold valid in Hnd, Hopen. rewrite filter_cons_True in Hnd, Hopen by done. fold (valid l) in Hnd, Hopen. apply NoDup_cons in Hnd as [Hfd Hnd].
    destruct (Hopen fd ltac:(apply list_elem_of_here)) as [f Hf]. destruct (convert_one _ _ _ _ _ _ _ Hp Hf E1) as (Ha & Hc & Hs & Hnew & Hrest).
    assert (forall k, k ∈ valid l -> t1 !! k = t !! k) as Hkeep.
    { intros k Hk. apply Hrest; [congruence | apply Hopen; by apply list_elem_of_further]. }
    destruct (IH t1 u1 l2 Hnd) as (H1 & H2 & H3); [intros k Hk; rewrite Hkeep by done; apply Hopen; by apply list_elem_of_further | done |].
    assert (a ∉ valid l) as Hal.
    { destruct Hnew as [->|Hnone]; [done |]. intros Hin. destruct (Hopen a ltac:(by apply list_elem_of_further)) as [x Hx]. congruence. }
    split_and!; [lia | |].
    + intros k Hk Hsome. unfold valid in Hk. rewrite filter_cons_True in Hk by done. apply not_elem_of_cons in Hk as [Hk1 Hk2].
      rewrite <- (Hrest k Hk1 Hsome). apply H2; [done |]. by rewrite (Hrest k Hk1 Hsome).
    + constructor; [right; split_and!; [done | done |] |].
      * rewrite (H2 a Hal), Hc, Hf; [done |]. destruct (t1 !! a); [by eexists | done].
      * apply (Forall2_mono_in _ _ _ _ H3). intros x y Hx [?|(Hx0 & ? & Heq)]; [by left | right]. split_and!; [done | done |]. rewrite Heq.
        rewrite (Hkeep x); [done |]. unfold valid. by apply list_elem_of_filter.
  - unfold valid in *. rewrite filter_cons_False in Hnd, Hopen |- * by done. unfold convert_to_memfd in E1. rewrite (proj2 (Z.ltb_lt fd 0)) in E1 by lia.
    injection E1 as <- <- <-. destruct (IH t u l2 Hnd Hopen E2) as (H1 & H2 & H3). split_and!; [done | done |]. constructor; [left; split; [lia | done] | done].
Qed.

(** Whichever of the copies succeed, every library that was opened is still there, under one
    open descriptor with the same contents, at the same place of the same module; a
    descriptor that was none is none; no other descriptor is touched and none is leaked. *)
Theorem convert_all_spec ms t u t' u' ms' :
  NoDup (valid (fds_of ms)) -> (forall fd, fd ∈ valid (fds_of ms) -> is_Some (t !! fd)) -> convert_all ms (t, u) = (t', u', ms') ->
  map name ms' = map name ms /\ size t' = size t /\ (forall k, k ∉ valid (fds_of ms) -> is_Some (t !! k) -> t' !! k = t !! k) /\
  Forall2 (fun fd fd' => (fd < 0 /\ fd' = fd) \/ (0 <= fd /\ 0 <= fd' /\ contents <$> t' !! fd' = contents <$> t !! fd)) (fds_of ms) (fds_of ms').
Proof.
  intros Hnd Hopen E. pose proof (convert_all_fds ms (t, u)) as H. rewrite E in H. destruct H as [H Hn]. split; [done |]. by apply (convert_fds_spec _ _ _ _ _ _ Hnd Hopen H).
Qed.

(** After the first error no file in memory is tried again. *)
Lemma convert_off l t t' u' l' : convert_fds l (t, false) = (t', u', l') -> t' = t /\ l' = l.
Proof.
  revert l'. induction l as [|fd l IH]; intros l'; cbn [convert_fds]; [by intros [= <- <- <-] |].
  assert (convert_to_memfd fd (t, false) = (t, false, fd)) as -> by (unfold convert_to_memfd; by destruct (fd <? 0)).
  destruct (convert_fds l (t, false)) as [[t2 u2] l2] eqn:E. intros [= <- <- <-]. destruct (IH l2 eq_refl) as [-> ->]. done.
Qed.

(** The libraries opened for a module are those its directory has for the architecture, each
    under a descriptor of its own that was not in use. *)
Theorem open_libs_spec nm dir t t' m dir' :
  open_libs nm dir t = (t', m, dir') ->
  name m = nm /\ dir' !! #"zygisk/unloaded" = None /\ (forall k, is_Some (t !! k) -> t' !! k = t !! k) /\
  let ok lib z := z = -1 \/ (0 <= z /\ t !! z = None /\ exists l c, lib = Some l /\ dir !! l = Some c /\ t' !! z = Some (mkFile c false)) in
  ok (lib_names arch).1 (z32 m) /\ ok (lib_names arch).2 (z64 m) /\ (z32 m = z64 m -> z32 m = -1).
Proof.
  unfold open_libs. destruct (open_fd_safe dir (lib_names arch).1 t) as [t1 a] eqn:E1. destruct (open_fd_safe dir (lib_names arch).2 t1) as [t2 b] eqn:E2. intros [= <- <- <-].
  cbn [name z32 z64].
  assert (forall lib s s' z, open_fd_safe dir lib s = (s', z) -> (s' = s /\ z = -1) \/ (0 <= z /\ s !! z = None /\ exists l c, lib = Some l /\ dir !! l = Some c /\ s' = <[z := mkFile c false]> s)) as Hopen.
  { intros lib s s' z. unfold open_fd_safe. destruct lib as [l|]; [| intros [= <- <-]; by left]. destruct (dir !! l) as [c|] eqn:Ec; [| intros [= <- <-]; by left].
    destruct (alloc s) as [fd|] eqn:Ea; intros [= <- <-]; [| by left]. right. destruct (Halloc _ _ Ea). split_and!; try done. by exists l, c. }
  apply Hopen in E1, E2. split; [done |]. split; [apply lookup_delete_eq |].
  destruct E1 as [[-> ->]|(Ha & Hna & l1 & c1 & Hl1 & Hc1 & ->)], E2 as [[-> ->]|(Hb & Hnb & l2 & c2 & Hl2 & Hc2 & ->)].
  - split_and!; try done; by left.
  - split_and!; [| by left | | done]; [intros k [x Hx]; rewrite lookup_insert_ne; congruence |]. right. split_and!; try done. exists l2, c2. by rewrite lookup_insert_eq.
  - split_and!; [| | by left | lia]; [intros k [x Hx]; rewrite lookup_insert_ne; congruence |]. right. split_and!; try done. exists l1, c1. by rewrite lookup_insert_eq.
  - assert (a <> b) as Hab by (intros ->; by rewrite lookup_insert_eq in Hnb). rewrite lookup_insert_ne in Hnb by done.
    split_and!; [intros k [x Hx]; rewrite !lookup_insert_ne; congruence | | | done].
    + right. split_and!; try done. exists l1, c1. rewrite lookup_insert_ne by done. by rewrite lookup_insert_eq.
    + right. split_and!; try done. exists l2, c2. by rewrite lookup_insert_eq.
Qed.
End Libs.

Definition demo_alloc (t : Table) : option Z := Some (1 + foldr Z.max 0 (map_to_list t).*1).
Lemma demo_alloc_ok : alloc_ok demo_alloc.
Proof.
  intros t fd [= <-]. assert (forall k, k ∈ (map_to_list t).*1 -> k <= foldr Z.max 0 (map_to_list t).*1) as H.
  { generalize ((map_to_list t).*1). intros l k. induction l as [|x l IH]; [by intros ?%not_elem_of_nil |]. intros [->|Hk]%elem_of_cons; cbn; [lia |]. specialize (IH Hk). lia. }
  split.
  - destruct (t !! _) as [f|] eqn:E; [| done]. exfalso. assert (1 + foldr Z.max 0 (map_to_list t).*1 ∈ (map_to_list t).*1) as Hin.
    { apply list_elem_of_fmap. exists (1 + foldr Z.max 0 (map_to_list t).*1, f). split; [done |]. by apply elem_of_map_to_list. }
    apply H in Hin. lia.
  - assert (0 <= foldr Z.max 0 (map_to_list t).*1); [| lia]. generalize ((map_to_list t).*1). intros l. induction l; cbn; lia.
Qed.

Lemma convert_all_spec_witness :
  let t : Table := {[ 7 := mkFile #"elf" false ]} in
  exists ms', (convert_all demo_alloc (fun c => Some c) [mkModule #"m" (-1) 7] (t, true)).2 = ms' /\ map name ms' = [ #"m"] /\
    size (convert_all demo_alloc (fun c => Some c) [mkModule #"m" (-1) 7] (t, true)).1.1 = 1%nat.
Proof.
  intros t. eexists. split; [reflexivity |].
  destruct (convert_all_spec demo_alloc (fun c => Some c) demo_alloc_ok (fun c c' H => eq_sym (Some_inj _ _ H)) [mkModule #"m" (-1) 7] t true (convert_all demo_alloc (fun c => Some c) [mkModule #"m" (-1) 7] (t, true)).1.1 (convert_all demo_alloc (fun c => Some c) [mkModule #"m" (-1) 7] (t, true)).1.2 (convert_all demo_alloc (fun c => Some c) [mkModule #"m" (-1) 7] (t, true)).2 (NoDup_singleton 7)) as (H1 & H2 & _).
  - intros fd Hfd. apply list_elem_of_singleton in Hfd. subst fd. eexists. reflexivity.
  - reflexivity.
  - split; [exact H1 | exact H2].
Defined.

End ZygiskLibs.
