(* ===== verification/Union.v ===== *)
(** core/module.rs, step 1 of [apply_modules]: the virtual tree that is collected
    from the modules is the union of their system directories, the first module
    winning.

    A tree is looked at as a partial function from paths; the specification is an
    operation on such functions, and the collecting loop refines it. *)

From S2P Require Import Prelude Text Dir Module.

Module Union.
Import Dir Module_.

(** * Ordered maps *)

Section Bt.
Context {A : Type}.
Implicit Types l : list (bytes * A).

Lemma bt_get_above k l : Forall (fun p => blt k p.1) l -> bt_get k l = None.
Proof.
  induction l as [|[j a] l IH]; [done |]. rewrite Forall_cons. intros [Hj Hl]. cbn [bt_get].
  rewrite decide_False; [auto |]. intros ->. by apply blt_irrefl in Hj.
Qed.


Lemma bt_get_entry k k' d f l :
  StronglySorted key_lt l ->
  bt_get k' (bt_entry k d f l) = if decide (k' = k) then Some (f (default d (bt_get k l))) else bt_get k' l.
Proof.
  induction l as [|[j a] l IH]; cbn [bt_entry bt_get].
  { intros _. repeat case_decide; try congruence. done. }
  intros [Hs Hf]%StronglySorted_inv. destruct (bcmp k j) eqn:E.
  - apply bcmp_Eq in E as ->. cbn [bt_get]. rewrite (decide_True _ _ (eq_refl j)). cbn [default from_option id].
    repeat case_decide; congruence.
  - cbn [bt_get]. assert (j <> k) by (intros ->; by apply blt_irrefl in E).
    rewrite (decide_False (P := j = k)) by done.
    rewrite (bt_get_above k l).
    2: { eapply Forall_impl; [exact Hf |]. intros [i b] Hi. by apply (blt_trans k j i). }
    cbn [default from_option id]. repeat case_decide; congruence.
  - cbn [bt_get]. assert (j <> k) by (intros ->; apply bcmp_Gt in E; by apply blt_irrefl in E).
    rewrite (decide_False (P := j = k)) by done. rewrite IH by done. repeat case_decide; congruence.
Qed.

Lemma bt_entry_Forall (P : bytes * A -> Prop) k d f l :
  Forall P l -> P (k, f d) -> (forall a, (k, a) ∈ l -> P (k, f a)) -> Forall P (bt_entry k d f l).
Proof.
  induction l as [|[j a] l IH]; cbn [bt_entry]; [by repeat constructor |].
  rewrite Forall_cons. intros [Hj Hl] Hk Hf. destruct (bcmp k j) eqn:E.
  - apply bcmp_Eq in E as <-. constructor; [apply Hf; set_solver | done].
  - by repeat constructor.
  - constructor; [done |]. apply IH; [done.. |]. intros b Hb. apply Hf. set_solver.
Qed.

Lemma bt_entry_sorted k d f l : StronglySorted key_lt l -> StronglySorted key_lt (bt_entry k d f l).
Proof.
  induction l as [|[j a] l IH]; cbn [bt_entry]; [by repeat constructor |].
  intros Hsl. pose proof Hsl as [Hs Hf]%StronglySorted_inv. destruct (bcmp k j) eqn:E.
  - apply bcmp_Eq in E as <-. by constructor.
  - constructor; [done |]. constructor; [exact E |].
    eapply Forall_impl; [exact Hf |]. intros [i b] Hi. by apply (blt_trans k j i).
  - constructor; [by apply IH |]. apply bcmp_Gt in E. apply bt_entry_Forall; done.
Qed.

Lemma bt_get_elem k a l : bt_get k l = Some a -> (k, a) ∈ l.
Proof.
  induction l as [|[j b] l IH]; [done |]. cbn [bt_get]. case_decide as Hd; [| set_solver].
  intros [= ->]. subst. set_solver.
Qed.
End Bt.

Lemma bt_get_NoDup {A} k (a : A) l : NoDup l.*1 -> (k, a) ∈ l -> bt_get k l = Some a.
Proof.
  induction l as [|[j b] l IH]; [set_solver |]. cbn [fmap list_fmap fst bt_get]. rewrite NoDup_cons.
  intros [Hj Hn] [Heq|Hin]%elem_of_cons; [injection Heq as <- <-; by rewrite decide_True |].
  rewrite decide_False; [auto |]. intros ->. apply Hj. by apply (list_elem_of_fmap_2 fst _ (k, a)).
Qed.

Lemma bt_get_notin {A} k (l : list (bytes * A)) : (k ∉ l.*1) -> bt_get k l = None.
Proof.
  induction l as [|[j b] l IH]; [done |]. cbn [fmap list_fmap fst bt_get]. intros H.
  rewrite decide_False by set_solver. apply IH. set_solver.
Qed.

Lemma bt_get_remove {A} k k' (l : list (bytes * A)) :
  NoDup l.*1 -> bt_get k (bt_remove k' l) = if decide (k = k') then None else bt_get k l.
Proof.
  induction l as [|[j b] l IH]; cbn [bt_remove bt_get fmap list_fmap fst]; [by case_decide |].
  rewrite NoDup_cons. intros [Hj Hn]. destruct (decide (j = k')) as [->|].
  - case_decide; [subst; by apply bt_get_notin | by rewrite decide_False].
  - cbn [bt_get]. rewrite IH by done. repeat case_decide; congruence.
Qed.

Lemma sorted_NoDup {A} (l : list (bytes * A)) : StronglySorted key_lt l -> NoDup l.*1.
Proof.
  induction 1 as [|[k a] l Hs IH Hf]; [constructor |]. cbn [fmap list_fmap fst]. constructor; [| done].
  intros ([k' a'] & -> & Hin)%list_elem_of_fmap. rewrite Forall_forall in Hf.
  by apply (blt_irrefl k'), (Hf _ Hin).
Qed.

(** * Well-formed trees *)

Section FsInd.
Context (P : FsNode -> Prop).
Context (HDir : forall ch, Forall (fun e => P e.2) ch -> P (Directory ch)).
Context (HLeaf : forall n, (forall ch, n <> Directory ch) -> P n).

Fixpoint fs_induction (n : FsNode) : P n.
Proof.
  destruct n as [ch| | | |]; [apply HDir | by apply HLeaf..].
  induction ch as [|e ch IH]; constructor; [apply fs_induction | exact IH].
Defined.
End FsInd.

(** The children of every directory are sorted, as [BTreeMap] keeps them. *)
Fixpoint fs_wf (t : FsNode) : Prop :=
  match t with
  | Directory ch =>
      StronglySorted key_lt ch /\
      (fix go (ch : list (bytes * FsNode)) : Prop := match ch with [] => True | (_, c) :: ch => fs_wf c /\ go ch end) ch
  | _ => True
  end.

Lemma fs_wf_Directory ch : fs_wf (Directory ch) <-> StronglySorted key_lt ch /\ Forall (fun e => fs_wf e.2) ch.
Proof.
  cbn [fs_wf]. apply and_iff_compat_l. induction ch as [|[k c] ch IH]; [by split; [constructor |] |].
  rewrite Forall_cons, IH. done.
Qed.

Lemma fs_wf_get k c ch : fs_wf (Directory ch) -> bt_get k ch = Some c -> fs_wf c.
Proof. rewrite fs_wf_Directory. intros [_ Hf] H%bt_get_elem. rewrite Forall_forall in Hf. by apply (Hf (k, c)). Qed.

Lemma fs_wf_entry k d f ch :
  fs_wf (Directory ch) -> fs_wf (f d) -> (forall c, fs_wf c -> fs_wf (f c)) -> fs_wf (Directory (bt_entry k d f ch)).
Proof.
  rewrite !fs_wf_Directory. intros [Hs Hc] Hd Hf. split; [by apply bt_entry_sorted |].
  apply bt_entry_Forall; [done.. |]. intros a Ha. apply Hf. rewrite Forall_forall in Hc. by apply (Hc (k, a)).
Qed.

Lemma collect_wf m mnt t : fs_wf t -> fs_wf (collect mnt m t).
Proof.
  revert mnt t. induction m as [d|l|w|es IH] using node_induction; intros mnt t Ht; [by destruct t.. |].
  destruct t as [ch| | | |]; [| done..]. cbn [collect]. revert ch Ht.
  induction IH as [|[nm c] es Hc Hes IHes]; intros ch Ht; [done |]. cbn [collect_entries].
  destruct (hidden nm); [by apply IHes |]. apply IHes. cbn [snd] in Hc.
  assert (fs_wf new_dir) by (cbn; repeat constructor).
  destruct c as [| |[]|]; apply fs_wf_entry; auto; exact I.
Qed.

(** * Trees as partial functions *)

(** What is at a path: a directory, without its contents, or a leaf. *)
Definition kind (n : FsNode) : FsNode := match n with Directory _ => new_dir | n => n end.

Fixpoint fs_at (p : list bytes) (t : FsNode) : option FsNode :=
  match p with
  | [] => Some (kind t)
  | name :: p => match t with Directory ch => c ← bt_get name ch; fs_at p c | _ => None end
  end.

(** What a module has to offer there; [mnt] is the path of its mount. *)
Definition offer (mnt : bytes) (m : node) : FsNode :=
  match m with
  | Folder _ => new_dir
  | Lnk link => FSymlink link
  | Special true => Whiteout
  | _ => FFile mnt
  end.

Fixpoint mod_at (mnt : bytes) (m : node) (p : list bytes) : option FsNode :=
  match p with
  | [] => Some (offer mnt m)
  | name :: p =>
      match m with
      | Folder es =>
          if hidden name then None else
          c ← lookup_entry name es; mod_at (child_path mnt name) c p
      | _ => None
      end
  end.

Definition is_leaf (o : option FsNode) : bool :=
  match o with None | Some (Directory _) => false | Some _ => true end.

(** A leaf on the way to the path. *)
Fixpoint blocked (f : list bytes -> option FsNode) (p : list bytes) : bool :=
  match p with
  | [] => false
  | name :: p => is_leaf (f []) || blocked (fun q => f (name :: q)) p
  end.

(** The union of two trees, the first one winning. *)
Definition over (f g : list bytes -> option FsNode) (p : list bytes) : option FsNode :=
  match f p with
  | Some k => Some k
  | None => if blocked f p then None else g p
  end.

#[export] Instance blocked_proper : Proper (pointwise_relation _ eq ==> eq ==> eq) blocked.
Proof.
  intros f g Hfg p ? <-. revert f g Hfg. induction p as [|name p IH]; intros f g Hfg; [done |].
  cbn [blocked]. rewrite (Hfg []). f_equal. apply IH. intros q. apply Hfg.
Qed.

#[export] Instance over_proper :
  Proper (pointwise_relation _ eq ==> pointwise_relation _ eq ==> pointwise_relation _ eq) over.
Proof. intros f f' Hf g g' Hg p. unfold over. by rewrite (Hf p), (Hg p), (blocked_proper f f' Hf p p eq_refl). Qed.

(** * Collecting one module *)

(** Names are unique in every directory below. *)
Fixpoint names_unique (n : node) : Prop :=
  match n with
  | Folder es =>
      NoDup es.*1 /\
      (fix go (es : entries) : Prop := match es with [] => True | (_, c) :: es => names_unique c /\ go es end) es
  | _ => True
  end.

Lemma names_unique_Folder es : names_unique (Folder es) <-> NoDup es.*1 /\ Forall (fun e => names_unique e.2) es.
Proof.
  cbn [names_unique]. apply and_iff_compat_l. induction es as [|[k c] es IH]; [by split; [constructor |] |].
  rewrite Forall_cons, IH. done.
Qed.

(** The node that the loop leaves for an entry of the module. *)
Definition added (path : bytes) (c : node) (o : option FsNode) : FsNode :=
  match c with
  | Folder _ => collect path c (default new_dir o)
  | _ => default (offer path c) o
  end.

Lemma collect_entries_get mnt es ch k :
  NoDup es.*1 -> fs_wf (Directory ch) ->
  bt_get k (collect_entries collect mnt es ch) =
  match (if hidden k then None else lookup_entry k es) with
  | Some c => Some (added (child_path mnt k) c (bt_get k ch))
  | None => bt_get k ch
  end.
Proof.
  revert ch. induction es as [|[nm c] es IH]; intros ch Hn Hw; [by destruct (hidden k) |].
  cbn [fmap list_fmap fst] in Hn. apply NoDup_cons in Hn as [Hnm Hn]. cbn [collect_entries lookup_entry].
  destruct (hidden nm) eqn:Hh.
  { rewrite IH by done. destruct (decide (nm = k)) as [->|]; [by rewrite Hh | done]. }
  pose proof Hw as [Hs _]%fs_wf_Directory.
  assert (forall d f, (forall x, fs_wf x -> fs_wf (f x)) -> fs_wf d ->
    bt_get k (collect_entries collect mnt es (bt_entry nm d f ch)) =
    match (if hidden k then None else if decide (nm = k) then Some c else lookup_entry k es) with
    | Some e => Some (if decide (nm = k) then f (default d (bt_get k ch)) else added (child_path mnt k) e (bt_get k ch))
    | None => bt_get k ch
    end) as Hstep.
  { intros d f Hf Hd. rewrite IH by (try apply fs_wf_entry; auto). rewrite bt_get_entry by done.
    destruct (decide (nm = k)) as [->|Hne]; [| by rewrite decide_False].
    by rewrite Hh, (lookup_entry_None k es), decide_True. }
  assert (fs_wf new_dir) by (cbn; repeat constructor).
  destruct c as [d|l|[]|sub]; rewrite Hstep by (auto using collect_wf; exact I).
  all: destruct (hidden k), (decide (nm = k)) as [->|]; try done.
  all: by destruct (lookup_entry k es).
Qed.

Lemma over_none (g : list bytes -> option FsNode) p : over (fun _ => None) g p = g p.
Proof. unfold over. assert (blocked (fun _ => None) p = false) as ->; [| done]. by induction p. Qed.

Lemma over_new_dir (g : list bytes -> option FsNode) p :
  g [] = Some new_dir -> over (fun q => fs_at q new_dir) g p = g p.
Proof. intros Hg. destruct p as [|name p]; [by rewrite Hg |]. apply (over_none (fun q => g (name :: q))). Qed.

Lemma over_cons f g name p :
  is_leaf (f []) = false -> over f g (name :: p) = over (fun q => f (name :: q)) (fun q => g (name :: q)) p.
Proof. intros Hf. unfold over. cbn [blocked]. by rewrite Hf. Qed.

Lemma over_leaf f g name p : is_leaf (f []) = true -> f (name :: p) = None -> over f g (name :: p) = None.
Proof. intros H1 H2. unfold over. cbn [blocked]. by rewrite H1, H2. Qed.

Lemma added_at path c o p :
  (forall t, fs_wf t -> fs_at p (collect path c t) = over (fun q => fs_at q t) (mod_at path c) p) ->
  (forall t, o = Some t -> fs_wf t) ->
  fs_at p (added path c o) = over (fun q => t ← o; fs_at q t) (mod_at path c) p.
Proof.
  intros IH Hw. assert (is_dir c = true \/ is_dir c = false) as [Hc|Hc] by (destruct (is_dir c); auto).
  - destruct c as [| | |es]; try done. cbn [added]. destruct o as [t|]; cbn [default from_option id].
    + apply IH, (Hw t). done.
    + rewrite IH by (cbn; repeat constructor). rewrite over_new_dir by done. symmetry. apply over_none.
  - assert (added path c o = default (offer path c) o) as -> by by destruct c.
    destruct o as [t|]; cbn [default from_option id mbind option_bind].
    + unfold over. destruct (fs_at p t) eqn:E; [done |]. destruct (blocked _ p); [done |].
      destruct p; [done | by destruct c].
    + etrans; [| symmetry; apply over_none]. destruct p as [|name p]; [by destruct c as [| |[]|] |].
      by destruct c as [| |[]|].
Qed.

Lemma collect_over m mnt t p :
  fs_wf t -> names_unique m -> fs_at p (collect mnt m t) = over (fun q => fs_at q t) (mod_at mnt m) p.
Proof.
  revert mnt t p. induction m as [d|l|w|es IH] using node_induction; intros mnt t p Ht Hu.
  1-3: assert (forall n, collect mnt n t = t \/ is_dir n = true) as Hc by (intros []; [left; by destruct t.. | auto]).
  1-3: edestruct Hc as [-> |]; [| done]; unfold over; destruct (fs_at p t) eqn:E; [done |];
       destruct (blocked _ p); [done |]; by destruct p.
  apply names_unique_Folder in Hu as [Hn Hu]. destruct p as [|name p].
  { by destruct t. }
  assert (is_leaf (Some (kind t)) = true \/ exists ch, t = Directory ch) as [Hl|[ch ->]] by (destruct t; eauto).
  { rewrite over_leaf by (try exact Hl; by destruct t). by destruct t. }
  rewrite over_cons by done. cbn [collect fs_at]. rewrite collect_entries_get by done. cbn [mod_at].
  destruct (hidden name); [| destruct (lookup_entry name es) as [c|] eqn:Ec].
  - unfold over. destruct (bt_get name ch ≫= fs_at p); [done |]. by destruct (blocked _ p).
  - cbn [mbind option_bind]. apply lookup_entry_elem in Ec. rewrite Forall_forall in IH, Hu.
    apply added_at; [| intros t; by apply fs_wf_get].
    intros t Hwt. apply (IH _ Ec); [done |]. apply (Hu _ Ec).
  - unfold over. cbn [mbind option_bind]. destruct (bt_get name ch ≫= fs_at p); [done |]. by destruct (blocked _ p).
Qed.

(** * All modules *)

(** The tree that a module brings along: nothing if it is not mounted. *)
Definition contribution (mnt_root : bytes) (m : bytes * entries) (p : list bytes) : option FsNode :=
  if has #"skip_mount" m.2 then None else
  match lookup_entry #"system" m.2 with
  | Some sys => mod_at (child_path (child_path mnt_root m.1) #"system") sys p
  | None => None
  end.

Lemma collect_module_over mnt_root m t p :
  fs_wf t -> names_unique (Folder m.2) ->
  fs_at p (collect_module mnt_root t m) = over (fun q => fs_at q t) (contribution mnt_root m) p.
Proof.
  intros Ht [Hn Hu]%names_unique_Folder. unfold collect_module, contribution.
  assert (fs_at p t = over (fun q => fs_at q t) (fun _ => None) p) as Hid.
  { unfold over. destruct (fs_at p t); [done |]. by destruct (blocked _ p). }
  destruct (has _ _); [exact Hid |]. destruct (lookup_entry _ _) as [sys|] eqn:E; [| exact Hid].
  apply collect_over; [done |]. apply lookup_entry_elem in E. rewrite Forall_forall in Hu. apply (Hu _ E).
Qed.

Lemma collect_module_wf mnt_root m t : fs_wf t -> fs_wf (collect_module mnt_root t m).
Proof. intros Ht. unfold collect_module. destruct (has _ _); [done |]. destruct (lookup_entry _ _); auto using collect_wf. Qed.

Lemma collect_all_wf mnt_root mods : fs_wf (collect_all mnt_root mods).
Proof.
  unfold collect_all. assert (fs_wf new_dir) as H by (cbn; repeat constructor). revert H. generalize new_dir.
  induction mods as [|m mods IH]; intros t Ht; [done |]. apply IH. by apply collect_module_wf.
Qed.

(** C9: the virtual tree of all modules is the union of what each module brings, in
    the order of the modules: at every path the first module with something there
    decides what it is, unless an earlier module has put a file or a link on the way,
    and modules with skip_mount bring nothing. *)
Theorem collect_all_union mnt_root mods p :
  Forall (fun m => names_unique (Folder m.2)) mods ->
  fs_at p (collect_all mnt_root mods) =
  foldl over (fun q => fs_at q new_dir) (map (contribution mnt_root) mods) p.
Proof.
  intros Hall. unfold collect_all.
  assert (forall t f, fs_wf t -> pointwise_relation _ eq (fun q => fs_at q t) f ->
    fs_at p (foldl (collect_module mnt_root) t mods) = foldl over f (map (contribution mnt_root) mods) p) as H;
    [| by apply H; [cbn; repeat constructor |]].
  induction Hall as [|m mods Hm Hall IH]; intros t f Ht Hf; cbn [foldl map]; [apply Hf |].
  apply IH; [by apply collect_module_wf |]. intros q. rewrite collect_module_over by done.
  by apply over_proper.
Qed.

Lemma collect_all_union_witness :
  let mods := [(#"m1", [(#"system", Folder [(#"etc", Folder [(#"a", Reg #"1")])])]);
               (#"m2", [(#"system", Folder [(#"etc", Folder [(#"a", Reg #"2"); (#"b", Lnk #"a")])])])] in
  fs_at [ #"etc"; #"a"] (collect_all #"/mnt" mods) = Some (FFile #"/mnt/m1/system/etc/a") /\
  fs_at [ #"etc"; #"b"] (collect_all #"/mnt" mods) = Some (FSymlink #"a").
Proof.
  intros mods. assert (Forall (fun m => names_unique (Folder m.2)) mods) as H.
  { repeat constructor; cbn [fst snd fmap list_fmap]; apply (bool_decide_unpack _); vm_compute; exact I. }
  split; (etrans; [apply (collect_all_union #"/mnt" mods _ H) | vm_compute; reflexivity]).
Defined.
End Union.
