(* ===== verification/Inject.v ===== *)
(** core/module.rs, steps 2 and 3 of [apply_modules]: the binaries of Magisk are put
    into the virtual tree, and the partitions are taken out of it. *)

From S2P Require Import Prelude Text Dir Module Union.

Module Inject.
Import Dir Module_ Union.

(** The nodes that are injected. *)
Definition bins (tmp : bytes) : list (bytes * FsNode) :=
  [(#"magisk", FFile (child_path tmp #"magisk")); (#"magiskpolicy", FFile (child_path tmp #"magiskpolicy"));
   (#"su", MagiskLink); (#"resetprop", MagiskLink); (#"supolicy", MagiskLink)].

Lemma bt_get_insert {A} k k' (a : A) l :
  StronglySorted key_lt l -> bt_get k' (bt_insert k a l) = if decide (k' = k) then Some a else bt_get k' l.
Proof. apply bt_get_entry. Qed.

Lemma bt_insert_sorted {A} k (a : A) l : StronglySorted key_lt l -> StronglySorted key_lt (bt_insert k a l).
Proof. apply bt_entry_sorted. Qed.

Lemma fs_wf_insert k c ch : fs_wf (Directory ch) -> fs_wf c -> fs_wf (Directory (bt_insert k c ch)).
Proof. intros H Hc. by apply fs_wf_entry. Qed.

Lemma fs_wf_inject tmp ch : fs_wf (Directory ch) -> fs_wf (Directory (inject tmp ch)).
Proof. intros H. unfold inject. by repeat (apply fs_wf_insert; [| exact I]). Qed.

Lemma bt_get_inject tmp ch k :
  StronglySorted key_lt ch ->
  bt_get k (inject tmp ch) = match bt_get k (bins tmp) with Some n => Some n | None => bt_get k ch end.
Proof.
  intros Hs. unfold inject, bins. rewrite !bt_get_insert by auto 10 using bt_insert_sorted. cbn [bt_get].
  repeat case_decide; subst; done.
Qed.

(** [p] is at or below one of the injected nodes of the directory [c]. *)
Definition claimed (c p : list bytes) : Prop :=
  exists x q, p = c ++ x :: q /\ exists n, bt_get x (bins []) = Some n.

Lemma bins_names tmp x n : bt_get x (bins tmp) = Some n -> exists n', bt_get x (bins []) = Some n'.
Proof. unfold bins. cbn [bt_get]. repeat case_decide; eauto. Qed.

(** What the walk to a directory does: nothing is lost but what the binaries replace,
    the tree stays well-formed, and on success the binaries are there. *)
Record injected_at (tmp : bytes) (c : list bytes) (n n' : FsNode) (ok : bool) : Prop := {
  inj_wf : fs_wf n';
  inj_dir : is_leaf (Some n') = is_leaf (Some n);
  inj_keep : forall p k, fs_at p n = Some k -> (ok = true -> ~ claimed c p) -> fs_at p n' = Some k;
  inj_bins : ok = true -> forall x k, bt_get x (bins tmp) = Some k -> fs_at (c ++ [x]) n' = Some k;
  inj_new : ok = false -> forall p, is_leaf (fs_at p n') = is_leaf (fs_at p n);
  inj_ok : ok = negb (blocked (fun q => fs_at q n) (c ++ [ [] ])) }.

Lemma fs_at_new_dir p : p <> [] -> fs_at p new_dir = None.
Proof. by destruct p. Qed.

Lemma blocked_none p : blocked (fun _ => None) p = false.
Proof. by induction p. Qed.

Lemma inject_at_spec tmp c n : fs_wf n -> let '(n', ok) := inject_at tmp c n in injected_at tmp c n n' ok.
Proof.
  revert n. induction c as [|d c IH]; intros n Hw.
  - destruct n as [ch| | | |]; cbn [inject_at]; [| by split..]. pose proof Hw as [Hs _]%fs_wf_Directory. split.
    + by apply fs_wf_inject.
    + done.
    + intros [|x q] k Hp Hn; [exact Hp |]. cbn [fs_at] in *. rewrite bt_get_inject by done.
      destruct (bt_get x (bins tmp)) eqn:E; [| done]. apply bins_names in E. destruct Hn; [done |].
      by exists x, q.
    + intros _ x k Hx. cbn [app fs_at]. rewrite bt_get_inject, Hx by done. cbn [mbind option_bind fs_at]. f_equal.
      revert Hx. unfold bins. cbn [bt_get]. repeat case_decide; by intros [= <-].
    + done.
    + done.
  - destruct n as [ch| | | |]; cbn [inject_at]; [| by split..]. pose proof Hw as [Hs _]%fs_wf_Directory.
    assert (fs_wf (default new_dir (bt_get d ch))) as Hd.
    { destruct (bt_get d ch) eqn:E; [by eapply fs_wf_get | cbn; repeat constructor]. }
    specialize (IH _ Hd). destruct (inject_at tmp c _) as [n' ok]. destruct IH as [Iw Id Ik Ib Inew Io]. split.
    + by apply fs_wf_insert.
    + done.
    + intros [|x q] k Hp Hn; [exact Hp |]. cbn [fs_at] in *. rewrite bt_get_insert by done.
      destruct (decide (x = d)) as [->|]; [| done]. destruct (bt_get d ch) as [m|]; [| done].
      apply Ik; [done |]. intros Hok (y & r & -> & Hy). apply (Hn Hok). by exists y, r.
    + intros Hok x k Hx. cbn [app fs_at]. rewrite bt_get_insert, decide_True by done. by apply Ib.
    + intros Hok [|x q]; [done |]. cbn [fs_at]. rewrite bt_get_insert by done. destruct (decide (x = d)) as [->|]; [| done].
      cbn [mbind option_bind]. rewrite Inew by done. destruct (bt_get d ch) as [m|]; [done |]. by destruct q.
    + rewrite Io. cbn [app blocked fs_at kind is_leaf orb]. f_equal.
      destruct (bt_get d ch) as [m|]; [done |]. cbn [default from_option id mbind option_bind].
      rewrite blocked_none. destruct c; [done |]. cbn [app blocked fs_at kind is_leaf orb new_dir]. apply blocked_none.
Qed.

Lemma elem_of_candidates em su count items item n :
  (item, n) ∈ candidates em su count items ->
  exists orig, orig ∈ items /\ suitable em orig = true /\ item = strip_system_prefix orig.
Proof.
  induction items as [|o items IH]; [set_solver |]. cbn [candidates].
  destruct (suitable em o) eqn:Es; cbn [negb].
  2: { intros (? & ? & ?)%IH. set_solver. }
  destruct (su o).
  { rewrite list_elem_of_singleton. intros [= -> _]. set_solver. }
  destruct (count o); [| intros (? & ? & ?)%IH; set_solver].
  intros [[= -> _]|(? & ? & ?)%IH]%elem_of_cons; set_solver.
Qed.

Lemma inject_first_spec tmp cs n :
  fs_wf n -> is_leaf (Some n) = false -> is_leaf (fs_at [ #"bin"] n) = false ->
  exists c, (c ∈ cs \/ c = [ #"bin"]) /\ fs_wf (inject_first tmp cs n) /\
    (forall x k, bt_get x (bins tmp) = Some k -> fs_at (c ++ [x]) (inject_first tmp cs n) = Some k) /\
    (forall p k, fs_at p n = Some k -> ~ claimed c p -> fs_at p (inject_first tmp cs n) = Some k).
Proof.
  revert n. induction cs as [|c cs IH]; intros n Hw Hl Hb.
  - exists [ #"bin"]. cbn [inject_first]. pose proof (inject_at_spec tmp [ #"bin"] n Hw) as Hi.
    destruct (inject_at tmp _ n) as [n' ok]. destruct Hi as [Iw _ Ik Ib _ Io].
    assert (ok = true) as ->.
    { rewrite Io. cbn [app blocked]. rewrite Hb, orb_false_r. by destruct n. }
    cbn [fst]. split_and!; [by right | done | by apply Ib | by auto].
  - destruct n as [ch| | | |]; try done. cbn [inject_first].
    pose proof (inject_at_spec tmp c (Directory ch) Hw) as Hi.
    destruct (inject_at tmp c (Directory ch)) as [n' ok]. destruct Hi as [Iw Id Ik Ib Inew _]. destruct ok.
    + exists c. split_and!; [set_solver | done | by apply Ib | by auto].
    + destruct (IH n') as (c' & Hc' & Hw' & Hb' & Hk'); [done | by rewrite Id | by rewrite Inew |].
      exists c'. split_and!; [set_solver | done.. |]. intros p k Hp Hn. apply Hk'; [| done]. by apply Ik.
Qed.

(** the binaries of Magisk are put into one directory: a directory of PATH on one of
    the known partitions that is neither an apex nor, on an emulator, xbin, and where
    nothing but directories is in the way, or else bin.  magisk, magiskpolicy and the
    three links are all there afterwards, and every other node of the modules is still
    what it was. *)
Theorem inject_magisk_bins_spec tmp path_env is_emulator su_exists file_count system :
  fs_wf system -> is_leaf (Some system) = false -> is_leaf (fs_at [ #"bin"] system) = false ->
  let system' := inject_magisk_bins tmp path_env is_emulator su_exists file_count system in
  exists c, (c = [ #"bin"] \/
      exists item, item ∈ split_on ":"%char path_env /\ suitable is_emulator item = true /\
        c = components (strip_system_prefix item)) /\
    (forall x k, bt_get x (bins tmp) = Some k -> fs_at (c ++ [x]) system' = Some k) /\
    (forall p k, fs_at p system = Some k -> ~ claimed c p -> fs_at p system' = Some k).
Proof.
  intros Hw Hl Hb. cbv zeta. unfold inject_magisk_bins.
  set (cs := map _ _). destruct (inject_first_spec tmp cs system Hw Hl Hb) as (c & Hc & _ & Hbins & Hkeep).
  exists c. split; [| split; [exact Hbins | exact Hkeep]]. destruct Hc as [Hc| ->]; [right | by left].
  apply list_elem_of_fmap in Hc as ([item n] & -> & Hin). rewrite merge_sort_Permutation in Hin.
  apply elem_of_candidates in Hin as (orig & Ho & Hs & Heq). exists orig. cbn [fst]. by rewrite <- Heq.
Qed.

Lemma inject_magisk_bins_spec_witness :
  let sys := collect_all #"/mnt" [(#"m", [(#"system", Folder [(#"xbin", Folder [(#"tool", Reg [])])])])] in
  let sys' := inject_magisk_bins #"/dev/x" #"/sbin:/system/bin:/system/xbin" false
    (fun _ => false) (fun d => if decide (d = #"/system/xbin") then Some 1 else Some 200) sys in
  exists c, fs_at (c ++ [ #"su"]) sys' = Some MagiskLink.
Proof.
  intros sys sys'. edestruct (inject_magisk_bins_spec #"/dev/x" #"/sbin:/system/bin:/system/xbin" false
    (fun _ => false) (fun d => if decide (d = #"/system/xbin") then Some 1 else Some 200) sys) as (c & _ & Hb & _).
  - apply collect_all_wf.
  - by vm_compute.
  - by vm_compute.
  - exists c. apply Hb. by vm_compute.
Defined.

Lemma inject_magisk_bins_wf tmp path em su count n : fs_wf n -> fs_wf (inject_magisk_bins tmp path em su count n).
Proof.
  unfold inject_magisk_bins. generalize (map (fun c : bytes * Z => components c.1)
    (merge_sort fewer (candidates em su count (split_on ":"%char path)))). intros cs. revert n.
  induction cs as [|c cs IH]; intros n Hw; cbn [inject_first].
  - pose proof (inject_at_spec tmp [ #"bin"] n Hw) as Hi. destruct (inject_at _ _ n). apply Hi.
  - destruct n as [ch| | | |]; [| by apply IH..]. pose proof (inject_at_spec tmp c _ Hw) as Hi.
    destruct (inject_at tmp c (Directory ch)) as [n' []]; [| apply IH]; apply Hi.
Qed.

Lemma inject_lib_wf lib name src n : fs_wf n -> fs_wf (inject_lib lib name src n).
Proof.
  destruct n as [ch| | | |]; [| done..]. intros Hw. cbn [inject_lib]. apply fs_wf_entry; [done | |].
  - destruct src; cbn; repeat constructor.
  - intros [lch| | | |] Hl; destruct src; try done. by apply fs_wf_insert.
Qed.

Lemma inject_zygisk_bins_wf ex tmp name n : fs_wf n -> fs_wf (inject_zygisk_bins ex tmp name n).
Proof. intros Hw. unfold inject_zygisk_bins. repeat case_match; auto using inject_lib_wf. Qed.

(** ** Partitions *)

Lemma bt_remove_Forall {A} (P : bytes * A -> Prop) k l : Forall P l -> Forall P (bt_remove k l).
Proof. induction 1 as [|[j a] l Hj Hl IH]; [constructor |]. cbn [bt_remove]. case_decide; [done | by constructor]. Qed.

Lemma bt_remove_sorted {A} k (l : list (bytes * A)) : StronglySorted key_lt l -> StronglySorted key_lt (bt_remove k l).
Proof.
  induction 1 as [|[j a] l Hs IH Hf]; [constructor |]. cbn [bt_remove]. case_decide; [done |].
  constructor; [done | by apply bt_remove_Forall].
Qed.

Lemma extract_root_get real ch roots name k :
  StronglySorted key_lt ch -> StronglySorted key_lt roots ->
  let '(ch', roots') := extract_root real (ch, roots) name in
  StronglySorted key_lt ch' /\ StronglySorted key_lt roots' /\
  (bt_get k ch' = if decide (k = name /\ real name = true) then None else bt_get k ch) /\
  (bt_get k roots' = if decide (k = name /\ real name = true)
                     then match bt_get k ch with Some r => Some r | None => bt_get k roots end else bt_get k roots).
Proof.
  intros Hc Hr. cbn [extract_root]. destruct (real name) eqn:E.
  2: { rewrite !decide_False by naive_solver. done. }
  destruct (bt_get name ch) as [r|] eqn:Eg.
  - split_and!; [by apply bt_remove_sorted | by apply bt_insert_sorted | |].
    + rewrite bt_get_remove by by apply sorted_NoDup. destruct (decide (k = name)) as [->|]; [by rewrite decide_True | by rewrite decide_False by naive_solver].
    + rewrite bt_get_insert by done.
      destruct (decide (k = name)) as [->|]; [by rewrite decide_True, Eg | by rewrite decide_False by naive_solver].
  - split_and!; [done.. | |]; destruct (decide (k = name)) as [->|];
      [by rewrite decide_True | by rewrite decide_False by naive_solver
      | by rewrite decide_True, Eg | by rewrite decide_False by naive_solver].
Qed.

Lemma extract_roots_fold real names ch roots k :
  StronglySorted key_lt ch -> StronglySorted key_lt roots -> NoDup names ->
  let '(ch', roots') := foldl (extract_root real) (ch, roots) names in
  StronglySorted key_lt ch' /\ StronglySorted key_lt roots' /\
  (bt_get k ch' = if decide (k ∈ names /\ real k = true) then None else bt_get k ch) /\
  (bt_get k roots' = if decide (k ∈ names /\ real k = true)
                     then match bt_get k ch with Some r => Some r | None => bt_get k roots end else bt_get k roots).
Proof.
  revert ch roots. induction names as [|name names IH]; intros ch roots Hc Hr Hn.
  { cbn [foldl]. rewrite !decide_False by set_solver. done. }
  apply NoDup_cons in Hn as [Hname Hn]. cbn [foldl].
  pose proof (extract_root_get real ch roots name k Hc Hr) as H.
  destruct (extract_root real (ch, roots) name) as [ch1 roots1]. destruct H as (Hc1 & Hr1 & G1 & G2).
  specialize (IH ch1 roots1 Hc1 Hr1 Hn). destruct (foldl _ _ _) as [ch2 roots2]. destruct IH as (? & ? & G3 & G4).
  split_and!; [done.. | |]; rewrite ?G3, ?G4, ?G1, ?G2.
  all: repeat case_decide; set_solver.
Qed.

Lemma extract_roots_wf real system :
  fs_wf system ->
  StronglySorted key_lt (extract_roots real system) /\ Forall (fun e => fs_wf e.2) (extract_roots real system).
Proof.
  intros Hw. destruct system as [ch| | | |];
    [| split; [by repeat constructor | apply List.Forall_cons; [exact I | constructor]]..]. cbn [extract_roots].
  assert (forall names ch roots, fs_wf (Directory ch) -> fs_wf (Directory roots) ->
    let '(ch', roots') := foldl (extract_root real) (ch, roots) names in
    fs_wf (Directory ch') /\ fs_wf (Directory roots')) as H.
  { clear. induction names as [|name names IH]; intros ch roots Hc Hr; [done |]. cbn [foldl extract_root].
    destruct (real name); [| by apply IH]. destruct (bt_get name ch) as [r|] eqn:E; [| by apply IH].
    apply IH; [| apply fs_wf_insert; [done | exact (fs_wf_get _ _ _ Hc E)]].
    apply fs_wf_Directory in Hc as [Hs Hf]. apply fs_wf_Directory.
    split; [by apply bt_remove_sorted | by apply bt_remove_Forall]. }
  specialize (H SECONDARY_READ_ONLY_PARTITIONS ch [] Hw). destruct (foldl _ _ _) as [ch' roots'].
  destruct H as [Hc Hr]; [cbn; repeat constructor |]. by apply fs_wf_Directory, fs_wf_insert.
Qed.

Lemma virtual_tree_wf env mnt_root mods :
  StronglySorted key_lt (virtual_tree env mnt_root mods) /\
  Forall (fun e => fs_wf e.2) (virtual_tree env mnt_root mods).
Proof.
  apply extract_roots_wf. repeat case_match; auto using inject_zygisk_bins_wf, inject_magisk_bins_wf, collect_all_wf.
Qed.

(** taking the partitions out of the tree loses and invents nothing.  What the tree
    has below the name of a partition that is a directory of its own is, path by path,
    in the tree of that partition; all the rest is in the tree of system. *)
Theorem extract_roots_spec is_real_dir ch k p :
  fs_wf (Directory ch) ->
  fs_at (k :: p) (Directory ch) =
  (if decide (k ∈ SECONDARY_READ_ONLY_PARTITIONS /\ is_real_dir k = true)
   then r ← bt_get k (extract_roots is_real_dir (Directory ch)); fs_at p r
   else r ← bt_get #"system" (extract_roots is_real_dir (Directory ch)); fs_at (k :: p) r).
Proof.
  intros [Hs _]%fs_wf_Directory. cbn [extract_roots].
  assert (NoDup SECONDARY_READ_ONLY_PARTITIONS) as Hn by (apply (bool_decide_unpack _); vm_compute; exact I).
  pose proof (extract_roots_fold is_real_dir _ ch [] k Hs (SSorted_nil _) Hn) as H.
  destruct (foldl _ _ _) as [ch' roots']. destruct H as (Hc & Hr & Hk & Hroot).
  rewrite !bt_get_insert by done. rewrite (decide_True (P := #"system" = #"system")) by done.
  cbn [mbind option_bind fs_at]. rewrite Hk. case_decide as Hd; [| done].
  rewrite (decide_False (P := k = #"system")).
  - rewrite Hroot. by destruct (bt_get k ch).
  - intros ->. destruct Hd as [Hd _]. revert Hd. by apply (bool_decide_unpack _).
Qed.

Lemma extract_roots_spec_witness :
  let ch := match collect_all #"/mnt" [(#"m", [(#"system", Folder [(#"vendor", Folder [(#"f", Reg [])])])])] with
            | Directory ch => ch | _ => [] end in
  fs_at [ #"vendor"; #"f"] (Directory ch) =
  (r ← bt_get #"vendor" (extract_roots (fun _ => true) (Directory ch)); fs_at [ #"f"] r).
Proof.
  intros ch. apply (extract_roots_spec (fun _ => true) ch #"vendor" [ #"f"]).
  exact (collect_all_wf #"/mnt" [(#"m", [(#"system", Folder [(#"vendor", Folder [(#"f", Reg [])])])])]).
Defined.
End Inject.
