(* ===== verification/Mount.v ===== *)
(** core/module.rs, step 4 of [apply_modules]: the virtual tree is put over the real
    partitions with bind mounts and rebuilt directories.

    [commit] works below one path at a time: what is visible at the path afterwards is
    computed from the node and from what was visible before, and the worker directory
    of a path is filled from nothing.  A link in a real partition leads out of the tree
    that is being mounted; system calls that create files in the worker directory
    succeed, while a bind mount can fail and is then ignored, as in the source.
    Attributes are not modelled. *)

From S2P Require Import Prelude Text Dir Module Union Inject.

Module Mount.
Import Dir Module_ Union Inject.

Section Mount.
(** What a symbolic link of the real tree leads to, and what is found at a path that a
    file is mounted from (the mount of the modules or the directory of the binaries). *)
Context (follow source : bytes -> option node).

(** [bind_mount]: a directory can be mounted on a directory, anything else on anything
    else; a mount on a link ends up where the link leads. *)
Definition bind_mount (src dest : option node) : option node :=
  match src, dest with
  | Some s, Some (Lnk t) => Some (Lnk t)
  | Some s, Some d => if eqb (is_dir s) (is_dir d) then Some s else Some d
  | _, _ => dest
  end.

Definition mount_dummy (src : option node) (dir : bool) : option node :=
  bind_mount src (Some (if dir then Folder [] else Reg [])).

(** [Directory::open] on a real path, and the entry of a name below it. *)
Definition opened (real : option node) : option entries :=
  match real with
  | Some (Folder es) => Some es
  | Some (Lnk t) => match follow t with Some (Folder es) => Some es | _ => None end
  | _ => None
  end.

Definition child (name : bytes) (real : option node) : option node :=
  es ← opened real; lookup_entry name es.

Definition parent_should_be_tmpfs (n : FsNode) (target : option node) : bool :=
  match n with
  | Directory _ | FFile _ =>
      match target with
      | Some (Lnk _) => true
      | Some _ => false
      | None => true
      end
  | _ => true
  end.

(** [Path::parent] of a path without empty components. *)
Definition parent_dir (p : bytes) : option bytes :=
  match split_once "/"%char (rev p) with
  | Some (_, []) => if decide (p = #"/") then None else Some #"/"
  | Some (_, d) => Some (rev d)
  | None => if decide (p = []) then None else Some []
  end.

(** The mirror of a real directory that has no node: every entry that can be read. *)
Fixpoint mirror (n : node) : node :=
  match n with
  | Folder es =>
      Folder ((fix go (es : entries) : entries :=
        match es with
        | [] => []
        | (name, c) :: es => if hidden name then go es else (name, mirror c) :: go es
        end) es)
  | Lnk t => Lnk t
  | n => default n (mount_dummy (Some n) false)
  end.

Definition mirror_entries (ch : list (bytes * FsNode)) (es : entries) : entries :=
  match mirror (Folder (filter (fun e => bt_get e.1 ch = None) es)) with Folder es => es | _ => [] end.

Definition add_entry (name : bytes) (n : option node) (es : entries) : entries :=
  match n with Some n => put_entry name n es | None => es end.

(** The children of a directory in the worker directory; the map no longer has the
    entry [.replace]. *)
Definition commit_entries (f : bytes -> FsNode -> option node) : list (bytes * FsNode) -> entries -> entries :=
  fix go (ch : list (bytes * FsNode)) (es : entries) : entries :=
    match ch with
    | [] => es
    | (name, c) :: ch => go ch (if decide (name = #".replace") then es else add_entry name (f name c) es)
    end.

(** The directory the node [.replace] stands in, if it is a file. *)
Definition replace_dir (ch : list (bytes * FsNode)) : option bytes :=
  match bt_get #".replace" ch with
  | Some (FFile src) => parent_dir src
  | _ => None
  end.

(** [commit_tmpfs]: what is in the worker directory at the path afterwards; [name] is
    the last component. *)
Fixpoint commit_tmpfs (name : bytes) (n : FsNode) (real : option node) : option node :=
  match n with
  | Directory ch =>
      match replace_dir ch with
      | Some dir =>
          Some (Folder (commit_entries (fun name c =>
            match c with
            | Directory _ => mount_dummy (source (child_path dir name)) true
            | _ => commit_tmpfs name c (child name real)
            end) ch []))
      | None =>
          let mirrored := match opened real with
                          | Some es => mirror_entries (bt_remove #".replace" ch) es
                          | None => []
                          end in
          Some (Folder (commit_entries (fun name c => commit_tmpfs name c (child name real)) ch mirrored))
      end
  | FFile src => mount_dummy (source src) false
  | FSymlink target => Some (Lnk target)
  | MagiskLink => Some (Lnk (if decide (name = #"supolicy") then #"./magiskpolicy" else #"./magisk"))
  | Whiteout => None
  end.

(** The closure of [retain]: whether the child stays, and whether it asks for tmpfs. *)
Definition retain (is_root_dir : bool) (real : option node) (e : bytes * FsNode) : bool * bool :=
  if decide (e.1 = #".replace") then
    if is_root_dir then (false, false) else (true, true)
  else if parent_should_be_tmpfs e.2 (child e.1 real) then
    if is_root_dir then (false, false) else (true, true)
  else (true, false).

Definition set_child (name : bytes) (n real : option node) : option node :=
  match n, real with
  | Some n, Some (Folder es) => Some (Folder (put_entry name n es))
  | _, _ => real
  end.

(** The loop over the children that are kept. *)
Definition commit_children (keep : bytes * FsNode -> bool) (commit : FsNode -> option node -> option node)
    : list (bytes * FsNode) -> option node -> option node :=
  fix go (ch : list (bytes * FsNode)) (real : option node) : option node :=
    match ch with
    | [] => real
    | (name, c) :: ch =>
        go ch (if keep (name, c) then set_child name (commit c (child name real)) real else real)
    end.

(** [commit]: what is visible at the path afterwards.  Nothing is dropped from the
    children of a directory that is rebuilt: it is not a root. *)
Fixpoint commit (is_root_dir : bool) (n : FsNode) (real : option node) : option node :=
  match n with
  | Directory ch =>
      if existsb (fun e => (retain is_root_dir real e).2) ch
      then bind_mount (commit_tmpfs [] n real) real
      else commit_children (fun e => (retain is_root_dir real e).1) (commit false) ch real
  | FFile src => bind_mount (source src) real
  | _ => real
  end.

(** [apply_modules]: the virtual tree of each partition is mounted over it; the root
    directory holds the partitions.  The properties of system.prop are left out. *)
Definition apply_modules (env : Env) (mnt_root : bytes) (mods : list (bytes * entries)) (rootdir : entries) : entries :=
  foldl (fun rootdir e => add_entry e.1 (commit true e.2 (lookup_entry e.1 rootdir)) rootdir)
    rootdir (virtual_tree env mnt_root mods).

(** * What should be visible *)

(** What is at a path below a node: a directory without its contents, or a file. *)
Definition shape (n : node) : node := match n with Folder _ => Folder [] | n => n end.

Fixpoint node_at (p : list bytes) (n : option node) : option node :=
  match n with
  | None => None
  | Some n =>
      match p with
      | [] => Some (shape n)
      | name :: p => match n with Folder es => node_at p (lookup_entry name es) | _ => None end
      end
  end.

(** A child node, the request to replace the directory apart. *)
Definition node_child (name : bytes) (ch : list (bytes * FsNode)) : option FsNode :=
  if decide (name = #".replace") then None else bt_get name ch.

(** The overlay of a node on what is there: a file, link or whiteout decides alone; in
    a directory the children decide about their names, and all other names are those
    of the real directory, or gone if the directory is replaced.  A directory inside a
    replaced one is the one of the module that asks for the replacement. *)
Fixpoint seen (p : list bytes) (name : bytes) (n : FsNode) (real : option node) : option node :=
  match n with
  | Directory ch =>
      match p with
      | [] => Some (Folder [])
      | k :: p =>
          match replace_dir ch, node_child k ch with
          | Some dir, Some (Directory _) => node_at p (mount_dummy (source (child_path dir k)) true)
          | Some _, None => None
          | _, Some c => seen p k c (child k real)
          | None, None => node_at p (child k real)
          end
      end
  | FFile src => node_at p (source src)
  | FSymlink target => node_at p (Some (Lnk target))
  | MagiskLink => node_at p (Some (Lnk (if decide (name = #"supolicy") then #"./magiskpolicy" else #"./magisk")))
  | Whiteout => None
  end.

(** Readable directories: unique names, none that is skipped. *)
Fixpoint tidy (n : node) : Prop :=
  match n with
  | Folder es =>
      NoDup es.*1 /\
      (fix go (es : entries) : Prop :=
         match es with [] => True | (name, c) :: es => hidden name = false /\ tidy c /\ go es end) es
  | _ => True
  end.

Definition tidy_opt (n : option node) : Prop := match n with Some n => tidy n | None => True end.

(** Files come from files, and a file and a directory do not meet. *)
Fixpoint compatible (n : FsNode) (real : option node) : Prop :=
  match n with
  | Directory ch =>
      (forall d, real = Some d -> is_dir d = true \/ exists t, d = Lnk t) /\
      (fix go (ch : list (bytes * FsNode)) : Prop :=
         match ch with [] => True | (name, c) :: ch => compatible c (child name real) /\ go ch end) ch
  | FFile src =>
      (exists s, source src = Some s /\ is_dir s = false) /\
      forall d, real = Some d -> is_dir d = false
  | _ => True
  end.

Lemma tidy_Folder es :
  tidy (Folder es) <-> NoDup es.*1 /\ Forall (fun e => hidden e.1 = false /\ tidy e.2) es.
Proof.
  cbn [tidy]. apply and_iff_compat_l. induction es as [|[k c] es IH]; [by split; [constructor |] |].
  rewrite Forall_cons, IH. cbn. tauto.
Qed.

Lemma compatible_Directory ch real :
  compatible (Directory ch) real <->
  (forall d, real = Some d -> is_dir d = true \/ exists t, d = Lnk t) /\
  Forall (fun e => compatible e.2 (child e.1 real)) ch.
Proof.
  cbn [compatible]. apply and_iff_compat_l. induction ch as [|[k c] ch IH]; [by split; [constructor |] |].
  rewrite Forall_cons, IH. done.
Qed.

Lemma node_at_None p : node_at p None = None.
Proof. by destruct p. Qed.

(** * Mirrors *)

Lemma mirror_lookup es k :
  Forall (fun e => hidden e.1 = false) es ->
  match mirror (Folder es) with Folder es' => lookup_entry k es' | _ => None end = mirror <$> lookup_entry k es.
Proof.
  induction es as [|[j c] es IH]; [done |]. rewrite Forall_cons. intros [Hh Hes]. specialize (IH Hes).
  cbn in *. rewrite Hh. cbn [lookup_entry]. case_decide; [done | exact IH].
Qed.

Lemma mirror_at n p : tidy n -> node_at p (Some (mirror n)) = node_at p (Some n).
Proof.
  revert p. induction n as [d|l|w|es IH] using node_induction; intros p Ht; [done.. |].
  apply tidy_Folder in Ht as [Hn Hf]. destruct p as [|k p]; [done |].
  assert (Forall (fun e => hidden e.1 = false) es) as Hh by (eapply Forall_impl; [exact Hf | by intros ? []]).
  pose proof (mirror_lookup es k Hh) as Hl. cbn [mirror] in Hl. cbn [node_at mirror]. rewrite Hl.
  destruct (lookup_entry k es) as [c|] eqn:E; [| done]. apply lookup_entry_elem in E.
  rewrite Forall_forall in IH, Hf. apply (IH _ E), (Hf _ E).
Qed.

Lemma lookup_filter (P : bytes -> Prop) `{!forall x, Decision (P x)} es k :
  lookup_entry k (filter (fun e => P e.1) es) = if decide (P k) then lookup_entry k es else None.
Proof.
  induction es as [|[j c] es IH]; [by case_decide |]. rewrite filter_cons. cbn [fst lookup_entry].
  destruct (decide (P j)); cbn [lookup_entry]; rewrite IH; repeat case_decide; congruence.
Qed.

Lemma mirror_entries_lookup ch es k :
  Forall (fun e => hidden e.1 = false) es ->
  lookup_entry k (mirror_entries ch es) =
  match bt_get k ch with Some _ => None | None => mirror <$> lookup_entry k es end.
Proof.
  intros Hh. unfold mirror_entries.
  pose proof (mirror_lookup (filter (fun e => bt_get e.1 ch = None) es) k) as H.
  assert (lookup_entry k (filter (fun e => bt_get e.1 ch = None) es) =
    if decide (bt_get k ch = None) then lookup_entry k es else None) as Hl by exact (lookup_filter (fun x => bt_get x ch = None) es k).
  rewrite Hl in H. cbn [mirror] in *. rewrite H.
  - destruct (bt_get k ch) eqn:E; [by rewrite decide_False | by rewrite decide_True].
  - rewrite Forall_forall in *. intros e [_ He]%list_elem_of_filter. by apply Hh.
Qed.

(** Mirroring is what [commit_tmpfs] does with an empty directory node. *)
Lemma mirror_is_commit_tmpfs name es :
  commit_tmpfs name new_dir (Some (Folder es)) = Some (mirror (Folder es)).
Proof.
  cbn [commit_tmpfs new_dir replace_dir bt_get opened bt_remove commit_entries]. unfold mirror_entries.
  rewrite filter_all by done. done.
Qed.

(** * Rebuilt directories *)

Lemma commit_entries_lookup f ch es k :
  NoDup ch.*1 ->
  lookup_entry k (commit_entries f ch es) =
  match node_child k ch ≫= f k with Some n => Some n | None => lookup_entry k es end.
Proof.
  revert es. induction ch as [|[j c] ch IH]; intros es Hn; [by unfold node_child; case_decide |].
  cbn [fmap list_fmap fst] in Hn. apply NoDup_cons in Hn as [Hj Hn]. cbn [commit_entries]. rewrite IH by done.
  unfold node_child. cbn [bt_get]. destruct (decide (j = k)) as [->|Hne].
  - rewrite bt_get_notin by done. destruct (decide (k = #".replace")); cbn [mbind option_bind]; [done |].
    destruct (f k c); cbn [add_entry]; [by rewrite lookup_put, decide_True | done].
  - destruct (decide (k = #".replace")); cbn [mbind option_bind].
    all: destruct (decide (j = #".replace")); [done |]; destruct (f j c); cbn [add_entry];
         rewrite ?lookup_put, ?decide_False by done; done.
Qed.

Context (follow_tidy : forall t, tidy_opt (follow t)).

Lemma opened_tidy real es : tidy_opt real -> opened real = Some es -> tidy (Folder es).
Proof.
  unfold opened. destruct real as [[d|t|w|es']|]; try done.
  - intros _. pose proof (follow_tidy t) as H. destruct (follow t) as [[]|]; try done. by intros [= <-].
  - by intros H [= <-].
Qed.

Lemma tidy_lookup es k : tidy (Folder es) -> tidy_opt (lookup_entry k es).
Proof.
  intros [_ Hf]%tidy_Folder. destruct (lookup_entry k es) as [n|] eqn:E; [| done].
  apply lookup_entry_elem in E. rewrite Forall_forall in Hf. apply (Hf _ E).
Qed.

Lemma child_tidy k real : tidy_opt real -> tidy_opt (child k real).
Proof.
  intros Ht. unfold child. destruct (opened real) as [es|] eqn:E; cbn [mbind option_bind]; [| done].
  apply tidy_lookup. by eapply opened_tidy.
Qed.

Lemma mirrored_at ch real k p :
  tidy_opt real -> NoDup ch.*1 ->
  node_at p (lookup_entry k (match opened real with
                             | Some es => mirror_entries (bt_remove #".replace" ch) es
                             | None => []
                             end)) =
  match node_child k ch with Some _ => None | None => node_at p (child k real) end.
Proof.
  intros Ht Hn. unfold child. destruct (opened real) as [es|] eqn:E; cbn [mbind option_bind].
  2: { cbn [lookup_entry]. rewrite node_at_None. by destruct (node_child k ch). }
  pose proof (opened_tidy _ _ Ht E) as Hes. rewrite mirror_entries_lookup.
  2: { apply tidy_Folder in Hes as [_ Hf]. eapply Forall_impl; [exact Hf | by intros ? []]. }
  rewrite bt_get_remove by done. unfold node_child. destruct (decide _), (bt_get k ch); try apply node_at_None.
  all: pose proof (tidy_lookup es k Hes) as Hk; destruct (lookup_entry k es); [by apply mirror_at | done].
Qed.

Lemma mount_dummy_dir src : exists es, mount_dummy src true = Some (Folder es).
Proof. unfold mount_dummy, bind_mount. destruct src as [[]|]; cbn; eauto. Qed.

Lemma mount_dummy_file s : is_dir s = false -> mount_dummy (Some s) false = Some s.
Proof. by destruct s. Qed.

Lemma commit_tmpfs_seen n name real p :
  fs_wf n -> tidy_opt real -> compatible n real ->
  node_at p (commit_tmpfs name n real) = seen p name n real.
Proof.
  revert name real p. induction n as [ch IH|n Hleaf] using fs_induction; intros name real p Hw Ht Hc.
  2: { destruct n as [ch|src|t| |]; [by destruct (Hleaf ch) | | by destruct p..].
       destruct Hc as [(s & Hs & Hd) _]. destruct p; cbn [commit_tmpfs seen]; by rewrite Hs, mount_dummy_file by done. }
  apply fs_wf_Directory in Hw as [Hs Hw]. apply sorted_NoDup in Hs. apply compatible_Directory in Hc as [_ Hc].
  assert (forall k c q, node_child k ch = Some c ->
    node_at q (commit_tmpfs k c (child k real)) = seen q k c (child k real)) as Hchild.
  { intros k c q Hk. unfold node_child in Hk. case_decide; [done |]. apply bt_get_elem in Hk.
    rewrite Forall_forall in IH, Hw, Hc.
    apply (IH _ Hk); [apply (Hw _ Hk) | by apply child_tidy | apply (Hc _ Hk)]. }
  destruct p as [|k p]; [cbn [commit_tmpfs seen]; by destruct (replace_dir ch) |].
  cbn [commit_tmpfs seen]. destruct (replace_dir ch) as [dir|]; cbn [node_at]; rewrite commit_entries_lookup by done.
  - destruct (node_child k ch) as [c|] eqn:Ek; cbn [mbind option_bind]; [| apply node_at_None].
    destruct c as [ch'| | | |].
    + destruct (mount_dummy_dir (source (child_path dir k))) as [es ->]. done.
    + rewrite <- (Hchild k _ p Ek). by destruct (commit_tmpfs _ _ _).
    + rewrite <- (Hchild k _ p Ek). by destruct (commit_tmpfs _ _ _).
    + rewrite <- (Hchild k _ p Ek). by destruct (commit_tmpfs _ _ _).
    + cbn [commit_tmpfs lookup_entry]. rewrite node_at_None. by destruct p.
  - pose proof (mirrored_at ch real k p Ht Hs) as Hm.
    destruct (node_child k ch) as [c|] eqn:Ek; cbn [mbind option_bind]; [| exact Hm].
    rewrite <- (Hchild k c p Ek). destruct (commit_tmpfs k c (child k real)); [done |].
    by rewrite Hm, node_at_None.
Qed.

(** * Directories that are kept *)

Lemma commit_children_lookup keep f ch es :
  NoDup ch.*1 ->
  exists es', commit_children keep f ch (Some (Folder es)) = Some (Folder es') /\
    forall k, lookup_entry k es' =
      match bt_get k ch with
      | Some c => if keep (k, c) then match f c (lookup_entry k es) with Some n => Some n | None => lookup_entry k es end
                  else lookup_entry k es
      | None => lookup_entry k es
      end.
Proof.
  revert es. induction ch as [|[j c] ch IH]; intros es Hn; [by exists es |].
  cbn [fmap list_fmap fst] in Hn. apply NoDup_cons in Hn as [Hj Hn]. cbn [commit_children].
  assert (exists es1, (if keep (j, c) then set_child j (f c (child j (Some (Folder es)))) (Some (Folder es))
                       else Some (Folder es)) = Some (Folder es1) /\
    forall k, lookup_entry k es1 =
      if decide (j = k) then
        if keep (j, c) then match f c (lookup_entry j es) with Some n => Some n | None => lookup_entry j es end
        else lookup_entry j es
      else lookup_entry k es) as (es1 & -> & Hl).
  { destruct (keep (j, c)); [| exists es; split; [done |]; intros k; by case_decide; subst].
    cbn [child opened mbind option_bind]. destruct (f c (lookup_entry j es)) as [n|]; cbn [set_child].
    - eexists. split; [done |]. intros k. rewrite lookup_put. repeat case_decide; congruence.
    - exists es. split; [done |]. intros k. by case_decide; subst. }
  destruct (IH es1 Hn) as (es' & -> & Hl'). exists es'. split; [done |]. intros k. rewrite Hl'. cbn [bt_get].
  rewrite Hl. destruct (decide (j = k)) as [->|]; [by rewrite bt_get_notin | done].
Qed.

Lemma commit_Some r n d : exists d', commit r n (Some d) = Some d'.
Proof.
  assert (forall src d, exists d', bind_mount src (Some d) = Some d') as Hb.
  { intros [s|] d0; unfold bind_mount; [| eauto]. destruct d0; try destruct (eqb _ _); eauto. }
  destruct n as [ch|src| | |]; cbn [commit]; eauto. destruct (existsb _ ch); [eauto |].
  generalize (fun e => (retain r (Some d) e).1). revert d. induction ch as [|[k c] ch IH]; intros d keep; cbn; [eauto |].
  destruct (keep (k, c)); [| apply IH]. unfold set_child. destruct (commit false c _), d; apply IH.
Qed.

(** The node can be put in place without changing the parent. *)
Definition in_place (n : FsNode) (real : option node) : Prop := parent_should_be_tmpfs n real = false.

Lemma retain_false real e : (retain false real e).2 = false -> e.1 <> #".replace" /\ in_place e.2 (child e.1 real).
Proof. unfold retain, in_place. case_decide; [done |]. by destruct (parent_should_be_tmpfs _ _). Qed.

Lemma commit_seen n name real p :
  fs_wf n -> tidy_opt real -> compatible n real -> in_place n real ->
  node_at p (commit false n real) = seen p name n real.
Proof.
  revert name real p. induction n as [ch IH|n Hleaf] using fs_induction; intros name real p Hw Ht Hc Hi.
  2: { destruct n as [ch|src|t| |]; [by destruct (Hleaf ch) | | done..]. destruct Hc as [(s & Hs & Hd) Hr].
       destruct real as [d|]; [| done]. specialize (Hr d eq_refl).
       destruct p; cbn [commit seen]; rewrite Hs; unfold bind_mount; rewrite Hd, Hr; by destruct d. }
  pose proof Hw as [Hs Hws]%fs_wf_Directory. apply sorted_NoDup in Hs. pose proof Hc as [Hd Hcs]%compatible_Directory.
  assert (exists es, real = Some (Folder es)) as [es ->].
  { destruct real as [d|]; [| done]. destruct (Hd d eq_refl) as [?|[t ->]]; [| done]. destruct d; try done. eauto. }
  cbn [commit]. destruct (existsb _ ch) eqn:E.
  { rewrite <- (commit_tmpfs_seen _ name) by done. unfold bind_mount.
    assert (exists es', commit_tmpfs [] (Directory ch) (Some (Folder es)) = Some (Folder es') /\
      commit_tmpfs name (Directory ch) (Some (Folder es)) = Some (Folder es')) as (es' & -> & ->); [| done].
    cbn [commit_tmpfs]. destruct (replace_dir ch); eauto. }
  assert (forall k c, bt_get k ch = Some c -> k <> #".replace" /\ in_place c (lookup_entry k es) /\
    (retain false (Some (Folder es)) (k, c)).1 = true) as Hkeep.
  { intros k c Hk%bt_get_elem. assert ((retain false (Some (Folder es)) (k, c)).2 = false) as Hr.
    { destruct (retain _ _ _).2 eqn:Er; [| done]. rewrite <- E. symmetry. apply existsb_exists.
      exists (k, c). split; [by apply list_elem_of_In | done]. }
    pose proof (retain_false _ _ Hr) as [? ?]. split_and!; [done.. |].
    unfold retain. case_decide; [done |]. by destruct (parent_should_be_tmpfs _ _). }
  assert (replace_dir ch = None) as Hrep.
  { unfold replace_dir. destruct (bt_get #".replace" ch) as [c|] eqn:Er; [| done]. by destruct (Hkeep _ _ Er). }
  destruct (commit_children_lookup (fun e => (retain false (Some (Folder es)) e).1) (commit false) ch es Hs)
    as (es' & -> & Hl).
  destruct p as [|k p]; [done |]. cbn [node_at seen]. rewrite Hrep, Hl. unfold node_child.
  destruct (bt_get k ch) as [c|] eqn:Ek; [| by case_decide].
  destruct (Hkeep k c Ek) as (Hne & Hin & ->). rewrite decide_False by done. apply bt_get_elem in Ek.
  rewrite Forall_forall in IH, Hws, Hcs. cbn [child opened mbind option_bind].
  rewrite <- (IH _ Ek k); [| apply (Hws _ Ek) | by apply tidy_lookup | apply (Hcs _ Ek) | done]. cbn [snd].
  destruct (lookup_entry k es) as [d|]; [| by destruct c].
  destruct (commit_Some false c d) as [d' ->]. done.
Qed.

(** * Partitions *)

Lemma retain_root real e :
  retain true real e = (negb (bool_decide (e.1 = #".replace")) && negb (parent_should_be_tmpfs e.2 (child e.1 real)), false).
Proof.
  unfold retain. case_decide; [by rewrite bool_decide_eq_true_2 |].
  rewrite bool_decide_eq_false_2 by done. by destruct (parent_should_be_tmpfs _ _).
Qed.

Lemma commit_root_seen ch es k p :
  fs_wf (Directory ch) -> tidy (Folder es) -> compatible (Directory ch) (Some (Folder es)) ->
  node_at (k :: p) (commit true (Directory ch) (Some (Folder es))) =
  match node_child k ch with
  | Some c =>
      if parent_should_be_tmpfs c (lookup_entry k es) then node_at p (lookup_entry k es)
      else seen p k c (lookup_entry k es)
  | None => node_at p (lookup_entry k es)
  end.
Proof.
  intros Hw Ht Hc. pose proof Hw as [Hs Hws]%fs_wf_Directory. apply sorted_NoDup in Hs.
  pose proof Hc as [_ Hcs]%compatible_Directory. cbn [commit].
  assert (existsb (fun e => (retain true (Some (Folder es)) e).2) ch = false) as ->.
  { clear. induction ch as [|e ch IH]; [done |]. cbn [existsb]. by rewrite retain_root. }
  destruct (commit_children_lookup (fun e => (retain true (Some (Folder es)) e).1) (commit false) ch es Hs)
    as (es' & -> & Hl).
  cbn [node_at]. rewrite Hl. unfold node_child. destruct (bt_get k ch) as [c|] eqn:Ek; [| by case_decide].
  rewrite retain_root. cbn [fst snd child opened mbind option_bind].
  case_decide as Hk; [by rewrite bool_decide_eq_true_2 |]. rewrite bool_decide_eq_false_2 by done. cbn [negb andb].
  destruct (parent_should_be_tmpfs c (lookup_entry k es)) eqn:Ep; [done |]. cbn [negb].
  apply bt_get_elem in Ek. rewrite Forall_forall in Hws, Hcs.
  rewrite <- (commit_seen c k (lookup_entry k es) p); [| apply (Hws _ Ek) | by apply tidy_lookup | apply (Hcs _ Ek) | done].
  destruct (lookup_entry k es) as [d|]; [| by destruct c]. by destruct (commit_Some false c d) as [d' ->].
Qed.

(** Every partition is mounted once. *)
Lemma apply_modules_lookup env mnt_root mods rootdir dir :
  lookup_entry dir (apply_modules env mnt_root mods rootdir) =
  match bt_get dir (virtual_tree env mnt_root mods) with
  | Some root =>
      match commit true root (lookup_entry dir rootdir) with
      | Some n => Some n
      | None => lookup_entry dir rootdir
      end
  | None => lookup_entry dir rootdir
  end.
Proof.
  unfold apply_modules. destruct (virtual_tree_wf env mnt_root mods) as [Hs _]. apply sorted_NoDup in Hs.
  revert rootdir Hs. generalize (virtual_tree env mnt_root mods) as roots.
  induction roots as [|[d r] roots IH]; intros rootdir Hn; [done |].
  cbn [fmap list_fmap fst] in Hn. apply NoDup_cons in Hn as [Hd Hn]. cbn [foldl bt_get fst snd]. rewrite IH by done.
  assert (forall k, lookup_entry k (add_entry d (commit true r (lookup_entry d rootdir)) rootdir) =
    if decide (d = k) then match commit true r (lookup_entry d rootdir) with Some n => Some n | None => lookup_entry d rootdir end
    else lookup_entry k rootdir) as Hl.
  { intros k. destruct (commit true r _); cbn [add_entry]; rewrite ?lookup_put; repeat case_decide; congruence. }
  rewrite Hl. destruct (decide (d = dir)) as [->|]; [by rewrite bt_get_notin | done].
Qed.

(** No directory on the path is replaced. *)
Fixpoint not_replaced (p : list bytes) (n : FsNode) : Prop :=
  match n with
  | Directory ch =>
      bt_get #".replace" ch = None /\
      match p with
      | [] => True
      | k :: p => match bt_get k ch with Some c => not_replaced p c | None => True end
      end
  | _ => True
  end.

Lemma compatible_file p n real src :
  compatible n real -> fs_at p n = Some (FFile src) -> exists s, source src = Some s /\ is_dir s = false.
Proof.
  revert n real. induction p as [|k p IH]; intros n real Hc Hf.
  { cbn in Hf. injection Hf as Hf. destruct n; cbn in Hf; simplify_eq. apply Hc. }
  destruct n as [ch| | | |]; try done. cbn [fs_at] in Hf. apply compatible_Directory in Hc as [_ Hc].
  destruct (bt_get k ch) as [c|] eqn:Ek; [| done]. apply bt_get_elem in Ek. rewrite Forall_forall in Hc.
  by apply (IH c (child k real)); [apply (Hc _ Ek) |].
Qed.

Lemma seen_file p name n real src :
  fs_at p n = Some (FFile src) -> not_replaced p n -> seen p name n real = node_at [] (source src).
Proof.
  revert name n real. induction p as [|k p IH]; intros name n real Hf Hr.
  { cbn in Hf. injection Hf as Hf. by destruct n; cbn in Hf; simplify_eq. }
  destruct n as [ch| | | |]; try done. cbn [fs_at seen not_replaced] in *. destruct Hr as [Hrep Hr].
  destruct (bt_get k ch) as [c|] eqn:Ek; [| done]. cbn [mbind option_bind] in Hf.
  unfold replace_dir, node_child. rewrite Hrep, Ek. rewrite decide_False by congruence. by apply IH.
Qed.
End Mount.

(** C2: mounting a virtual tree over a partition shows exactly the overlay of the two:
    every node at the top of the partition that can be put in place decides what is
    seen below it as described by [seen], through kept and rebuilt directories alike;
    nodes that would need the top directory itself to be rebuilt are ignored, and
    everything else is as it was. *)
Theorem commit_overlay follow source ch es k p :
  (forall t, tidy_opt (follow t)) ->
  fs_wf (Directory ch) -> tidy (Folder es) -> compatible follow source (Directory ch) (Some (Folder es)) ->
  node_at (k :: p) (commit follow source true (Directory ch) (Some (Folder es))) =
  match node_child k ch with
  | Some c =>
      if parent_should_be_tmpfs c (lookup_entry k es) then node_at p (lookup_entry k es)
      else seen follow source p k c (lookup_entry k es)
  | None => node_at p (lookup_entry k es)
  end.
Proof. intros Hf. apply commit_root_seen. exact Hf. Qed.

(** A module that adds a file, replaces another one and deletes a third. *)
Definition sample_source (p : bytes) : option node := Some (Reg p).

Definition sample_tree : FsNode :=
  collect_all #"/mnt" [(#"m", [(#"system", Folder [(#"etc", Folder
    [(#"hosts", Reg []); (#"new", Reg []); (#"old", Special true)]); (#"top", Reg [])])])].

Definition sample_real : entries :=
  [(#"etc", Folder [(#"hosts", Reg #"h"); (#"old", Reg #"o"); (#"other", Reg #"x")]); (#"lib", Folder [])].

Lemma commit_overlay_witness :
  let view p := node_at p (commit (fun _ => None) sample_source true sample_tree (Some (Folder sample_real))) in
  view [ #"etc"; #"hosts"] = Some (Reg #"/mnt/m/system/etc/hosts") /\
  view [ #"etc"; #"new"] = Some (Reg #"/mnt/m/system/etc/new") /\
  view [ #"etc"; #"old"] = None /\
  view [ #"etc"; #"other"] = Some (Reg #"x") /\
  view [ #"top"] = None.
Proof.
  assert (exists ch, sample_tree = Directory ch) as [ch Hch] by (eexists; vm_compute; reflexivity).
  assert (fs_wf (Directory ch)) as Hw by (rewrite <- Hch; apply collect_module_wf; cbn; repeat constructor).
  assert (tidy (Folder sample_real)) as Ht
    by (cbn; repeat split; apply (bool_decide_unpack _); vm_compute; exact I).
  assert (compatible (fun _ => None) sample_source (Directory ch) (Some (Folder sample_real))) as Hc.
  { rewrite <- Hch. vm_compute. repeat split; try (intros ? [= <-]; auto); eauto. }
  cbv zeta. rewrite Hch.
  split_and!; (etrans; [apply (commit_overlay (fun _ => None) sample_source ch sample_real); [by intros | done..] |]).
  all: assert (ch = match sample_tree with Directory c => c | _ => [] end) as -> by (by rewrite Hch).
  all: vm_compute; reflexivity.
Defined.

(** from the modules to the screen.  After all modules are applied, a file that the
    virtual tree of a partition has at a path is what is seen at that path of the
    partition, whether the directories on the way are kept or rebuilt, provided the
    first component exists in the partition and no directory on the way is replaced. *)
Theorem module_file_visible follow source env mnt_root mods rootdir dir root es k p src :
  (forall t, tidy_opt (follow t)) ->
  bt_get dir (virtual_tree env mnt_root mods) = Some root ->
  lookup_entry dir rootdir = Some (Folder es) -> tidy (Folder es) ->
  compatible follow source root (Some (Folder es)) ->
  fs_at (k :: p) root = Some (FFile src) -> not_replaced (k :: p) root ->
  (exists d, lookup_entry k es = Some d /\ forall t, d <> Lnk t) ->
  node_at (dir :: k :: p) (Some (Folder (apply_modules follow source env mnt_root mods rootdir))) = source src.
Proof.
  intros Hf Hroot Hes Ht Hc Hat Hr (d & Hd & Hl).
  assert (fs_wf root) as Hw.
  { destruct (virtual_tree_wf env mnt_root mods) as [_ Hall]. apply bt_get_elem in Hroot.
    rewrite Forall_forall in Hall. apply (Hall _ Hroot). }
  destruct (compatible_file follow source (k :: p) root (Some (Folder es)) src) as (s & Hs & Hsd); [done.. |].
  cut (node_at (k :: p) (lookup_entry dir (apply_modules follow source env mnt_root mods rootdir)) = source src); [done |].
  rewrite apply_modules_lookup, Hroot, Hes. destruct root as [ch| | | |]; try done.
  assert (forall o, match commit follow source true (Directory ch) (Some (Folder es)) with Some n => Some n | None => o end =
    commit follow source true (Directory ch) (Some (Folder es))) as ->.
  { intros o. by destruct (commit_Some follow source true (Directory ch) (Folder es)) as [? ->]. }
  rewrite commit_root_seen by done. cbn [fs_at] in Hat.
  destruct (bt_get k ch) as [c|] eqn:Ek; [| done]. cbn [mbind option_bind] in Hat.
  cbn [not_replaced] in Hr. destruct Hr as [Hrep Hr]. rewrite Ek in Hr.
  unfold node_child. rewrite Ek, decide_False by congruence.
  assert (parent_should_be_tmpfs c (lookup_entry k es) = false) as ->.
  { rewrite Hd. destruct c; try (by destruct p); destruct d; try done; by destruct (Hl target). }
  rewrite seen_file with (src := src) by done. rewrite Hs. by destruct s.
Qed.

Definition sample_env : Env :=
  mkEnv #"/dev/x" #"/system/bin" false None (fun _ => false) (fun _ => false) (fun _ => Some 1) (fun _ => false).

Lemma module_file_visible_witness :
  let mods := [(#"m", [(#"system", Folder [(#"etc", Folder [(#"new", Reg [])])])])] in
  let rootdir := [(#"system", Folder [(#"bin", Folder [(#"sh", Reg [])]); (#"etc", Folder [(#"hosts", Reg #"h")])])] in
  node_at [ #"system"; #"etc"; #"new"]
    (Some (Folder (apply_modules (fun _ => None) sample_source sample_env #"/mnt" mods rootdir))) =
  sample_source #"/mnt/m/system/etc/new".
Proof.
  intros mods rootdir. eapply module_file_visible.
  - by intros.
  - vm_compute. reflexivity.
  - vm_compute. reflexivity.
  - cbn. repeat split; apply (bool_decide_unpack _); vm_compute; exact I.
  - vm_compute. repeat split; try (intros ? [= <-]; auto); eauto.
  - vm_compute. reflexivity.
  - vm_compute. repeat split.
  - eexists. split; [vm_compute; reflexivity |]. done.
Defined.

(** A directory inside a replaced directory is the one of the module that asks for
    the replacement, and only that.  If the module does not have it, because another
    module brought it into the tree, an empty directory is left, and nothing that the
    other module has in it is visible. *)
Theorem replace_hides_other_modules follow source name ch real dir k sub :
  fs_wf (Directory ch) -> replace_dir ch = Some dir -> node_child k ch = Some (Directory sub) ->
  source (child_path dir k) = None ->
  let view p := node_at (k :: p) (commit_tmpfs follow source name (Directory ch) real) in
  view [] = Some (Folder []) /\ forall x p, view (x :: p) = None.
Proof.
  intros [Hs _]%fs_wf_Directory Hr Hk Hsrc. apply sorted_NoDup in Hs.
  assert (forall p, node_at (k :: p) (commit_tmpfs follow source name (Directory ch) real) = node_at p (Some (Folder [])))
    as Hv; [| cbv zeta; setoid_rewrite Hv; split; [done | intros x p; apply node_at_None]].
  intros p. cbn [commit_tmpfs]. rewrite Hr. cbn [node_at]. rewrite commit_entries_lookup, Hk by done.
  cbn [mbind option_bind]. by rewrite Hsrc.
Qed.

Lemma replace_hides_other_modules_witness :
  let tree := collect_all #"/mnt"
    [(#"m1", [(#"system", Folder [(#"app", Folder [(#".replace", Reg [])])])]);
     (#"m2", [(#"system", Folder [(#"app", Folder [(#"lib", Folder [(#"f", Reg [])])])])])] in
  let source p := if decide (p = #"/mnt/m2/system/app/lib/f") then Some (Reg []) else None in
  exists ch, tree = Directory ch /\
  fs_at [ #"app"; #"lib"; #"f"] tree = Some (FFile #"/mnt/m2/system/app/lib/f") /\
  exists app, bt_get #"app" ch = Some app /\
    node_at [ #"lib"; #"f"] (commit_tmpfs (fun _ => None) source #"app" app None) = None.
Proof.
  intros tree source. eexists. split; [vm_compute; reflexivity |]. split; [vm_compute; reflexivity |].
  eexists. split; [vm_compute; reflexivity |].
  assert (fs_wf tree) as Hw by apply collect_all_wf.
  eapply (replace_hides_other_modules (fun _ => None) source #"app" _ None #"/mnt/m1/system/app" #"lib").
  - apply (fs_wf_get #"app" _ match tree with Directory c => c | _ => [] end); [exact Hw | vm_compute; reflexivity].
  - vm_compute. reflexivity.
  - vm_compute. reflexivity.
  - vm_compute. reflexivity.
Defined.
End Mount.
