(* ===== verification/ModuleRun.v ===== *)
(** core/module.rs: the paths that are built while the modules are read and mounted, and the
    two operations on all modules, [handle_modules] and [remove_modules]. *)

From S2P Require Import Prelude Text CStr Dir FileTree Module Mount.

Module ModuleRun.
Import CStr Dir Module_ Mount.

(** * Paths

    A [PathTracker] is a buffer and the length it had when the tracker was made; dropping it
    cuts the buffer to that length.  The life of a tracker is the call of a function on the
    longer path. *)

Definition append {A} (name : bytes) (f : FixedBuf -> FixedBuf * A) (b : FixedBuf) : FixedBuf * A :=
  let len := length (as_str b) in
  let '(b, a) := f (append_path name b) in
  (FixedBuf_truncate len b, a).

Definition reborrow {A} (f : FixedBuf -> FixedBuf * A) (b : FixedBuf) : FixedBuf * A :=
  let len := length (as_str b) in
  let '(b, a) := f b in
  (FixedBuf_truncate len b, a).

Record ModulePaths := mkModulePaths { real : FixedBuf; module_ : FixedBuf; module_mnt : FixedBuf }.
Record MountPaths := mkMountPaths { real_ : FixedBuf; worker : FixedBuf }.

Definition MODULEROOT : bytes := #"/data/adb/modules".
Definition MODULEMNT : bytes := #".magisk/modules".
Definition WORKERDIR : bytes := #".magisk/worker".

Definition ModulePaths_new (magisk_tmp : bytes) (r m mm : FixedBuf) : ModulePaths :=
  mkModulePaths (append_path #"/" r) (append_path MODULEROOT m) (append_path MODULEMNT (append_path magisk_tmp mm)).
Definition MountPaths_new (magisk_tmp : bytes) (r w : FixedBuf) : MountPaths :=
  mkMountPaths (append_path #"/" r) (append_path WORKERDIR (append_path magisk_tmp w)).

(** The trackers of a [ModulePaths] are dropped together. *)
Definition restore (p0 p : ModulePaths) : ModulePaths :=
  let cut b0 b := FixedBuf_truncate (length (as_str b0)) b in
  mkModulePaths (cut (real p0) (real p)) (cut (module_ p0) (module_ p)) (cut (module_mnt p0) (module_mnt p)).

Definition set_module {A} (module : bytes) (f : ModulePaths -> ModulePaths * A) (p : ModulePaths) : ModulePaths * A :=
  let '(p', a) := f (mkModulePaths (real p) (append_path module (module_ p)) (append_path module (module_mnt p))) in
  (restore p p', a).

Definition append_all {A} (name : bytes) (f : ModulePaths -> ModulePaths * A) (p : ModulePaths) : ModulePaths * A :=
  let '(p', a) := f (mkModulePaths (append_path name (real p)) (append_path name (module_ p)) (append_path name (module_mnt p))) in
  (restore p p', a).

Definition restore_mount (p0 p : MountPaths) : MountPaths :=
  mkMountPaths (FixedBuf_truncate (length (as_str (real_ p0))) (real_ p)) (FixedBuf_truncate (length (as_str (worker p0))) (worker p)).
Definition append_mount {A} (name : bytes) (f : MountPaths -> MountPaths * A) (p : MountPaths) : MountPaths * A :=
  let '(p', a) := f (mkMountPaths (append_path name (real_ p)) (append_path name (worker p))) in (restore_mount p p', a).

(** The functions that walk over a module: down the given names, where something is done. *)
Fixpoint descend {A} (names : list bytes) (f : ModulePaths -> A) (p : ModulePaths) : ModulePaths * A :=
  match names with
  | [] => (p, f p)
  | name :: names => append_all name (descend names f) p
  end.

(** * All modules *)

(** [remove_modules]: the modules whose script is run, and what is left. *)
Definition remove_modules (root : option entries) : list bytes * option node :=
  match root with
  | Some es =>
      (omap (fun e => match is_module e, e.2 with
                      | true, Folder m => if has #"uninstall.sh" m then Some e.1 else None
                      | _, _ => None
                      end) es,
       (FileTree.remove_node (Some (Folder es))).1)
  | None => ([], None)
  end.

(** ** Mounts

    The mounts of the daemon on its own paths, the last one first. *)

Record MountEntry := mkMountEntry { target : bytes; source_ : bytes; readonly : bool; private : bool }.
Abbreviation Table := (list MountEntry).

Fixpoint on_top (p : bytes) (f : MountEntry -> list MountEntry) (t : Table) : option Table :=
  match t with
  | [] => None
  | e :: t => if decide (target e = p) then Some (f e ++ t) else cons e <$> on_top p f t
  end.

(** [bind_mount_to] without [MS_REC], [remount_mount_point_flags(MS_RDONLY)],
    [set_mount_private] and [unmount]; the last three need a mount at the path. *)
Definition bind_mount_to (src dest : bytes) (t : Table) : Table := mkMountEntry dest src false false :: t.
Definition remount_rdonly (p : bytes) : Table -> option Table := on_top p (fun e => [mkMountEntry (target e) (source_ e) true (private e)]).
Definition set_mount_private (p : bytes) : Table -> option Table := on_top p (fun e => [mkMountEntry (target e) (source_ e) (readonly e) true]).
Definition unmount (p : bytes) : Table -> option Table := on_top p (fun _ => []).

Definition tmp_dir (magisk_tmp p : bytes) : bytes := as_str (append_path p (append_path magisk_tmp (FixedBuf_new 4096))).

(** [setup_module_mount]: whether the directory can be made and the mount bound. *)
Definition setup_module_mount (magisk_tmp : bytes) (mkdir_ok bind_ok : bool) (t : Table) : Table :=
  let module_mnt := tmp_dir magisk_tmp MODULEMNT in
  if negb mkdir_ok || negb bind_ok then t else
  let t := bind_mount_to MODULEROOT module_mnt t in
  default t (remount_rdonly module_mnt t).

(** [clean_mounts] *)
Definition clean_mounts (magisk_tmp : bytes) (t : Table) : Table :=
  let module_mnt := tmp_dir magisk_tmp MODULEMNT in
  let t := default t (unmount module_mnt t) in
  let worker_dir := tmp_dir magisk_tmp WORKERDIR in
  match set_mount_private worker_dir t with
  | Some t => default t (unmount worker_dir t)
  | None => t
  end.

(** [handle_modules].  [scripts] is what the post-fs-data scripts of the modules do to the
    directory of modules.  The mounts, the new directory, the list of modules, and the
    partitions. *)
Definition handle_modules (follow source : bytes -> option node) (env : Env) (magisk_tmp : bytes) (mkdir_ok bind_ok : bool) (zygisk : bool)
    (scripts : list ModuleInfo -> entries -> entries) (upgrade : option entries) (root : entries) (rootdir : entries) (t : Table)
    : Table * entries * list ModuleInfo * entries :=
  let t := setup_module_mount magisk_tmp mkdir_ok bind_ok t in
  let '(_, root, _) := upgrade_modules upgrade root in
  let '(root, modules, _) := collect_modules zygisk false root in
  let root := scripts modules root in
  let '(root, modules, _) := collect_modules zygisk true root in
  let dirs := omap (fun m => match lookup_entry (name m) root with Some (Folder es) => Some (name m, es) | _ => None end) modules in
  (t, root, modules, apply_modules follow source env (tmp_dir magisk_tmp MODULEMNT) dirs rootdir).

(** * Lemmas *)

Definition relative (name : bytes) : Prop := starts_with name [slash] = false.

(** A name after a path. *)
Definition extend (s name : bytes) : bytes := (if is_empty s || ends_with s [slash] then s else s ++ [slash]) ++ name.

Lemma append_path_fits N name b :
  sized N b -> relative name -> (length (extend (as_str b) name) < N)%nat -> as_str (append_path name b) = extend (as_str b) name.
Proof.
  intros Hb Hr Hl. destruct (append_path_inner name (nul_terminate (as_str b))) as (pre & Hi & Hpre). rewrite Hr in Hpre.
  assert (pre = if is_empty (as_str b) || ends_with (as_str b) [slash] then as_str b else as_str b ++ [slash]) as Hpre'.
  { rewrite Hpre. unfold buf_is_empty, buf_len. cbn [as_str Utf8CString_buf nul_terminate inner].
    assert ((zlen (as_str b) =? 0) = is_empty (as_str b)) as -> by (by destruct (as_str b)).
    by destruct (is_empty (as_str b)), (ends_with (as_str b) [slash]). }
  rewrite Hpre' in Hi. unfold extend in *.
  rewrite <- Hi in Hl |- *. by apply (buf_op_agrees N b (nul_terminate (as_str b)) (OPath name)).
Qed.

(** A buffer that still begins with the path is cut back to it. *)
Lemma truncate_prefix N b b' t :
  sized N b -> sized N b' -> as_str b' = as_str b ++ t ->
  sized N (FixedBuf_truncate (length (as_str b)) b') /\ as_str (FixedBuf_truncate (length (as_str b)) b') = as_str b.
Proof.
  intros Hb Hb' Hs. split; [apply (buf_op_sized N b' (OTruncate (length (as_str b)))), Hb' |].
  destruct Hb' as [Hw' _]. pose proof (FixedBuf_as_str_length b' Hw') as Hl. unfold FixedBuf_truncate.
  destruct (Nat.leb_spec (used b') (length (as_str b))) as [Hle|Hlt].
  - rewrite Hs in Hl. rewrite length_app in Hl. destruct t; [by rewrite Hs, app_nil_r | cbn [length] in Hl; lia].
  - cbn [as_str FixedBuf_buf used buf] in *. rewrite take_insert_ge by done. set (k := take (used b) (buf b)) in *.
    transitivity (take (length k) (take (used b') (buf b'))); [rewrite take_take; f_equal; lia |].
    rewrite Hs. apply take_app_length.
Qed.

(** Two states of the paths: all buffers have the size, and the second begins with the first. *)
Definition sized_all (N : nat) (p : ModulePaths) : Prop := sized N (real p) /\ sized N (module_ p) /\ sized N (module_mnt p).
Definition same_paths (p p' : ModulePaths) : Prop :=
  as_str (real p') = as_str (real p) /\ as_str (module_ p') = as_str (module_ p) /\ as_str (module_mnt p') = as_str (module_mnt p).

Lemma append_path_longer N name b : sized N b -> relative name -> exists t, as_str (append_path name b) = as_str b ++ t.
Proof. intros [Hw _] Hr. by apply (append_path_extends (wf := FixedBuf_wf)). Qed.

Lemma restore_same N name p p' :
  sized_all N p -> sized_all N p' -> relative name ->
  same_paths (mkModulePaths (append_path name (real p)) (append_path name (module_ p)) (append_path name (module_mnt p))) p' ->
  sized_all N (restore p p') /\ same_paths p (restore p p').
Proof.
  intros (R & M & X) (R' & M' & X') Hr (E1 & E2 & E3). cbn [real module_ module_mnt] in *.
  destruct (append_path_longer N name _ R Hr) as [t1 H1], (append_path_longer N name _ M Hr) as [t2 H2], (append_path_longer N name _ X Hr) as [t3 H3].
  rewrite H1 in E1. rewrite H2 in E2. rewrite H3 in E3.
  destruct (truncate_prefix N _ _ _ R R' E1) as [S1 T1], (truncate_prefix N _ _ _ M M' E2) as [S2 T2], (truncate_prefix N _ _ _ X X' E3) as [S3 T3].
  split; split_and!; done.
Qed.

(** Walking down and back leaves the paths as they were, also when they were cut off at the
    end of the buffer on the way; what is done at the bottom sees the three paths with the
    same names after them, as long as they fit. *)
Theorem paths_in_step {A} N names (f : ModulePaths -> A) p :
  sized_all N p -> Forall relative names ->
  sized_all N (descend names f p).1 /\ same_paths p (descend names f p).1 /\
  exists q, (descend names f p).2 = f q /\
    (forall b, b ∈ [real; module_; module_mnt] -> (length (foldl extend (as_str (b p)) names) < N)%nat ->
       as_str (b q) = foldl extend (as_str (b p)) names).
Proof.
  intros Hp Hn. revert p Hp. induction Hn as [|name names Hr _ IH]; intros p Hp; cbn [descend].
  { split; [done |]. split; [done |]. exists p. done. }
  unfold append_all. set (p1 := mkModulePaths _ _ _).
  assert (sized_all N p1) as Hp1 by (destruct Hp as (? & ? & ?); split_and!; by apply append_path_sized).
  destruct (IH p1 Hp1) as (Hs & Hsame & q & Hq & Hpath). destruct (descend names f p1) as [p2 a]. cbn [fst snd] in *.
  destruct (restore_same N name p p2 Hp Hs Hr Hsame) as [H1 H2]. split; [done |]. split; [done |]. exists q. split; [done |].
  intros b Hb Hl. cbn [foldl] in *.
  assert (forall s ns, (length s <= length (foldl extend s ns))%nat) as Hmono.
  { intros s ns. revert s. induction ns as [|n ns IHn]; intros s; [done |]. cbn [foldl]. etrans; [| apply IHn].
    unfold extend. destruct (_ || _); rewrite !length_app; cbn; lia. }
  assert (as_str (b p1) = extend (as_str (b p)) name) as Hb1.
  { specialize (Hmono (extend (as_str (b p)) name) names). destruct Hp as (? & ? & ?).
    apply elem_of_cons in Hb as [->|[->|[->|[]%not_elem_of_nil]%elem_of_cons]%elem_of_cons]; apply (append_path_fits N); try done; lia. }
  rewrite <- Hb1 in Hl |- *. by apply Hpath.
Qed.

Definition buf0 : FixedBuf := FixedBuf_new 4096.

Lemma buf0_sized : sized 4096 buf0.
Proof. split; [by vm_compute | by vm_compute]. Qed.

Lemma paths_in_step_witness :
  exists q, (descend [ #"m"; #"system"; #"etc"] (fun p => p) (ModulePaths_new #"/debug_ramdisk" buf0 buf0 buf0)).2 = q /\
    as_str (module_mnt q) = #"/debug_ramdisk/.magisk/modules/m/system/etc".
Proof.
  destruct (paths_in_step 4096 [ #"m"; #"system"; #"etc"] (fun p => p) (ModulePaths_new #"/debug_ramdisk" buf0 buf0 buf0)) as (_ & _ & q & Hq & Hp).
  - split_and!; repeat apply append_path_sized; apply buf0_sized.
  - repeat constructor.
  - exists q. split; [exact Hq |]. rewrite (Hp module_mnt); [vm_compute; reflexivity | set_solver |].
    apply Nat.ltb_lt. vm_compute. reflexivity.
Defined.

(** ** All modules *)

(** The modules in the list after [handle_modules] are those that are enabled when the
    post-fs-data scripts have run: a module that a script disables, or marks for removal, is
    neither in the list nor mounted. *)
Theorem handle_modules_enabled follow source env tmp mk bi zygisk scripts upgrade root rootdir t t' root' mods rootdir' m :
  handle_modules follow source env tmp mk bi zygisk scripts upgrade root rootdir t = (t', root', mods, rootdir') ->
  m ∈ mods ->
  let '(_, root1, _) := upgrade_modules upgrade root in
  let '(root2, mods1, _) := collect_modules zygisk false root1 in
  exists es z, (name m, Folder es) ∈ scripts mods1 root2 /\ module_fate zygisk true (name m) es = Loaded z /\
    has #"disable" es = false /\ has #"remove" es = false.
Proof.
  unfold handle_modules. destruct (upgrade_modules upgrade root) as [[u root1] r]. destruct (collect_modules zygisk false root1) as [[root2 mods1] s1].
  destruct (collect_modules zygisk true (scripts mods1 root2)) as [[root3 mods3] s3] eqn:E. intros [= <- <- <- <-] Hm.
  assert (mods3 = (collect_modules zygisk true (scripts mods1 root2)).1.2) as Heq by (by rewrite E). rewrite Heq in Hm. clear E Heq.
  induction (scripts mods1 root2) as [|[nm e] l IH]; cbn [collect_modules] in Hm; [set_solver |].
  assert (m ∈ (collect_modules zygisk true l).1.2 -> exists es z, (name m, Folder es) ∈ (nm, e) :: l /\ module_fate zygisk true (name m) es = Loaded z /\
    has #"disable" es = false /\ has #"remove" es = false) as IH'.
  { intros H. destruct (IH H) as (es & z & H1 & H2). exists es, z. split; [by right | done]. }
  destruct (collect_modules zygisk true l) as [[r2 m2] s2]. cbn [fst snd] in *.
  destruct (is_module (nm, e)), e as [| | |es]; try by apply IH'.
  destruct (module_fate zygisk true nm es) as [v| |z] eqn:Ef; cbn [fst snd] in Hm; try by apply IH'.
  apply elem_of_cons in Hm as [-> | Hm]; [| by apply IH']. exists es, z. cbn [name]. split; [by left |]. split; [done |].
  unfold module_fate in Ef. destruct (has #"remove" es); [done |]. by destruct (has #"disable" es).
Qed.

Lemma handle_modules_enabled_witness :
  let '(_, _, mods, _) := handle_modules (fun _ => None) (fun _ => None) sample_env #"/debug_ramdisk" true true false (fun _ es => disable_modules es) None
    [(#"a", Folder [(#"system", Folder [])])] [] [] in mods = [].
Proof.
  destruct (handle_modules _ _ _ _ _ _ _ _ _ _ _ _) as [[[t' root'] mods] rootdir'] eqn:E.
  destruct mods as [|m mods]; [reflexivity |].
  pose proof (handle_modules_enabled _ _ _ _ _ _ _ _ _ _ _ _ _ _ _ _ m E ltac:(by left)) as H. vm_compute in H. exfalso.
  destruct H as (es & z & H & _ & H' & _). apply list_elem_of_singleton in H. injection H as _ ->. vm_compute in H'. discriminate.
Defined.

(** The directory of modules is mounted read-only while the modules are handled, and
    [clean_mounts] takes the mount and that of the work directory away again: the mounts
    afterwards are those before. *)
Theorem module_mount_cleaned tmp (t : Table) :
  let mnt := tmp_dir tmp MODULEMNT in
  let wrk := tmp_dir tmp WORKERDIR in
  mnt <> wrk ->
  setup_module_mount tmp true true t = mkMountEntry mnt MODULEROOT true false :: t /\
  forall w, target w = wrk -> clean_mounts tmp (w :: setup_module_mount tmp true true t) = t.
Proof.
  intros mnt wrk Hne.
  assert (setup_module_mount tmp true true t = mkMountEntry mnt MODULEROOT true false :: t) as Hs.
  { unfold setup_module_mount, remount_rdonly, bind_mount_to. cbn [negb orb on_top target]. by rewrite decide_True. }
  split; [done |]. intros w Hw. rewrite Hs. unfold clean_mounts, unmount, set_mount_private. fold mnt wrk. cbn [on_top target].
  rewrite decide_False, decide_True by congruence. cbn [fmap option_fmap option_map app default from_option id on_top].
  rewrite decide_True by done. cbn [app on_top target]. by rewrite decide_True.
Qed.

Lemma module_mount_cleaned_witness :
  clean_mounts #"/debug_ramdisk" (mkMountEntry #"/debug_ramdisk/.magisk/worker" #"magisk" false false :: setup_module_mount #"/debug_ramdisk" true true []) = [].
Proof.
  apply (module_mount_cleaned #"/debug_ramdisk" []); [apply (bool_decide_unpack _); vm_compute; exact I | vm_compute; reflexivity].
Defined.

(** [remove_modules] runs the uninstall script of every module that has one, and removes the
    directory, unless a name in it is not UTF-8. *)
Theorem remove_modules_spec es :
  (forall nm m, (nm, Folder m) ∈ es -> is_module (nm, Folder m) = true -> has #"uninstall.sh" m = true -> nm ∈ (remove_modules (Some es)).1) /\
  (FileTree.all_listed (Folder es) = true -> (remove_modules (Some es)).2 = None).
Proof.
  split.
  - intros nm m Hin Hm Hu. apply list_elem_of_omap. exists (nm, Folder m). split; [done |]. cbn [fst snd]. by rewrite Hm, Hu.
  - intros Hl. unfold remove_modules. cbn [snd]. by rewrite (proj2 (FileTree.remove_node_spec (Some (Folder es)))) by (intros ? [= <-]; done).
Qed.

End ModuleRun.
