(* ===== verification/Startup.v ===== *)
(** core/daemon.rs, [daemon_entry] and [connect_daemon], and core/bootstages.rs,
    [setup_magisk_env]: how the daemon is started, what it does before it serves requests, and
    how the programs of Magisk are put in place. *)

From S2P Require Import Prelude Text Numeric CStr Files Dir FileTree Contexts Daemon.

Module Startup.
Import CStr FileTree.

Definition MAIN_CONFIG : bytes := #".magisk/config".
Definition MAIN_SOCKET : bytes := #".magisk/device/socket".
Definition ROOTMNT : bytes := #".magisk/rootdir/.mount_list".
Definition ROOTOVL : bytes := #".magisk/rootdir".
Definition MAGISK_PROC_CON : bytes := #"u:r:magisk:s0".
Definition MAGISK_FILE_CON : bytes := #"u:object_r:magisk_file:s0".

Definition SECURE_DIR : bytes := #"/data/adb".
Definition MODULEROOT : bytes := #"/data/adb/modules".
Definition BBPATH : bytes := #".magisk/busybox".

(** * The daemon *)

(** What the process sees: properties, files by path, and the rest. *)
Record Sys := mkSys {
  magisk_tmp : bytes;
  get_prop : bytes -> bytes;
  file : bytes -> option bytes;            (** the contents, [None] if it cannot be opened *)
  exists_ : bytes -> bool;
  pid : Z;
  remount_root : bool;                      (** REMOUNT_ROOT is set *)
  exe_attr : logged FileAttr;               (** of /proc/self/exe *)
  bind_ok : bool;
  incoming : list (option Z)                (** the clients, [None] for a failed accept *)
}.

Inductive Call :=
| SetNiceName (s : bytes) | AndroidLogging | BlockSignals | StdoutNull | StderrNull | StdinZero | Setsid
| WriteFile (path data : bytes)
| StartLogDaemon | MagiskLogging | RestoreTmpcon
| SetProp (name val : bytes)
| Unmount (p : bytes) | RemountRoot | RemoveEnv | RemoveAll (p : bytes) | Remove (p : bytes)
| Bind (p : bytes) | Chmod (p : bytes) (mode : Z) | SetSecontext (p con : bytes)
| Mkdir (p : bytes) (mode : Z) | Mkdirs (p : bytes) (mode : Z) | Restorecon | Run (args : list bytes)
| HandleRequests (client : Z) | Exit (code : Z).

(** The fields of [MagiskD] that are not defaults. *)
Record Cfg := mkCfg { sdk_int : Z; is_emulator : bool; is_recovery : bool; exe : FileAttr }.

(** A path below the directory of Magisk, in a buffer of 64 bytes. *)
Definition tmp_path (sys : Sys) (p : bytes) : bytes := as_str (append_path p (append_path (magisk_tmp sys) (FixedBuf_new 64))).

Definition detect_emulator (prop : bytes -> bytes) : bool :=
  bool_decide (prop #"ro.kernel.qemu" = #"1") || bool_decide (prop #"ro.boot.qemu" = #"1") || contains (prop #"ro.product.device") #"vsoc".

Definition read_recovery (config : option bytes) : bool :=
  match config with
  | Some text => Files.for_each_prop (fun key val r => if bool_decide (key = #"RECOVERYMODE") then (bool_decide (val = #"true"), false) else (r, true)) text false
  | None => false
  end.

Definition parse_i32 (s : bytes) : Z := default (-1) (parse_sint 32 10 s).

Definition read_sdk (build_prop : option bytes) (prop : bytes -> bytes) : Z :=
  let sdk :=
    match build_prop with
    | Some text => Files.for_each_prop (fun key val r => if bool_decide (key = #"ro.build.version.sdk") then (parse_i32 val, false) else (r, true)) text (-1)
    | None => -1
    end in
  if sdk <? 0 then parse_i32 (prop #"ro.build.version.sdk") else sdk.

(** The pid is appended to cgroup.procs, if there is one. *)
Definition switch_cgroup (sys : Sys) (cgroup : bytes) : list Call :=
  let buf := append_path #"cgroup.procs" (append_path cgroup (FixedBuf_new 64)) in
  if negb (exists_ sys (as_str buf)) then [] else
  match file sys (as_str buf) with
  | Some _ => [WriteFile (as_str buf) (fmt_dec (pid sys))]
  | None => []
  end.

(** The mount points in the list of magiskinit. *)
Definition unmount_list (text : option bytes) : list bytes :=
  match text with Some text => Files.each_line (fun line acc => (acc ++ [trim_end line], true)) (utf8_lines (read_lines text)) [] | None => [] end.

(** The loop over the clients. *)
Fixpoint serve (clients : list (option Z)) : list Call :=
  match clients with
  | [] => []
  | Some c :: clients => HandleRequests c :: serve clients
  | None :: _ => [Exit 1]
  end.

(** Up to the context of the directory of Magisk: standard files, session, context, log. *)
Definition setup_process (sys : Sys) : list Call :=
  [SetNiceName #"magiskd"; AndroidLogging; BlockSignals] ++
  (match file sys #"/dev/null" with Some _ => [StdoutNull; StderrNull] | None => [] end) ++
  (match file sys #"/dev/zero" with Some _ => [StdinZero] | None => [] end) ++
  [Setsid] ++
  (match file sys #"/proc/self/attr/current" with
   | Some _ => [WriteFile #"/proc/self/attr/current" (MAGISK_PROC_CON ++ [NUL])] | None => [] end) ++
  [StartLogDaemon; MagiskLogging; RestoreTmpcon].

Definition setup_cgroups (sys : Sys) : list Call :=
  switch_cgroup sys #"/acct" ++ switch_cgroup sys #"/dev/cg2_bpf" ++ switch_cgroup sys #"/sys/fs/cgroup" ++
  (if bool_decide (get_prop sys #"ro.config.per_app_memcg" = #"false") then [] else switch_cgroup sys #"/dev/memcg/apps").

Definition daemon_entry (sys : Sys) : list Call * Cfg :=
  let cfg := mkCfg (read_sdk (file sys #"/system/build.prop") (get_prop sys)) (detect_emulator (get_prop sys))
                   (read_recovery (file sys (tmp_path sys MAIN_CONFIG)))
                   (match exe_attr sys with Ok a => a | _ => FileAttr_new end) in
  let sock := tmp_path sys MAIN_SOCKET in
  (setup_process sys ++ setup_cgroups sys ++
   (if exists_ sys #"/system_ext/app/mediatek-res/mediatek-res.apk" then [SetProp #"ro.vendor.mtk_model" #"0"] else []) ++
   map Unmount (unmount_list (file sys (tmp_path sys ROOTMNT))) ++
   (if remount_root sys then [RemountRoot; RemoveEnv] else []) ++
   [RemoveAll (tmp_path sys ROOTOVL); Remove sock] ++
   (if bind_ok sys then [Bind sock; Chmod sock 438; SetSecontext sock MAGISK_FILE_CON] ++ serve (incoming sys) else [Bind sock; Exit 1]), cfg).

(** * The client *)

(** What a client does to get a connection: whether it started the daemon, how often it tried,
    and the result, [None] while it never gets one.  [connects] are the outcomes of the calls
    of [connect], [exe] is the link /proc/self/exe. *)
Record Connection := mkConnection { forked : bool; tries : nat; outcome : option (logged unit) }.

Fixpoint retry (connects : list bool) (answer : option Z) (n : nat) : Connection :=
  match connects with
  | [] => mkConnection true n None
  | true :: _ => mkConnection true (S n) (Some (Daemon.send_request answer))
  | false :: connects => retry connects answer (S n)
  end.

Definition connect_daemon (tmp : bytes) (create is_root : bool) (exe : option bytes) (connects : list bool) (answer : option Z) : Connection :=
  match connects with
  | [] => mkConnection false 0 None
  | true :: _ => mkConnection false 1 (Some (Daemon.send_request answer))
  | false :: connects =>
      if negb create || negb is_root then mkConnection false 1 (Some (Err tt)) else
      match exe with
      | Some link => if starts_with (read_link 64 link) tmp then retry connects answer 1 else mkConnection false 1 (Some (Err tt))
      | None => mkConnection false 1 (Some (Err tt))
      end
  end.

(** * The programs *)

Section Env.
Context (created : Meta).

(** The directories the programs may come from, their place, and the copies in the directory
    of Magisk.  [data_adb] is /cache/data_adb. *)
Record Bins := mkBins {
  data_adb : option tree; data_magisk : option tree; app_install : option tree;
  databin : option tree; tmp_busybox : option tree; tmp_magisk32 : option tree; tmp_magiskpolicy : option tree
}.

Definition entry_of (name : bytes) (t : option tree) : option tree :=
  match t with Some (Dir _ es) => lookup_entry name es | _ => None end.

Fixpoint drop_entry (name : bytes) (es : entries) : entries :=
  match es with [] => [] | (k, t) :: es => if decide (k = name) then es else (k, t) :: drop_entry name es end.
Definition set_entry (name : bytes) (c : option tree) (t : option tree) : option tree :=
  match t with
  | Some (Dir m es) => Some (Dir m (match c with Some c => put_entry name c es | None => drop_entry name es end))
  | t => t
  end.

(** One of [alt_bin_dirs]: the directory, DATABIN and the disk afterwards. *)
Definition take_over (dir bin : option tree) (d : Disk) : Disk * option tree * option tree :=
  match dir with
  | None => (d, dir, bin)
  | Some _ =>
      let bin := (remove_tree bin).1 in
      let '(d, bin, _) := copy_to created dir bin d in
      (d, (remove_tree dir).1, bin)
  end.

(** [follow_link().chmod] of a file; a link is taken to lead nowhere. *)
Definition chmod_file (mode : Z) (t : option tree) (d : Disk) : Disk :=
  match t with
  | Some (Leaf i) => match d !! i with Some (mkInode _ (Lnk _)) => d | None => d | Some n => <[i := mkInode (chmod mode (meta n)) (body n)]> d end
  | _ => d
  end.

(** A program of DATABIN that is copied if it exists. *)
Definition install (name : bytes) (bin dst : option tree) (d : Disk) : Disk * option tree :=
  match entry_of name bin with
  | Some t => let '(d, dst, _) := copy_to created (Some t) dst d in (d, dst)
  | None => (d, dst)
  end.

(** Also the calls that do not concern the programs, in their order. *)
Definition setup_magisk_env (magisk_tmp : bytes) (b : Bins) (d : Disk) : Disk * Bins * list Call * bool :=
  let '(d, c, bin) := take_over (entry_of #"magisk" (data_adb b)) (databin b) d in
  let adb := set_entry #"magisk" c (data_adb b) in
  let '(d, data, bin) := take_over (data_magisk b) bin d in
  let '(d, app, bin) := take_over (app_install b) bin d in
  let adb := (remove_tree adb).1 in
  let bin := match bin with None => Some (Dir created []) | bin => bin end in
  let dirs := [Chmod SECURE_DIR 448; Mkdir MODULEROOT 493; Mkdir (SECURE_DIR ++ #"/post-fs-data.d") 493;
               Mkdir (SECURE_DIR ++ #"/service.d") 493; Restorecon] in
  match entry_of #"busybox" bin with
  | None => (d, mkBins adb data app bin (tmp_busybox b) (tmp_magisk32 b) (tmp_magiskpolicy b), dirs, false)
  | Some _ =>
      let bb_dir := as_str (append_path BBPATH (append_path magisk_tmp (FixedBuf_new 4096))) in
      let '(d, bb) := install #"busybox" bin (tmp_busybox b) d in
      let d := chmod_file 493 bb d in
      let '(d, m32) := install #"magisk32" bin (tmp_magisk32 b) d in
      let '(d, pol) := install #"magiskpolicy" bin (tmp_magiskpolicy b) d in
      (d, mkBins adb data app bin bb m32 pol,
       dirs ++ [Mkdirs bb_dir 493; Run [bb_dir ++ #"/busybox"; #"--install"; #"-s"; bb_dir]], true)
  end.
End Env.

(** * Lemmas *)

(** A mount point: a line of UTF-8 that ends in a printable character. *)
Definition mount_point (p : bytes) : Prop :=
  (newline ∉ p) /\ utf8_valid p = true /\ exists s b, p = s ++ [b] /\ graphic b = true.

Lemma trim_end_line p : mount_point p -> trim_end (p ++ [newline]) = p.
Proof.
  intros (_ & _ & s & b & -> & Hb). unfold trim_end. rewrite length_app. cbn [length]. rewrite Nat.add_comm.
  cbn [Nat.add drop_ws]. rewrite rev_app_distr. cbn [rev app]. rewrite newline_ws_len_rev. cbn [drop].
  rewrite drop_0, rev_app_distr. cbn [rev app]. destruct (length (s ++ [b])); cbn [drop_ws]; rewrite ?ws_len_rev_graphic by done;
    cbn [rev]; by rewrite rev_involutive.
Qed.

Lemma each_line_collect (g : bytes -> bytes) ls acc :
  Files.each_line (fun line acc => (acc ++ [g line], true)) ls acc = acc ++ map g ls.
Proof. revert acc. induction ls as [|l ls IH]; intros acc; cbn; [by rewrite app_nil_r |]. by rewrite IH, <- app_assoc. Qed.

Lemma unmount_list_lines ps :
  Forall mount_point ps -> unmount_list (Some (concat (map (fun p => p ++ [newline]) ps))) = ps.
Proof.
  intros Hp. unfold unmount_list. rewrite <- (app_nil_r (concat _)), read_lines_lines.
  2:{ eapply Forall_impl; [exact Hp |]. by intros ? [? _]. }
  change (read_lines []) with (@nil bytes). rewrite app_nil_r, utf8_lines_all.
  - rewrite each_line_collect. cbn [app]. rewrite map_map. induction Hp as [|p ps H _ IH]; [done |]. cbn [map]. by rewrite trim_end_line, IH.
  - clear -Hp. induction Hp as [|p ps (_ & Hu & _) _ IH]; constructor; [| done]. by rewrite utf8_valid_app.
Qed.

Definition is_unmount (c : Call) : option bytes := match c with Unmount p => Some p | _ => None end.

(** Neither an unmount nor a client. *)
Definition quiet (c : Call) : Prop := match c with Unmount _ | HandleRequests _ => False | _ => True end.

Lemma switch_cgroup_quiet sys g : Forall quiet (switch_cgroup sys g).
Proof. unfold switch_cgroup. destruct (negb _); [done |]. destruct (file sys _); by repeat constructor. Qed.

Lemma setup_process_quiet sys : Forall quiet (setup_process sys).
Proof. unfold setup_process. destruct (file sys #"/dev/null"), (file sys #"/dev/zero"), (file sys _); by repeat constructor. Qed.

Lemma setup_cgroups_quiet sys : Forall quiet (setup_cgroups sys).
Proof.
  unfold setup_cgroups. rewrite !Forall_app. split_and!; try apply switch_cgroup_quiet.
  destruct (bool_decide _); [done | apply switch_cgroup_quiet].
Qed.

Lemma quiet_unmount l : Forall quiet l -> omap is_unmount l = [].
Proof. induction 1 as [|c l Hc _ IH]; [done |]. cbn. by destruct c. Qed.

Lemma serve_no_unmount l : omap is_unmount (serve l) = [].
Proof. induction l as [|[c|] l IH]; [done | exact IH | done]. Qed.

Lemma omap_unmount ps : omap is_unmount (map Unmount ps) = ps.
Proof. induction ps as [|p ps IH]; [done |]. cbn. f_equal. exact IH. Qed.

Lemma daemon_unmounts sys : omap is_unmount (daemon_entry sys).1 = unmount_list (file sys (tmp_path sys ROOTMNT)).
Proof.
  unfold daemon_entry. cbn [fst]. rewrite !omap_app, omap_unmount.
  rewrite (quiet_unmount _ (setup_process_quiet sys)), (quiet_unmount _ (setup_cgroups_quiet sys)).
  destruct (exists_ sys _), (remount_root sys), (bind_ok sys); rewrite ?omap_app, ?serve_no_unmount; cbn; by rewrite ?app_nil_r.
Qed.

(** The daemon takes back what magiskinit did: when the overlay was mounted without an error,
    and its list is where the daemon looks for it, the daemon unmounts exactly the files that
    were mounted, in the order they were. *)
Theorem overlay_undone sys call_ok open_ok dest l es cons0 :
  (forall p, call_ok p = true) -> (forall p, open_ok p = true) -> Contexts.outside Contexts.ROOTOVL dest ->
  let '(r, listing) := Contexts.mount_overlay call_ok open_ok dest (Contexts.Branch l es) cons0 in
  file sys (tmp_path sys ROOTMNT) = Some listing -> Forall mount_point (Contexts.mounts r).*1 ->
  omap is_unmount (daemon_entry sys).1 = (Contexts.mounts r).*1.
Proof.
  intros Hc Ho Hout. pose proof (Contexts.mount_overlay_spec call_ok open_ok dest l es cons0 Hc Ho Hout) as H.
  cbv zeta in H. destruct (Contexts.mount_overlay _ _ _ _ _) as [r listing]. destruct H as (Hm & _ & Hl).
  intros Hf Hp. rewrite daemon_unmounts, Hf, Hl, <- Hm.
  replace (map (fun m => m.1 ++ [newline]) (Contexts.mounts r)) with (map (fun p => p ++ [newline]) (Contexts.mounts r).*1)
    by apply map_map.
  by apply unmount_list_lines.
Qed.

(** ** The socket *)

(** Requests are only served after the socket was made accessible, and not at all when it
    could not be bound. *)
Theorem socket_ready sys c pre post :
  (daemon_entry sys).1 = pre ++ HandleRequests c :: post ->
  bind_ok sys = true /\
  exists a b, pre = a ++ [Bind (tmp_path sys MAIN_SOCKET); Chmod (tmp_path sys MAIN_SOCKET) 438;
                          SetSecontext (tmp_path sys MAIN_SOCKET) MAGISK_FILE_CON] ++ b.
Proof.
  unfold daemon_entry. cbn [fst]. rewrite !app_assoc. set (sock := tmp_path sys MAIN_SOCKET).
  match goal with |- ?x ++ _ = _ -> _ => assert (HandleRequests c ∉ x) as Hx; [| generalize dependent x] end.
  { rewrite !not_elem_of_app. pose proof (setup_process_quiet sys) as H1. pose proof (setup_cgroups_quiet sys) as H2.
    rewrite Forall_forall in H1, H2. repeat split.
    - by intros ?%H1.
    - by intros ?%H2.
    - destruct (exists_ sys _); set_solver.
    - intros (? & ? & ?)%list_elem_of_fmap. done.
    - destruct (remount_root sys); set_solver.
    - set_solver. }
  intros x Hx Heq. apply app_eq_inv in Heq as [(k & -> & Hk) | (k & -> & Hk)].
  - destruct k as [|y k]; [| exfalso; injection Hk as <- _; apply Hx; set_solver].
    destruct (bind_ok sys); discriminate Hk.
  - destruct (bind_ok sys).
    + split; [done |]. exists x. destruct k as [|? [|? [|? k]]]; try discriminate Hk.
      injection Hk as <- <- <- _. by exists k.
    + exfalso. destruct k as [|? [|? k]]; try discriminate Hk. injection Hk as _ Hk. by destruct k.
Qed.

(** A program starts the daemon only as root, from the directory of Magisk, and only when
    asked to; and it then waits for the daemon it started. *)
Theorem daemon_started_by_root tmp create is_root exe connects answer :
  forked (connect_daemon tmp create is_root exe connects answer) = true ->
  create = true /\ is_root = true /\ (exists link, exe = Some link /\ starts_with (read_link 64 link) tmp = true) /\
  exists rest, connects = false :: rest.
Proof.
  unfold connect_daemon. destruct connects as [|[|] rest]; [done | done |].
  destruct create, is_root; try done. cbn [negb orb]. destruct exe as [link|]; [| done].
  destruct (starts_with _ _) eqn:E; [| done]. intros _. split_and!; eauto.
Qed.

(** Once the daemon accepts connections, the client gets its answer. *)
Theorem client_connects tmp link n rest answer :
  starts_with (read_link 64 link) tmp = true ->
  connect_daemon tmp true true (Some link) (false :: replicate n false ++ true :: rest) answer =
    mkConnection true (S (S n)) (Some (Daemon.send_request answer)).
Proof.
  intros Hl. unfold connect_daemon. cbn [negb orb]. rewrite Hl.
  assert (forall m, retry (replicate n false ++ true :: rest) answer m = mkConnection true (S (n + m)) (Some (Daemon.send_request answer))) as Hr.
  { induction n as [|n IH]; intros m; cbn [replicate app retry]; [done |]. rewrite IH. f_equal. lia. }
  rewrite Hr. f_equal. lia.
Qed.

(** ** The programs *)

Lemma chmod_file_new mode t d d0 : d0 ⊆ d -> (forall i, i ∈ leaves t -> d0 !! i = None) -> d0 ⊆ chmod_file mode (Some t) d.
Proof.
  intros Hd Hn. unfold chmod_file. destruct t as [|i]; [done |].
  assert (d0 !! i = None) as Hi by (apply Hn; cbn; set_solver).
  destruct (d !! i) as [[m [x|x|x|x| |]]|]; try done; by apply insert_subseteq_r.
Qed.

Section EnvLemmas.
Context (created : Meta).
Hypothesis created_proper : proper created.

Lemma take_over_None bin d : take_over created None bin d = (d, None, bin).
Proof using. done. Qed.

Lemma take_over_spec t bin d :
  copyable d t -> (forall c, bin = Some c -> tree_listed c = true) ->
  exists d' bin', take_over created (Some t) bin d = (d', None, Some bin') /\
    show d' bin' = copy_view created d t /\ copyable d' bin' /\ d ⊆ d'.
Proof using created_proper.
  intros Hc Hb. unfold take_over. rewrite (proj2 (remove_tree_spec bin) Hb). cbn [fst].
  destruct (copy_to_copies created d t Hc) as (d' & t' & -> & Hco). apply copy_of_single in Hco as (Hs & Hd & _).
  rewrite (proj2 (remove_tree_spec (Some t))) by (intros ? [= <-]; by eapply copyable_listed).
  exists d', t'. split_and!; [done | done | by eapply copy_copyable | done].
Qed.

Lemma copyable_entry d name t c : copyable d t -> entry_of name (Some t) = Some c -> copyable d c.
Proof.
  intros Hc. destruct t as [m es|i]; [| done]. inversion Hc as [? ? _ _ Hes | |]; subst. cbn. clear Hc.
  induction Hes as [|[k u] es [_ Hu] _ IH]; [done |]. cbn. case_decide; [by intros [= <-] | done].
Qed.

(** The program is copied if it is there; what was on the disk stays. *)
Lemma install_spec name bin d :
  copyable d bin ->
  exists d' o, install created name (Some bin) None d = (d', o) /\ d ⊆ d' /\
    match entry_of name (Some bin) with
    | Some c => exists c', o = Some c' /\ show d' c' = copy_view created d c /\ forall i, i ∈ leaves c' -> d !! i = None
    | None => o = None
    end.
Proof using.
  intros Hc. unfold install. destruct (entry_of name (Some bin)) as [c|] eqn:E; [| by exists d, None].
  destruct (copy_to_copies created d c) as (d' & c' & -> & Hco); [by eapply copyable_entry |].
  apply copy_of_single in Hco as (Hs & Hd & _ & Hn). exists d', (Some c'). split_and!; [done | done |]. by exists c'.
Qed.

End EnvLemmas.

(** When the app has left a new set of programs, they replace the old ones: afterwards DATABIN
    is a copy of what the app left, which is gone, the busybox of the app can be executed in
    the directory of Magisk, and the other programs are copied there too. *)
Theorem setup_env_installs created tmp b d t i m data :
  proper created -> app_install b = Some t -> copyable d t ->
  entry_of #"magisk" (data_adb b) = None -> data_magisk b = None -> (forall c, databin b = Some c -> tree_listed c = true) ->
  tmp_busybox b = None -> tmp_magisk32 b = None -> tmp_magiskpolicy b = None ->
  entry_of #"busybox" (Some t) = Some (Leaf i) -> d !! i = Some (mkInode m (Reg data)) ->
  exists d' b' calls, setup_magisk_env created tmp b d = (d', b', calls, true) /\ app_install b' = None /\
    (exists bin, databin b' = Some bin /\ show d' bin = copy_view created d t) /\
    exists j m', tmp_busybox b' = Some (Leaf j) /\ d' !! j = Some (mkInode m' (Reg data)) /\ perm m' = 493.
Proof.
  intros Hcr Happ Hc Hadb Hdata Hbin Hbb H32 Hpol Hi Hdi. unfold setup_magisk_env. rewrite Hadb, Hdata, Happ, Hbb, H32, Hpol, !take_over_None.
  destruct (take_over_spec created Hcr t (databin b) d Hc Hbin) as (d1 & bin & -> & Hs1 & Hc1 & Hd1).
  assert (exists j, entry_of #"busybox" (Some bin) = Some (Leaf j) /\ d1 !! j = Some (mkInode (copied_meta false created m) (Reg data))) as (j & Hj & Hdj).
  { destruct t as [mt es|]; [| done]. destruct bin as [mb es'|]; cbn in Hs1; [| by destruct (d1 !! _)]. injection Hs1 as _ Hs1.
    cbn [entry_of] in *. clear Hc Hc1 Happ. revert es' Hs1. induction es as [|[k u] es IH]; intros [|[k' u'] es'] Heq; try discriminate Heq; [done |].
    cbn in Heq. injection Heq as -> Hu Hrest. cbn in Hi |- *. destruct (decide (k = #"busybox")); [| by apply IH].
    injection Hi as ->. cbn in Hu. rewrite Hdi in Hu. destruct u' as [|j]; [done |]. cbn in Hu. exists j. split; [done |].
    destruct (d1 !! j) as [[mj bj]|]; [| done]. by injection Hu as -> ->. }
  rewrite Hj. destruct (install_spec created #"busybox" bin d1 Hc1) as (d2 & o & -> & Hd2 & Ho). rewrite Hj in Ho.
  destruct Ho as (c' & -> & Hsc & Hnew). cbn in Hsc. rewrite Hdj in Hsc. destruct c' as [|j']; [done |]. cbn in Hsc.
  destruct (d2 !! j') as [[mj' bj']|] eqn:Hj'; [| done]. injection Hsc as -> ->.
  pose proof (chmod_file_new 493 (Leaf j') d2 d1 Hd2 Hnew) as Hd3. set (d3 := chmod_file 493 (Some (Leaf j')) d2) in *.
  assert (d3 !! j' = Some (mkInode (chmod 493 (copied_meta false created (copied_meta false created m))) (Reg data))) as Hj3.
  { unfold d3, chmod_file. rewrite Hj'. by rewrite lookup_insert_eq. }
  clearbody d3. pose proof (copyable_weaken _ _ _ Hd3 Hc1) as Hc3.
  destruct (install_spec created #"magisk32" bin d3 Hc3) as (d4 & o4 & -> & Hd4 & _).
  destruct (install_spec created #"magiskpolicy" bin d4 (copyable_weaken _ _ _ Hd4 Hc3)) as (d5 & o5 & -> & Hd5 & _).
  do 3 eexists. split; [reflexivity |]. cbn [app_install databin tmp_busybox]. split; [done |]. split.
  - exists bin. split; [done |]. rewrite <- Hs1. apply show_copyable; [| done]. etrans; [exact Hd3 |]. by etrans.
  - do 2 eexists. split; [done |]. split; [eapply lookup_weaken; [eapply lookup_weaken; [exact Hj3 | exact Hd4] | exact Hd5] | done].
Qed.

Definition demo_install : tree := Dir (demo_meta 493) [(#"busybox", Leaf 1); (#"magisk32", Leaf 1)].

Lemma setup_env_installs_witness :
  exists d' b' calls, setup_magisk_env demo_created #"/debug_ramdisk" (mkBins None None (Some demo_install) (Some demo_tree) None None None) demo_disk = (d', b', calls, true) /\
    app_install b' = None.
Proof.
  destruct (setup_env_installs demo_created #"/debug_ramdisk" (mkBins None None (Some demo_install) (Some demo_tree) None None None) demo_disk demo_install 1 (demo_meta 2541) #"elf")
    as (d' & b' & calls & H & Ha & _); try reflexivity.
  - split; [| done]. exists #"u:object_r:tmpfs:s0". split_and!; [done | done | by apply fits_by_computation; vm_compute].
  - apply copyable_Dir; [by apply demo_meta_proper | apply (bool_decide_unpack _); vm_compute; exact I |].
    constructor; [| constructor; [| constructor]]; (split; [by vm_compute |]); eapply copyable_Reg; [by vm_compute | by apply demo_meta_proper | by vm_compute | by apply demo_meta_proper].
  - intros c [= <-]. vm_compute. reflexivity.
  - exists d', b', calls. split; [exact H | exact Ha].
Defined.

(** Without busybox in DATABIN the environment is not set up, whatever else is there. *)
Theorem setup_env_needs_busybox created tmp b d :
  entry_of #"magisk" (data_adb b) = None -> data_magisk b = None -> app_install b = None ->
  entry_of #"busybox" (databin b) = None -> (setup_magisk_env created tmp b d).2 = false.
Proof.
  intros H1 H2 H3 H4. unfold setup_magisk_env. rewrite H1, H2, H3. cbn [take_over].
  destruct (databin b) as [t|]; [by rewrite H4 | done].
Qed.

End Startup.
