(* ===== verification/AtomicArc.v ===== *)
(** base/misc.rs: [AtomicArc], the cell in which the threads of the daemon share the cached
    decision about root.

    The atomic operations of all threads are steps on one state: the cell, the reference
    counts of the allocations, and who owns references.  [load] is two steps, reading the
    pointer and then counting up; [swap] is one.  A freed allocation has no count. *)

From S2P Require Import Prelude.

Module AtomicArc.

Record State := mkState {
  cell : option nat;           (** the pointer, [None] for null *)
  counts : gmap nat nat;
  owned : list (nat * nat);    (** threads and the references they own *)
  loading : gmap nat nat;      (** threads between the two steps of [load] *)
  next : nat                   (** where the next allocation is *)
}.

(** [AtomicArc::new] with a first value. *)
Definition new : State := mkState (Some 0%nat) {[ 0%nat := 1%nat ]} [] ∅ 1.

Inductive Op :=
| OArcNew (t : nat)             (** [Arc::new] *)
| OArcClone (t a : nat)         (** clone of a reference the thread has *)
| OArcDrop (t a : nat)
| OLoad (t : nat)               (** [self.ptr.load(..)] *)
| OLoadClone (t : nat)          (** [Arc::from_raw(raw)] and its clone *)
| OSwap (t a : nat)             (** [swap]: the previous value belongs to the thread *)
| ODropCell (t : nat).          (** [drop]: the same with null *)

(** A use of an allocation that was freed; a step the program cannot make. *)
Inductive Outcome := Next (s : State) | UseAfterFree | Impossible.

Fixpoint take_one (x : nat * nat) (l : list (nat * nat)) : option (list (nat * nat)) :=
  match l with
  | [] => None
  | y :: l => if bool_decide (x = y) then Some l else cons y <$> take_one x l
  end.

Definition count_up (a : nat) (c : gmap nat nat) : option (gmap nat nat) := (fun n => <[a := S n]> c) <$> c !! a.
Definition count_down (a : nat) (c : gmap nat nat) : option (gmap nat nat) :=
  match c !! a with Some 0%nat | None => None | Some 1%nat => Some (delete a c) | Some (S n) => Some (<[a := n]> c) end.

(** [swap_ptr]: the reference given up, if any, and the new pointer. *)
Definition swap_ptr (t : nat) (ptr : option nat) (owned : list (nat * nat)) (s : State) : State :=
  mkState ptr (counts s) (match cell s with Some prev => (t, prev) :: owned | None => owned end) (loading s) (next s).

Definition step (op : Op) (s : State) : Outcome :=
  match op with
  | OArcNew t => Next (mkState (cell s) (<[next s := 1%nat]> (counts s)) ((t, next s) :: owned s) (loading s) (S (next s)))
  | OArcClone t a =>
      if bool_decide ((t, a) ∈ owned s) then
        match count_up a (counts s) with Some c => Next (mkState (cell s) c ((t, a) :: owned s) (loading s) (next s)) | None => UseAfterFree end
      else Impossible
  | OArcDrop t a =>
      match take_one (t, a) (owned s) with
      | Some owned => match count_down a (counts s) with Some c => Next (mkState (cell s) c owned (loading s) (next s)) | None => UseAfterFree end
      | None => Impossible
      end
  | OLoad t => match cell s with Some a => Next (mkState (cell s) (counts s) (owned s) (<[t := a]> (loading s)) (next s)) | None => Impossible end
  | OLoadClone t =>
      match loading s !! t with
      | None => Impossible
      | Some a =>
          match count_up a (counts s) with
          | Some c => Next (mkState (cell s) c ((t, a) :: owned s) (delete t (loading s)) (next s))
          | None => UseAfterFree
          end
      end
  | OSwap t a => match take_one (t, a) (owned s) with Some owned => Next (swap_ptr t (Some a) owned s) | None => Impossible end
  | ODropCell t => Next (swap_ptr t None (owned s) s)
  end.

Fixpoint run (ops : list Op) (s : State) : Outcome :=
  match ops with
  | [] => Next s
  | op :: ops => match step op s with Next s => run ops s | o => o end
  end.

(** The operations as a thread does them; [store] drops the value that was there. *)
Definition load (t : nat) : list Op := [OLoad t; OLoadClone t].
Definition store (t a prev : nat) : list Op := [OSwap t a; OArcDrop t prev].

(** * The invariant *)

Definition of_cell (a : nat) (s : State) : nat := if bool_decide (cell s = Some a) then 1 else 0.
Definition refs (a : nat) (l : list (nat * nat)) : nat := length (filter (fun p => p.2 = a) l).
Definition references (a : nat) (s : State) : nat := of_cell a s + refs a (owned s).

(** Every count is the number of references, and what has none is freed. *)
Record counted (s : State) : Prop := {
  c_counts : forall a, counts s !! a = match references a s with 0%nat => None | n => Some n end;
  c_next : forall a, (next s <= a)%nat -> references a s = 0%nat
}.

Lemma refs_cons a t b l : refs a ((t, b) :: l) = ((if bool_decide (a = b) then 1 else 0) + refs a l)%nat.
Proof. unfold refs. rewrite filter_cons. cbn [snd]. case_decide; case_bool_decide; subst; done. Qed.

Lemma take_one_refs t b l l' a : take_one (t, b) l = Some l' -> refs a l = ((if bool_decide (a = b) then 1 else 0) + refs a l')%nat.
Proof.
  revert l'. induction l as [|[u c] l IH]; intros l' H; [done |]. cbn [take_one] in H. case_bool_decide as E.
  - injection H as <-. injection E as -> ->. apply refs_cons.
  - apply fmap_Some in H as (k & Hk & ->). rewrite !refs_cons, (IH k Hk). lia.
Qed.

Lemma owned_refs t a l : (t, a) ∈ l -> (0 < refs a l)%nat.
Proof.
  induction l as [|[u c] l IH]; [by intros ?%not_elem_of_nil |]. intros [[= -> ->]|H]%elem_of_cons; rewrite refs_cons.
  - rewrite bool_decide_eq_true_2 by done. lia.
  - specialize (IH H). lia.
Qed.

Lemma counted_live s a : counted s -> (0 < references a s)%nat -> counts s !! a = Some (references a s).
Proof. intros Hs Ha. rewrite (c_counts _ Hs). destruct (references a s); [lia | done]. Qed.

(** One reference more, one less, none more or less. *)
Lemma counted_up s s' b c :
  counted s -> count_up b (counts s) = Some c -> counts s' = c -> next s' = next s ->
  (forall a, references a s' = ((if bool_decide (a = b) then 1 else 0) + references a s)%nat) -> counted s'.
Proof.
  intros [Hc Hn] Hu Hcs Hnx Hr. apply fmap_Some in Hu as (n & Hb & ->). pose proof (Hc b) as Hcb. rewrite Hb in Hcb.
  destruct (references b s) as [|m] eqn:Em; [done |]. injection Hcb as ->. split.
  - intros a. rewrite Hcs, Hr. case_bool_decide as E; [subst; by rewrite lookup_insert_eq, Em | rewrite lookup_insert_ne by done; apply Hc].
  - intros a Ha. rewrite Hnx in Ha. rewrite Hr. case_bool_decide as E; [| by apply Hn]. subst. rewrite Hn in Em by done. done.
Qed.

Lemma counted_down s s' b c :
  counted s -> count_down b (counts s) = Some c -> counts s' = c -> next s' = next s ->
  (forall a, references a s = ((if bool_decide (a = b) then 1 else 0) + references a s')%nat) -> counted s'.
Proof.
  intros [Hc Hn] Hd Hcs Hnx Hr. pose proof (Hc b) as Hcb. unfold count_down in Hd. rewrite Hcb, Hr, bool_decide_eq_true_2 in Hd by done. cbn [Nat.add] in Hd.
  split.
  - intros a. rewrite Hcs. destruct (decide (a = b)) as [->|Hab].
    + destruct (references b s'); injection Hd as <-; [by rewrite lookup_delete_eq | by rewrite lookup_insert_eq].
    + pose proof (Hc a) as Ha. rewrite Hr, bool_decide_eq_false_2 in Ha by done. cbn in Ha. rewrite <- Ha.
      destruct (references b s'); injection Hd as <-; [by rewrite lookup_delete_ne | by rewrite lookup_insert_ne].
  - intros a Ha. rewrite Hnx in Ha. apply Hn in Ha. rewrite Hr in Ha. lia.
Qed.

Lemma counted_same s s' : counted s -> counts s' = counts s -> next s' = next s -> (forall a, references a s' = references a s) -> counted s'.
Proof. intros [Hc Hn] Hcs Hnx Hr. split; intros a; [rewrite Hcs, Hr; apply Hc | rewrite Hnx, Hr; apply Hn]. Qed.

Lemma swap_references t ptr l s a :
  references a (swap_ptr t ptr l s) = ((if bool_decide (ptr = Some a) then 1 else 0) + of_cell a s + refs a l)%nat.
Proof.
  unfold references, swap_ptr, of_cell. cbn [cell owned]. destruct (cell s) as [p|]; [| rewrite (bool_decide_eq_false_2 (None = Some a)) by done; lia].
  rewrite refs_cons. repeat case_bool_decide; simplify_eq; lia.
Qed.

Lemma new_counted : counted new.
Proof.
  split; intros a; unfold references, of_cell; cbn [new cell owned counts next].
  - destruct (decide (a = 0%nat)) as [->|Ha]; [done |]. rewrite bool_decide_eq_false_2 by congruence. by rewrite lookup_singleton_ne.
  - intros Ha. rewrite bool_decide_eq_false_2 by (intros [=]; lia). done.
Qed.

Lemma step_counted op s s' : counted s -> step op s = Next s' -> counted s'.
Proof.
  intros Hs H. destruct op as [t|t a|t a|t|t|t a|t]; cbn [step] in H.
  - injection H as <-. pose proof (c_next _ Hs) as Hn.
    assert (forall a, references a (mkState (cell s) (<[next s := 1%nat]> (counts s)) ((t, next s) :: owned s) (loading s) (S (next s))) =
      ((if bool_decide (a = next s) then 1 else 0) + references a s)%nat) as Hr by (intros a; unfold references, of_cell; cbn [cell owned]; rewrite refs_cons; lia).
    split; intros a; rewrite Hr; cbn [counts next].
    + case_bool_decide as E; [subst; by rewrite lookup_insert_eq, Hn | rewrite lookup_insert_ne by done; apply (c_counts _ Hs)].
    + intros Ha. rewrite Hn by lia. by rewrite bool_decide_eq_false_2 by lia.
  - case_bool_decide; [| done]. destruct (count_up a (counts s)) as [c|] eqn:E; [| done]. injection H as <-.
    eapply (counted_up s _ a c); try done. intros b. unfold references, of_cell. cbn [cell owned]. rewrite refs_cons. lia.
  - destruct (take_one (t, a) (owned s)) as [l|] eqn:El; [| done]. destruct (count_down a (counts s)) as [c|] eqn:E; [| done]. injection H as <-.
    eapply (counted_down s _ a c); try done. intros b. unfold references, of_cell. cbn [cell owned]. rewrite (take_one_refs _ _ _ _ b El). lia.
  - destruct (cell s) as [a|] eqn:Ec; [| done]. injection H as <-. apply (counted_same s); try done. intros b. unfold references, of_cell. cbn [cell owned]. by rewrite Ec.
  - destruct (loading s !! t) as [a|]; [| done]. destruct (count_up a (counts s)) as [c|] eqn:E; [| done]. injection H as <-.
    eapply (counted_up s _ a c); try done. intros b. unfold references, of_cell. cbn [cell owned]. rewrite refs_cons. lia.
  - destruct (take_one (t, a) (owned s)) as [l|] eqn:El; [| done]. injection H as <-. apply (counted_same s); try done.
    intros b. rewrite swap_references. unfold references. rewrite (take_one_refs _ _ _ _ b El). repeat case_bool_decide; simplify_eq; lia.
  - injection H as <-. apply (counted_same s); try done. intros b. rewrite swap_references. unfold references. by rewrite bool_decide_eq_false_2.
Qed.

Lemma run_counted ops s s' : counted s -> run ops s = Next s' -> counted s'.
Proof.
  revert s. induction ops as [|op ops IH]; intros s Hs H; cbn [run] in H; [by injection H as <- |].
  destruct (step op s) as [s1| |] eqn:E; [| done | done]. by eapply IH; [eapply step_counted |].
Qed.

(** * Theorems *)

(** In every interleaving that does not use a freed allocation, each count is the number of
    references to the allocation: nothing that is owned or in the cell is freed, and
    what nobody owns is not kept. *)
Theorem counts_exact ops s :
  run ops new = Next s ->
  forall a, counts s !! a = match references a s with 0%nat => None | n => Some n end.
Proof. intros H. apply c_counts, (run_counted ops new); [exact new_counted | exact H]. Qed.

Lemma counts_exact_witness : exists s, run ([OArcNew 1] ++ store 1 1 0 ++ load 2) new = Next s /\ counts s !! 1%nat = Some 2%nat /\ counts s !! 0%nat = None.
Proof.
  destruct (run ([OArcNew 1] ++ store 1 1 0 ++ load 2) new) as [s| |] eqn:E; [| discriminate E | discriminate E].
  exists s. pose proof (counts_exact _ s E) as H. split; [done |]. rewrite !H. injection E as <-. split; reflexivity.
Defined.

(** No reference is dropped, by any thread, while a load is between its two steps. *)
Fixpoint drops_wait (ops : list Op) (s : State) : bool :=
  match ops with
  | [] => true
  | op :: ops =>
      match op with OArcDrop _ _ => bool_decide (loading s = ∅) | _ => true end &&
      match step op s with Next s => drops_wait ops s | _ => true end
  end.

(** What a load has read is not freed yet. *)
Definition loading_live (s : State) : Prop := forall t a, loading s !! t = Some a -> is_Some (counts s !! a).

Lemma count_up_live s a : is_Some (counts s !! a) -> exists c, count_up a (counts s) = Some c /\ forall b, is_Some (counts s !! b) -> is_Some (c !! b).
Proof.
  intros [n Hn]. exists (<[a := S n]> (counts s)). unfold count_up. rewrite Hn. split; [done |]. intros b Hb.
  destruct (decide (b = a)) as [->|]; [by rewrite lookup_insert_eq | by rewrite lookup_insert_ne].
Qed.

Lemma step_safe op s :
  counted s -> loading_live s -> match op with OArcDrop _ _ => loading s = ∅ | _ => True end ->
  step op s <> UseAfterFree /\ forall s', step op s = Next s' -> loading_live s'.
Proof.
  intros Hs Hl Hd. assert (forall t a, (t, a) ∈ owned s -> is_Some (counts s !! a)) as Hown.
  { intros t a Hin%owned_refs. rewrite counted_live; [done | done |]. unfold references. lia. }
  destruct op as [t|t a|t a|t|t|t a|t]; cbn [step].
  - split; [done |]. intros s' [= <-] u b Hu. apply Hl in Hu. cbn. destruct (decide (b = next s)) as [->|]; [by rewrite lookup_insert_eq | by rewrite lookup_insert_ne].
  - case_bool_decide as Hin; [| done]. destruct (count_up_live s a (Hown _ _ Hin)) as (c & -> & Hc). split; [done |]. intros s' [= <-] u b Hu. by apply Hc, (Hl u).
  - destruct (take_one (t, a) (owned s)) as [l|] eqn:El; [| done].
    assert (counts s !! a = Some (references a s)) as Ha by (apply counted_live; [done |]; unfold references; rewrite (take_one_refs _ _ _ _ a El), bool_decide_eq_true_2 by done; lia).
    assert (exists c, count_down a (counts s) = Some c) as [c ->].
    { unfold count_down. rewrite Ha. destruct (references a s) as [|[|n]] eqn:Er; [| by eexists ..]. exfalso. revert Er. unfold references.
      rewrite (take_one_refs _ _ _ _ a El), bool_decide_eq_true_2 by done. lia. }
    split; [done |]. intros s' [= <-] u b Hu. cbn in Hu. by rewrite Hd, lookup_empty in Hu.
  - destruct (cell s) as [a|] eqn:Ec; [| done]. split; [done |]. intros s' [= <-] u b. cbn. intros Hu. destruct (decide (u = t)) as [->|].
    + rewrite lookup_insert_eq in Hu. injection Hu as <-. rewrite counted_live; [done | done |]. unfold references, of_cell. rewrite bool_decide_eq_true_2 by done. lia.
    + rewrite lookup_insert_ne in Hu by done. by eapply Hl.
  - destruct (loading s !! t) as [a|] eqn:Et; [| done]. destruct (count_up_live s a (Hl t a Et)) as (c & -> & Hc). split; [done |].
    intros s' [= <-] u b. cbn. intros [_ Hu]%lookup_delete_Some. by apply Hc, (Hl u).
  - destruct (take_one (t, a) (owned s)) as [l|]; [| done]. split; [done |]. intros s' [= <-]. exact Hl.
  - split; [done |]. intros s' [= <-]. exact Hl.
Qed.

(** If drops wait for loads, no interleaving uses a freed allocation. *)
Theorem no_drop_in_load_safe ops : drops_wait ops new = true -> run ops new <> UseAfterFree.
Proof.
  assert (forall s, counted s -> loading_live s -> drops_wait ops s = true -> run ops s <> UseAfterFree) as H.
  { induction ops as [|op ops IH]; intros s Hs Hl Hd; [done |]. cbn [drops_wait run] in *. apply andb_true_iff in Hd as [Hop Hd].
    destruct (step_safe op s Hs Hl) as [Hu Hn]; [destruct op; try done; by apply bool_decide_eq_true in Hop |].
    destruct (step op s) as [s1| |] eqn:E; [| done | done]. apply IH; [by eapply step_counted | by apply Hn | done]. }
  apply H; [exact new_counted |]. intros t a Ht. done.
Qed.

Lemma no_drop_in_load_safe_witness : run ([OArcNew 1; OLoad 2; OSwap 1 1; OLoadClone 2; OArcDrop 1 0; OArcDrop 2 0]) new <> UseAfterFree.
Proof. apply (no_drop_in_load_safe [OArcNew 1; OLoad 2; OSwap 1 1; OLoadClone 2; OArcDrop 1 0; OArcDrop 2 0]). vm_compute. reflexivity. Defined.

(** Nothing makes them wait: a thread that stores a new value between the two steps of
    another thread's load frees what that thread counts up.  So two requests for root that
    are handled at the same time can use a decision that is freed. *)
Theorem load_store_race :
  run ([OArcNew 2; OLoad 1] ++ store 2 1 0 ++ [OLoadClone 1]) new = UseAfterFree /\
  (exists s, run ([OArcNew 2] ++ load 1 ++ store 2 1 0) new = Next s) /\ (exists s, run ([OArcNew 2] ++ store 2 1 0 ++ load 1) new = Next s).
Proof. split; [reflexivity | split; eexists; reflexivity]. Qed.

End AtomicArc.
